(* ===== verification/_CoqProject ===== *)
-Q . S2P
Spec2Rocq.v
Bitmap.v
DiskManager.v
Replacer.v
LRUReplacer.v
BufferPool.v
KeyComparator.v
TreePage.v
LeafPage.v
InternalPage.v
IndexIterator.v
BPlusTree.v
BPlusTreeSpec.v
Records.v
RowFormat.v
Catalog.v
TablePage.v
TableHeap.v
CatalogManager.v
ExecuteContext.v
Executor.v
ExecuteSelect.v
ExecuteDML.v
HeapStorage.v
ExecuteUpdate.v
ExecuteDB.v
Execute.v
