(* ===== verification/Spec2Rocq.v ===== *)
(** * MiniSQL: a Rocq model of its storage engine, catalog and SELECT

    This development models MiniSQL (the C++ sources under src/src/) from
    the disk manager up to the executor's SELECT, and proves the
    properties that make it correct.  The
    program is a paged store: a disk manager maps logical page ids to
    physical pages of one file and tracks allocation in bitmap pages; a
    buffer pool caches pages in a fixed array of frames with pin counts and
    an LRU replacer; a table heap threads tuples through a chain of slotted
    pages; a B+ tree index is built on pages fetched through the buffer
    pool; rows, columns and schemas serialize to bytes; a catalog persists
    table and index metadata.  Data flows
    executor -> catalog/table heap/B+ tree -> buffer pool -> disk manager.

    ** Files, in dependency order (verification/_CoqProject)

    - [Spec2Rocq] (this file): the prelude.  Constants of the storage
      layout ([PAGE_SIZE], [INVALID_PAGE_ID], from the spec: common/config.h
      is not under src/), fixed-width arithmetic ([wrap], [to_signed], the
      [+u8]/[-u8]/[+u32] notations of scope [minisql_scope]), the
      little-endian codec that models MACH_WRITE_TO / MACH_READ_FROM
      ([le_encode], [le_decode], [write_bytes], [read_bytes]) with its round
      trips, list helpers for the C++ containers ([aget]/[aset] for
      [array_[i]], [nth0], [sumZ], vector erase, pop_back), the tactics
      [invc], [zbool], [zcase], and the hint databases [minisql] and
      [minisql_rw].
    - [Bitmap]: page/bitmap_page.cpp, the struct
      {page_allocated_, next_free_page_, bytes[MAX_CHARS]}, generic in
      [PageSize]; [AllocatePage], [DeAllocatePage], [IsPageFree].
    - [DiskManager]: storage/disk_manager.cpp; the file is a map from
      physical page id to bytes, the meta page a record; [AllocatePage],
      [DeAllocatePage], [IsPageFree], [MapPageId], [ReadPage], [WritePage].
    - [Replacer] (the interface of buffer/replacer.h as a typeclass with
      its laws) and [LRUReplacer] (buffer/lru_replacer.cpp, its instance).
    - [BufferPool]: buffer/buffer_pool_manager.cpp: frames, page table
      (gmap), free list, replacer, disk manager; [FetchPage], [NewPage],
      [UnpinPage], [FlushPage], [DeletePage], proved against the
      [Replacer] laws and refined to an abstract pool.
    - [KeyComparator]: the comparator class of the index templates, with
      its laws, and the reference list operations on sorted pairs.
    - [TreePage]: the B+ tree page records (headers not under src/) and
      [Store], the buffer pool as the index uses it: nodes by page id, pin
      counts, page allocation, the index roots page.
    - [LeafPage], [InternalPage]: page/b_plus_tree_leaf_page.cpp and
      b_plus_tree_internal_page.cpp, every method, loops as [Fixpoint]s on
      the slot array, the internal page's child adoption through [Store].
    - [IndexIterator]: index/index_iterator.cpp.
    - [BPlusTree]: index/b_plus_tree.cpp, every method ([GetValue],
      [Insert] with the splits, [Remove] with coalesce and redistribute,
      [Begin], [End], [Destroy], [Check]), threading the [Store].
    - [BPlusTreeSpec]: the tree invariant [subtree]/[tree_ok], its
      executable checker, and the theorems on the tree.
    - [Records]: record/column.cpp and schema.cpp: the column constructors,
      [SerializeTo], [GetSerializedSize], [DeserializeFrom] on byte lists.
    - [RowFormat]: record/row.cpp: the null bitmap bit by bit and the row
      codec, against the class [FieldCodec] (record/field.h is not under
      src/; [FieldCodecLaws] is its round-trip contract).
    - [TablePage]: the slotted table page of spec 3 and 4.5
      (table_page.cpp is not under src/).
    - [TableHeap]: storage/table_heap.cpp and table_iterator.cpp over a
      store of table pages with pin counts.
    - [Catalog]: the byte formats of catalog/catalog.cpp, table.cpp and
      indexes.cpp: the meta page's two [std::map]s (sorted association
      lists, [map_insert] keeping an existing key), and the table and
      index metadata pages; [IndexMetadata::SerializeTo] is modelled on
      the page buffer it writes into, since it leaves stale bytes.
    - [CatalogManager]: the registry of catalog/catalog.cpp: the
      [CatalogManager] record (name and id maps, next ids, meta page),
      [CreateTable], [CreateIndex] with its table scan and rollback,
      [DropTable], [DropIndex], the getters, [FlushCatalogMetaPage], and
      the constructor for a new and for an existing database, over the
      [BufferPool] model; a step relation [catalog_step] over its
      operations.
    - [ExecuteContext]: include/executor/execute_engine.h, the result
      printer: [SetHeader], [PrepareRow], [PrintHeader], [PrintRow],
      [PrintTableDivider], [PrintResult] and the counters, stdout being
      the field [out_].
    - [Executor]: the WHERE clause of executor/execute_engine.cpp over
      the syntax tree ([SyntaxNode], from parser/syntax_tree.h, not under
      src/): [EvaluateWhere], [EvaluateIndex], [ChooseIndex], with
      [std::stoi] written out and fields used through the class
      [FieldOps].
    - [ExecuteSelect]: [ExecuteEngine::ExecuteSelect] over the engine's
      [dbs_]/[current_db_], the [CatalogManager] model, and the class
      [TableStorage] (heap iteration, [GetTuple], [ScanKey]); its scan
      path and its index path.
    - [ExecuteDML]: [ExecuteInsert] and [ExecuteDelete] (both paths)
      over the class [Storage] (the heap's InsertTuple, MarkDelete,
      ApplyDelete, UpdateTuple, GetTuple and the index's InsertEntry,
      RemoveEntry, ScanKey, Destroy as the executor calls them) and its
      laws [StorageLaws].  A storage has two views of a heap: [st_rows],
      what the Begin()/++ iteration visits, and [st_tuples], its live
      tuples; the laws say the first is the second or empty (TableHeap's
      Begin misses tuples past an empty first page), that InsertTuple
      adds the row when its tuple fits an empty page (the lost row of
      InsertTuple otherwise), and what the deletes, UpdateTuple and the
      index operations do, under a per-heap well-formedness [st_ok].
      [RefStore], a storage on lists, satisfies the laws.
    - [HeapStorage]: [TStore], the executor's storage on the [TableHeap]
      model: each table's heap is a [HeapStore], the iteration is
      [Begin]/[++] over it, the heap operations are TableHeap's; heap
      well-formedness [heap_wf] (first page present, chain closed, pages
      under their own ids, no negative pin) with an executable check
      [heap_wfb]; [InsertTuple_spec] and the specs of MarkDelete,
      ApplyDelete and UpdateTuple, from which [TStore_laws] proves the
      storage laws for the table heap.  The INSERT and DELETE witnesses
      run on it.
    - [ExecuteUpdate]: [ExecuteUpdate] (both paths) over the same
      interface: the SET loop, the removal of the old keys, UpdateTuple
      and the insertion of the new keys, with the [ASSERT] on a
      duplicate key as [None].
    - [ExecuteDB]: the engine state [DBState] ([dbs_], [current_db_],
      each database's buffer pool, and the lines of dbs.txt); the
      constructor [ExecuteEngine()] reading dbs.txt ([load_dbs]), the
      database statements (create, drop, use, show), show tables and
      show indexes, and create/drop table and index, the latter three
      with their index entries kept through [Storage]
      ([catalog_CreateIndex] fills a new index from the heap, as
      [CatalogManager::CreateIndex] does, and destroys it on a
      duplicate key).
    - [Execute]: the dispatcher [ExecuteEngine::Execute] with the
      timer ([StartRunning]/[StopRunning]), the transaction statements,
      quit, and EXECFILE, whose statement loop [run_file] runs each
      statement of the file with a fresh context.

    ** What the theorems show

    - Buffer pool and disk: FetchPage/NewPage/UnpinPage/FlushPage refine
      an abstract pool and keep the pool invariant; AllocatePage and
      DeAllocatePage keep the bitmap and the meta page's counters in step;
      WritePage/ReadPage round trip; the bitmap's allocation round trips
      and its error results.
    - B+ tree pages: each leaf and internal method equals its reference
      list operation on the live pairs; the moves reparent exactly the
      moved children.
    - B+ tree: GetValue on a well-formed tree is the lookup of the key in
      the tree's pairs (refinement); the descent terminates within the
      fuel; inserting into an empty tree and removing the last key; the
      3000-key test of the spec run on the model.
    - Table heap: a scan from Begin() visits each live tuple exactly once
      and reaches End(); InsertTuple is first fit and GetTuple reads the
      tuple back; on a well-formed heap InsertTuple always returns and
      refines the storage contract (the reported RowId is that of exactly
      one added live tuple, the heap stays well formed), and the table
      heap satisfies every storage law the executor's theorems use.
    - Records and catalog: Row, Schema, Column, catalog meta page, table
      metadata and index metadata round trips through their bytes, with
      GetSerializedSize equal to the bytes written (the index metadata
      only where the bytes SerializeTo skips are zero, as on a frame
      from NewPage).
    - Catalog manager: every reachable state (rule induction on
      [catalog_step]) keeps names, ids and meta-page entries in step;
      CreateTable's effect; CreateIndex rolls back on a duplicate key;
      reopening recomputes the next ids from the loaded metadata.
    - Executor: a well-typed WHERE clause evaluates without undefined
      behaviour or error (the type theorem); EvaluateIndex is sound: the
      constants it records agree with every accepted row on the columns
      it marks as fixed; ChooseIndex's per-index status is characterized;
      on the scan path ExecuteSelect counts exactly the accepted rows and
      prints a rectangular table; a successful INSERT adds exactly its
      row to the live tuples and keeps every index in agreement with
      them; DELETE on its scan path keeps exactly the rejected rows, removes the deleted rows' keys from the unique
      indexes and counts the deleted rows; a SET clause acts as a fixed
      list of assignments, and UPDATE on its scan path rewrites exactly
      the accepted rows and keeps the unique indexes in agreement with
      the heap when the updated table has no duplicate key (a new key
      can only clash mid-loop with a row whose own update gives the
      same key).
    - Engine state: every statement the dispatcher runs, EXECFILE
      included, keeps dbs.txt equal to the open databases and
      [current_db_] empty or open; restarting from the dbs.txt a
      consistent engine wrote reopens the same databases.
    - Defects, each a general theorem with a witness: CoalesceOrRedistribute
      leaves the parent pinned; TableHeap::Begin misses tuples past an
      empty first page; InsertTuple reports success for a row it did not
      store; UpdateTuple leaks a pin on failure; Column::DeserializeFrom
      reads the name past its buffer; CreateTable leaves the metadata page
      clean, so it is never written back; the index path of SELECT counts
      and prints one row however many it accepts; an INSERT rejected by a
      later index leaves entries for the deleted row in the earlier ones;
      an index on the empty key (CREATE TABLE without a primary key)
      rejects every INSERT once the table holds a row; the per-row step
      of UPDATE reports success when UpdateTuple fails (a longer CHAR
      value, which the SET loop accepts), leaving the indexes describing
      a row the heap does not hold; DeletePage puts a page id on the free
      list, so on a full pool every later frame request reads out of
      range; and the disk manager's unchecked offset.  Concrete runs
      ([Example]s) show some of them end to end.
    The properties listed in PROJECT.json are the claims C1..Cn; each has
    a doc comment naming its id.

    ** Bounds and fuel

    Loops over a bitmap run the source's bound ([8 * MAX_CHARS]); loops
    over a page's slots run [size] times, the trip count of the C++ loop.
    Loops that follow page ids (the B+ tree descent, the table heap's
    chain walks) take fuel [pages + 1]: on a well-formed tree the height
    is below the number of pages ([subtree_height_lt]), and a chain of
    distinct pages is no longer than the store ([chain_length]), so the
    fuel never runs out there; [None] on exhausted fuel only arises on a
    cyclic structure.  The table-heap storage iterates with fuel one
    more than the heap's live slots ([scan_rids]), which a scan of a
    well-formed heap never exceeds ([live_rids_bound]).  Integers are
    kept at their width: [uint32_t]
    offsets wrap at 2^32, bitmap bytes at 2^8, and the round trips
    require the serialized size to be below 2^32.  The syntax tree is
    finite, so [EvaluateWhere] and [EvaluateIndex] recurse structurally
    on it (their proofs use the induction principle [SyntaxNode_ind2],
    which covers a node's child and the child's sibling); [std::stoi] is
    a structural loop over the literal.  [Execute] takes fuel for the
    nesting depth of EXECFILE (one unit per level): a file that runs
    itself recurses without end in the C++ code, and [None] on exhausted
    fuel stands for that; every other statement needs one unit.

    ** Not modelled

    - [InputCommand] and main's read loop (terminal I/O); EXECFILE's
      reading and parsing of the file is a parameter ([read_file]), the
      opening of a database's storage engine a parameter ([open_pool]),
      and the elapsed time [StopRunning] prints a parameter.
      Whether dbs.txt opens for writing is a parameter ([dbs_txt_opens]).
      [ExecuteSelect], [ExecuteDML], [ExecuteUpdate] and [ExecuteDB]
      reach the heap and the indexes through interfaces ([TableStorage],
      [Storage]); [HeapStorage] implements [Storage]'s heap half on the
      TableHeap model, its index half keeps entries as lists (the
      BPlusTree model is not plugged in).  The DELETE and UPDATE scans
      iterate over the rows the heap holds when the loop starts
      (UPDATE's rows stay in place, DELETE's iterator moves past a
      deleted slot).
    - The SQL parser (not under src/); only its tree is modelled.
    - Field values (record/field.h, types.cpp, not under src/) beyond the
      [FieldCodec] interface; memory heaps (ALLOC_P), latches (no-ops in
      one thread), log and lock managers, and file I/O errors. *)

From Stdlib Require Import ZArith Lia List.
From stdpp Require Import base list sets.
Import ListNotations.
Open Scope Z_scope.

(** ** Constants of the storage layout (common/config.h) *)

Definition PAGE_SIZE : Z := 4096.
Definition INVALID_PAGE_ID : Z := -1.

(** ** Fixed-width integers *)

Definition wrap (w x : Z) : Z := x mod 2 ^ w.
Definition to_signed (w x : Z) : Z :=
  if x <? 2 ^ (w - 1) then x else x - 2 ^ w.
Definition in_uint (w x : Z) : Prop := 0 <= x < 2 ^ w.

Declare Scope minisql_scope.
Delimit Scope minisql_scope with ms.
Notation "a +u8 b" := (wrap 8 (a + b)) (at level 50, left associativity) : minisql_scope.
Notation "a -u8 b" := (wrap 8 (a - b)) (at level 50, left associativity) : minisql_scope.
Notation "a +u32 b" := (wrap 32 (a + b)) (at level 50, left associativity) : minisql_scope.
Open Scope minisql_scope.

Create HintDb minisql.
Create Rewrite HintDb minisql_rw.

(** ** Tactics *)

Ltac invc H := inversion H; subst; clear H.

(** Turn the boolean comparisons on [Z] of the goal and the context into
    propositions. *)
Ltac zbool :=
  repeat match goal with
  | H : (_ <? _)%Z = true |- _ => apply Z.ltb_lt in H
  | H : (_ <? _)%Z = false |- _ => apply Z.ltb_ge in H
  | H : (_ <=? _)%Z = true |- _ => apply Z.leb_le in H
  | H : (_ <=? _)%Z = false |- _ => apply Z.leb_gt in H
  | H : (_ =? _)%Z = true |- _ => apply Z.eqb_eq in H
  | H : (_ =? _)%Z = false |- _ => apply Z.eqb_neq in H
  end.

(** Case on a boolean comparison of [Z] and name the fact. *)
Ltac zcase e :=
  let E := fresh "E" in destruct e eqn:E; zbool.

Lemma wrap_small w x : 0 <= x < 2 ^ w -> wrap w x = x.
Proof. intros. unfold wrap. apply Z.mod_small. lia. Qed.

Lemma wrap_range w x : 0 <= w -> 0 <= wrap w x < 2 ^ w.
Proof. intros. unfold wrap. apply Z.mod_pos_bound. apply Z.pow_pos_nonneg; lia. Qed.

(** ** Little-endian byte codec: MACH_WRITE_TO and MACH_READ_FROM

    A byte is a [Z] in [0, 256).  [le_encode n x] is the [n]-byte
    little-endian image of [x] (two's complement for negative [x]),
    [le_decode] reads an unsigned value back. *)

Definition is_byte (b : Z) : Prop := 0 <= b < 256.

Fixpoint le_encode (n : nat) (x : Z) : list Z :=
  match n with
  | O => []
  | S n' => x mod 256 :: le_encode n' (x / 256)
  end.

Fixpoint le_decode (l : list Z) : Z :=
  match l with
  | [] => 0
  | b :: l' => b + 256 * le_decode l'
  end.

Lemma length_le_encode n x : length (le_encode n x) = n.
Proof. revert x; induction n; simpl; auto. Qed.

Lemma le_encode_bytes n x : Forall is_byte (le_encode n x).
Proof.
  revert x; induction n as [|n IH]; intros x; simpl; constructor; auto.
  unfold is_byte. apply Z.mod_pos_bound. lia.
Qed.

Lemma le_decode_encode n x :
  le_decode (le_encode n x) = x mod 2 ^ (8 * Z.of_nat n).
Proof.
  revert x; induction n as [|n IH]; intros x; simpl le_decode.
  - rewrite Z.mul_0_r, Z.pow_0_r, Z.mod_1_r. reflexivity.
  - simpl le_encode. simpl le_decode. rewrite IH.
    replace (8 * Z.of_nat (S n)) with (8 + 8 * Z.of_nat n) by lia.
    rewrite Z.pow_add_r by lia. change (2 ^ 8) with 256.
    rewrite Z.rem_mul_r by (try apply Z.pow_pos_nonneg; lia). reflexivity.
Qed.

Lemma le_decode_range l :
  Forall is_byte l -> 0 <= le_decode l < 2 ^ (8 * Z.of_nat (length l)).
Proof.
  induction 1 as [|b l Hb _ IH]; simpl; [lia|].
  unfold is_byte in Hb.
  replace (8 * Z.of_nat (S (length l))) with (8 + 8 * Z.of_nat (length l)) by lia.
  rewrite Z.pow_add_r by lia. change (2 ^ 8) with 256. nia.
Qed.

Lemma le_encode_decode l :
  Forall is_byte l -> le_encode (length l) (le_decode l) = l.
Proof.
  induction 1 as [|b l Hb Hl IH]; simpl; [reflexivity|].
  unfold is_byte in Hb. pose proof (le_decode_range l Hl).
  replace (b + 256 * le_decode l) with (b + le_decode l * 256) by ring.
  f_equal.
  - rewrite Z.mod_add by lia. apply Z.mod_small. lia.
  - rewrite Z.div_add by lia. rewrite Z.div_small by lia. exact IH.
Qed.

(** Round trip of an in-range unsigned value. *)
Lemma le_decode_encode_small n x :
  0 <= x < 2 ^ (8 * Z.of_nat n) -> le_decode (le_encode n x) = x.
Proof. intros. rewrite le_decode_encode. apply Z.mod_small. lia. Qed.

(** An [int32_t] written with MACH_WRITE_TO reads back through [to_signed]. *)
Lemma to_signed_le_encode4 p : -2 ^ 31 <= p < 2 ^ 31 -> to_signed 32 (le_decode (le_encode 4 p)) = p.
Proof.
  intros Hp. rewrite le_decode_encode. unfold to_signed.
  change (2 ^ (8 * Z.of_nat 4)) with 4294967296. change (2 ^ (32 - 1)) with 2147483648. change (2 ^ 32) with 4294967296.
  change (2 ^ 31) with 2147483648 in Hp.
  destruct (Z.ltb_spec (p mod 4294967296) 2147483648); Z.to_euclidean_division_equations; lia.
Qed.

#[export] Hint Rewrite length_le_encode le_decode_encode : minisql_rw.
#[export] Hint Resolve le_encode_bytes : minisql.

(** Overwrite [bytes] into [buf] at offset [off] (memcpy / MACH_WRITE_TO
    into a buffer of fixed size), and read [n] bytes at [off]. *)
Definition write_bytes (buf : list Z) (off : nat) (bytes : list Z) : list Z :=
  take off buf ++ bytes ++ drop (off + length bytes)%nat buf.

Definition read_bytes (buf : list Z) (off n : nat) : list Z :=
  take n (drop off buf).

Lemma length_write_bytes buf off bytes :
  (off + length bytes <= length buf)%nat -> length (write_bytes buf off bytes) = length buf.
Proof.
  intros. unfold write_bytes.
  rewrite !length_app, length_take, length_drop. lia.
Qed.

Lemma read_write_bytes buf off bytes :
  (off + length bytes <= length buf)%nat ->
  read_bytes (write_bytes buf off bytes) off (length bytes) = bytes.
Proof.
  intros. unfold read_bytes, write_bytes.
  rewrite drop_app_length'; [| rewrite length_take; lia].
  rewrite take_app_length. reflexivity.
Qed.

(** A page of [n] zero bytes: what a short read and ResetMemory produce. *)
Definition zero_page (n : Z) : list Z := replicate (Z.to_nat n) 0.

Lemma length_zero_page n : 0 <= n -> length (zero_page n) = Z.to_nat n.
Proof. intros. unfold zero_page. apply length_replicate. Qed.

#[export] Hint Rewrite length_write_bytes length_zero_page : minisql_rw.

(** ** Containers of the C++ standard library *)

(** [v.erase(find(v.begin(), v.end(), x))] when [x] is present; the
    identity when it is absent. *)
Fixpoint erase_first (x : Z) (l : list Z) : list Z :=
  match l with
  | [] => []
  | y :: l' => if Z.eqb y x then l' else y :: erase_first x l'
  end.

Lemma erase_first_notin x l : x ∉ l -> erase_first x l = l.
Proof.
  induction l as [|y l IH]; simpl; intros H; auto.
  rewrite elem_of_cons in H.
  destruct (Z.eqb_spec y x); subst; [tauto|]. f_equal. auto.
Qed.

Lemma elem_of_erase_first x y l : y ∈ erase_first x l -> y ∈ l.
Proof.
  induction l as [|z l IH]; simpl; auto.
  destruct (Z.eqb_spec z x); intros H; rewrite !elem_of_cons in *; intuition.
Qed.

Lemma erase_first_NoDup x l : NoDup l -> NoDup (erase_first x l) /\ x ∉ erase_first x l.
Proof.
  induction 1 as [|z l Hz Hl IH]; simpl.
  - split; [constructor | set_solver].
  - destruct IH as [IH1 IH2].
    destruct (Z.eqb_spec z x) as [->|Hne].
    + split; assumption.
    + split.
      * constructor; [|exact IH1]. intros Hin. apply Hz, (elem_of_erase_first x). exact Hin.
      * rewrite elem_of_cons. intros [->|Hin]; [congruence | contradiction].
Qed.

Lemma elem_of_erase_first_ne x y l : y <> x -> y ∈ l -> y ∈ erase_first x l.
Proof.
  induction l as [|z l IH]; simpl; [set_solver|].
  intros Hne Hin. rewrite elem_of_cons in Hin.
  destruct (Z.eqb_spec z x) as [->|]; [destruct Hin; [congruence|assumption]|].
  rewrite elem_of_cons. destruct Hin; auto.
Qed.

Lemma length_erase_first x l : x ∈ l -> length (erase_first x l) = pred (length l).
Proof.
  induction l as [|z l IH]; simpl; [set_solver|].
  intros Hin. rewrite elem_of_cons in Hin.
  destruct (Z.eqb_spec z x) as [->|Hne]; [reflexivity|].
  destruct Hin as [->|Hin]; [congruence|].
  simpl. rewrite IH by auto. destruct l; [set_solver | reflexivity].
Qed.

(** [vector::back] then [vector::pop_back]; [None] on an empty vector,
    where both are undefined behaviour. *)
Definition pop_back (l : list Z) : option (Z * list Z) :=
  match l with [] => None | _ => Some (List.last l 0, removelast l) end.

Lemma pop_back_Some l x l' : pop_back l = Some (x, l') -> l = l' ++ [x].
Proof.
  destruct l as [|y l]; intros H; [discriminate|].
  change (pop_back (y :: l)) with (Some (List.last (y :: l) 0, removelast (y :: l))) in H.
  injection H as Hx Hl. rewrite <- Hx, <- Hl.
  exact (app_removelast_last (l := y :: l) 0 ltac:(discriminate)).
Qed.

Lemma pop_back_None l : pop_back l = None <-> l = [].
Proof. destruct l; simpl; split; congruence. Qed.

Lemma pop_back_app l x : pop_back (l ++ [x]) = Some (x, l).
Proof.
  destruct (pop_back (l ++ [x])) as [[y l']|] eqn:E.
  - apply pop_back_Some in E. apply app_inj_tail in E as [-> ->]. reflexivity.
  - apply pop_back_None in E. destruct l; discriminate.
Qed.

(** A duplicate-free list of integers in [[0, n)] that misses [f] of that
    range is shorter than [n]. *)
Lemma NoDup_range_length (l : list Z) n f :
  NoDup l -> (forall x, x ∈ l -> 0 <= x < n /\ x <> f) -> 0 <= f < n ->
  (length l < Z.to_nat n)%nat.
Proof.
  intros Hnd Hl Hf.
  assert (Hsub : f :: l ⊆+ seqZ 0 n).
  { apply NoDup_submseteq.
    - apply NoDup_cons. split; [intros Hin; apply (Hl f Hin); reflexivity | exact Hnd].
    - intros x Hx. apply elem_of_seqZ. apply elem_of_cons in Hx as [->|Hx]; [lia|].
      specialize (Hl x Hx). lia. }
  apply submseteq_length in Hsub. rewrite length_seqZ in Hsub. simpl in Hsub. lia.
Qed.

#[export] Hint Resolve elem_of_erase_first erase_first_notin : minisql.

(** A filter that keeps, or drops, every element. *)
Lemma filter_all_true {A} (f : A -> bool) (l : list A) :
  Forall (fun x => f x = true) l -> List.filter f l = l.
Proof. induction 1 as [|x l Hx _ IH]; cbn; [reflexivity|]. rewrite Hx, IH. reflexivity. Qed.

Lemma filter_all_false {A} (f : A -> bool) (l : list A) :
  Forall (fun x => f x = false) l -> List.filter f l = [].
Proof. induction 1 as [|x l Hx _ IH]; cbn; [reflexivity|]. rewrite Hx, IH. reflexivity. Qed.

(** A [mapM] whose function succeeds on every element succeeds, with
    one result per element. *)
Lemma mapM_total {A B} (f : A -> option B) (l : list A) :
  Forall (fun x => is_Some (f x)) l -> exists k, mapM f l = Some k /\ length k = length l.
Proof.
  induction 1 as [|x l [y Hy] _ [k [Hk Hl]]]; [exists []; done|].
  exists (y :: k). cbn. rewrite Hy, Hk. cbn. split; [done | by rewrite Hl].
Qed.

(** ** Finite checks and counting over integer ranges *)

(** A boolean check over every integer of a range, run by [vm_compute],
    gives the proposition for each integer of the range. *)
Lemma forallb_seqZ (f : Z -> bool) a n :
  forallb f (seqZ a n) = true -> forall x, a <= x < a + n -> f x = true.
Proof.
  intros H x Hx. apply forallb_forall with (x := x) in H; [exact H|].
  apply list_elem_of_In, elem_of_seqZ. lia.
Qed.

(** Filtering with two tests that agree on the list's elements. *)
Lemma filter_ext_in (P Q : Z -> bool) (l : list Z) :
  (forall j, j ∈ l -> P j = Q j) ->
  filter (fun j => P j = false) l = filter (fun j => Q j = false) l.
Proof.
  induction l as [|x l IH]; intros H; simpl; [reflexivity|]. rewrite !filter_cons.
  rewrite (H x) by set_solver. rewrite IH by (intros; apply H; set_solver). reflexivity.
Qed.

(** Counting the elements that fail a test, when the test changes at one
    element only. *)
Lemma filter_flip (P Q : Z -> bool) (n : Z) (l : list Z) :
  NoDup l -> n ∈ l -> P n = true -> Q n = false ->
  (forall j, j ∈ l -> j <> n -> P j = Q j) ->
  length (filter (fun j => Q j = false) l) = S (length (filter (fun j => P j = false) l)).
Proof.
  induction 1 as [|x l Hx Hl IH]; [set_solver|].
  intros Hn HP HQ Heq. rewrite !filter_cons.
  destruct (decide (x = n)) as [->|Hne].
  - rewrite HP, HQ. rewrite !decide_True, decide_False by congruence. simpl. do 2 f_equal.
    symmetry. apply filter_ext_in. intros j Hj. apply Heq; [set_solver | intros ->; contradiction].
  - rewrite (Heq x) by set_solver.
    assert (n ∈ l) by set_solver.
    destruct (decide (Q x = false)); simpl; rewrite IH; auto; intros j Hj; apply Heq; set_solver.
Qed.

(** A test that fails on fewer elements than the list has holds somewhere. *)
Lemma filter_short_exists (P : Z -> bool) (l : list Z) :
  (length (filter (fun j => P j = false) l) < length l)%nat -> exists j, j ∈ l /\ P j = true.
Proof.
  induction l as [|x l IH]; simpl; [lia|]. rewrite filter_cons.
  destruct (P x) eqn:E.
  - intros _. exists x. split; [set_solver | exact E].
  - rewrite decide_True by reflexivity. simpl. intros H.
    destruct IH as [j [Hj HPj]]; [lia|]. exists j. split; [set_solver|exact HPj].
Qed.

(** The test fails on every element exactly when no element passes. *)
Lemma filter_full_iff (P : Z -> bool) (l : list Z) :
  length (filter (fun j => P j = false) l) = length l <-> (forall j, j ∈ l -> P j = false).
Proof.
  induction l as [|x l IH]; simpl; [split; [set_solver | reflexivity]|].
  rewrite filter_cons. pose proof (length_filter (fun j => P j = false) l).
  destruct (P x) eqn:E; simpl.
  - split; [lia|]. intros Hall. rewrite (Hall x) in E by set_solver. discriminate.
  - try rewrite decide_True by reflexivity. simpl. split.
    + intros Hl j Hj. apply elem_of_cons in Hj as [->|Hj]; [exact E|]. apply IH; [lia|exact Hj].
    + intros Hall. f_equal. apply IH. intros j Hj. apply Hall. set_solver.
Qed.

(** ** Reading an array: [a[i]], 0 past the end *)

Definition nth0 (l : list Z) (i : nat) : Z := default 0 (l !! i).

Lemma nth0_insert (l : list Z) k v i :
  nth0 (<[k := v]> l) i = if decide (i = k /\ (k < length l)%nat) then v else nth0 l i.
Proof.
  unfold nth0. rewrite list_lookup_insert.
  destruct (decide (k = i /\ (k < length l)%nat)) as [[-> Hk]|Hn];
    [rewrite decide_True by auto | rewrite decide_False by (intros [-> ?]; auto)]; reflexivity.
Qed.

Lemma nth0_is_byte (l : list Z) i : Forall is_byte l -> is_byte (nth0 l i).
Proof.
  intros Hl. unfold nth0. destruct (l !! i) eqn:E; simpl.
  - exact (Forall_lookup_1 _ _ _ _ Hl E).
  - unfold is_byte. lia.
Qed.

Lemma nth0_lookup (l : list Z) i : (i < length l)%nat -> l !! i = Some (nth0 l i).
Proof.
  intros H. unfold nth0. destruct (lookup_lt_is_Some_2 l i H) as [x ->]. reflexivity.
Qed.

(** ** Sums of integer arrays *)

Fixpoint sumZ (l : list Z) : Z :=
  match l with [] => 0 | x :: l' => x + sumZ l' end.

Lemma sumZ_insert (l : list Z) (i : nat) v :
  (i < length l)%nat -> sumZ (<[i := v]> l) = sumZ l - nth0 l i + v.
Proof.
  revert i; induction l as [|x l IH]; intros [|i] Hi; simpl in *; try lia.
  - unfold nth0. simpl. lia.
  - rewrite IH by lia. unfold nth0. simpl. lia.
Qed.

Lemma sumZ_nonneg (l : list Z) : Forall (fun x => 0 <= x) l -> 0 <= sumZ l.
Proof. induction 1; simpl; lia. Qed.

Lemma sumZ_le (l : list Z) c :
  Forall (fun x => x <= c) l -> sumZ l <= Z.of_nat (length l) * c.
Proof. induction 1; simpl; lia. Qed.

Lemma nth0_le_sumZ (l : list Z) i : Forall (fun x => 0 <= x) l -> nth0 l i <= sumZ l.
Proof.
  revert i; induction l as [|x l IH]; intros [|i] Hl; unfold nth0 in *; simpl in *;
    inversion Hl; subst; try lia.
  - pose proof (sumZ_nonneg l ltac:(assumption)). lia.
  - specialize (IH i ltac:(assumption)). lia.
Qed.

(** A closed comparison of integers, decided by evaluation. *)
Ltac zcompute := vm_compute; repeat split; first [reflexivity | discriminate].

(** Lengths of appended lists. *)
Ltac len := repeat first [rewrite length_app in * | progress (cbn [length] in *)]; lia.

(** The last element split off: the fuel and the index of a downward loop. *)
Ltac cut_last L x :=
  replace (length (L ++ [x])) with (S (length L)) by (rewrite !length_app; simpl; lia);
  replace (Z.of_nat (S (length L)) - 1) with (Z.of_nat (length L)) by lia.

(** ** Arrays indexed by [int]: [a[i]] and [a[i] = x]

    The pairs of a B+ tree page are a C array inside the page: [aget]
    reads slot [i] (the type's [inhabitant] past the last slot, which the
    theorems exclude) and [aset] writes it (nothing happens past the last
    slot: the write would leave the page). *)
Definition aget {A} `{Inhabited A} (a : list A) (i : Z) : A := a !!! Z.to_nat i.
Definition aset {A} (a : list A) (i : Z) (x : A) : list A := <[Z.to_nat i := x]> a.

Section Arrays.
Context {A : Type} `{Inhabited A}.
Implicit Types (l r : list A) (x y : A).

Lemma length_aset l i x : length (aset l i x) = length l.
Proof. apply length_insert. Qed.

Lemma aget_mid l r y i : i = Z.of_nat (length l) -> aget (l ++ y :: r) i = y.
Proof.
  intros ->. unfold aget. rewrite Nat2Z.id, list_lookup_total_alt, lookup_app_r by lia.
  rewrite Nat.sub_diag. reflexivity.
Qed.

Lemma aset_mid l r y x i : i = Z.of_nat (length l) -> aset (l ++ y :: r) i x = l ++ x :: r.
Proof.
  intros ->. unfold aset. rewrite Nat2Z.id, insert_app_r_alt by lia.
  rewrite Nat.sub_diag. reflexivity.
Qed.

(** Slot [i] is the head of the array with its first [i] slots dropped. *)
Lemma drop_aget l i :
  0 <= i -> (Z.to_nat i < length l)%nat -> drop (Z.to_nat i) l = aget l i :: drop (S (Z.to_nat i)) l.
Proof.
  intros _ Hi. unfold aget. rewrite list_lookup_total_alt.
  destruct (lookup_lt_is_Some_2 l (Z.to_nat i) Hi) as [x Hx]. rewrite Hx.
  apply drop_S, Hx.
Qed.

Lemma Zlength_snoc l x : Z.of_nat (length (l ++ [x])) = Z.of_nat (length l) + 1.
Proof. rewrite length_app. simpl. lia. Qed.

Lemma aset_0 y r x : aset (y :: r) 0 x = x :: r.
Proof. reflexivity. Qed.

Lemma aget_mid1 l x y r i : i = Z.of_nat (length l) + 1 -> aget (l ++ x :: y :: r) i = y.
Proof. intros ->. rewrite <- (Zlength_snoc l x). replace (l ++ x :: y :: r) with ((l ++ [x]) ++ y :: r) by (rewrite <- app_assoc; reflexivity). apply aget_mid; reflexivity. Qed.

Lemma aset_mid1 l x y r v i : i = Z.of_nat (length l) + 1 -> aset (l ++ x :: y :: r) i v = l ++ x :: v :: r.
Proof.
  intros ->. rewrite <- (Zlength_snoc l x). replace (l ++ x :: y :: r) with ((l ++ [x]) ++ y :: r) by (rewrite <- app_assoc; reflexivity).
  rewrite aset_mid by reflexivity. rewrite <- app_assoc. reflexivity.
Qed.

(** The shifting loops of the page arrays. *)
(** [for (i = 1; i < size; ++i) array_[i - 1] = array_[i]]. *)
Fixpoint shift_down_loop (fuel : nat) (i : Z) (a : list A) : list A :=
  match fuel with
  | O => a
  | S f => shift_down_loop f (i + 1) (aset a (i - 1) (aget a i))
  end.

(** [for (i = size - 1; i >= 0; --i) array_[i + 1] = array_[i]]. *)
Fixpoint shift_up_loop (fuel : nat) (i : Z) (a : list A) : list A :=
  match fuel with
  | O => a
  | S f => shift_up_loop f (i - 1) (aset a (i + 1) (aget a i))
  end.

Lemma shift_up_loop_app (P : list A) y R :
  exists z : A, shift_up_loop (length P) (Z.of_nat (length P) - 1) (P ++ y :: R) = z :: P ++ R.
Proof.
  revert y R; induction P as [|w P IH] using rev_ind; intros y R; [exists y; reflexivity|].
  cut_last P w. cbn [shift_up_loop]. rewrite <- app_assoc. cbn [app].
  rewrite aget_mid by reflexivity. rewrite aset_mid1 by reflexivity.
  destruct (IH w (w :: R)) as [z Hz]. exists z. rewrite Hz, <- app_assoc. reflexivity.
Qed.

Lemma shift_down_loop_app (X : list A) g (S R : list A) :
  exists z : A, shift_down_loop (length S) (Z.of_nat (length X) + 1) (X ++ g :: S ++ R) = X ++ S ++ z :: R.
Proof.
  revert X g; induction S as [|s S IH]; intros X g; [exists g; reflexivity|].
  cbn [length shift_down_loop app].
  rewrite aget_mid1 by reflexivity. rewrite Z.add_simpl_r, aset_mid by reflexivity.
  destruct (IH (X ++ [s]) s) as [z Hz]. rewrite Zlength_snoc, <- !app_assoc in Hz.
  exists z. exact Hz.
Qed.

End Arrays.

#[export] Hint Rewrite @length_aset : minisql_rw.
