(* ===== verification/Bitmap.v ===== *)
(** * Bitmap pages (page/bitmap_page.cpp)

    [BitmapPage.BitmapPage] is the C++ struct
    [{uint32_t page_allocated_; uint32_t next_free_page_;
      unsigned char bytes[MAX_CHARS];}] of include/page/bitmap_page.h,
    generic in the template argument [PageSize].  Bit [b] of byte [i] set
    means that page [8 * i + b] of the extent is allocated.  The methods
    [AllocatePage], [DeAllocatePage], [IsPageFree] and [IsPageFreeLow] are
    translated from the source; the byte update [bytes[i] += num] is
    uint8 addition.  The invariant [wf] says the array has [MAX_CHARS]
    bytes and [page_allocated_] counts the set bits; the theorems give the
    behaviour of every branch, the preservation of [wf], the
    allocate/deallocate round trip and the byte layout of the page. *)

From Stdlib Require Import ZArith Lia List.
From stdpp Require Import base list sets.
From S2P Require Import Spec2Rocq.
Import ListNotations.
Open Scope Z_scope.

Module BitmapPage.

Record BitmapPage := mkBitmapPage {
  page_allocated_ : Z;
  next_free_page_ : Z;
  bytes : list Z;
}.

Section WithPageSize.
(** The template argument [PageSize]. *)
Context (PageSize : Z).

(** [MAX_CHARS = PageSize - 2 * sizeof(uint32_t)] (bitmap_page.h). *)
Definition MAX_CHARS : Z := PageSize - 2 * 4.

(** [GetMaxSupportedSize]: pages tracked by one bitmap. *)
Definition GetMaxSupportedSize : Z := 8 * MAX_CHARS.

(** [bytes[i]]. *)
Definition byte_at (bm : BitmapPage) (i : Z) : Z := nth0 (bytes bm) (Z.to_nat i).

(** [IsPageFreeLow]: [(bytes[byte_index] & (1 << bit_index)) == 0]. *)
Definition IsPageFreeLow (bm : BitmapPage) (byte_index bit_index : Z) : bool :=
  Z.land (byte_at bm byte_index) (Z.shiftl 1 bit_index) =? 0.

Definition IsPageFree (bm : BitmapPage) (page_offset : Z) : bool :=
  IsPageFreeLow bm (page_offset / 8) (page_offset mod 8).

(** The scan [for (next_free_page_ = 0; next_free_page_ < 8 * MAX_CHARS;
    next_free_page_++) if (IsPageFree(next_free_page_)) break;]: the
    fuel is the number of iterations left before the loop bound. *)
Fixpoint find_free (bm : BitmapPage) (i : Z) (fuel : nat) : Z :=
  match fuel with
  | O => i
  | S fuel' => if IsPageFree bm i then i else find_free bm (i + 1) fuel'
  end.

Definition scan_free (bm : BitmapPage) : Z :=
  find_free bm 0 (Z.to_nat (8 * MAX_CHARS)).

(** [bytes[byte_index] = v]. *)
Definition set_byte (bm : BitmapPage) (byte_index v : Z) : list Z :=
  <[Z.to_nat byte_index := v]> (bytes bm).

(** [bool AllocatePage(uint32_t &page_offset)]: [Some page_offset] for
    [true], [None] for [false] (the out parameter is then untouched). *)
Definition AllocatePage (bm : BitmapPage) : option Z * BitmapPage :=
  if page_allocated_ bm <? 8 * MAX_CHARS then
    let n := scan_free bm in
    let byte_index := n / 8 in
    let bit_index := n mod 8 in
    let num := Z.shiftl 1 bit_index in
    (Some n,
     {| page_allocated_ := page_allocated_ bm +u32 1;
        next_free_page_ := n;
        bytes := set_byte bm byte_index (byte_at bm byte_index +u8 num) |})
  else (None, bm).

(** [bool DeAllocatePage(uint32_t page_offset)]. *)
Definition DeAllocatePage (bm : BitmapPage) (page_offset : Z) : bool * BitmapPage :=
  if (8 * MAX_CHARS <=? page_offset) || (page_offset <? 0) then (false, bm)
  else if IsPageFree bm page_offset then (false, bm)
  else
    let byte_index := page_offset / 8 in
    let bit_index := page_offset mod 8 in
    let num := Z.shiftl 1 bit_index in
    (true,
     {| page_allocated_ := wrap 32 (page_allocated_ bm - 1);
        next_free_page_ := next_free_page_ bm;
        bytes := set_byte bm byte_index (byte_at bm byte_index -u8 num) |}).

(** The empty bitmap: a page of zeros. *)
Definition empty_bitmap : BitmapPage :=
  {| page_allocated_ := 0; next_free_page_ := 0;
     bytes := replicate (Z.to_nat MAX_CHARS) 0 |}.

(** Number of allocated pages the bits record. *)
Definition allocated_count (bm : BitmapPage) : Z :=
  Z.of_nat (length (filter (fun j => IsPageFree bm j = false)
                           (seqZ 0 (8 * MAX_CHARS)))).

(** The invariant of a bitmap page. *)
Definition wf (bm : BitmapPage) : Prop :=
  length (bytes bm) = Z.to_nat MAX_CHARS /\
  Forall is_byte (bytes bm) /\
  page_allocated_ bm = allocated_count bm.

(** ** Byte layout of the page the disk manager reinterpret_casts *)

Definition encode_bitmap (bm : BitmapPage) : list Z :=
  le_encode 4 (page_allocated_ bm) ++ le_encode 4 (next_free_page_ bm) ++ bytes bm.

Definition decode_bitmap (page : list Z) : BitmapPage :=
  {| page_allocated_ := le_decode (take 4 page);
     next_free_page_ := le_decode (take 4 (drop 4 page));
     bytes := take (Z.to_nat MAX_CHARS) (drop 8 page) |}.
End WithPageSize.

(** ** Bits of a byte

    [bit_clear x b] is the test of [IsPageFreeLow] on one byte.  Its
    interaction with the uint8 updates of [AllocatePage] and
    [DeAllocatePage] is checked over all 256 bytes and 8 x 8 bit
    positions. *)

Definition bit_clear (x b : Z) : bool := Z.land x (Z.shiftl 1 b) =? 0.

Definition check_bit_set : bool :=
  forallb (fun x => forallb (fun b => forallb (fun j =>
    negb (bit_clear x b) ||
    ((0 <=? x + Z.shiftl 1 b) && (x + Z.shiftl 1 b <? 256) &&
     Bool.eqb (bit_clear (x + Z.shiftl 1 b) j) (bit_clear x j && negb (j =? b))))
    (seqZ 0 8)) (seqZ 0 8)) (seqZ 0 256).

Definition check_bit_unset : bool :=
  forallb (fun x => forallb (fun b => forallb (fun j =>
    bit_clear x b ||
    ((0 <=? x - Z.shiftl 1 b) && (x - Z.shiftl 1 b <? 256) &&
     Bool.eqb (bit_clear (x - Z.shiftl 1 b) j) (bit_clear x j || (j =? b))))
    (seqZ 0 8)) (seqZ 0 8)) (seqZ 0 256).

Lemma check_bit_set_true : check_bit_set = true.
Proof. vm_compute. reflexivity. Qed.

Lemma check_bit_unset_true : check_bit_unset = true.
Proof. vm_compute. reflexivity. Qed.

Ltac use_check H x b j :=
  let H1 := fresh in
  pose proof (forallb_seqZ _ 0 256 H x ltac:(unfold is_byte in *; lia)) as H1;
  apply (forallb_seqZ _ 0 8) with (x := b) in H1; [|lia];
  apply (forallb_seqZ _ 0 8) with (x := j) in H1; [|lia].

(** Setting a clear bit [b] of a byte adds [1 << b] without carry, and
    changes bit [b] only. *)
Lemma bit_set_spec x b j :
  is_byte x -> 0 <= b < 8 -> 0 <= j < 8 -> bit_clear x b = true ->
  is_byte (x + Z.shiftl 1 b) /\
  bit_clear (x + Z.shiftl 1 b) j = bit_clear x j && negb (j =? b).
Proof.
  intros Hx Hb Hj Hc. use_check check_bit_set_true x b j.
  rewrite Hc in H. simpl in H. apply andb_prop in H as [H Heq].
  apply andb_prop in H as [H1 H2]. zbool.
  split; [unfold is_byte; lia | apply Bool.eqb_prop; exact Heq].
Qed.

(** Clearing a set bit [b] subtracts [1 << b] without borrow. *)
Lemma bit_unset_spec x b j :
  is_byte x -> 0 <= b < 8 -> 0 <= j < 8 -> bit_clear x b = false ->
  is_byte (x - Z.shiftl 1 b) /\
  bit_clear (x - Z.shiftl 1 b) j = bit_clear x j || (j =? b).
Proof.
  intros Hx Hb Hj Hc. use_check check_bit_unset_true x b j.
  rewrite Hc in H. simpl in H. apply andb_prop in H as [H Heq].
  apply andb_prop in H as [H1 H2]. zbool.
  split; [unfold is_byte; lia | apply Bool.eqb_prop; exact Heq].
Qed.

Lemma bit_clear_0 b : bit_clear 0 b = true.
Proof. reflexivity. Qed.

Section Proofs.
Context (PageSize : Z).

Lemma IsPageFree_bit bm j :
  IsPageFree bm j = bit_clear (byte_at bm (j / 8)) (j mod 8).
Proof. reflexivity. Qed.

(** The byte array after [bytes[k] = v]. *)
Lemma byte_at_set bm k v i :
  0 <= k -> 0 <= i -> (Z.to_nat k < length (bytes bm))%nat ->
  nth0 (set_byte bm k v) (Z.to_nat i) = if decide (i = k) then v else byte_at bm i.
Proof.
  intros Hk Hi Hlen. unfold set_byte, byte_at.
  rewrite nth0_insert.
  destruct (decide (i = k)) as [->|Hne].
  - rewrite decide_True by auto. reflexivity.
  - rewrite decide_False; [reflexivity|]. intros [Heq _]. apply Hne. lia.
Qed.

(** The free map after an update of the byte holding page [n]: only the
    pages of that byte are read from the new value. *)
Lemma IsPageFree_update bm bm' n v j :
  0 <= n -> 0 <= j -> (Z.to_nat (n / 8) < length (bytes bm))%nat ->
  bytes bm' = set_byte bm (n / 8) v ->
  IsPageFree bm' j =
    if decide (j / 8 = n / 8) then bit_clear v (j mod 8) else IsPageFree bm j.
Proof.
  intros Hn Hj Hlen Hb. rewrite !IsPageFree_bit. unfold byte_at at 1. rewrite Hb.
  rewrite byte_at_set by (try apply Z.div_pos; lia).
  destruct (decide (j / 8 = n / 8)); reflexivity.
Qed.

Lemma same_page_iff j n :
  0 <= j -> 0 <= n -> j / 8 = n / 8 -> (j = n <-> j mod 8 = n mod 8).
Proof.
  intros Hj Hn Hq. split; [intros ->; reflexivity|].
  intros Hr. rewrite (Z.div_mod j 8), (Z.div_mod n 8) by lia. lia.
Qed.

(** The scan returns the first free page at or after [i], or the loop
    bound. *)
Lemma find_free_spec bm i fuel :
  let r := find_free bm i fuel in
  i <= r <= i + Z.of_nat fuel /\
  (forall j, i <= j < r -> IsPageFree bm j = false) /\
  (r < i + Z.of_nat fuel -> IsPageFree bm r = true).
Proof.
  revert i; induction fuel as [|fuel IH]; intros i; simpl.
  - split; [lia|]. split; [intros; lia | lia].
  - destruct (IsPageFree bm i) eqn:E.
    + split; [lia|]. split; [intros; lia | auto].
    + destruct (IH (i + 1)) as (H1 & H2 & H3). split; [lia|]. split.
      * intros j Hj. destruct (decide (j = i)) as [->|]; [exact E|]. apply H2. lia.
      * intros Hr. apply H3. lia.
Qed.

(** A single-bit update of the page holding [n] (the [+= num] of
    [AllocatePage] when the bit is clear, the [-= num] of
    [DeAllocatePage] when it is set): the bytes stay bytes, and the free
    map changes at [n] only. *)
Lemma update_bit_free_map bm bm' n (free : bool) :
  wf PageSize bm -> 0 <= n < 8 * MAX_CHARS PageSize -> IsPageFree bm n = free ->
  bytes bm' = set_byte bm (n / 8)
    (if free then byte_at bm (n / 8) +u8 Z.shiftl 1 (n mod 8)
     else byte_at bm (n / 8) -u8 Z.shiftl 1 (n mod 8)) ->
  Forall is_byte (bytes bm') /\ length (bytes bm') = length (bytes bm) /\
  (forall j, 0 <= j -> IsPageFree bm' j = if j =? n then negb free else IsPageFree bm j).
Proof.
  intros (Hlen & Hbytes & _) Hn Hfree Hb.
  assert (Hq : (Z.to_nat (n / 8) < length (bytes bm))%nat).
  { rewrite Hlen. apply Z2Nat.inj_lt; try apply Z.div_pos; try lia.
    apply Z.div_lt_upper_bound; lia. }
  pose proof (nth0_is_byte _ (Z.to_nat (n / 8)) Hbytes) as Hx.
  fold (byte_at bm (n / 8)) in Hx.
  assert (Hm : 0 <= n mod 8 < 8) by (apply Z.mod_pos_bound; lia).
  rewrite IsPageFree_bit in Hfree.
  assert (Hnew : forall j, 0 <= j < 8 ->
    is_byte (if free then byte_at bm (n / 8) +u8 Z.shiftl 1 (n mod 8)
             else byte_at bm (n / 8) -u8 Z.shiftl 1 (n mod 8)) /\
    bit_clear (if free then byte_at bm (n / 8) +u8 Z.shiftl 1 (n mod 8)
               else byte_at bm (n / 8) -u8 Z.shiftl 1 (n mod 8)) j =
    if j =? n mod 8 then negb free else bit_clear (byte_at bm (n / 8)) j).
  { intros j Hj. destruct free.
    - destruct (bit_set_spec _ _ j Hx Hm Hj Hfree) as [Hb' Hc].
      rewrite wrap_small by (unfold is_byte in Hb'; change (2 ^ 8) with 256; lia).
      split; [exact Hb'|]. rewrite Hc. destruct (Z.eqb_spec j (n mod 8)); subst; simpl;
      [rewrite Hfree|rewrite andb_true_r]; reflexivity.
    - destruct (bit_unset_spec _ _ j Hx Hm Hj Hfree) as [Hb' Hc].
      rewrite wrap_small by (unfold is_byte in Hb'; change (2 ^ 8) with 256; lia).
      split; [exact Hb'|]. rewrite Hc. destruct (Z.eqb_spec j (n mod 8)); subst; simpl;
      [rewrite Hfree|rewrite orb_false_r]; reflexivity. }
  split; [|split].
  - rewrite Hb. apply Forall_insert; [exact Hbytes | apply (Hnew 0); lia].
  - rewrite Hb. apply length_insert.
  - intros j Hj. rewrite (IsPageFree_update bm bm' n _ j ltac:(lia) Hj Hq Hb).
    destruct (decide (j / 8 = n / 8)) as [Hq'|Hq'].
    + destruct (Hnew (j mod 8) ltac:(apply Z.mod_pos_bound; lia)) as [_ ->].
      rewrite IsPageFree_bit, Hq'.
      destruct (Z.eqb_spec (j mod 8) (n mod 8)) as [E|E];
      destruct (Z.eqb_spec j n) as [E'|E']; try reflexivity;
      exfalso; pose proof (same_page_iff j n Hj ltac:(lia) Hq'); tauto.
    + destruct (Z.eqb_spec j n) as [->|]; [contradiction|reflexivity].
Qed.

(** The count of allocated pages moves by one when one bit flips. *)
Lemma allocated_count_update bm bm' n (free : bool) :
  0 <= n < 8 * MAX_CHARS PageSize -> IsPageFree bm n = free ->
  (forall j, 0 <= j -> IsPageFree bm' j = if j =? n then negb free else IsPageFree bm j) ->
  allocated_count PageSize bm' =
    if free then allocated_count PageSize bm + 1 else allocated_count PageSize bm - 1.
Proof.
  intros Hn Hfree Hmap. unfold allocated_count.
  assert (Hin : n ∈ seqZ 0 (8 * MAX_CHARS PageSize)) by (apply elem_of_seqZ; lia).
  assert (Hagree : forall j, j ∈ seqZ 0 (8 * MAX_CHARS PageSize) -> j <> n ->
    IsPageFree bm j = IsPageFree bm' j).
  { intros j Hj Hne. apply elem_of_seqZ in Hj. rewrite Hmap by lia.
    destruct (Z.eqb_spec j n); [contradiction | reflexivity]. }
  assert (Hn' : IsPageFree bm' n = negb free) by (rewrite Hmap, Z.eqb_refl by lia; reflexivity).
  destruct free.
  - rewrite (filter_flip (IsPageFree bm) (IsPageFree bm') n) by (auto using NoDup_seqZ).
    lia.
  - rewrite (filter_flip (IsPageFree bm') (IsPageFree bm) n (seqZ 0 _)); auto using NoDup_seqZ.
    + lia.
    + intros j Hj Hne. symmetry. auto.
Qed.

(** Under [wf], the scan of [AllocatePage] finds the lowest free page
    whenever the bitmap is not full. *)
Lemma scan_free_found bm :
  wf PageSize bm -> page_allocated_ bm < 8 * MAX_CHARS PageSize ->
  0 <= scan_free PageSize bm < 8 * MAX_CHARS PageSize /\
  IsPageFree bm (scan_free PageSize bm) = true /\
  (forall j, 0 <= j < scan_free PageSize bm -> IsPageFree bm j = false).
Proof.
  intros (_ & _ & Hcount) Hpa. unfold scan_free. unfold allocated_count in Hcount.
  destruct (find_free_spec bm 0 (Z.to_nat (8 * MAX_CHARS PageSize))) as (H1 & H2 & H3).
  rewrite Z2Nat.id in H1, H3 by lia.
  destruct (filter_short_exists (IsPageFree bm) (seqZ 0 (8 * MAX_CHARS PageSize)))
    as [j [Hj Hfree]].
  { rewrite length_seqZ. lia. }
  apply elem_of_seqZ in Hj.
  assert (find_free bm 0 (Z.to_nat (8 * MAX_CHARS PageSize)) <> 8 * MAX_CHARS PageSize).
  { intros Heq. rewrite H2 in Hfree; [discriminate | lia]. }
  split; [lia|]. split; [apply H3; lia | exact H2].
Qed.
End Proofs.

(** ** Behaviour of the operations *)

Section Operations.
Context (PageSize : Z).
(** The counters are uint32: one bitmap tracks fewer than [2^32] pages. *)
Hypothesis HPS : 8 * MAX_CHARS PageSize < 2 ^ 32.

Lemma allocated_count_bound bm :
  0 <= allocated_count PageSize bm <= Z.of_nat (Z.to_nat (8 * MAX_CHARS PageSize)).
Proof.
  unfold allocated_count. rewrite <- length_seqZ with (m := 0).
  pose proof (length_filter (fun j => IsPageFree bm j = false) (seqZ 0 (8 * MAX_CHARS PageSize))).
  lia.
Qed.

Lemma wf_count_nonneg bm : wf PageSize bm -> 0 <= page_allocated_ bm.
Proof. intros (_ & _ & ->). apply allocated_count_bound. Qed.

Lemma AllocatePage_unfold bm :
  page_allocated_ bm < 8 * MAX_CHARS PageSize ->
  AllocatePage PageSize bm =
    (Some (scan_free PageSize bm),
     {| page_allocated_ := page_allocated_ bm +u32 1;
        next_free_page_ := scan_free PageSize bm;
        bytes := set_byte bm (scan_free PageSize bm / 8)
                   (byte_at bm (scan_free PageSize bm / 8) +u8
                    Z.shiftl 1 (scan_free PageSize bm mod 8)) |}).
Proof. intros H. unfold AllocatePage. rewrite (proj2 (Z.ltb_lt _ _) H). reflexivity. Qed.

(** [AllocatePage] on a bitmap that is not full returns the lowest free
    page, marks exactly that page allocated, counts it, and keeps the
    invariant. *)
Theorem AllocatePage_correct bm :
  wf PageSize bm -> page_allocated_ bm < GetMaxSupportedSize PageSize ->
  exists n bm', AllocatePage PageSize bm = (Some n, bm') /\
    0 <= n < GetMaxSupportedSize PageSize /\
    IsPageFree bm n = true /\ (forall j, 0 <= j < n -> IsPageFree bm j = false) /\
    (forall j, 0 <= j -> IsPageFree bm' j = IsPageFree bm j && negb (j =? n)) /\
    page_allocated_ bm' = page_allocated_ bm + 1 /\ next_free_page_ bm' = n /\
    wf PageSize bm'.
Proof.
  intros Hwf Hpa. unfold GetMaxSupportedSize in *.
  pose proof (wf_count_nonneg bm Hwf) as H0.
  destruct (scan_free_found PageSize bm Hwf Hpa) as (Hn & Hfree & Hlow).
  rewrite (AllocatePage_unfold bm Hpa).
  eexists _, _. split; [reflexivity|].
  edestruct (update_bit_free_map PageSize bm
    {| page_allocated_ := page_allocated_ bm +u32 1;
       next_free_page_ := scan_free PageSize bm;
       bytes := set_byte bm (scan_free PageSize bm / 8)
                  (byte_at bm (scan_free PageSize bm / 8) +u8
                   Z.shiftl 1 (scan_free PageSize bm mod 8)) |}
    (scan_free PageSize bm) true Hwf Hn Hfree eq_refl) as (Hb & Hl & Hmap).
  split; [exact Hn|]. split; [exact Hfree|]. split; [exact Hlow|].
  assert (Hpa' : page_allocated_ bm +u32 1 = page_allocated_ bm + 1)
    by (apply wrap_small; lia).
  split; [|split; [exact Hpa'|split; [reflexivity|]]].
  - intros j Hj. rewrite Hmap by exact Hj.
    destruct (Z.eqb_spec j (scan_free PageSize bm)) as [->|]; simpl;
      [rewrite Hfree | rewrite andb_true_r]; reflexivity.
  - destruct Hwf as (Hlen & _ & Hcount). split; [rewrite Hl; exact Hlen|]. split; [exact Hb|].
    cbn [page_allocated_]. rewrite (allocated_count_update PageSize bm _ _ true Hn Hfree Hmap), Hpa'.
    lia.
Qed.

(** [AllocatePage] fails exactly when every page of the bitmap is
    allocated, and then leaves the bitmap unchanged. *)
Theorem AllocatePage_None_iff bm :
  wf PageSize bm ->
  (AllocatePage PageSize bm = (None, bm) <->
   forall j, 0 <= j < GetMaxSupportedSize PageSize -> IsPageFree bm j = false).
Proof.
  intros Hwf. pose proof (wf_count_nonneg bm Hwf) as H0.
  destruct Hwf as (_ & _ & Hcount). unfold allocated_count in Hcount.
  pose proof (length_filter (fun j => IsPageFree bm j = false) (seqZ 0 (8 * MAX_CHARS PageSize))).
  rewrite length_seqZ in *. unfold GetMaxSupportedSize, AllocatePage.
  pose proof (filter_full_iff (IsPageFree bm) (seqZ 0 (8 * MAX_CHARS PageSize))) as Hfull.
  rewrite length_seqZ in Hfull.
  destruct (Z.ltb_spec (page_allocated_ bm) (8 * MAX_CHARS PageSize)); split.
  - discriminate.
  - intros Hall. exfalso.
    assert (length (filter (fun j => IsPageFree bm j = false) (seqZ 0 (8 * MAX_CHARS PageSize)))
            = Z.to_nat (8 * MAX_CHARS PageSize)) by
      (apply Hfull; intros j Hj; apply elem_of_seqZ in Hj; apply Hall; lia).
    lia.
  - intros _ j Hj. apply Hfull; [lia | apply elem_of_seqZ; lia].
  - reflexivity.
Qed.

(** [DeAllocatePage] of an allocated page returns true, frees exactly
    that page, uncounts it, and keeps the invariant. *)
Theorem DeAllocatePage_correct bm off :
  wf PageSize bm -> 0 <= off < GetMaxSupportedSize PageSize -> IsPageFree bm off = false ->
  exists bm', DeAllocatePage PageSize bm off = (true, bm') /\
    (forall j, 0 <= j -> IsPageFree bm' j = IsPageFree bm j || (j =? off)) /\
    page_allocated_ bm' = page_allocated_ bm - 1 /\
    next_free_page_ bm' = next_free_page_ bm /\ wf PageSize bm'.
Proof.
  intros Hwf Hoff Hfree. unfold GetMaxSupportedSize in *.
  unfold DeAllocatePage.
  rewrite (proj2 (Z.leb_gt _ _) (proj2 Hoff)), (proj2 (Z.ltb_ge _ _) (proj1 Hoff)), Hfree.
  simpl. eexists. split; [reflexivity|].
  edestruct (update_bit_free_map PageSize bm
    {| page_allocated_ := wrap 32 (page_allocated_ bm - 1);
       next_free_page_ := next_free_page_ bm;
       bytes := set_byte bm (off / 8) (byte_at bm (off / 8) -u8 Z.shiftl 1 (off mod 8)) |}
    off false Hwf Hoff Hfree eq_refl) as (Hb & Hl & Hmap).
  pose proof (allocated_count_update PageSize bm _ _ false Hoff Hfree Hmap) as Hc.
  cbv beta iota in Hc.
  destruct Hwf as (Hlen & _ & Hcount).
  pose proof (allocated_count_bound bm).
  assert (Hpos : 0 <= allocated_count PageSize
                        {| page_allocated_ := wrap 32 (page_allocated_ bm - 1);
                           next_free_page_ := next_free_page_ bm;
                           bytes := set_byte bm (off / 8) (byte_at bm (off / 8) -u8 Z.shiftl 1 (off mod 8)) |})
    by apply allocated_count_bound.
  assert (Hpa : wrap 32 (page_allocated_ bm - 1) = page_allocated_ bm - 1)
    by (apply wrap_small; lia).
  split; [|split; [exact Hpa | split; [reflexivity|]]].
  - intros j Hj. rewrite Hmap by exact Hj.
    destruct (Z.eqb_spec j off) as [->|]; simpl; [rewrite Hfree | rewrite orb_false_r]; reflexivity.
  - split; [rewrite Hl; exact Hlen|]. split; [exact Hb|]. simpl. lia.
Qed.

(** [DeAllocatePage] returns false and leaves the bitmap unchanged
    exactly when the offset is out of range or the page is already
    free. *)
Theorem DeAllocatePage_false_iff bm off :
  DeAllocatePage PageSize bm off = (false, bm) <->
  ~ (0 <= off < GetMaxSupportedSize PageSize /\ IsPageFree bm off = false).
Proof.
  unfold DeAllocatePage, GetMaxSupportedSize.
  destruct (Z.leb_spec (8 * MAX_CHARS PageSize) off); simpl; [split; [intros _; lia | reflexivity]|].
  destruct (Z.ltb_spec off 0); simpl; [split; [intros _; lia | reflexivity]|].
  destruct (IsPageFree bm off); split; try (intros _; intros [_ ?]; discriminate); try reflexivity.
  - intros Hx. discriminate.
  - intros Hx. exfalso. apply Hx. split; [lia | reflexivity].
Qed.

(** Deallocating the page [AllocatePage] just returned gives back the
    original bytes and count; only the [next_free_page_] hint moved. *)
Theorem AllocatePage_DeAllocatePage bm n bm1 :
  wf PageSize bm -> AllocatePage PageSize bm = (Some n, bm1) ->
  DeAllocatePage PageSize bm1 n =
    (true, {| page_allocated_ := page_allocated_ bm; next_free_page_ := n;
              bytes := bytes bm |}).
Proof.
  intros Hwf Halloc.
  assert (Hpa : page_allocated_ bm < 8 * MAX_CHARS PageSize).
  { unfold AllocatePage in Halloc. destruct (Z.ltb_spec (page_allocated_ bm) (8 * MAX_CHARS PageSize));
    [exact H | discriminate]. }
  destruct (AllocatePage_correct bm Hwf Hpa) as (n' & bm' & Heq & Hn & Hfree & _ & Hmap & Hcnt & _ & _).
  rewrite Halloc in Heq. injection Heq as Hnn Hbb. subst n' bm'.
  pose proof (AllocatePage_unfold bm Hpa) as Hu. rewrite Halloc in Hu.
  injection Hu as Hn' Hbm1.
  unfold DeAllocatePage. unfold GetMaxSupportedSize in Hn.
  rewrite (proj2 (Z.leb_gt _ _) (proj2 Hn)), (proj2 (Z.ltb_ge _ _) (proj1 Hn)).
  rewrite Hmap, Z.eqb_refl, andb_false_r by lia. cbn [orb]. cbv beta iota.
  rewrite Hcnt. rewrite wrap_small by (pose proof (wf_count_nonneg bm Hwf); lia).
  rewrite Hbm1. cbn [bytes]. subst n.
  destruct Hwf as (Hlen & Hbytes & _).
  set (k := Z.to_nat (scan_free PageSize bm / 8)).
  assert (Hk : (k < length (bytes bm))%nat).
  { rewrite Hlen. unfold k. apply Z2Nat.inj_lt; try apply Z.div_pos; try lia.
    apply Z.div_lt_upper_bound; lia. }
  pose proof (nth0_is_byte _ k Hbytes) as Hx.
  assert (Hbit : bit_clear (nth0 (bytes bm) k) (scan_free PageSize bm mod 8) = true) by exact Hfree.
  destruct (bit_set_spec _ _ 0 Hx ltac:(apply Z.mod_pos_bound; lia) ltac:(lia) Hbit) as [Hs _].
  unfold set_byte, byte_at. cbn [bytes]. fold k.
  rewrite nth0_insert, decide_True by auto.
  rewrite (wrap_small 8 (nth0 (bytes bm) k + _)) by (unfold is_byte in Hs; change (2 ^ 8) with 256; lia).
  replace (nth0 (bytes bm) k + Z.shiftl 1 (scan_free PageSize bm mod 8) - Z.shiftl 1 (scan_free PageSize bm mod 8))
    with (nth0 (bytes bm) k) by lia.
  rewrite (wrap_small 8 (nth0 (bytes bm) k)) by (unfold is_byte in Hx; change (2 ^ 8) with 256; lia).
  cbn [next_free_page_]. rewrite list_insert_insert, decide_True by reflexivity.
  rewrite list_insert_id by (apply nth0_lookup; exact Hk).
  do 2 f_equal. lia.
Qed.
End Operations.

(** ** Byte layout *)

Section Layout.
Context (PageSize : Z).

(** The page image of a well-formed bitmap decodes to the bitmap. *)
Theorem decode_encode_bitmap bm :
  length (bytes bm) = Z.to_nat (MAX_CHARS PageSize) ->
  in_uint 32 (page_allocated_ bm) -> in_uint 32 (next_free_page_ bm) ->
  decode_bitmap PageSize (encode_bitmap bm) = bm.
Proof.
  intros Hlen Hpa Hnf. unfold decode_bitmap, encode_bitmap, in_uint in *.
  destruct bm as [pa nf b]; cbn [page_allocated_ next_free_page_ bytes] in *.
  replace (drop 8 (le_encode 4 pa ++ le_encode 4 nf ++ b)) with b.
  2:{ rewrite app_assoc. apply eq_sym, drop_app_length'.
      rewrite length_app, !length_le_encode. reflexivity. }
  rewrite drop_app_length' by (rewrite length_le_encode; reflexivity).
  rewrite !take_app_length' by (rewrite length_le_encode; reflexivity).
  rewrite take_ge by lia.
  rewrite !le_decode_encode_small by (simpl; lia). reflexivity.
Qed.

Lemma length_encode_bitmap bm :
  8 <= PageSize -> length (bytes bm) = Z.to_nat (MAX_CHARS PageSize) ->
  length (encode_bitmap bm) = Z.to_nat PageSize.
Proof.
  intros Hps Hlen. unfold encode_bitmap, MAX_CHARS in *.
  rewrite !length_app, !length_le_encode, Hlen. lia.
Qed.

Lemma byte_at_empty i : byte_at (empty_bitmap PageSize) i = 0.
Proof.
  unfold byte_at, empty_bitmap, nth0. simpl.
  destruct (replicate _ 0 !! Z.to_nat i) eqn:E.
  - apply lookup_replicate in E as [-> _]. reflexivity.
  - reflexivity.
Qed.

(** A page of zeros (an extent the file does not hold yet) decodes to
    the empty bitmap, which is well formed: every page is free. *)
Theorem decode_zero_page :
  8 <= PageSize ->
  decode_bitmap PageSize (zero_page PageSize) = empty_bitmap PageSize /\
  wf PageSize (empty_bitmap PageSize) /\
  (forall j, IsPageFree (empty_bitmap PageSize) j = true).
Proof.
  intros Hps. assert (Hfree : forall j, IsPageFree (empty_bitmap PageSize) j = true)
    by (intros j; rewrite IsPageFree_bit, byte_at_empty; apply bit_clear_0).
  split; [|split; [|exact Hfree]].
  - unfold decode_bitmap, empty_bitmap, zero_page, MAX_CHARS.
    repeat rewrite ?take_replicate, ?drop_replicate. f_equal.
    + replace (4 `min` Z.to_nat PageSize)%nat with 4%nat by lia. reflexivity.
    + replace (4 `min` (Z.to_nat PageSize - 4))%nat with 4%nat by lia. reflexivity.
    + f_equal. lia.
  - split; [apply length_replicate|]. split; [apply Forall_replicate; unfold is_byte; lia|].
    unfold allocated_count. simpl.
    replace (filter _ _) with (@nil Z); [reflexivity|].
    induction (seqZ 0 (8 * MAX_CHARS PageSize)) as [|x l IH]; [reflexivity|].
    rewrite filter_cons, Hfree. simpl. exact IH.
Qed.
End Layout.

(** ** Instances at the page size of the disk manager *)

Lemma AllocatePage_None_iff_witness :
  AllocatePage 4096 (empty_bitmap 4096) <> (None, empty_bitmap 4096) /\
  IsPageFree (empty_bitmap 4096) 0 = true.
Proof.
  destruct (decode_zero_page 4096 ltac:(lia)) as (_ & Hwf & Hfree).
  split; [|reflexivity]. intros Hnone.
  pose proof (proj1 (AllocatePage_None_iff 4096 (empty_bitmap 4096) Hwf) Hnone 0 ltac:(vm_compute; split; discriminate)) as H.
  vm_compute in H. discriminate H.
Defined.

Lemma DeAllocatePage_false_iff_witness :
  DeAllocatePage 4096 (empty_bitmap 4096) 5 = (false, empty_bitmap 4096).
Proof.
  apply (DeAllocatePage_false_iff 4096 (empty_bitmap 4096) 5).
  intros [_ H]. vm_compute in H. discriminate H.
Defined.

Lemma AllocatePage_DeAllocatePage_witness :
  AllocatePage 4096 (empty_bitmap 4096) = (Some 0, snd (AllocatePage 4096 (empty_bitmap 4096))) /\
  DeAllocatePage 4096 (snd (AllocatePage 4096 (empty_bitmap 4096))) 0 =
    (true, {| page_allocated_ := 0; next_free_page_ := 0; bytes := bytes (empty_bitmap 4096) |}).
Proof.
  destruct (decode_zero_page 4096 ltac:(lia)) as (_ & Hwf & _).
  split; [vm_compute; reflexivity|].
  apply (AllocatePage_DeAllocatePage 4096 ltac:(reflexivity) (empty_bitmap 4096) 0); [exact Hwf|].
  vm_compute. reflexivity.
Defined.

End BitmapPage.
