(* ===== verification/DiskManager.v ===== *)
(** * Disk manager (storage/disk_manager.cpp)

    The database file is a map from physical page id to the page's bytes
    together with the file size; a page the file does not hold reads as
    zeros.  Physical page 0 is the meta page, physical page
    [e * (BITMAP_SIZE + 1) + 1] the bitmap of extent [e], followed by its
    [BITMAP_SIZE] data pages.  [meta_data_] is the in-memory copy of the
    meta page ([DiskFileMetaPage]).  The stream state of [db_io_] is kept
    as a flag: a seek to a negative offset puts the stream in a failed
    state in which reads transfer nothing and writes do nothing.

    [ReadPhysicalPage] computes its offset and the file size as [int], as
    the source does; the theorems show what that means past 2 GiB.  The
    allocation operations, the logical-to-physical map and the invariant
    tying the meta counters to the bitmaps are proved below. *)

From Stdlib Require Import ZArith Lia List.
From stdpp Require Import base list sets gmap.
From S2P Require Import Spec2Rocq Bitmap.
Import ListNotations.
Open Scope Z_scope.

Module DiskManager.
Import BitmapPage.

(** ** Layout constants (include/storage/disk_manager.h) *)

(** Pages tracked by one bitmap page of size [PAGE_SIZE]. *)
Definition BITMAP_SIZE : Z := GetMaxSupportedSize PAGE_SIZE.
(** Slots of [extent_used_page_] in the meta page. *)
Definition NUM_EXTENTS : Z := (PAGE_SIZE - 8) / 4.
Definition MAX_VALID_PAGE_ID : Z := NUM_EXTENTS * BITMAP_SIZE.
Definition META_PAGE_ID : Z := 0.

Record DiskFileMetaPage := mkMeta {
  num_allocated_pages_ : Z;
  num_extents_ : Z;
  extent_used_page_ : list Z;
}.

Record DiskManager := mkDiskManager {
  meta_data_ : DiskFileMetaPage;
  file : gmap Z (list Z);   (** physical page id -> bytes written there *)
  file_size : Z;            (** bytes, as stat reports *)
  stream_failed : bool;     (** failbit of [db_io_] *)
}.

(** Physical page of the bitmap of extent [e]. *)
Definition bitmap_pid (e : Z) : Z := e * (BITMAP_SIZE + 1) + 1.

(** [MapPageId]. *)
Definition MapPageId (logical_page_id : Z) : Z :=
  logical_page_id / BITMAP_SIZE + 2 + logical_page_id.

(** [GetFileSize] returns the size as an [int]. *)
Definition GetFileSize (dm : DiskManager) : Z := to_signed 32 (wrap 32 (file_size dm)).

(** [int offset = physical_page_id * PAGE_SIZE]. *)
Definition read_offset (physical_page_id : Z) : Z :=
  to_signed 32 (wrap 32 (physical_page_id * PAGE_SIZE)).

(** Bytes of the file at a page-aligned offset: what a read of a whole
    page transfers. *)
Definition file_page (dm : DiskManager) (pid : Z) : list Z :=
  default (zero_page PAGE_SIZE) (file dm !! pid).

(** [ReadPhysicalPage]: zeros past the end of the file; otherwise a seek
    (which fails on a negative offset) and a read, zero-filled when it
    transfers nothing. *)
Definition ReadPhysicalPage (dm : DiskManager) (physical_page_id : Z) : DiskManager * list Z :=
  let offset := read_offset physical_page_id in
  if GetFileSize dm <=? offset then (dm, zero_page PAGE_SIZE)
  else if offset <? 0 then
    ({| meta_data_ := meta_data_ dm; file := file dm; file_size := file_size dm;
        stream_failed := true |}, zero_page PAGE_SIZE)
  else if stream_failed dm then (dm, zero_page PAGE_SIZE)
  else (dm, file_page dm (offset / PAGE_SIZE)).

(** [WritePhysicalPage]: the offset is a [size_t]; a failed stream writes
    nothing. *)
Definition WritePhysicalPage (dm : DiskManager) (physical_page_id : Z) (page_data : list Z)
  : DiskManager :=
  if stream_failed dm then dm
  else {| meta_data_ := meta_data_ dm;
          file := <[physical_page_id := page_data]> (file dm);
          file_size := Z.max (file_size dm) ((physical_page_id + 1) * PAGE_SIZE);
          stream_failed := false |}.

(** [ReadPage] and [WritePage]; [None] when [ASSERT(logical_page_id >= 0)]
    fails. *)
Definition ReadPage (dm : DiskManager) (logical_page_id : Z) : option (DiskManager * list Z) :=
  if logical_page_id <? 0 then None
  else Some (ReadPhysicalPage dm (MapPageId logical_page_id)).

Definition WritePage (dm : DiskManager) (logical_page_id : Z) (page_data : list Z)
  : option DiskManager :=
  if logical_page_id <? 0 then None
  else Some (WritePhysicalPage dm (MapPageId logical_page_id) page_data).

Definition set_meta (dm : DiskManager) (m : DiskFileMetaPage) : DiskManager :=
  {| meta_data_ := m; file := file dm; file_size := file_size dm;
     stream_failed := stream_failed dm |}.

(** [extent_used_page_[e]]. *)
Definition extent_used (m : DiskFileMetaPage) (e : Z) : Z :=
  nth0 (extent_used_page_ m) (Z.to_nat e).

(** [extent_used_page_[e] += d] (uint32). *)
Definition bump_extent (used : list Z) (e d : Z) : list Z :=
  <[Z.to_nat e := wrap 32 (nth0 used (Z.to_nat e) + d)]> used.

(** [num_extents_] after [if (num_extents_ == 0 ||
    extent_used_page_[num_extents_ - 1] >= BITMAP_SIZE) num_extents_++]. *)
Definition target_extent (m : DiskFileMetaPage) : Z :=
  if (num_extents_ m =? 0) || (BITMAP_SIZE <=? extent_used m (num_extents_ m - 1))
  then num_extents_ m + 1 else num_extents_ m.

(** [AllocatePage]. *)
Definition AllocatePage (dm : DiskManager) : DiskManager * Z :=
  let m := meta_data_ dm in
  if num_allocated_pages_ m <? MAX_VALID_PAGE_ID then
    let ne := target_extent m in
    let '(dm1, bitmap_data) := ReadPhysicalPage dm (bitmap_pid (ne - 1)) in
    let '(res, bitmap) := BitmapPage.AllocatePage PAGE_SIZE (decode_bitmap PAGE_SIZE bitmap_data) in
    let allo_page_id_in_bitmap := default 0 res in
    let m' := {| num_allocated_pages_ := num_allocated_pages_ m +u32 1;
                 num_extents_ := ne;
                 extent_used_page_ := bump_extent (extent_used_page_ m) (ne - 1) 1 |} in
    let dm2 := WritePhysicalPage (set_meta dm1 m') (bitmap_pid (ne - 1)) (encode_bitmap bitmap) in
    (dm2, (ne - 1) * BITMAP_SIZE + allo_page_id_in_bitmap)
  else (dm, INVALID_PAGE_ID).

(** [IsPageFree]. *)
Definition IsPageFree (dm : DiskManager) (logical_page_id : Z) : DiskManager * bool :=
  if logical_page_id <? 0 then (dm, false)
  else
    let '(dm1, bitmap_data) := ReadPhysicalPage dm (bitmap_pid (logical_page_id / BITMAP_SIZE)) in
    (dm1, BitmapPage.IsPageFree (decode_bitmap PAGE_SIZE bitmap_data)
                                (logical_page_id mod BITMAP_SIZE)).

(** [DeAllocatePage]. *)
Definition DeAllocatePage (dm : DiskManager) (logical_page_id : Z) : DiskManager :=
  if logical_page_id <? 0 then dm
  else
    let '(dm1, free) := IsPageFree dm logical_page_id in
    if free then dm1
    else
      let e := logical_page_id / BITMAP_SIZE in
      let '(dm2, bitmap_data) := ReadPhysicalPage dm1 (bitmap_pid e) in
      let '(_, bitmap) := BitmapPage.DeAllocatePage PAGE_SIZE (decode_bitmap PAGE_SIZE bitmap_data)
                                                   (logical_page_id mod BITMAP_SIZE) in
      let m := meta_data_ dm2 in
      let m' := {| num_allocated_pages_ := wrap 32 (num_allocated_pages_ m - 1);
                   num_extents_ := num_extents_ m;
                   extent_used_page_ := bump_extent (extent_used_page_ m) e (-1) |} in
      WritePhysicalPage (set_meta dm2 m') (bitmap_pid e) (encode_bitmap bitmap).

(** ** Opening a database file

    The constructor reads physical page 0 into [meta_data_]; its layout is
    [{uint32 num_allocated_pages_; uint32 num_extents_;
      uint32 extent_used_page_[]}]. *)
Definition decode_meta (page : list Z) : DiskFileMetaPage :=
  {| num_allocated_pages_ := le_decode (take 4 page);
     num_extents_ := le_decode (take 4 (drop 4 page));
     extent_used_page_ :=
       map (fun i => le_decode (take 4 (drop (8 + 4 * i) page)))
           (seq 0 (Z.to_nat NUM_EXTENTS)) |}.

Definition empty_meta : DiskFileMetaPage :=
  {| num_allocated_pages_ := 0; num_extents_ := 0;
     extent_used_page_ := replicate (Z.to_nat NUM_EXTENTS) 0 |}.

Definition open_file (f : gmap Z (list Z)) (size : Z) : DiskManager :=
  let dm0 := {| meta_data_ := empty_meta; file := f; file_size := size;
                stream_failed := false |} in
  let '(dm1, page) := ReadPhysicalPage dm0 META_PAGE_ID in
  set_meta dm1 (decode_meta page).

(** A fresh database file. *)
Definition fresh : DiskManager := open_file ∅ 0.

(** ** Arithmetic of the layout *)

Lemma BITMAP_SIZE_eq : BITMAP_SIZE = 32704.
Proof. reflexivity. Qed.
Lemma NUM_EXTENTS_eq : NUM_EXTENTS = 1022.
Proof. reflexivity. Qed.

(** [2^31 / PAGE_SIZE - 1]: physical pages below it keep the file, and
    every [int] byte offset, under 2 GiB. *)
Definition PHYS_LIMIT : Z := 524287.
Lemma PHYS_LIMIT_eq : PHYS_LIMIT = 2 ^ 31 / PAGE_SIZE - 1.
Proof. reflexivity. Qed.

(** Extents whose bitmap page lies below [PHYS_LIMIT]. *)
Definition EXTENT_LIMIT : Z := 17.

Ltac consts :=
  rewrite ?BITMAP_SIZE_eq, ?NUM_EXTENTS_eq in *;
  unfold PHYS_LIMIT, EXTENT_LIMIT, MAX_VALID_PAGE_ID, META_PAGE_ID, PAGE_SIZE in *;
  rewrite ?BITMAP_SIZE_eq, ?NUM_EXTENTS_eq in *;
  change (2 ^ 32) with 4294967296 in *; change (2 ^ (32 - 1)) with 2147483648 in *.

Lemma bitmap_pid_range e : 0 <= e < EXTENT_LIMIT -> 1 <= bitmap_pid e < PHYS_LIMIT.
Proof. unfold bitmap_pid. consts. lia. Qed.

Lemma bitmap_pid_inj e1 e2 : bitmap_pid e1 = bitmap_pid e2 -> e1 = e2.
Proof. unfold bitmap_pid. consts. lia. Qed.

(** Logical page [L] of extent [L / BITMAP_SIZE] sits right after that
    extent's bitmap: data pages never land on the meta page or on a
    bitmap page. *)
Lemma MapPageId_layout L :
  0 <= L ->
  MapPageId L = bitmap_pid (L / BITMAP_SIZE) + 1 + L mod BITMAP_SIZE.
Proof.
  intros HL. unfold MapPageId, bitmap_pid.
  rewrite (Z.div_mod L BITMAP_SIZE) at 2 by (consts; lia). consts. lia.
Qed.

(** ** The file below 2 GiB *)

Definition small (dm : DiskManager) : Prop :=
  stream_failed dm = false /\ 0 <= file_size dm <= PHYS_LIMIT * PAGE_SIZE /\
  (forall p d, file dm !! p = Some d -> 0 <= p /\ (p + 1) * PAGE_SIZE <= file_size dm).

Lemma read_offset_small p : 0 <= p < PHYS_LIMIT -> read_offset p = p * PAGE_SIZE.
Proof.
  intros Hp. unfold read_offset, to_signed, wrap. consts.
  rewrite Z.mod_small by lia. destruct (Z.ltb_spec (p * 4096) 2147483648); lia.
Qed.

Lemma GetFileSize_small dm : small dm -> GetFileSize dm = file_size dm.
Proof.
  intros (_ & Hs & _). unfold GetFileSize, to_signed, wrap. consts.
  rewrite Z.mod_small by lia. destruct (Z.ltb_spec (file_size dm) 2147483648); lia.
Qed.

(** Below 2 GiB, [ReadPhysicalPage] returns what was last written at the
    page, zeros if nothing was, and leaves the stream good. *)
Lemma ReadPhysicalPage_small dm p :
  small dm -> 0 <= p < PHYS_LIMIT -> ReadPhysicalPage dm p = (dm, file_page dm p).
Proof.
  intros Hs Hp. unfold ReadPhysicalPage.
  rewrite read_offset_small, GetFileSize_small by auto.
  destruct Hs as (Hok & Hsize & Hpages).
  destruct (Z.leb_spec (file_size dm) (p * PAGE_SIZE)).
  - unfold file_page. destruct (file dm !! p) eqn:E; [|reflexivity].
    apply Hpages in E. consts. lia.
  - rewrite (proj2 (Z.ltb_ge _ _)) by (consts; lia). rewrite Hok.
    rewrite Z.div_mul by (consts; lia). reflexivity.
Qed.

Lemma WritePhysicalPage_small dm p d :
  small dm -> 0 <= p < PHYS_LIMIT ->
  small (WritePhysicalPage dm p d) /\
  meta_data_ (WritePhysicalPage dm p d) = meta_data_ dm /\
  (forall q, file_page (WritePhysicalPage dm p d) q =
             if decide (q = p) then d else file_page dm q) /\
  (forall q, q <> p -> file (WritePhysicalPage dm p d) !! q = file dm !! q).
Proof.
  intros (Hok & Hsize & Hpages) Hp. unfold WritePhysicalPage, small. rewrite Hok.
  cbn [file_size file meta_data_ stream_failed].
  split; [|split; [reflexivity|split]].
  - split; [reflexivity|]. split; [consts; lia|].
    intros q dq Hq. destruct (decide (q = p)) as [->|Hne].
    + split; [lia|]. consts; lia.
    + rewrite lookup_insert_ne in Hq by congruence. apply Hpages in Hq. lia.
  - intros q. unfold file_page. cbn [file]. destruct (decide (q = p)) as [->|Hne].
    + rewrite lookup_insert_eq. reflexivity.
    + rewrite lookup_insert_ne by congruence. reflexivity.
  - intros q Hne. cbn [file]. apply lookup_insert_ne. congruence.
Qed.

Lemma meta_WritePhysicalPage dm p d : meta_data_ (WritePhysicalPage dm p d) = meta_data_ dm.
Proof. unfold WritePhysicalPage. destruct (stream_failed dm); reflexivity. Qed.

Lemma set_meta_small dm m : small dm -> small (set_meta dm m).
Proof. intros H. exact H. Qed.

(** ** The allocation invariant *)

(** The bitmap of extent [e] as the file holds it. *)
Definition bitmap_of (dm : DiskManager) (e : Z) : BitmapPage :=
  decode_bitmap PAGE_SIZE (file_page dm (bitmap_pid e)).

(** The answer of [IsPageFree]. *)
Definition is_free (dm : DiskManager) (L : Z) : bool := snd (IsPageFree dm L).

(** Every opened extent has a well-formed bitmap whose count is the meta
    counter of the extent; unopened extents have no bitmap page and a zero
    counter; [num_allocated_pages_] is the sum of the counters. *)
Definition inv (dm : DiskManager) : Prop :=
  let m := meta_data_ dm in
  small dm /\
  0 <= num_extents_ m <= EXTENT_LIMIT /\
  length (extent_used_page_ m) = Z.to_nat NUM_EXTENTS /\
  Forall (fun x => 0 <= x) (extent_used_page_ m) /\
  (forall e, 0 <= e < num_extents_ m ->
     wf PAGE_SIZE (bitmap_of dm e) /\ in_uint 32 (next_free_page_ (bitmap_of dm e)) /\
     extent_used m e = page_allocated_ (bitmap_of dm e)) /\
  (forall e, num_extents_ m <= e -> file dm !! bitmap_pid e = None /\ extent_used m e = 0) /\
  num_allocated_pages_ m = sumZ (extent_used_page_ m).

Lemma HPS_page : 8 * MAX_CHARS PAGE_SIZE < 2 ^ 32.
Proof. reflexivity. Qed.

Lemma BITMAP_SIZE_max : BITMAP_SIZE = GetMaxSupportedSize PAGE_SIZE.
Proof. reflexivity. Qed.

(** Every extent of an invariant disk, opened or not, has a well-formed
    bitmap that agrees with its counter. *)
Lemma extent_wf dm e :
  inv dm -> 0 <= e ->
  wf PAGE_SIZE (bitmap_of dm e) /\ in_uint 32 (next_free_page_ (bitmap_of dm e)) /\
  extent_used (meta_data_ dm) e = page_allocated_ (bitmap_of dm e).
Proof.
  intros (_ & _ & _ & _ & Hold & Hnew & _) He.
  destruct (Z.ltb_spec e (num_extents_ (meta_data_ dm))); [apply Hold; lia|].
  destruct (Hnew e ltac:(lia)) as [Hf Hu].
  unfold bitmap_of, file_page. rewrite Hf. simpl default.
  destruct (decode_zero_page PAGE_SIZE ltac:(consts; lia)) as (-> & Hwf & _).
  split; [exact Hwf|]. split; [unfold in_uint; simpl; lia | exact Hu].
Qed.

(** Below 2 GiB, [IsPageFree] reads the extent's bitmap and changes
    nothing. *)
Lemma IsPageFree_small dm L :
  small dm -> 0 <= L < EXTENT_LIMIT * BITMAP_SIZE ->
  IsPageFree dm L = (dm, BitmapPage.IsPageFree (bitmap_of dm (L / BITMAP_SIZE)) (L mod BITMAP_SIZE)).
Proof.
  intros Hs HL. unfold IsPageFree. rewrite (proj2 (Z.ltb_ge _ _)) by lia.
  rewrite ReadPhysicalPage_small; [reflexivity | exact Hs |].
  assert (0 <= L / BITMAP_SIZE < EXTENT_LIMIT) as He.
  { split; [apply Z.div_pos; consts; lia|]. apply Z.div_lt_upper_bound; consts; lia. }
  pose proof (bitmap_pid_range _ He). lia.
Qed.

(** The file after the bitmap of extent [e] is written. *)
Lemma bitmap_of_write dm m e b e2 :
  small dm -> 0 <= e < EXTENT_LIMIT -> wf PAGE_SIZE b ->
  in_uint 32 (page_allocated_ b) -> in_uint 32 (next_free_page_ b) ->
  bitmap_of (WritePhysicalPage (set_meta dm m) (bitmap_pid e) (encode_bitmap b)) e2 =
  if decide (e2 = e) then b else bitmap_of dm e2.
Proof.
  intros Hs He (Hlen & _) Hpa Hnf.
  destruct (WritePhysicalPage_small (set_meta dm m) (bitmap_pid e) (encode_bitmap b)
              Hs ltac:(pose proof (bitmap_pid_range e He); lia)) as (_ & _ & Hpage & _).
  unfold bitmap_of. rewrite Hpage.
  destruct (decide (e2 = e)) as [->|Hne].
  - rewrite decide_True by reflexivity. apply decode_encode_bitmap; assumption.
  - rewrite decide_False by (intros Heq; apply Hne, bitmap_pid_inj, Heq). reflexivity.
Qed.

Lemma extent_used_bump used e e2 d :
  0 <= e -> 0 <= e2 -> (Z.to_nat e < length used)%nat ->
  nth0 (bump_extent used e d) (Z.to_nat e2) =
  if decide (e2 = e) then wrap 32 (nth0 used (Z.to_nat e) + d) else nth0 used (Z.to_nat e2).
Proof.
  intros He He2 Hl. unfold bump_extent. rewrite nth0_insert.
  destruct (decide (e2 = e)) as [->|Hne].
  - rewrite decide_True by auto. reflexivity.
  - rewrite decide_False by (intros [Heq _]; apply Hne; lia). reflexivity.
Qed.

Lemma split_page e n :
  0 <= n < BITMAP_SIZE ->
  (e * BITMAP_SIZE + n) / BITMAP_SIZE = e /\ (e * BITMAP_SIZE + n) mod BITMAP_SIZE = n.
Proof.
  intros Hn. rewrite Z.add_comm. split.
  - rewrite Z.div_add by (consts; lia). rewrite Z.div_small by lia. lia.
  - rewrite Z.mod_add by (consts; lia). apply Z.mod_small. lia.
Qed.

Lemma wf_pa_bound b : wf PAGE_SIZE b -> 0 <= page_allocated_ b <= BITMAP_SIZE.
Proof.
  intros (_ & _ & ->). pose proof (allocated_count_bound PAGE_SIZE b) as H.
  rewrite Z2Nat.id in H by (vm_compute; discriminate). exact H.
Qed.

(** Writing the bitmap [b] of extent [e] together with a meta page whose
    counters moved by [d] in that extent keeps the invariant. *)
Lemma inv_write_extent dm ne' e b d :
  let m := meta_data_ dm in
  inv dm -> num_extents_ m <= ne' <= EXTENT_LIMIT -> 0 <= e < ne' ->
  (forall e2, 0 <= e2 < ne' -> e2 <> e -> e2 < num_extents_ m) ->
  wf PAGE_SIZE b -> in_uint 32 (next_free_page_ b) ->
  page_allocated_ b = extent_used m e + d ->
  0 <= num_allocated_pages_ m + d < 2 ^ 32 ->
  inv (WritePhysicalPage
         (set_meta dm {| num_allocated_pages_ := wrap 32 (num_allocated_pages_ m + d);
                         num_extents_ := ne';
                         extent_used_page_ := bump_extent (extent_used_page_ m) e d |})
         (bitmap_pid e) (encode_bitmap b)).
Proof.
  intros m Hinv Hne' He Hold' Hwf Hnf Hpa Hnum. subst m.
  pose proof Hinv as (Hs & Hne & Hlen & Hpos & Hold & Hnew & Hsum).
  set (m := meta_data_ dm) in *.
  pose proof (wf_pa_bound b Hwf) as Hb.
  assert (Hel : (Z.to_nat e < length (extent_used_page_ m))%nat) by (rewrite Hlen; consts; lia).
  assert (Hbpa : in_uint 32 (page_allocated_ b)) by (unfold in_uint; consts; lia).
  assert (Hbump : wrap 32 (nth0 (extent_used_page_ m) (Z.to_nat e) + d) = page_allocated_ b).
  { unfold extent_used in Hpa. rewrite <- Hpa. apply wrap_small. unfold in_uint in Hbpa. lia. }
  match goal with |- inv (WritePhysicalPage ?d _ _) =>
    destruct (WritePhysicalPage_small d (bitmap_pid e) (encode_bitmap b)
                Hs ltac:(pose proof (bitmap_pid_range e ltac:(lia)); lia)) as (Hs' & Hmeta & _ & Hother)
  end.
  unfold inv. rewrite Hmeta. cbn [set_meta meta_data_ num_allocated_pages_ num_extents_ extent_used_page_].
  split; [exact Hs'|]. split; [lia|]. split; [unfold bump_extent; rewrite length_insert; exact Hlen|].
  split; [apply Forall_insert; [exact Hpos | apply wrap_range; lia]|].
  split; [|split].
  - intros e2 He2. rewrite (bitmap_of_write dm _ e b e2 Hs ltac:(lia) Hwf Hbpa Hnf).
    unfold extent_used. cbn [extent_used_page_]. rewrite extent_used_bump by lia.
    destruct (decide (e2 = e)) as [->|Hne2]; [split; [exact Hwf|split; [exact Hnf|exact Hbump]]|].
    apply Hold. specialize (Hold' e2 He2 Hne2). lia.
  - intros e2 He2. rewrite Hother by (intros Heq; apply bitmap_pid_inj in Heq; lia).
    unfold extent_used. cbn [extent_used_page_]. rewrite extent_used_bump by lia.
    rewrite decide_False by lia. apply Hnew. lia.
  - unfold bump_extent. rewrite sumZ_insert by exact Hel. rewrite Hbump, <- Hsum, Hpa.
    rewrite wrap_small by lia. unfold extent_used. lia.
Qed.

Lemma is_free_small dm L :
  small dm -> 0 <= L < EXTENT_LIMIT * BITMAP_SIZE ->
  is_free dm L = BitmapPage.IsPageFree (bitmap_of dm (L / BITMAP_SIZE)) (L mod BITMAP_SIZE).
Proof. intros Hs HL. unfold is_free. rewrite IsPageFree_small by assumption. reflexivity. Qed.

(** [IsPageFree] after the bitmap of extent [e] is written. *)
Lemma is_free_write dm m e b L :
  small dm -> 0 <= e < EXTENT_LIMIT -> wf PAGE_SIZE b ->
  in_uint 32 (page_allocated_ b) -> in_uint 32 (next_free_page_ b) ->
  0 <= L < EXTENT_LIMIT * BITMAP_SIZE ->
  is_free (WritePhysicalPage (set_meta dm m) (bitmap_pid e) (encode_bitmap b)) L =
  if decide (L / BITMAP_SIZE = e) then BitmapPage.IsPageFree b (L mod BITMAP_SIZE)
  else is_free dm L.
Proof.
  intros Hs He Hwf Hpa Hnf HL.
  destruct (WritePhysicalPage_small (set_meta dm m) (bitmap_pid e) (encode_bitmap b) Hs
              ltac:(pose proof (bitmap_pid_range e He); lia)) as (Hs' & _).
  unfold is_free. rewrite !IsPageFree_small by assumption. cbn [snd].
  rewrite (bitmap_of_write dm m e b _ Hs He Hwf Hpa Hnf).
  destruct (decide (L / BITMAP_SIZE = e)); reflexivity.
Qed.

Lemma page_range e n :
  0 <= e < EXTENT_LIMIT -> 0 <= n < BITMAP_SIZE ->
  0 <= e * BITMAP_SIZE + n < EXTENT_LIMIT * BITMAP_SIZE.
Proof. consts. lia. Qed.

Lemma div_range L :
  0 <= L < EXTENT_LIMIT * BITMAP_SIZE ->
  0 <= L / BITMAP_SIZE < EXTENT_LIMIT /\ 0 <= L mod BITMAP_SIZE < BITMAP_SIZE /\
  L = L / BITMAP_SIZE * BITMAP_SIZE + L mod BITMAP_SIZE.
Proof.
  intros HL. consts. split; [split; [apply Z.div_pos | apply Z.div_lt_upper_bound]; lia|].
  split; [apply Z.mod_pos_bound; lia|]. pose proof (Z.div_mod L 32704). lia.
Qed.

(** The extent [AllocatePage] allocates in is opened or not full. *)
Lemma target_extent_spec dm :
  inv dm -> num_extents_ (meta_data_ dm) < EXTENT_LIMIT ->
  let t := target_extent (meta_data_ dm) in
  1 <= t /\ num_extents_ (meta_data_ dm) <= t <= num_extents_ (meta_data_ dm) + 1 /\
  page_allocated_ (bitmap_of dm (t - 1)) < BITMAP_SIZE.
Proof.
  intros Hinv Hne t.
  pose proof Hinv as (_ & Hner & _ & _ & _ & Hnew & _).
  unfold t, target_extent.
  destruct (Z.eqb_spec (num_extents_ (meta_data_ dm)) 0) as [H0|H0]; cbn [orb].
  - destruct (extent_wf dm (num_extents_ (meta_data_ dm) + 1 - 1) Hinv ltac:(lia)) as (_ & _ & Hu).
    pose proof (proj2 (Hnew (num_extents_ (meta_data_ dm) + 1 - 1) ltac:(lia))).
    consts. lia.
  - destruct (Z.leb_spec BITMAP_SIZE (extent_used (meta_data_ dm) (num_extents_ (meta_data_ dm) - 1))).
    + destruct (extent_wf dm (num_extents_ (meta_data_ dm) + 1 - 1) Hinv ltac:(lia)) as (_ & _ & Hu).
      pose proof (proj2 (Hnew (num_extents_ (meta_data_ dm) + 1 - 1) ltac:(lia))).
      consts. lia.
    + destruct (extent_wf dm (num_extents_ (meta_data_ dm) - 1) Hinv ltac:(lia)) as (_ & _ & Hu).
      lia.
Qed.

(** [AllocatePage] below 2 GiB: it returns the lowest free page of the
    extent it picks, marks exactly that page allocated, counts it in the
    meta page and keeps the invariant. *)
Lemma AllocatePage_post dm :
  inv dm -> num_extents_ (meta_data_ dm) < EXTENT_LIMIT ->
  num_allocated_pages_ (meta_data_ dm) < MAX_VALID_PAGE_ID ->
  exists dm' L, AllocatePage dm = (dm', L) /\ inv dm' /\
    0 <= L < EXTENT_LIMIT * BITMAP_SIZE /\ L / BITMAP_SIZE <= num_extents_ (meta_data_ dm) /\
    is_free dm L = true /\ is_free dm' L = false /\
    (forall L2, L / BITMAP_SIZE * BITMAP_SIZE <= L2 < L -> is_free dm L2 = false) /\
    (forall L2, 0 <= L2 < EXTENT_LIMIT * BITMAP_SIZE -> L2 <> L -> is_free dm' L2 = is_free dm L2) /\
    num_allocated_pages_ (meta_data_ dm') = num_allocated_pages_ (meta_data_ dm) + 1.
Proof.
  intros Hinv Hne Hnum.
  pose proof (target_extent_spec dm Hinv Hne) as Ht. cbv zeta in Ht.
  destruct Ht as (Ht1 & Ht & Hfull).
  set (t := target_extent (meta_data_ dm)) in *.
  destruct (extent_wf dm (t - 1) Hinv ltac:(lia)) as (Hwf & _ & Hu).
  pose proof Hinv as (Hs & _ & _ & Hpos & _ & _ & Hsum).
  assert (He : 0 <= t - 1 < EXTENT_LIMIT) by lia.
  unfold AllocatePage. rewrite (proj2 (Z.ltb_lt _ _) Hnum). cbv zeta. fold t.
  rewrite ReadPhysicalPage_small by (auto; pose proof (bitmap_pid_range _ He); lia).
  change (decode_bitmap PAGE_SIZE (file_page dm (bitmap_pid (t - 1)))) with (bitmap_of dm (t - 1)).
  destruct (BitmapPage.AllocatePage_correct PAGE_SIZE HPS_page (bitmap_of dm (t - 1)) Hwf Hfull)
    as (n & bm' & -> & Hn & Hfree & Hlow & Hmap & Hpa' & Hnf' & Hwf').
  cbv beta iota zeta. change (default 0 (Some n)) with n.
  eexists _, _. split; [reflexivity|].
  change (GetMaxSupportedSize PAGE_SIZE) with BITMAP_SIZE in Hn.
  pose proof (sumZ_nonneg _ Hpos). pose proof (wf_pa_bound _ Hwf).
  assert (Hnf : in_uint 32 (next_free_page_ bm')) by (unfold in_uint; consts; lia).
  assert (Hpa : in_uint 32 (page_allocated_ bm')) by (unfold in_uint; consts; lia).
  destruct (split_page (t - 1) n Hn) as [Hdiv Hmod].
  pose proof (page_range (t - 1) n He Hn) as HL.
  split; [|split; [exact HL|split; [rewrite Hdiv; lia|]]].
  { apply inv_write_extent; auto; try lia. unfold MAX_VALID_PAGE_ID in Hnum. consts. lia. }
  rewrite !is_free_write by assumption.
  rewrite Hdiv, Hmod, decide_True by reflexivity.
  rewrite is_free_small by assumption. rewrite Hdiv, Hmod.
  split; [exact Hfree|]. split; [rewrite Hmap, Z.eqb_refl, andb_false_r by lia; reflexivity|].
  split; [|split].
  - intros L2 HL2. rewrite is_free_small by (try assumption; consts; lia).
    destruct (split_page (t - 1) (L2 - (t - 1) * BITMAP_SIZE) ltac:(lia)) as [Hd2 Hm2].
    replace ((t - 1) * BITMAP_SIZE + (L2 - (t - 1) * BITMAP_SIZE)) with L2 in Hd2, Hm2 by lia.
    rewrite Hd2, Hm2. apply Hlow. lia.
  - intros L2 HL2 Hne2. rewrite is_free_write by assumption.
    destruct (div_range L2 HL2) as (Hd2 & Hm2 & Hdm).
    destruct (decide (L2 / BITMAP_SIZE = t - 1)) as [Heq|]; [|reflexivity].
    rewrite is_free_small by assumption. rewrite Heq.
    rewrite Hmap by lia. rewrite (proj2 (Z.eqb_neq _ _)) by (intros Hm; apply Hne2; lia).
    apply andb_true_r.
  - rewrite meta_WritePhysicalPage. cbn [set_meta meta_data_ num_allocated_pages_].
    apply wrap_small. unfold MAX_VALID_PAGE_ID in Hnum. consts. lia.
Qed.

(** The meta counter stays far below [2^32]. *)
Lemma num_allocated_bound dm :
  inv dm -> num_allocated_pages_ (meta_data_ dm) <= NUM_EXTENTS * BITMAP_SIZE.
Proof.
  intros Hinv. pose proof Hinv as (_ & _ & Hlen & _ & _ & _ & ->).
  rewrite <- (Z2Nat.id NUM_EXTENTS) by (consts; lia). rewrite <- Hlen.
  apply sumZ_le, Forall_lookup. intros i x Hi.
  assert (Hl : (i < length (extent_used_page_ (meta_data_ dm)))%nat) by (apply lookup_lt_Some in Hi; exact Hi).
  rewrite nth0_lookup in Hi by exact Hl. injection Hi as <-.
  destruct (extent_wf dm (Z.of_nat i) Hinv ltac:(lia)) as (Hwf & _ & Hu).
  unfold extent_used in Hu. rewrite Nat2Z.id in Hu. rewrite Hu. apply wf_pa_bound, Hwf.
Qed.

(** Pages of an extent that was never opened read as free. *)
Lemma unopened_free dm e j :
  inv dm -> num_extents_ (meta_data_ dm) <= e ->
  BitmapPage.IsPageFree (bitmap_of dm e) j = true.
Proof.
  intros (_ & _ & _ & _ & _ & Hnew & _) He.
  unfold bitmap_of, file_page. rewrite (proj1 (Hnew e He)). simpl default.
  destruct (decode_zero_page PAGE_SIZE ltac:(consts; lia)) as (-> & _ & Hfree). apply Hfree.
Qed.

(** [DeAllocatePage] below 2 GiB: the page is free afterwards, no other
    page changes, the meta counter drops by one exactly when the page was
    allocated, and the invariant is kept. *)
Lemma DeAllocatePage_post dm L :
  inv dm -> 0 <= L < EXTENT_LIMIT * BITMAP_SIZE ->
  let dm' := DeAllocatePage dm L in
  inv dm' /\ is_free dm' L = true /\
  (forall L2, 0 <= L2 < EXTENT_LIMIT * BITMAP_SIZE -> L2 <> L -> is_free dm' L2 = is_free dm L2) /\
  num_allocated_pages_ (meta_data_ dm') =
    num_allocated_pages_ (meta_data_ dm) - (if is_free dm L then 0 else 1).
Proof.
  intros Hinv HL dm'. subst dm'.
  pose proof Hinv as (Hs & Hne & _ & Hpos & _ & _ & Hsum).
  destruct (div_range L HL) as (Hd & Hm & Hdm).
  set (e := L / BITMAP_SIZE) in *.
  unfold DeAllocatePage. rewrite (proj2 (Z.ltb_ge _ _)) by lia.
  rewrite IsPageFree_small by assumption. rewrite (is_free_small dm L) by assumption. fold e.
  destruct (BitmapPage.IsPageFree (bitmap_of dm e) (L mod BITMAP_SIZE)) eqn:Hf.
  { cbv beta iota. split; [exact Hinv|]. split; [rewrite is_free_small by assumption; exact Hf|].
    split; [reflexivity|lia]. }
  assert (Hee : e < num_extents_ (meta_data_ dm)).
  { destruct (Z.ltb_spec e (num_extents_ (meta_data_ dm))); [assumption|].
    rewrite unopened_free in Hf by assumption. discriminate. }
  destruct (extent_wf dm e Hinv ltac:(lia)) as (Hwf & Hnf & Hu).
  rewrite ReadPhysicalPage_small by (auto; pose proof (bitmap_pid_range _ Hd); lia).
  change (decode_bitmap PAGE_SIZE (file_page dm (bitmap_pid e))) with (bitmap_of dm e).
  destruct (BitmapPage.DeAllocatePage_correct PAGE_SIZE HPS_page (bitmap_of dm e) (L mod BITMAP_SIZE) Hwf Hm Hf)
    as (bm' & -> & Hmap & Hpa' & Hnf' & Hwf').
  cbv beta iota zeta.
  pose proof (wf_pa_bound _ Hwf'). pose proof (wf_pa_bound _ Hwf).
  pose proof (nth0_le_sumZ _ (Z.to_nat e) Hpos). pose proof (num_allocated_bound dm Hinv).
  assert (Hpa : in_uint 32 (page_allocated_ bm')) by (unfold in_uint; consts; lia).
  assert (Hnf2 : in_uint 32 (next_free_page_ bm')) by (rewrite Hnf'; exact Hnf).
  split; [|split; [|split]].
  - apply inv_write_extent; auto; try lia. all: unfold extent_used in *; consts; lia.
  - rewrite is_free_write by (auto; lia). fold e. rewrite decide_True by reflexivity.
    rewrite Hmap, Z.eqb_refl, orb_true_r by lia. reflexivity.
  - intros L2 HL2 Hne2. rewrite is_free_write by (auto; lia).
    destruct (div_range L2 HL2) as (Hd2 & Hm2 & Hdm2).
    destruct (decide (L2 / BITMAP_SIZE = e)) as [Heq|]; [|reflexivity].
    rewrite is_free_small by assumption. rewrite Heq, Hmap by lia.
    rewrite (proj2 (Z.eqb_neq _ _)) by (intros Hmm; apply Hne2; lia). apply orb_false_r.
  - rewrite meta_WritePhysicalPage. cbn [set_meta meta_data_ num_allocated_pages_].
    apply wrap_small. unfold extent_used in Hu. consts. lia.
Qed.

(** ** Page-id mapping and the [int] offset of [ReadPhysicalPage] *)

Lemma MapPageId_split L :
  0 <= L ->
  MapPageId L = L / BITMAP_SIZE * (BITMAP_SIZE + 1) + 2 + L mod BITMAP_SIZE /\
  L = BITMAP_SIZE * (L / BITMAP_SIZE) + L mod BITMAP_SIZE /\ 0 <= L mod BITMAP_SIZE < BITMAP_SIZE.
Proof.
  intros HL. rewrite MapPageId_layout by assumption. unfold bitmap_pid.
  split; [lia|]. split; [apply Z.div_mod; consts; lia | apply Z.mod_pos_bound; consts; lia].
Qed.

Lemma MapPageId_ne_bitmap L e : 0 <= L -> MapPageId L <> bitmap_pid e.
Proof.
  intros HL. destruct (MapPageId_split L HL) as (-> & _ & Hm). unfold bitmap_pid. consts. lia.
Qed.

Lemma MapPageId_inj L L' : 0 <= L -> 0 <= L' -> MapPageId L = MapPageId L' -> L = L'.
Proof.
  intros HL HL'. destruct (MapPageId_split L HL) as (-> & Hd & Hm).
  destruct (MapPageId_split L' HL') as (-> & Hd' & Hm'). consts. lia.
Qed.

(** Distinct logical pages map to distinct physical pages, none of
    which is the meta page or a bitmap page. *)
Theorem MapPageId_disjoint L L' e :
  0 <= L -> 0 <= L' ->
  MapPageId L <> META_PAGE_ID /\ MapPageId L <> bitmap_pid e /\
  (MapPageId L = MapPageId L' -> L = L').
Proof.
  intros HL HL'. split; [|split; [apply MapPageId_ne_bitmap, HL | apply MapPageId_inj; assumption]].
  destruct (MapPageId_split L HL) as (-> & _ & Hm). pose proof (Z.div_pos L BITMAP_SIZE ltac:(lia) ltac:(consts; lia)).
  unfold META_PAGE_ID. consts. lia.
Qed.

Lemma read_offset_wrap p : read_offset (p + 2 ^ 20) = read_offset p.
Proof.
  unfold read_offset, wrap, PAGE_SIZE.
  replace ((p + 2 ^ 20) * 4096) with (p * 4096 + 1 * 2 ^ 32) by lia.
  rewrite Z.mod_add by lia. reflexivity.
Qed.

(** The [int] offset wraps at 4 GiB: reading physical page [p + 2^20]
    reads physical page [p]. *)
Theorem ReadPhysicalPage_alias dm p :
  ReadPhysicalPage dm (p + 2 ^ 20) = ReadPhysicalPage dm p.
Proof. unfold ReadPhysicalPage. rewrite read_offset_wrap. reflexivity. Qed.

(** Logical page 1048542 maps to physical page [2^20]; a [ReadPage] of
    it returns the meta page. *)
Theorem ReadPage_meta_alias dm :
  ReadPage dm 1048542 = Some (ReadPhysicalPage dm META_PAGE_ID).
Proof.
  unfold ReadPage. cbn -[ReadPhysicalPage].
  change (MapPageId 1048542) with (0 + 2 ^ 20). rewrite ReadPhysicalPage_alias. reflexivity.
Qed.

Lemma read_offset_negative p : 2 ^ 19 <= p < 2 ^ 20 -> read_offset p < 0.
Proof.
  intros Hp. unfold read_offset, to_signed, wrap, PAGE_SIZE.
  rewrite Z.mod_small by lia. change (2 ^ (32 - 1)) with 2147483648.
  destruct (Z.ltb_spec (p * 4096) 2147483648); lia.
Qed.

(** C40: A read of a physical page between 2 GiB and 4 GiB seeks to a negative
    offset: the stream fails, and from then on every read returns zeros
    and every write is lost. *)
Theorem ReadPhysicalPage_poisons dm p :
  2 ^ 19 <= p < 2 ^ 20 -> 0 <= GetFileSize dm ->
  let dm1 := fst (ReadPhysicalPage dm p) in
  stream_failed dm1 = true /\
  (forall q d, WritePhysicalPage dm1 q d = dm1) /\
  (forall q, snd (ReadPhysicalPage dm1 q) = zero_page PAGE_SIZE).
Proof.
  intros Hp Hsz dm1. pose proof (read_offset_negative p Hp) as Hneg.
  assert (Hdm1 : dm1 = {| meta_data_ := meta_data_ dm; file := file dm;
                          file_size := file_size dm; stream_failed := true |}).
  { unfold dm1, ReadPhysicalPage.
    rewrite (proj2 (Z.leb_gt _ _)) by lia. rewrite (proj2 (Z.ltb_lt _ _)) by lia. reflexivity. }
  rewrite Hdm1. split; [reflexivity|]. split; [reflexivity|].
  intros q. unfold ReadPhysicalPage.
  destruct (_ <=? _); [reflexivity|]. destruct (_ <? _); reflexivity.
Qed.

(** Below 2 GiB a logical page reads back what was last written to it. *)
Theorem WritePage_ReadPage dm L d :
  small dm -> 0 <= L -> MapPageId L < PHYS_LIMIT ->
  exists dm', WritePage dm L d = Some dm' /\ ReadPage dm' L = Some (dm', d).
Proof.
  intros Hs HL Hp. unfold WritePage, ReadPage. rewrite (proj2 (Z.ltb_ge _ _)) by lia.
  assert (H2 : 0 <= MapPageId L) by (unfold MapPageId; pose proof (Z.div_pos L BITMAP_SIZE); consts; lia).
  destruct (WritePhysicalPage_small dm (MapPageId L) d Hs ltac:(lia)) as (Hs' & _ & Hpage & _).
  eexists. split; [reflexivity|].
  rewrite ReadPhysicalPage_small by (auto; lia). rewrite Hpage, decide_True by reflexivity.
  reflexivity.
Qed.

(** ** The meta page on disk *)

Lemma file_ReadPhysicalPage dm p : file (fst (ReadPhysicalPage dm p)) = file dm.
Proof.
  unfold ReadPhysicalPage. destruct (_ <=? _); [reflexivity|].
  destruct (_ <? _); [reflexivity|]. destruct (stream_failed dm); reflexivity.
Qed.

Lemma file_WritePhysicalPage_ne dm p q d :
  q <> p -> file (WritePhysicalPage dm p d) !! q = file dm !! q.
Proof.
  intros Hne. unfold WritePhysicalPage. destruct (stream_failed dm); [reflexivity|].
  apply lookup_insert_ne. congruence.
Qed.

Lemma bitmap_pid_not_meta e : META_PAGE_ID <> bitmap_pid e.
Proof. unfold bitmap_pid. consts. lia. Qed.

(** [AllocatePage] and [DeAllocatePage] write bitmap pages only. *)
Lemma file_AllocatePage_other dm q :
  (forall e, q <> bitmap_pid e) -> file (fst (AllocatePage dm)) !! q = file dm !! q.
Proof.
  intros Hq. unfold AllocatePage. destruct (_ <? _); [|reflexivity]. cbv zeta.
  pose proof (file_ReadPhysicalPage dm (bitmap_pid (target_extent (meta_data_ dm) - 1))) as Hf.
  destruct (ReadPhysicalPage dm _) as [dm1 data]. simpl fst in Hf.
  destruct (BitmapPage.AllocatePage _ _) as [res bm]. simpl fst.
  rewrite file_WritePhysicalPage_ne by apply Hq. cbn [set_meta file]. now rewrite Hf.
Qed.

Lemma file_DeAllocatePage_other dm L q :
  (forall e, q <> bitmap_pid e) -> file (DeAllocatePage dm L) !! q = file dm !! q.
Proof.
  intros Hq. unfold DeAllocatePage, IsPageFree. destruct (L <? 0); [reflexivity|].
  pose proof (file_ReadPhysicalPage dm (bitmap_pid (L / BITMAP_SIZE))) as Hf.
  destruct (ReadPhysicalPage dm _) as [dm1 data]. simpl fst in Hf.
  destruct (BitmapPage.IsPageFree _ _); [cbn; now rewrite Hf|].
  pose proof (file_ReadPhysicalPage dm1 (bitmap_pid (L / BITMAP_SIZE))) as Hf2.
  destruct (ReadPhysicalPage dm1 _) as [dm2 data2]. simpl fst in Hf2.
  destruct (BitmapPage.DeAllocatePage _ _ _) as [ok bm].
  rewrite file_WritePhysicalPage_ne by apply Hq. cbn [set_meta file].
  now rewrite Hf2, Hf.
Qed.

(** Neither [AllocatePage] nor [DeAllocatePage] writes physical page 0:
    the meta page is only ever updated in memory. *)
Theorem meta_page_untouched dm L :
  file (fst (AllocatePage dm)) !! META_PAGE_ID = file dm !! META_PAGE_ID /\
  file (DeAllocatePage dm L) !! META_PAGE_ID = file dm !! META_PAGE_ID.
Proof.
  split; [apply file_AllocatePage_other | apply file_DeAllocatePage_other];
    intros e; apply bitmap_pid_not_meta.
Qed.

Lemma decode_meta_zero : decode_meta (zero_page PAGE_SIZE) = empty_meta.
Proof. vm_compute. reflexivity. Qed.

(** Reopening a file whose meta page was never written starts from an
    empty meta page, whatever the bitmaps on disk say. *)
Theorem open_file_unwritten_meta f size :
  f !! META_PAGE_ID = None ->
  meta_data_ (open_file f size) = empty_meta.
Proof.
  intros Hf. unfold open_file.
  destruct (ReadPhysicalPage _ _) as [dm1 page] eqn:E. cbn [set_meta meta_data_].
  unfold ReadPhysicalPage in E.
  repeat match type of E with context [if ?b then _ else _] => destruct b end;
    injection E as _ <-; try apply decode_meta_zero.
  unfold file_page. cbn [file]. replace (read_offset META_PAGE_ID / PAGE_SIZE) with META_PAGE_ID
    by reflexivity. rewrite Hf. apply decode_meta_zero.
Qed.

(** ** A fresh database file *)

Lemma fresh_eq :
  fresh = {| meta_data_ := empty_meta; file := ∅; file_size := 0; stream_failed := false |}.
Proof. vm_compute. reflexivity. Qed.

Lemma nth0_replicate_0 n i : nth0 (replicate n 0) i = 0.
Proof.
  unfold nth0. destruct (decide (i < n)%nat).
  - rewrite lookup_replicate_2 by lia. reflexivity.
  - rewrite (proj1 (lookup_replicate_None n 0 i)) by lia. reflexivity.
Qed.

Lemma inv_fresh : inv fresh.
Proof.
  rewrite fresh_eq. unfold inv, small. cbn [meta_data_ file file_size stream_failed empty_meta
    num_extents_ num_allocated_pages_ extent_used_page_].
  split; [split; [reflexivity|split; [consts; lia|intros p d Hp; discriminate Hp]]|].
  split; [consts; lia|]. split; [apply length_replicate|].
  split; [apply Forall_replicate; lia|]. split; [intros e He; lia|].
  split; [intros e _; split; [reflexivity|apply nth0_replicate_0]|].
  vm_compute. reflexivity.
Qed.

(** ** Runs from a fresh file *)

(** Three allocations from a fresh file hand out pages 0, 1, 2; after page
    1 is deallocated the next allocation reuses it. *)
Example fresh_allocation_sequence :
  let '(d1, p0) := AllocatePage fresh in
  let '(d2, p1) := AllocatePage d1 in
  let '(d3, p2) := AllocatePage d2 in
  let d4 := DeAllocatePage d3 1 in
  let '(_, p3) := AllocatePage d4 in
  [p0; p1; p2; p3] = [0; 1; 2; 1] /\
  num_allocated_pages_ (meta_data_ d3) = 3 /\ num_allocated_pages_ (meta_data_ d4) = 2.
Proof. vm_compute. split; [reflexivity|split; reflexivity]. Qed.

(** The meta page is never written, so reopening the file after three
    allocations reads an empty meta page (no extent opened, no page
    allocated) while extent 0's bitmap on disk marks the pages allocated:
    the reopened manager violates the clause of [inv] that unopened
    extents have no bitmap page. *)
Example reopen_forgets_allocations :
  let '(d1, _) := AllocatePage fresh in
  let '(d2, _) := AllocatePage d1 in
  let '(d3, _) := AllocatePage d2 in
  let r := open_file (file d3) (file_size d3) in
  num_allocated_pages_ (meta_data_ d3) = 3 /\
  num_allocated_pages_ (meta_data_ r) = 0 /\ num_extents_ (meta_data_ r) = 0 /\
  is_free r 0 = false /\ file r !! bitmap_pid 0 <> None.
Proof. vm_compute. repeat split; discriminate. Qed.

(** ** Data pages *)

(** The bytes of logical page [L] in the file. *)
Definition content (dm : DiskManager) (L : Z) : list Z := file_page dm (MapPageId L).

(** Logical pages whose physical page lies below 2 GiB. *)
Definition in_range (L : Z) : Prop := 0 <= L /\ MapPageId L < PHYS_LIMIT.

Lemma in_range_phys L : in_range L -> 0 <= MapPageId L < PHYS_LIMIT.
Proof.
  intros [HL Hp]. split; [|exact Hp].
  destruct (MapPageId_split L HL) as (-> & _ & Hm). pose proof (Z.div_pos L BITMAP_SIZE ltac:(lia) ltac:(consts; lia)).
  consts. lia.
Qed.

Lemma in_range_extent L : in_range L -> 0 <= L < EXTENT_LIMIT * BITMAP_SIZE.
Proof. intros [HL Hp]. unfold MapPageId in Hp. pose proof (Z.div_pos L BITMAP_SIZE ltac:(lia) ltac:(consts; lia)). consts. lia. Qed.

Lemma ReadPage_content dm L :
  small dm -> in_range L -> ReadPage dm L = Some (dm, content dm L).
Proof.
  intros Hs HL. pose proof (in_range_phys L HL). unfold ReadPage.
  rewrite (proj2 (Z.ltb_ge _ _)) by (destruct HL; lia).
  rewrite ReadPhysicalPage_small by assumption. reflexivity.
Qed.

Lemma content_AllocatePage dm L : 0 <= L -> content (fst (AllocatePage dm)) L = content dm L.
Proof.
  intros HL. unfold content, file_page. rewrite file_AllocatePage_other; [reflexivity|].
  intros e. apply MapPageId_ne_bitmap, HL.
Qed.

Lemma content_DeAllocatePage dm L L2 : 0 <= L2 -> content (DeAllocatePage dm L) L2 = content dm L2.
Proof.
  intros HL. unfold content, file_page. rewrite file_DeAllocatePage_other; [reflexivity|].
  intros e. apply MapPageId_ne_bitmap, HL.
Qed.

(** A [WritePage] below 2 GiB changes the content of that page only and
    keeps the invariant and every allocation bit. *)
Lemma WritePage_spec dm L d :
  inv dm -> in_range L ->
  exists dm', WritePage dm L d = Some dm' /\ inv dm' /\
    meta_data_ dm' = meta_data_ dm /\
    (forall L2, 0 <= L2 -> content dm' L2 = if decide (L2 = L) then d else content dm L2) /\
    (forall L2, 0 <= L2 < EXTENT_LIMIT * BITMAP_SIZE -> is_free dm' L2 = is_free dm L2).
Proof.
  intros Hinv HL. pose proof (in_range_phys L HL) as Hp.
  pose proof Hinv as (Hs & Hne & Hlen & Hpos & Hold & Hnew & Hsum).
  destruct (WritePhysicalPage_small dm (MapPageId L) d Hs Hp) as (Hs' & Hmeta & Hpage & Hother).
  assert (Hbm : forall e, bitmap_of (WritePhysicalPage dm (MapPageId L) d) e = bitmap_of dm e).
  { intros e. unfold bitmap_of. rewrite Hpage, decide_False; [reflexivity|].
    intros Heq. apply (MapPageId_ne_bitmap L e); [apply HL | symmetry; exact Heq]. }
  unfold WritePage. rewrite (proj2 (Z.ltb_ge _ _)) by (destruct HL; lia).
  eexists. split; [reflexivity|]. split; [|split; [exact Hmeta|split]].
  - unfold inv. rewrite Hmeta. split; [exact Hs'|]. do 3 (split; [assumption|]).
    split; [intros e He; rewrite Hbm; apply Hold, He|]. split; [|exact Hsum].
    intros e He. rewrite Hother; [apply Hnew, He|].
    intros Heq. apply (MapPageId_ne_bitmap L e); [apply HL | symmetry; exact Heq].
  - intros L2 HL2. unfold content. rewrite Hpage.
    destruct (decide (L2 = L)) as [->|Hne2]; [apply decide_True; reflexivity|].
    rewrite decide_False; [reflexivity|]. intros Heq. apply Hne2, MapPageId_inj; [exact HL2 | apply HL | exact Heq].
  - intros L2 HL2. rewrite !is_free_small by assumption. rewrite Hbm. reflexivity.
Qed.

(** C5: [AllocatePage] below 2 GiB keeps the invariant and returns a page
    that was free, the lowest free page of its extent, now allocated; it
    counts the page in the meta page, changes no other allocation bit and
    leaves the content of every data page as it was. *)
Theorem AllocatePage_spec dm :
  inv dm -> num_extents_ (meta_data_ dm) < EXTENT_LIMIT ->
  num_allocated_pages_ (meta_data_ dm) < MAX_VALID_PAGE_ID ->
  exists dm' L, AllocatePage dm = (dm', L) /\ inv dm' /\
    0 <= L < EXTENT_LIMIT * BITMAP_SIZE /\
    is_free dm L = true /\ is_free dm' L = false /\
    (forall L2, L / BITMAP_SIZE * BITMAP_SIZE <= L2 < L -> is_free dm L2 = false) /\
    (forall L2, 0 <= L2 < EXTENT_LIMIT * BITMAP_SIZE -> L2 <> L -> is_free dm' L2 = is_free dm L2) /\
    num_allocated_pages_ (meta_data_ dm') = num_allocated_pages_ (meta_data_ dm) + 1 /\
    (forall L2, 0 <= L2 -> content dm' L2 = content dm L2).
Proof.
  intros Hinv Hne Hnum.
  destruct (AllocatePage_post dm Hinv Hne Hnum) as (dm' & L & Heq & Hinv' & HL & _ & H1 & H2 & H3 & H4 & H5).
  exists dm', L. do 8 (split; [assumption|]).
  intros L2 HL2. pose proof (content_AllocatePage dm L2 HL2) as Hc. rewrite Heq in Hc. exact Hc.
Qed.

(** C6: [DeAllocatePage] below 2 GiB keeps the invariant, leaves the page
    free, changes no other allocation bit, decrements the meta counter
    exactly when the page was allocated, and leaves the content of every
    data page as it was. *)
Theorem DeAllocatePage_spec dm L :
  inv dm -> 0 <= L < EXTENT_LIMIT * BITMAP_SIZE ->
  let dm' := DeAllocatePage dm L in
  inv dm' /\ is_free dm' L = true /\
  (forall L2, 0 <= L2 < EXTENT_LIMIT * BITMAP_SIZE -> L2 <> L -> is_free dm' L2 = is_free dm L2) /\
  num_allocated_pages_ (meta_data_ dm') =
    num_allocated_pages_ (meta_data_ dm) - (if is_free dm L then 0 else 1) /\
  (forall L2, 0 <= L2 -> content dm' L2 = content dm L2).
Proof.
  intros Hinv HL dm'. destruct (DeAllocatePage_post dm L Hinv HL) as (H1 & H2 & H3 & H4).
  do 4 (split; [assumption|]). intros L2 HL2. apply content_DeAllocatePage, HL2.
Qed.

(** ** Instances on a fresh file *)

Lemma AllocatePage_spec_witness :
  exists dm' L, AllocatePage fresh = (dm', L) /\ inv dm' /\ is_free fresh L = true /\
    is_free dm' L = false.
Proof.
  destruct (AllocatePage_spec fresh inv_fresh ltac:(vm_compute; reflexivity) ltac:(vm_compute; reflexivity))
    as (dm' & L & Heq & Hinv & _ & Hf & Hf' & _).
  exists dm', L. auto.
Defined.

Lemma DeAllocatePage_spec_witness :
  inv (DeAllocatePage fresh 0) /\ is_free (DeAllocatePage fresh 0) 0 = true.
Proof.
  destruct (DeAllocatePage_spec fresh 0 inv_fresh ltac:(vm_compute; split; [discriminate|reflexivity]))
    as (Hinv & Hf & _). auto.
Defined.

Lemma MapPageId_disjoint_witness : MapPageId 5 <> bitmap_pid 0 /\ MapPageId 32704 <> META_PAGE_ID.
Proof.
  split; [apply (MapPageId_disjoint 5 5 0); lia | apply (MapPageId_disjoint 32704 0 0); lia].
Defined.

Lemma ReadPhysicalPage_poisons_witness :
  stream_failed (fst (ReadPhysicalPage fresh (2 ^ 19))) = true.
Proof.
  apply (ReadPhysicalPage_poisons fresh (2 ^ 19)); [lia | vm_compute; discriminate].
Defined.

Lemma WritePage_ReadPage_witness :
  exists dm', WritePage fresh 7 [1; 2; 3] = Some dm' /\ ReadPage dm' 7 = Some (dm', [1; 2; 3]).
Proof.
  apply WritePage_ReadPage; [exact (proj1 inv_fresh) | lia | vm_compute; reflexivity].
Defined.

Lemma open_file_unwritten_meta_witness : meta_data_ (open_file ∅ 0) = empty_meta.
Proof. apply open_file_unwritten_meta. reflexivity. Defined.

End DiskManager.
