(* ===== verification/Replacer.v ===== *)
(** * The replacer interface (buffer/replacer.h)

    The buffer pool talks to its replacer through the abstract C++ class
    [Replacer] (virtual [Victim], [Pin], [Unpin], [Size]).  Here the class
    is a typeclass of operations, [Replacer], and a typeclass of laws,
    [ReplacerLaws], stated on the set of frame ids the replacer holds
    ([r_elems]).  The buffer pool's theorems are proved against these
    laws; [LRUReplacer] provides the instance.  [r_unpin] returns [None]
    where the implementation has undefined behaviour. *)

From Stdlib Require Import ZArith List.
From stdpp Require Import base list.
From S2P Require Import Spec2Rocq.
Import ListNotations.
Open Scope Z_scope.

Class Replacer (R : Type) := {
  r_victim : R -> option Z * R;
  r_pin : R -> Z -> R;
  r_unpin : R -> Z -> option R;
  r_size : R -> nat;
  (** The frame ids the replacer holds, and how many it may hold. *)
  r_elems : R -> list Z;
  r_capacity : R -> nat;
  (** The replacer's own well-formedness. *)
  r_ok : R -> Prop
}.

Class ReplacerLaws (R : Type) `{Replacer R} := {
  r_ok_elems r : r_ok r ->
    NoDup (r_elems r) /\ r_size r = length (r_elems r) /\ (r_size r <= r_capacity r)%nat;
  r_victim_Some r f r' : r_ok r -> r_victim r = (Some f, r') ->
    f ∈ r_elems r /\ r_ok r' /\ r_capacity r' = r_capacity r /\
    (forall x, x ∈ r_elems r' <-> x ∈ r_elems r /\ x <> f);
  r_victim_None r r' : r_ok r -> r_victim r = (None, r') -> r_elems r = [] /\ r' = r;
  r_pin_spec r f : r_ok r ->
    r_ok (r_pin r f) /\ r_capacity (r_pin r f) = r_capacity r /\
    (forall x, x ∈ r_elems (r_pin r f) <-> x ∈ r_elems r /\ x <> f);
  r_unpin_spec r f : r_ok r -> f ∈ r_elems r \/ (r_size r < r_capacity r)%nat ->
    exists r', r_unpin r f = Some r' /\ r_ok r' /\ r_capacity r' = r_capacity r /\
      (forall x, x ∈ r_elems r' <-> x ∈ r_elems r \/ x = f)
}.
