(* ===== verification/LRUReplacer.v ===== *)
(** * The LRU replacer (buffer/lru_replacer.cpp)

    [LRUReplacer] is the C++ object: the [vector<int> lru_list] of
    frame ids, most recently unpinned at the front, and
    [max_supported_list_size] (the pool size).  [Victim], [Pin], [Unpin]
    and [Size] translate the methods; [Unpin] is [None] where it calls
    [pop_back] on an empty vector (a replacer of capacity 0).  The
    instance [lru_replacer_laws] discharges the interface of [Replacer];
    [Unpin_evicts_lru] and [LRU_order] describe the recency order. *)

From Stdlib Require Import ZArith Lia List.
From stdpp Require Import base list sets.
From S2P Require Import Spec2Rocq Replacer.
Import ListNotations.
Open Scope Z_scope.

Module LRUReplacer.

Record LRUReplacer := mkLRUReplacer {
  lru_list : list Z;
  max_supported_list_size : nat
}.

(** [LRUReplacer(num_pages)]. *)
Definition create (num_pages : nat) : LRUReplacer := mkLRUReplacer [] num_pages.

(** [Size]. *)
Definition Size (r : LRUReplacer) : nat := length (lru_list r).

(** [Victim]: the back of the vector, popped. *)
Definition Victim (r : LRUReplacer) : option Z * LRUReplacer :=
  match pop_back (lru_list r) with
  | Some (f, l) => (Some f, mkLRUReplacer l (max_supported_list_size r))
  | None => (None, r)
  end.

(** [Pin]: erase the first occurrence, if any. *)
Definition Pin (r : LRUReplacer) (frame_id : Z) : LRUReplacer :=
  mkLRUReplacer (erase_first frame_id (lru_list r)) (max_supported_list_size r).

(** [Unpin]: when absent, [pop_back] if full, then insert at the front. *)
Definition Unpin (r : LRUReplacer) (frame_id : Z) : option LRUReplacer :=
  if existsb (Z.eqb frame_id) (lru_list r) then Some r
  else if Nat.eqb (Size r) (max_supported_list_size r) then
    match pop_back (lru_list r) with
    | Some (_, l) => Some (mkLRUReplacer (frame_id :: l) (max_supported_list_size r))
    | None => None
    end
  else Some (mkLRUReplacer (frame_id :: lru_list r) (max_supported_list_size r)).

Definition ok (r : LRUReplacer) : Prop :=
  NoDup (lru_list r) /\ (length (lru_list r) <= max_supported_list_size r)%nat.

#[export] Instance lru_replacer : Replacer LRUReplacer := {|
  r_victim := Victim; r_pin := Pin; r_unpin := Unpin; r_size := Size;
  r_elems := lru_list; r_capacity := max_supported_list_size; r_ok := ok |}.

(** A sequence of [Unpin] calls, and [n] calls of [Victim] collecting
    the frames they return. *)
Fixpoint Unpin_all (r : LRUReplacer) (fs : list Z) : option LRUReplacer :=
  match fs with
  | [] => Some r
  | f :: fs' => match Unpin r f with Some r' => Unpin_all r' fs' | None => None end
  end.

Fixpoint victims (n : nat) (r : LRUReplacer) : list Z :=
  match n with
  | O => []
  | S n' => match Victim r with (Some f, r') => f :: victims n' r' | (None, _) => [] end
  end.

(** ** Lemmas *)

Lemma existsb_eqb_false f l : existsb (Z.eqb f) l = false <-> f ∉ l.
Proof.
  rewrite <- not_true_iff_false, existsb_exists, list_elem_of_In.
  split; intros H Hin; apply H.
  - exists f. split; [exact Hin | apply Z.eqb_refl].
  - destruct Hin as (y & Hy & Heq). apply Z.eqb_eq in Heq. subst. exact Hy.
Qed.

Lemma existsb_eqb_true f l : existsb (Z.eqb f) l = true <-> f ∈ l.
Proof.
  split; intros H.
  - destruct (decide (f ∈ l)) as [|Hn]; [assumption|].
    apply existsb_eqb_false in Hn. congruence.
  - destruct (existsb (Z.eqb f) l) eqn:E; [reflexivity|].
    apply existsb_eqb_false in E. contradiction.
Qed.

(** [Unpin] of an absent frame with room left puts it at the front. *)
Lemma Unpin_fresh r f :
  f ∉ lru_list r -> (Size r < max_supported_list_size r)%nat ->
  Unpin r f = Some (mkLRUReplacer (f :: lru_list r) (max_supported_list_size r)).
Proof.
  intros Hf Hs. unfold Unpin. rewrite (proj2 (existsb_eqb_false _ _) Hf).
  rewrite (proj2 (Nat.eqb_neq _ _)) by lia. reflexivity.
Qed.

Lemma Unpin_present r f : f ∈ lru_list r -> Unpin r f = Some r.
Proof. intros Hf. unfold Unpin. rewrite (proj2 (existsb_eqb_true _ _) Hf). reflexivity. Qed.

Lemma Unpin_all_fresh l cap fs :
  NoDup (fs ++ l) -> (length fs + length l <= cap)%nat ->
  Unpin_all (mkLRUReplacer l cap) fs = Some (mkLRUReplacer (rev fs ++ l) cap).
Proof.
  revert l; induction fs as [|f fs IH]; intros l Hnd Hlen; [reflexivity|].
  simpl in Hnd, Hlen. apply NoDup_cons in Hnd as [Hf Hnd].
  cbn [Unpin_all]. rewrite Unpin_fresh by (unfold Size; simpl; first [set_solver | lia]).
  rewrite IH; [cbn [rev]; rewrite <- app_assoc; reflexivity | |simpl; lia].
  apply NoDup_app in Hnd as (Hfs & Hdis & Hl). apply NoDup_app. split; [exact Hfs|]. split.
  - intros x Hx Hx'. apply elem_of_cons in Hx' as [->|Hx']; [apply Hf; set_solver|].
    exact (Hdis x Hx Hx').
  - apply NoDup_cons. split; [set_solver | exact Hl].
Qed.

Lemma victims_rev m cap : victims (length m) (mkLRUReplacer (rev m) cap) = m.
Proof.
  induction m as [|x m IH]; [reflexivity|].
  cbn [length victims rev]. unfold Victim. cbn [lru_list max_supported_list_size].
  rewrite pop_back_app. f_equal. exact IH.
Qed.

(** ** The interface *)

#[export] Instance lru_replacer_laws : ReplacerLaws LRUReplacer.
Proof.
  split; cbn [r_ok r_elems r_size r_capacity r_victim r_pin r_unpin lru_replacer].
  - intros r (Hnd & Hl). unfold Size. auto.
  - intros r f r' (Hnd & Hl). unfold Victim.
    destruct (pop_back (lru_list r)) as [[x l]|] eqn:E; intros H; [|discriminate].
    injection H as <- <-. apply pop_back_Some in E. rewrite E in Hnd, Hl |- *.
    cbn [lru_list max_supported_list_size]. rewrite length_app in Hl; simpl in Hl.
    apply NoDup_app in Hnd as (Hnd & Hdis & _).
    split; [set_solver|]. split; [split; [exact Hnd | simpl; lia]|]. split; [reflexivity|].
    intros y. split; [intros Hy; split; [set_solver | intros ->; exact (Hdis x Hy ltac:(set_solver))]|].
    intros [Hy Hne]. apply elem_of_app in Hy as [Hy|Hy]; [exact Hy | set_solver].
  - intros r r' _. unfold Victim.
    destruct (pop_back (lru_list r)) as [[x l]|] eqn:E; intros H; [discriminate|].
    injection H as <-. split; [apply pop_back_None, E | reflexivity].
  - intros r f (Hnd & Hl). unfold Pin. cbn [lru_list max_supported_list_size].
    destruct (erase_first_NoDup f _ Hnd) as [Hnd' Hnot].
    split; [split; [exact Hnd'|]|split; [reflexivity|]].
    + simpl. destruct (decide (f ∈ lru_list r)) as [Hin|Hout];
        [rewrite length_erase_first by exact Hin | rewrite erase_first_notin by exact Hout]; lia.
    + intros y. split; [intros Hy; split; [exact (elem_of_erase_first _ _ _ Hy) | intros ->; contradiction]|].
      intros [Hy Hne]. apply elem_of_erase_first_ne; assumption.
  - intros r f (Hnd & Hl) Hcase.
    destruct (decide (f ∈ lru_list r)) as [Hin|Hout].
    + exists r. rewrite Unpin_present by exact Hin. split; [reflexivity|].
      split; [split; assumption|]. split; [reflexivity|]. intros y. split; [auto|].
      intros [Hy| ->]; assumption.
    + destruct Hcase as [Hin|Hs]; [contradiction|]. rewrite Unpin_fresh by assumption.
      eexists. split; [reflexivity|]. cbn [lru_list max_supported_list_size].
      split; [split; [apply NoDup_cons; split; assumption | unfold Size in Hs; simpl; lia]|].
      split; [reflexivity|]. intros y. rewrite elem_of_cons. tauto.
Qed.

(** ** Recency order *)

(** [Unpin] of an absent frame into a full replacer evicts the least
    recently unpinned frame (the back of the vector) and puts the new
    frame at the front. *)
Theorem Unpin_evicts_lru r f l x :
  lru_list r = l ++ [x] -> f ∉ lru_list r -> Size r = max_supported_list_size r ->
  Unpin r f = Some (mkLRUReplacer (f :: l) (max_supported_list_size r)).
Proof.
  intros Hl Hf Hs. unfold Unpin. rewrite (proj2 (existsb_eqb_false _ _) Hf).
  rewrite Hs, Nat.eqb_refl, Hl, pop_back_app. reflexivity.
Qed.

(** Frames unpinned one after the other into a fresh replacer with
    room for all of them come out of [Victim] in the order they were
    unpinned: the least recently unpinned frame is the victim. *)
Theorem LRU_order cap fs :
  NoDup fs -> (length fs <= cap)%nat ->
  exists r, Unpin_all (create cap) fs = Some r /\ Size r = length fs /\
    victims (length fs) r = fs.
Proof.
  intros Hnd Hlen. unfold create.
  rewrite Unpin_all_fresh by (rewrite ?app_nil_r; simpl; first [exact Hnd | lia]).
  eexists. split; [reflexivity|]. rewrite app_nil_r. unfold Size; cbn [lru_list].
  rewrite length_rev. split; [reflexivity|]. exact (victims_rev fs cap).
Qed.

Lemma LRU_order_witness :
  exists r, Unpin_all (create 3) [3; 1; 2] = Some r /\ victims 3 r = [3; 1; 2].
Proof.
  destruct (LRU_order 3 [3; 1; 2] ltac:(repeat constructor; set_solver) ltac:(simpl; lia))
    as (r & Hr & _ & Hv). exists r. auto.
Defined.

Lemma Unpin_evicts_lru_witness :
  Unpin (mkLRUReplacer [1; 2] 2) 3 = Some (mkLRUReplacer [3; 1] 2).
Proof.
  apply (Unpin_evicts_lru (mkLRUReplacer [1; 2] 2) 3 [1] 2); [reflexivity | set_solver | reflexivity].
Defined.

End LRUReplacer.
