(* ===== verification/BufferPool.v ===== *)
(** * The buffer pool manager (buffer/buffer_pool_manager.cpp)

    [BufferPoolManager] is the C++ object: the frame array [pages_], the
    page table [page_table_] (an [unordered_map] from logical page id to
    frame id, a [gmap] here), the [free_list_] of frame ids, the replacer
    and the disk manager.  The operations are generic in the replacer
    through the [Replacer] interface.  Each operation returns [None]
    where the C++ code has undefined behaviour (an index of [pages_] out
    of range, [pop_back] on an empty replacer, a signed overflow of a pin
    count) or fails the [ASSERT] of the disk manager; otherwise the new
    state and the C++ result (a frame id for a [Page*], [None] for
    [nullptr]).  [Page] (page/page.h) is not under src/: its fields and
    [ResetMemory] are modelled from the spec. *)

From Stdlib Require Import ZArith Lia List.
From stdpp Require Import base list sets gmap.
From S2P Require Import Spec2Rocq Bitmap DiskManager Replacer LRUReplacer.
Import ListNotations.
Open Scope Z_scope.

Module BufferPool.
Import DiskManager.

(** [INT_MAX]: a pin count is an [int]. *)
Definition INT_MAX : Z := 2 ^ 31 - 1.

(** A frame: [Page] with its data buffer. *)
Record Page := mkPage {
  page_id_ : Z;
  pin_count_ : Z;
  is_dirty_ : bool;
  data_ : list Z
}.

(** [Page()]: no page, unpinned, clean, zeroed. *)
Definition empty_page : Page := mkPage INVALID_PAGE_ID 0 false (zero_page PAGE_SIZE).

(** [Page::ResetMemory]: [memset(data_, 0, PAGE_SIZE)]. *)
Definition ResetMemory (p : Page) : Page :=
  mkPage (page_id_ p) (pin_count_ p) (is_dirty_ p) (zero_page PAGE_SIZE).

Record BufferPoolManager (R : Type) := mkBPM {
  pool_size_ : nat;
  pages_ : list Page;
  page_table_ : gmap Z Z;
  free_list_ : list Z;
  replacer_ : R;
  disk_manager_ : DiskManager
}.
Arguments mkBPM {R}.
Arguments pool_size_ {R}. Arguments pages_ {R}. Arguments page_table_ {R}.
Arguments free_list_ {R}. Arguments replacer_ {R}. Arguments disk_manager_ {R}.

(** [unordered_map::insert]: no effect when the key is present. *)
Definition um_insert (k v : Z) (m : gmap Z Z) : gmap Z Z :=
  match m !! k with Some _ => m | None => <[k := v]> m end.

Section Operations.
Context {R : Type} `{Replacer R}.
Implicit Types (bpm : BufferPoolManager R).

(** [pages_[frame_id]]; undefined out of range. *)
Definition get_page bpm (frame_id : Z) : option Page :=
  if frame_id <? 0 then None else pages_ bpm !! Z.to_nat frame_id.

Definition set_page bpm (frame_id : Z) (p : Page) : BufferPoolManager R :=
  mkBPM (pool_size_ bpm) (<[Z.to_nat frame_id := p]> (pages_ bpm)) (page_table_ bpm)
        (free_list_ bpm) (replacer_ bpm) (disk_manager_ bpm).

Definition set_table bpm (t : gmap Z Z) : BufferPoolManager R :=
  mkBPM (pool_size_ bpm) (pages_ bpm) t (free_list_ bpm) (replacer_ bpm) (disk_manager_ bpm).

Definition set_free bpm (fl : list Z) : BufferPoolManager R :=
  mkBPM (pool_size_ bpm) (pages_ bpm) (page_table_ bpm) fl (replacer_ bpm) (disk_manager_ bpm).

Definition set_replacer bpm (r : R) : BufferPoolManager R :=
  mkBPM (pool_size_ bpm) (pages_ bpm) (page_table_ bpm) (free_list_ bpm) r (disk_manager_ bpm).

Definition set_disk bpm (d : DiskManager) : BufferPoolManager R :=
  mkBPM (pool_size_ bpm) (pages_ bpm) (page_table_ bpm) (free_list_ bpm) (replacer_ bpm) d.

(** [BufferPoolManager(pool_size, disk_manager)]. *)
Definition create (pool_size : nat) (r : R) (dm : DiskManager) : BufferPoolManager R :=
  mkBPM pool_size (replicate pool_size empty_page) ∅
        (map Z.of_nat (seq 0 pool_size)) r dm.

(** The victim frame: the front of the free list first, then the
    replacer; [None] when neither has one. *)
Definition pick_frame bpm : option Z * BufferPoolManager R :=
  match free_list_ bpm with
  | f :: fl => (Some f, set_free bpm fl)
  | [] => let '(v, r') := r_victim (replacer_ bpm) in (v, set_replacer bpm r')
  end.

(** [if (page->is_dirty_) disk_manager_->WritePage(page->page_id_, data)]. *)
Definition write_back bpm (p : Page) : option (BufferPoolManager R) :=
  if is_dirty_ p then
    match WritePage (disk_manager_ bpm) (page_id_ p) (data_ p) with
    | Some d => Some (set_disk bpm d)
    | None => None
    end
  else Some bpm.

(** The end of [FetchPage]: reset the frame, read page [page_id] into it
    pinned once and clean, and map the page to the frame. *)
Definition load_page bpm (fid page_id : Z) : option (BufferPoolManager R * option Z) :=
  match ReadPage (disk_manager_ bpm) page_id with
  | None => None
  | Some (d, page_data) =>
      let bpm1 := set_page (set_disk bpm d) fid (mkPage page_id 1 false page_data) in
      Some (set_table bpm1 (um_insert page_id fid (page_table_ bpm1)), Some fid)
  end.

(** [FetchPage]. *)
Definition FetchPage bpm (page_id : Z) : option (BufferPoolManager R * option Z) :=
  if page_id =? INVALID_PAGE_ID then Some (bpm, None) else
  match page_table_ bpm !! page_id with
  | Some fid =>
      let bpm1 := set_replacer bpm (r_pin (replacer_ bpm) fid) in
      match get_page bpm1 fid with
      | Some p =>
          if pin_count_ p =? INT_MAX then None
          else Some (set_page bpm1 fid (mkPage (page_id_ p) (pin_count_ p + 1) (is_dirty_ p) (data_ p)),
                     Some fid)
      | None => None
      end
  | None =>
      match pick_frame bpm with
      | (None, bpm1) => Some (bpm1, None)
      | (Some fid, bpm1) =>
          match get_page bpm1 fid with
          | None => None
          | Some p =>
              let bpm2 := set_replacer bpm1 (r_pin (replacer_ bpm1) fid) in
              match write_back bpm2 p with
              | None => None
              | Some bpm3 =>
                  load_page (set_table bpm3 (delete (page_id_ p) (page_table_ bpm3))) fid page_id
              end
          end
      end
  end.

(** [AllocatePage], [DeallocatePage] and [IsPageFree]: the disk
    manager's. *)
Definition AllocatePage bpm : BufferPoolManager R * Z :=
  let '(d, next_page_id) := DiskManager.AllocatePage (disk_manager_ bpm) in (set_disk bpm d, next_page_id).

Definition DeallocatePage bpm (page_id : Z) : BufferPoolManager R :=
  set_disk bpm (DiskManager.DeAllocatePage (disk_manager_ bpm) page_id).

Definition IsPageFree bpm (page_id : Z) : BufferPoolManager R * bool :=
  let '(d, b) := DiskManager.IsPageFree (disk_manager_ bpm) page_id in (set_disk bpm d, b).

(** [NewPage]: the new page id and the frame, or [None] for [nullptr]. *)
Definition NewPage bpm : option (BufferPoolManager R * option (Z * Z)) :=
  match pick_frame bpm with
  | (None, bpm1) => Some (bpm1, None)
  | (Some fid, bpm1) =>
      match get_page bpm1 fid with
      | None => None
      | Some p =>
          let from_replacer := match free_list_ bpm with [] => true | _ => false end in
          match (if from_replacer then write_back bpm1 p else Some bpm1) with
          | None => None
          | Some bpm2 =>
              let bpm3 := if from_replacer
                          then set_table bpm2 (delete (page_id_ p) (page_table_ bpm2)) else bpm2 in
              let '(bpm4, page_id) := AllocatePage bpm3 in
              let bpm5 := set_page bpm4 fid (mkPage page_id 0 false (zero_page PAGE_SIZE)) in
              Some (set_table bpm5 (um_insert page_id fid (page_table_ bpm5)), Some (page_id, fid))
          end
      end
  end.

(** [DeletePage]. *)
Definition DeletePage bpm (page_id : Z) : option (BufferPoolManager R * bool) :=
  match page_table_ bpm !! page_id with
  | None => Some (bpm, true)
  | Some fid =>
      match get_page bpm fid with
      | None => None
      | Some p =>
          if negb (pin_count_ p =? 0) then Some (bpm, false)
          else
            let bpm1 := DeallocatePage bpm page_id in
            let bpm2 := set_page bpm1 fid (mkPage INVALID_PAGE_ID (pin_count_ p) false (zero_page PAGE_SIZE)) in
            let bpm3 := set_free bpm2 (free_list_ bpm2 ++ [page_id]) in
            Some (set_table bpm3 (delete page_id (page_table_ bpm3)), true)
      end
  end.

(** [UnpinPage]. *)
Definition UnpinPage bpm (page_id : Z) (is_dirty : bool) : option (BufferPoolManager R * bool) :=
  match page_table_ bpm !! page_id with
  | None => Some (bpm, false)
  | Some fid =>
      match get_page bpm fid with
      | None => None
      | Some p =>
          let dirty := is_dirty_ p || is_dirty in
          if 0 <? pin_count_ p then
            let bpm1 := set_page bpm fid (mkPage (page_id_ p) (pin_count_ p - 1) dirty (data_ p)) in
            if pin_count_ p - 1 =? 0 then
              match r_unpin (replacer_ bpm1) fid with
              | Some r' => Some (set_replacer bpm1 r', true)
              | None => None
              end
            else Some (bpm1, true)
          else Some (set_page bpm fid (mkPage (page_id_ p) (pin_count_ p) dirty (data_ p)), true)
      end
  end.

(** [FlushPage]. *)
Definition FlushPage bpm (page_id : Z) : option (BufferPoolManager R * bool) :=
  match page_table_ bpm !! page_id with
  | None => Some (bpm, false)
  | Some fid =>
      match get_page bpm fid with
      | None => None
      | Some p =>
          match WritePage (disk_manager_ bpm) page_id (data_ p) with
          | Some d => Some (set_disk bpm d, true)
          | None => None
          end
      end
  end.

End Operations.

(** ** The invariant *)

Section Invariant.
Context {R : Type} `{HR : Replacer R} `{HLaws : !ReplacerLaws R}.
Implicit Types (bpm : BufferPoolManager R).

(** A frame id indexes the frame array. *)
Definition frame bpm (f : Z) : Prop := 0 <= f < Z.of_nat (pool_size_ bpm).

(** The structure the operations keep: the frame array has [pool_size_]
    frames; the replacer holds at most that many; free frames hold no
    page; the page table maps each cached page to the frame that holds
    it; the replacer holds cached, unpinned frames only. *)
Definition wf bpm : Prop :=
  length (pages_ bpm) = pool_size_ bpm /\
  r_ok (replacer_ bpm) /\ r_capacity (replacer_ bpm) = pool_size_ bpm /\
  NoDup (free_list_ bpm) /\
  (forall f, f ∈ free_list_ bpm -> frame bpm f /\ f ∉ r_elems (replacer_ bpm) /\
     (exists p, get_page bpm f = Some p /\ page_id_ p = INVALID_PAGE_ID /\ is_dirty_ p = false)) /\
  (forall L f, page_table_ bpm !! L = Some f -> frame bpm f /\ f ∉ free_list_ bpm /\ 0 <= L /\
     (exists p, get_page bpm f = Some p /\ page_id_ p = L /\ 0 <= pin_count_ p <= INT_MAX)) /\
  (forall f, f ∈ r_elems (replacer_ bpm) ->
     exists p, get_page bpm f = Some p /\ page_table_ bpm !! page_id_ p = Some f /\ pin_count_ p = 0).

(** What a caller reads for page [L]: the cached frame if any, else the
    disk. *)
Definition view bpm (L : Z) : list Z :=
  match page_table_ bpm !! L with
  | Some f => from_option data_ [] (get_page bpm f)
  | None => content (disk_manager_ bpm) L
  end.

(** Clean cached frames agree with the disk. *)
Definition sync bpm : Prop :=
  forall L f p, page_table_ bpm !! L = Some f -> get_page bpm f = Some p ->
    is_dirty_ p = false -> data_ p = content (disk_manager_ bpm) L.

(** Cached pages are allocated on disk and lie below 2 GiB; the disk
    keeps its own invariant. *)
Definition coupled bpm : Prop :=
  DiskManager.inv (disk_manager_ bpm) /\
  forall L f, page_table_ bpm !! L = Some f ->
    in_range L /\ is_free (disk_manager_ bpm) L = false.


(** ** Frames and the setters *)

Lemma get_page_set_page bpm f g p :
  frame bpm f -> length (pages_ bpm) = pool_size_ bpm ->
  get_page (set_page bpm f p) g = if decide (g = f) then Some p else get_page bpm g.
Proof.
  intros Hf Hlen. unfold get_page, set_page, frame in *. cbn [pages_].
  destruct (Z.ltb_spec g 0) as [Hg|Hg].
  - rewrite decide_False by lia. reflexivity.
  - rewrite list_lookup_insert. destruct (decide (g = f)) as [->|Hne].
    + rewrite decide_True; [reflexivity|]. split; [reflexivity|lia].
    + rewrite decide_False; [reflexivity|]. intros [Heq _]. apply Hne. lia.
Qed.

Lemma get_page_set_page_some bpm f p p' : get_page bpm f = Some p -> get_page (set_page bpm f p') f = Some p'.
Proof.
  unfold get_page, set_page. cbn [pages_]. destruct (f <? 0); [discriminate|].
  intros Hf. apply list_lookup_insert_eq. exact (lookup_lt_Some _ _ _ Hf).
Qed.

Lemma get_page_pages bpm bpm' f : pages_ bpm' = pages_ bpm -> get_page bpm' f = get_page bpm f.
Proof. unfold get_page. by intros ->. Qed.

Lemma get_page_set_page_same bpm f p :
  frame bpm f -> length (pages_ bpm) = pool_size_ bpm -> get_page (set_page bpm f p) f = Some p.
Proof. intros Hf Hlen. rewrite get_page_set_page by assumption. apply decide_True. reflexivity. Qed.

Lemma length_set_page bpm f p : length (pages_ (set_page bpm f p)) = length (pages_ bpm).
Proof. apply length_insert. Qed.

Lemma get_page_frame bpm f :
  length (pages_ bpm) = pool_size_ bpm -> frame bpm f -> exists p, get_page bpm f = Some p.
Proof.
  intros Hlen Hf. unfold get_page, frame in *. rewrite (proj2 (Z.ltb_ge _ _)) by lia.
  apply lookup_lt_is_Some_2. lia.
Qed.

Lemma frame_of_page bpm f p : length (pages_ bpm) = pool_size_ bpm -> get_page bpm f = Some p -> frame bpm f.
Proof.
  intros Hlen Hp. unfold get_page, frame in *. destruct (Z.ltb_spec f 0); [discriminate|].
  apply lookup_lt_Some in Hp. lia.
Qed.

End Invariant.

Create Rewrite HintDb bpm.
#[export] Hint Rewrite @length_set_page : bpm.

Section Preservation.
Context {R : Type} `{HR : Replacer R} `{HLaws : !ReplacerLaws R}.
Implicit Types (bpm : BufferPoolManager R).

(** Replacing the page of a cached frame by one with the same page id
    and an admissible pin count keeps [wf]. *)
Lemma wf_set_page bpm f p p' :
  wf bpm -> get_page bpm f = Some p -> page_table_ bpm !! page_id_ p = Some f ->
  page_id_ p' = page_id_ p -> 0 <= pin_count_ p' <= INT_MAX ->
  (f ∈ r_elems (replacer_ bpm) -> pin_count_ p' = 0) ->
  wf (set_page bpm f p').
Proof.
  intros Hwf Hp Ht Hid Hpin Hrep.
  pose proof Hwf as (Hlen & Hok & Hcap & Hnd & Hfree & Htab & Hrp).
  pose proof (frame_of_page bpm f p Hlen Hp) as Hf.
  assert (Hget : forall g, get_page (set_page bpm f p') g = if decide (g = f) then Some p' else get_page bpm g)
    by (intros g; apply get_page_set_page; assumption).
  assert (Hfnot : f ∉ free_list_ bpm) by (apply (Htab _ _ Ht)).
  unfold wf, frame in *. cbn [pool_size_ replacer_ free_list_ page_table_ set_page].
  rewrite length_set_page. do 4 (split; [assumption|]). split; [|split].
  - intros g Hg. rewrite Hget. destruct (decide (g = f)) as [->|]; [contradiction|]. apply Hfree, Hg.
  - intros L g Hg. destruct (Htab L g Hg) as (Hgf & Hgn & HL0 & q & Hq & Hqid & Hqpin).
    do 3 (split; [assumption|]). rewrite Hget. destruct (decide (g = f)) as [->|]; [|eauto].
    rewrite Hp in Hq. injection Hq as <-. exists p'. split; [reflexivity|]. split; [congruence|assumption].
  - intros g Hg. destruct (Hrp g Hg) as (q & Hq & Hqt & Hq0). rewrite Hget.
    destruct (decide (g = f)) as [->|]; [|eauto].
    rewrite Hp in Hq. injection Hq as <-. exists p'. split; [reflexivity|]. split; [congruence|auto].
Qed.

(** Shrinking the replacer keeps [wf]. *)
Lemma wf_replacer_sub bpm r2 :
  wf bpm -> r_ok r2 -> r_capacity r2 = pool_size_ bpm ->
  (forall x, x ∈ r_elems r2 -> x ∈ r_elems (replacer_ bpm)) -> wf (set_replacer bpm r2).
Proof.
  intros (Hlen & Hok & Hcap & Hnd & Hfree & Htab & Hrp) Hok2 Hcap2 Hsub.
  unfold wf. cbn [pool_size_ replacer_ free_list_ page_table_ pages_ set_replacer].
  unfold get_page in *. cbn [pages_ set_replacer] in *.
  do 4 (split; [assumption|]). split; [|split; [exact Htab|]].
  - intros g Hg. destruct (Hfree g Hg) as (Hgf & Hgr & Hgp). split; [exact Hgf|]. split; [|exact Hgp].
    intros Hin. apply Hgr, Hsub, Hin.
  - intros g Hg. apply Hrp, Hsub, Hg.
Qed.

(** Removing a frame from the replacer keeps [wf]. *)
Lemma wf_pin bpm f : wf bpm -> wf (set_replacer bpm (r_pin (replacer_ bpm) f)).
Proof.
  intros Hwf. pose proof Hwf as (_ & Hok & Hcap & _).
  destruct (r_pin_spec (replacer_ bpm) f Hok) as (Hok' & Hcap' & Helems).
  apply wf_replacer_sub; [exact Hwf | exact Hok' | congruence |]. intros x Hx. apply Helems, Hx.
Qed.

(** Adding a cached frame of pin count 0 to the replacer keeps [wf]. *)
Lemma wf_unpin bpm f p :
  wf bpm -> get_page bpm f = Some p -> page_table_ bpm !! page_id_ p = Some f -> pin_count_ p = 0 ->
  exists r', r_unpin (replacer_ bpm) f = Some r' /\ wf (set_replacer bpm r') /\
    (forall x, x ∈ r_elems r' <-> x ∈ r_elems (replacer_ bpm) \/ x = f).
Proof.
  intros Hwf Hp Ht Hpin. pose proof Hwf as (Hlen & Hok & Hcap & Hnd & Hfree & Htab & Hrp).
  pose proof (frame_of_page bpm f p Hlen Hp) as Hf.
  assert (Hpre : f ∈ r_elems (replacer_ bpm) \/ (r_size (replacer_ bpm) < r_capacity (replacer_ bpm))%nat).
  { destruct (decide (f ∈ r_elems (replacer_ bpm))) as [Hin|Hout]; [left; exact Hin|right].
    destruct (r_ok_elems _ Hok) as (Hnd' & Hsz & _). rewrite Hsz, Hcap.
    replace (pool_size_ bpm) with (Z.to_nat (Z.of_nat (pool_size_ bpm))) by lia.
    apply (NoDup_range_length _ _ f Hnd'); [|exact Hf].
    intros x Hx. destruct (Hrp x Hx) as (q & Hq & _).
    split; [exact (frame_of_page bpm x q Hlen Hq)|]. intros ->. contradiction. }
  destruct (r_unpin_spec _ f Hok Hpre) as (r' & Hr' & Hok' & Hcap' & Helems).
  exists r'. split; [exact Hr'|]. split; [|exact Helems].
  assert (Hfnot : f ∉ free_list_ bpm) by (apply (Htab _ _ Ht)).
  unfold wf. cbn [pool_size_ replacer_ free_list_ page_table_ pages_ set_replacer].
  unfold get_page in *. cbn [pages_ set_replacer] in *.
  split; [assumption|]. split; [assumption|]. split; [congruence|]. split; [assumption|].
  split; [|split; [exact Htab|]].
  - intros g Hg. destruct (Hfree g Hg) as (Hgf & Hgr & Hgp). split; [exact Hgf|]. split; [|exact Hgp].
    rewrite Helems. intros [Hx| ->]; [contradiction|contradiction].
  - intros g Hg. apply Helems in Hg as [Hg| ->]; [apply Hrp, Hg|]. exists p. auto.
Qed.

(** Updating the flags of a frame keeps what callers read, and keeps
    clean frames in sync as long as a clean frame stays with its data. *)
Lemma view_set_page bpm f p p' L :
  wf bpm -> get_page bpm f = Some p -> data_ p' = data_ p ->
  view (set_page bpm f p') L = view bpm L.
Proof.
  intros (Hlen & _) Hp Hd. pose proof (frame_of_page bpm f p Hlen Hp) as Hf.
  unfold view. cbn [page_table_ disk_manager_ set_page].
  destruct (page_table_ bpm !! L) as [g|]; [|reflexivity].
  rewrite get_page_set_page by assumption. destruct (decide (g = f)) as [->|]; [|reflexivity].
  rewrite Hp. simpl. exact Hd.
Qed.

Lemma sync_set_page bpm f p p' :
  wf bpm -> sync bpm -> get_page bpm f = Some p -> data_ p' = data_ p ->
  (is_dirty_ p' = false -> is_dirty_ p = false) -> sync (set_page bpm f p').
Proof.
  intros (Hlen & _) Hs Hp Hd Hdirty L g q Ht Hq Hc. pose proof (frame_of_page bpm f p Hlen Hp) as Hf.
  cbn [page_table_ disk_manager_ set_page] in *.
  rewrite get_page_set_page in Hq by assumption. destruct (decide (g = f)) as [->|].
  - injection Hq as <-. rewrite Hd. apply (Hs L f p Ht Hp), Hdirty, Hc.
  - exact (Hs L g q Ht Hq Hc).
Qed.

(** C3: [UnpinPage] on a cached page never has undefined behaviour: it
    ORs the dirty flag in, decrements a positive pin count, hands the
    frame to the replacer exactly when the count drops from 1 to 0, and
    keeps the invariant, what callers read and the sync of clean frames.
    A page that is not cached gives [false]. *)
Theorem UnpinPage_spec bpm L dirty :
  wf bpm ->
  match page_table_ bpm !! L with
  | None => UnpinPage bpm L dirty = Some (bpm, false)
  | Some f => exists bpm' p, get_page bpm f = Some p /\ UnpinPage bpm L dirty = Some (bpm', true) /\
      wf bpm' /\ (forall L', view bpm' L' = view bpm L') /\ (sync bpm -> sync bpm') /\
      page_table_ bpm' = page_table_ bpm /\ disk_manager_ bpm' = disk_manager_ bpm /\
      get_page bpm' f = Some (mkPage L (Z.max 0 (pin_count_ p - 1)) (is_dirty_ p || dirty) (data_ p)) /\
      (pin_count_ p = 1 -> f ∈ r_elems (replacer_ bpm')) /\
      (pin_count_ p <> 1 -> replacer_ bpm' = replacer_ bpm)
  end.
Proof.
  intros Hwf. unfold UnpinPage.
  destruct (page_table_ bpm !! L) as [f|] eqn:Ht; [|reflexivity].
  pose proof Hwf as (Hlen & Hok & Hcap & Hnd & Hfree & Htab & Hrp).
  destruct (Htab L f Ht) as (Hf & _ & _ & p & Hp & Hid & Hpin).
  assert (Htf : page_table_ bpm !! page_id_ p = Some f) by (rewrite Hid; exact Ht).
  assert (Hnotrep : 0 < pin_count_ p -> f ∉ r_elems (replacer_ bpm)).
  { intros Hpos Hin. destruct (Hrp f Hin) as (q & Hq & _ & Hq0). rewrite Hp in Hq. injection Hq as <-. lia. }
  set (p' := mkPage L (Z.max 0 (pin_count_ p - 1)) (is_dirty_ p || dirty) (data_ p)).
  assert (Hwf1 : wf (set_page bpm f p')).
  { apply (wf_set_page bpm f p); auto; cbn; [lia|]. intros Hin.
    destruct (Hrp f Hin) as (q & Hq & _ & Hq0). rewrite Hp in Hq. injection Hq as <-. lia. }
  assert (Hview : forall L', view (set_page bpm f p') L' = view bpm L')
    by (intros L'; apply (view_set_page bpm f p); auto).
  assert (Hsync : sync bpm -> sync (set_page bpm f p')).
  { intros Hs. apply (sync_set_page bpm f p); auto. cbn. intros Hc. apply orb_false_iff in Hc. apply Hc. }
  assert (Hget1 : get_page (set_page bpm f p') f = Some p') by (apply get_page_set_page_same; assumption).
  rewrite Hp.
  destruct (Z.ltb_spec 0 (pin_count_ p)) as [Hpos|Hz].
  - replace (mkPage (page_id_ p) (pin_count_ p - 1) (is_dirty_ p || dirty) (data_ p)) with p'
      by (unfold p'; rewrite Hid; f_equal; lia).
    destruct (Z.eqb_spec (pin_count_ p - 1) 0) as [H1|H1].
    + destruct (wf_unpin (set_page bpm f p') f p' Hwf1 Hget1 ltac:(exact Ht) ltac:(cbn; lia))
        as (r' & Hr' & Hwf2 & Helems).
      rewrite Hr'. exists (set_replacer (set_page bpm f p') r'), p.
      do 3 (split; [first [reflexivity | exact Hwf2]|]). split; [exact Hview|]. split; [exact Hsync|].
      do 3 (split; [first [reflexivity | exact Hget1]|]).
      split; [intros _; apply Helems; right; reflexivity | intros Hn; lia].
    + exists (set_page bpm f p'), p. do 3 (split; [first [reflexivity | exact Hwf1]|]).
      split; [exact Hview|]. split; [exact Hsync|]. do 3 (split; [first [reflexivity | exact Hget1]|]).
      split; [intros; lia | reflexivity].
  - replace (mkPage (page_id_ p) (pin_count_ p) (is_dirty_ p || dirty) (data_ p)) with p'
      by (unfold p'; rewrite Hid; f_equal; lia).
    exists (set_page bpm f p'), p. do 3 (split; [first [reflexivity | exact Hwf1]|]).
    split; [exact Hview|]. split; [exact Hsync|]. do 3 (split; [first [reflexivity | exact Hget1]|]).
    split; [intros; lia | reflexivity].
Qed.

(** ** Taking a frame for a new page *)

(** A frame that no free-list entry, replacer entry or page-table entry
    names. *)
Definition detached bpm (f : Z) : Prop :=
  frame bpm f /\ f ∉ free_list_ bpm /\ f ∉ r_elems (replacer_ bpm) /\
  (forall L g, page_table_ bpm !! L = Some g -> g <> f).

(** Popping the front of the free list detaches a clean frame that holds
    no page. *)
Lemma wf_pop_free bpm f fl :
  wf bpm -> free_list_ bpm = f :: fl ->
  wf (set_free bpm fl) /\ detached (set_free bpm fl) f /\
  exists p, get_page bpm f = Some p /\ page_id_ p = INVALID_PAGE_ID /\ is_dirty_ p = false.
Proof.
  intros (Hlen & Hok & Hcap & Hnd & Hfree & Htab & Hrp) Hfl.
  rewrite Hfl in Hnd, Hfree, Htab. apply NoDup_cons in Hnd as [Hf Hnd].
  destruct (Hfree f ltac:(set_solver)) as (Hfr & Hfe & Hp).
  unfold wf, detached, frame in *. unfold get_page in *.
  cbn [pool_size_ pages_ page_table_ free_list_ replacer_ set_free] in *.
  split; [|split; [|exact Hp]].
  - do 3 (split; [assumption|]). split; [exact Hnd|]. split; [|split; [|exact Hrp]].
    + intros g Hg. apply Hfree. set_solver.
    + intros L g Hg. destruct (Htab L g Hg) as (A & B & C & D). split; [exact A|]. split; [set_solver|]. auto.
  - split; [exact Hfr|]. split; [exact Hf|]. split; [exact Hfe|].
    intros L g Hg ->. destruct (Htab L f Hg) as (_ & B & _). apply B. set_solver.
Qed.

(** Taking the replacer's victim and erasing its page-table entry
    detaches an unpinned frame. *)
Lemma wf_victim bpm f r1 :
  wf bpm -> free_list_ bpm = [] -> r_victim (replacer_ bpm) = (Some f, r1) ->
  exists p, get_page bpm f = Some p /\ page_table_ bpm !! page_id_ p = Some f /\ pin_count_ p = 0 /\
    wf (set_table (set_replacer bpm r1) (delete (page_id_ p) (page_table_ bpm))) /\
    detached (set_table (set_replacer bpm r1) (delete (page_id_ p) (page_table_ bpm))) f.
Proof.
  intros (Hlen & Hok & Hcap & Hnd & Hfree & Htab & Hrp) Hfl Hv.
  destruct (r_victim_Some _ f r1 Hok Hv) as (Hin & Hok1 & Hcap1 & Helems).
  destruct (Hrp f Hin) as (p & Hp & Ht & H0). exists p. do 3 (split; [assumption|]).
  assert (Hown : forall L g q, page_table_ bpm !! L = Some g -> get_page bpm g = Some q -> page_id_ q = L).
  { intros L g q HLg Hq. destruct (Htab L g HLg) as (_ & _ & _ & q' & Hq' & Hid & _). congruence. }
  unfold wf, detached, frame in *. unfold get_page in *.
  cbn [pool_size_ pages_ page_table_ free_list_ replacer_ set_table set_replacer] in *.
  rewrite Hfl in *. split.
  - split; [assumption|]. split; [assumption|]. split; [congruence|]. split; [constructor|].
    split; [intros g Hg; set_solver|]. split.
    + intros L g Hg. apply lookup_delete_Some in Hg as [_ Hg]. exact (Htab L g Hg).
    + intros g Hg. apply Helems in Hg as [Hg Hne]. destruct (Hrp g Hg) as (q & Hq & Hqt & Hq0).
      exists q. split; [exact Hq|]. split; [|exact Hq0].
      rewrite lookup_delete_ne; [exact Hqt|]. intros Heq. rewrite <- Heq in Hqt. congruence.
  - destruct (Htab _ _ Ht) as (Hfr & _). split; [exact Hfr|]. split; [set_solver|].
    split; [intros Hf; apply Helems in Hf as [_ Hf]; exact (Hf eq_refl)|].
    intros L g Hg ->. apply lookup_delete_Some in Hg as [Hne Hg].
    apply Hne. exact (Hown L f p Hg Hp).
Qed.

(** Installing page [L] in a detached frame keeps [wf]. *)
Lemma wf_install bpm f L p' :
  wf bpm -> detached bpm f -> 0 <= L -> page_table_ bpm !! L = None ->
  page_id_ p' = L -> 0 <= pin_count_ p' <= INT_MAX ->
  wf (set_table (set_page bpm f p') (<[L := f]> (page_table_ bpm))).
Proof.
  intros Hwf (Hf & Hff & Hfe & Hft) HL0 HLt Hid Hpin.
  pose proof Hwf as (Hlen & Hok & Hcap & Hnd & Hfree & Htab & Hrp).
  assert (Hget : forall g, get_page (set_table (set_page bpm f p') (<[L := f]> (page_table_ bpm))) g =
                           if decide (g = f) then Some p' else get_page bpm g)
    by (intros g; apply get_page_set_page; assumption).
  unfold wf. cbn [pool_size_ pages_ page_table_ free_list_ replacer_ set_table set_page].
  rewrite length_insert. do 4 (split; [assumption|]). split; [|split].
  - intros g Hg. rewrite Hget. destruct (decide (g = f)) as [->|]; [contradiction|]. apply Hfree, Hg.
  - intros L' g Hg. rewrite Hget. apply lookup_insert_Some in Hg as [[<- <-]|[Hne Hg]].
    + rewrite decide_True by reflexivity. split; [exact Hf|]. split; [exact Hff|]. split; [exact HL0|]. eauto.
    + rewrite decide_False by (apply (Hft L' g Hg)). exact (Htab L' g Hg).
  - intros g Hg. rewrite Hget. destruct (decide (g = f)) as [->|]; [contradiction|].
    destruct (Hrp g Hg) as (q & Hq & Hqt & Hq0). exists q. split; [exact Hq|]. split; [|exact Hq0].
    rewrite lookup_insert_ne; [exact Hqt|]. intros ->. congruence.
Qed.

Lemma set_disk_same bpm : set_disk bpm (disk_manager_ bpm) = bpm.
Proof. destruct bpm. reflexivity. Qed.

Lemma set_replacer_same bpm : set_replacer bpm (replacer_ bpm) = bpm.
Proof. destruct bpm. reflexivity. Qed.

(** The write-back of an evicted page: a dirty page of the page table is
    written through, below 2 GiB. *)
Lemma write_back_spec bpm p :
  coupled bpm -> (is_dirty_ p = true -> exists f, page_table_ bpm !! page_id_ p = Some f) ->
  exists d', write_back bpm p = Some (set_disk bpm d') /\ DiskManager.inv d' /\
    (forall L, 0 <= L -> content d' L =
       if is_dirty_ p && bool_decide (L = page_id_ p) then data_ p else content (disk_manager_ bpm) L) /\
    (forall L, 0 <= L < EXTENT_LIMIT * BITMAP_SIZE -> is_free d' L = is_free (disk_manager_ bpm) L) /\
    meta_data_ d' = meta_data_ (disk_manager_ bpm).
Proof.
  intros (Hinv & Hcoup) Hd. unfold write_back. destruct (is_dirty_ p) eqn:Hdirty.
  - destruct (Hd eq_refl) as (f & Hf). destruct (Hcoup _ _ Hf) as [Hr _].
    destruct (WritePage_spec _ _ (data_ p) Hinv Hr) as (d' & -> & Hinv' & Hmeta & Hc & Hfree).
    exists d'. split; [reflexivity|]. split; [exact Hinv'|]. split; [|split; [exact Hfree|exact Hmeta]].
    intros L HL0. rewrite Hc by exact HL0. cbn [andb].
    destruct (decide (L = page_id_ p)); [rewrite bool_decide_true | rewrite bool_decide_false]; auto.
  - exists (disk_manager_ bpm). rewrite set_disk_same. split; [reflexivity|]. split; [exact Hinv|].
    split; [|split]; reflexivity.
Qed.

Lemma set_table_same bpm : set_table bpm (page_table_ bpm) = bpm.
Proof. destruct bpm. reflexivity. Qed.

Lemma table_no_invalid bpm : wf bpm -> page_table_ bpm !! INVALID_PAGE_ID = None.
Proof.
  intros (_ & _ & _ & _ & _ & Htab & _). destruct (page_table_ bpm !! INVALID_PAGE_ID) as [g|] eqn:E; [|reflexivity].
  destruct (Htab _ _ E) as (_ & _ & Hneg & _). unfold INVALID_PAGE_ID in Hneg. lia.
Qed.

(** Taking the front of the free list: nothing is written and what
    callers read does not change. *)
Lemma evict_free bpm f fl :
  wf bpm -> free_list_ bpm = f :: fl ->
  let bpm1 := set_free bpm fl in
  exists p, get_page bpm1 f = Some p /\ page_id_ p = INVALID_PAGE_ID /\
    write_back (set_replacer bpm1 (r_pin (replacer_ bpm1) f)) p =
      Some (set_replacer bpm1 (r_pin (replacer_ bpm1) f)) /\
    let bpm4 := set_replacer bpm1 (r_pin (replacer_ bpm1) f) in
    set_table bpm4 (delete (page_id_ p) (page_table_ bpm4)) = bpm4 /\
    wf bpm4 /\ detached bpm4 f /\ (coupled bpm -> coupled bpm4) /\ (sync bpm -> sync bpm4) /\
    (forall L, view bpm4 L = view bpm L).
Proof.
  intros Hwf Hfl bpm1. subst bpm1.
  destruct (wf_pop_free bpm f fl Hwf Hfl) as (Hwf1 & Hdet & p & Hp & Hid & Hclean).
  exists p. split; [exact Hp|]. split; [exact Hid|]. split; [unfold write_back; rewrite Hclean; reflexivity|].
  cbv zeta. split.
  { rewrite Hid, delete_id by exact (table_no_invalid bpm Hwf). apply set_table_same. }
  split; [apply wf_pin, Hwf1|]. split; [|split; [|split]]; [|intros H; exact H|intros H; exact H|reflexivity].
  destruct Hdet as (Hf1 & Hf2 & Hf3 & Hf4). split; [exact Hf1|]. split; [exact Hf2|]. split; [|exact Hf4].
  cbn [replacer_ set_replacer set_free].
  intros Hin. apply (r_pin_spec _ f (proj1 (proj2 Hwf))) in Hin as [_ Hne]. exact (Hne eq_refl).
Qed.

(** Evicting the replacer's victim: its page leaves the page table after
    a write-back if dirty; what callers read does not change.  [r2] is
    the replacer after the victim is taken, possibly pinned again. *)
Lemma evict_victim bpm f r1 r2 :
  wf bpm -> coupled bpm -> sync bpm -> free_list_ bpm = [] -> r_victim (replacer_ bpm) = (Some f, r1) ->
  r_ok r2 -> r_capacity r2 = r_capacity r1 -> (forall x, x ∈ r_elems r2 -> x ∈ r_elems r1) ->
  exists p bpm3, get_page bpm f = Some p /\
    write_back (set_replacer bpm r2) p = Some bpm3 /\
    let bpm4 := set_table bpm3 (delete (page_id_ p) (page_table_ bpm3)) in
    wf bpm4 /\ detached bpm4 f /\ coupled bpm4 /\ sync bpm4 /\
    (forall L, 0 <= L -> view bpm4 L = view bpm L) /\
    (forall L, page_table_ bpm !! L = None -> page_table_ bpm4 !! L = None) /\
    (forall L, 0 <= L < EXTENT_LIMIT * BITMAP_SIZE -> is_free (disk_manager_ bpm4) L = is_free (disk_manager_ bpm) L) /\
    meta_data_ (disk_manager_ bpm4) = meta_data_ (disk_manager_ bpm).
Proof.
  intros Hwf Hc Hs Hfl Hv Hok2 Hcap2 Hsub.
  destruct (wf_victim bpm f r1 Hwf Hfl Hv) as (p & Hp & Ht & H0 & Hwf1 & Hdet1).
  destruct (write_back_spec (set_replacer bpm r2) p Hc ltac:(intros; eexists; exact Ht))
    as (d' & Hwb & Hinv' & Hcont & Hfree & Hmeta).
  exists p, (set_disk (set_replacer bpm r2) d').
  split; [exact Hp|]. split; [exact Hwb|]. cbv zeta.
  pose proof Hwf1 as (_ & _ & Hcap1 & _).
  pose proof (wf_replacer_sub _ r2 Hwf1 Hok2 ltac:(cbn in *; congruence) Hsub) as Hwf2.
  destruct Hc as (_ & Hcoup).
  split; [exact Hwf2|]. split.
  { destruct Hdet1 as (Hf1 & Hf2 & Hf3 & Hf4). split; [exact Hf1|]. split; [exact Hf2|]. split; [|exact Hf4].
    cbn [replacer_ set_table set_disk set_replacer] in *. intros Hin. apply Hf3, Hsub, Hin. }
  split; [|split; [|split; [|split; [|split]]]].
  - split; [exact Hinv'|]. intros L g Hg. cbn [page_table_ disk_manager_ set_table set_disk set_replacer] in *.
    apply lookup_delete_Some in Hg as [_ Hg]. destruct (Hcoup L g Hg) as (Hr & Hfr).
    split; [exact Hr|]. rewrite Hfree by (apply in_range_extent, Hr). exact Hfr.
  - intros L g q Hg Hq Hclean. cbn [page_table_ disk_manager_ set_table set_disk set_replacer] in *.
    apply lookup_delete_Some in Hg as [Hne Hg]. destruct (Hcoup L g Hg) as ((HL0 & _) & _).
    rewrite Hcont by exact HL0. rewrite bool_decide_false by congruence. rewrite andb_false_r.
    exact (Hs L g q Hg Hq Hclean).
  - intros L HL0. unfold view. cbn [page_table_ disk_manager_ set_table set_disk set_replacer].
    destruct (decide (L = page_id_ p)) as [->|Hne].
    + rewrite lookup_delete_eq, Ht. unfold get_page in *. cbn [pages_ set_replacer] in Hp |- *.
      rewrite Hp. cbn [from_option].
      rewrite Hcont by exact HL0. rewrite bool_decide_true by reflexivity. destruct (is_dirty_ p) eqn:Hd; [reflexivity|].
      symmetry. apply (Hs _ f p Ht Hp Hd).
    + rewrite lookup_delete_ne by congruence. destruct (page_table_ bpm !! L) as [g|] eqn:HgL; [reflexivity|].
      rewrite Hcont by exact HL0. rewrite bool_decide_false by exact Hne. rewrite andb_false_r. reflexivity.
  - intros L HL. cbn [page_table_ set_table set_disk set_replacer].
    rewrite lookup_delete_None. right. exact HL.
  - intros L HL. exact (Hfree L HL).
  - exact Hmeta.
Qed.

(** Installing page [L] in a detached frame: callers read the frame's
    data for [L] and nothing else changes. *)
Lemma install_spec bpm f L p' :
  wf bpm -> detached bpm f -> page_table_ bpm !! L = None -> page_id_ p' = L ->
  let bpm' := set_table (set_page bpm f p') (<[L := f]> (page_table_ bpm)) in
  (forall L', view bpm' L' = if decide (L' = L) then data_ p' else view bpm L') /\
  (sync bpm -> (is_dirty_ p' = false -> data_ p' = content (disk_manager_ bpm) L) -> sync bpm') /\
  (coupled bpm -> in_range L -> is_free (disk_manager_ bpm) L = false -> coupled bpm').
Proof.
  intros Hwf (Hf & Hff & Hfe & Hft) HLt Hid bpm'. subst bpm'.
  pose proof Hwf as (Hlen & _).
  assert (Hget : forall g, get_page (set_table (set_page bpm f p') (<[L := f]> (page_table_ bpm))) g =
                           if decide (g = f) then Some p' else get_page bpm g)
    by (intros g; apply get_page_set_page; assumption).
  split; [|split].
  - intros L'. unfold view. cbn [page_table_ disk_manager_ set_table set_page].
    destruct (decide (L' = L)) as [->|Hne].
    + rewrite lookup_insert_eq, Hget, decide_True by reflexivity. reflexivity.
    + rewrite lookup_insert_ne by congruence. destruct (page_table_ bpm !! L') as [g|] eqn:Hg; [|reflexivity].
      rewrite Hget, decide_False by (apply (Hft L' g Hg)). reflexivity.
  - intros Hs Hc L' g q Hg Hq Hcl. cbn [page_table_ disk_manager_ set_table set_page] in Hg |- *.
    rewrite Hget in Hq. apply lookup_insert_Some in Hg as [[<- <-]|[Hne Hg]].
    + rewrite decide_True in Hq by reflexivity. injection Hq as <-. apply Hc, Hcl.
    + rewrite decide_False in Hq by (apply (Hft L' g Hg)). exact (Hs L' g q Hg Hq Hcl).
  - intros (Hinv & Hcoup) Hr Hfr. split; [exact Hinv|]. intros L' g Hg.
    cbn [page_table_ disk_manager_ set_table set_page] in Hg |- *.
    apply lookup_insert_Some in Hg as [[<- <-]|[Hne Hg]]; [auto | exact (Hcoup L' g Hg)].
Qed.

(** [load_page] into a detached frame, below 2 GiB: the frame holds what
    the disk holds for the page. *)
Lemma load_page_spec bpm f L :
  wf bpm -> detached bpm f -> coupled bpm -> sync bpm -> in_range L ->
  is_free (disk_manager_ bpm) L = false -> page_table_ bpm !! L = None ->
  exists bpm', load_page bpm f L = Some (bpm', Some f) /\
    wf bpm' /\ coupled bpm' /\ sync bpm' /\ (forall L', view bpm' L' = view bpm L') /\
    page_table_ bpm' !! L = Some f /\
    get_page bpm' f = Some (mkPage L 1 false (view bpm L)).
Proof.
  intros Hwf Hdet Hc Hs Hr Hfr Ht. pose proof Hc as ((Hsm & _) & _).
  unfold load_page. rewrite ReadPage_content by assumption. rewrite set_disk_same.
  set (p' := mkPage L 1 false (content (disk_manager_ bpm) L)).
  unfold um_insert. cbn [page_table_ set_page]. rewrite Ht.
  destruct (install_spec bpm f L p' Hwf Hdet Ht eq_refl) as (Hv & Hsy & Hcp).
  eexists. split; [reflexivity|].
  pose proof Hwf as (Hlen & _). pose proof Hdet as (Hf & _).
  split; [apply wf_install; auto; [apply Hr | cbn; unfold INT_MAX; lia]|].
  split; [apply Hcp; assumption|]. split; [apply Hsy; [exact Hs | intros _; reflexivity]|].
  split; [|split; [apply lookup_insert_eq|]].
  - intros L'. rewrite Hv. destruct (decide (L' = L)) as [->|]; [|reflexivity].
    unfold view. rewrite Ht. reflexivity.
  - unfold view. rewrite Ht. apply get_page_set_page_same; assumption.
Qed.

(** The cache-hit path of [FetchPage]: the frame is pinned once more. *)
Lemma fetch_hit bpm L f :
  wf bpm -> coupled bpm -> sync bpm -> L <> INVALID_PAGE_ID -> page_table_ bpm !! L = Some f ->
  (forall p, get_page bpm f = Some p -> pin_count_ p < INT_MAX) ->
  exists bpm', FetchPage bpm L = Some (bpm', Some f) /\
    wf bpm' /\ coupled bpm' /\ sync bpm' /\ (forall L', view bpm' L' = view bpm L') /\
    page_table_ bpm' !! L = Some f /\ exists p, get_page bpm' f = Some p /\ data_ p = view bpm L /\ 1 <= pin_count_ p.
Proof.
  intros Hwf Hc Hs Hinv Ht Hmax. pose proof Hwf as (Hlen & Hok & _ & _ & _ & Htab & _).
  destruct (Htab L f Ht) as (Hf & _ & _ & p & Hp & Hid & Hpin).
  unfold FetchPage. rewrite (proj2 (Z.eqb_neq _ _)) by exact Hinv. rewrite Ht.
  change (get_page (set_replacer bpm (r_pin (replacer_ bpm) f)) f) with (get_page bpm f). rewrite Hp.
  specialize (Hmax p Hp). rewrite (proj2 (Z.eqb_neq _ _)) by lia.
  set (bpm1 := set_replacer bpm (r_pin (replacer_ bpm) f)).
  set (p' := mkPage (page_id_ p) (pin_count_ p + 1) (is_dirty_ p) (data_ p)).
  pose proof (wf_pin bpm f Hwf) as Hwf1. fold bpm1 in Hwf1.
  eexists. split; [reflexivity|].
  split; [|split; [exact Hc|split; [|split]]].
  - apply (wf_set_page bpm1 f p p'); auto; [rewrite Hid; exact Ht | cbn; lia|].
    intros Hin. apply (r_pin_spec _ f Hok) in Hin as [_ Hne]. contradiction.
  - apply (sync_set_page bpm1 f p p'); auto.
  - intros L'. unfold bpm1. rewrite (view_set_page bpm1 f p p'); auto.
  - split; [exact Ht|]. exists p'. split; [apply get_page_set_page_same; assumption|].
    split; [|cbn; lia]. unfold view. rewrite Ht, Hp. reflexivity.
Qed.

(** C1: [FetchPage] below 2 GiB, on an allocated page, never has undefined
    behaviour and keeps the invariant, the agreement of clean frames with
    the disk and what callers read for every page.  It returns a frame
    holding what a caller reads for the page (the cached frame, or the
    disk's content read into a free or evicted frame), pinned; or
    [nullptr] exactly when the page is not cached and no frame is free
    or evictable. *)
Theorem FetchPage_spec bpm L :
  wf bpm -> coupled bpm -> sync bpm -> in_range L -> is_free (disk_manager_ bpm) L = false ->
  (forall f p, page_table_ bpm !! L = Some f -> get_page bpm f = Some p -> pin_count_ p < INT_MAX) ->
  exists bpm' res, FetchPage bpm L = Some (bpm', res) /\
    wf bpm' /\ coupled bpm' /\ sync bpm' /\ (forall L', 0 <= L' -> view bpm' L' = view bpm L') /\
    match res with
    | Some f => page_table_ bpm' !! L = Some f /\
        exists p, get_page bpm' f = Some p /\ data_ p = view bpm L /\ 1 <= pin_count_ p
    | None => page_table_ bpm !! L = None /\ free_list_ bpm = [] /\ r_elems (replacer_ bpm) = [] /\ bpm' = bpm
    end.
Proof.
  intros Hwf Hc Hs Hr Hfr Hmax. pose proof Hwf as (Hlen & Hok & Hcap & Hnd & Hfree & Htab & Hrp).
  assert (Hinv : L <> INVALID_PAGE_ID) by (destruct Hr; unfold INVALID_PAGE_ID; lia).
  destruct (page_table_ bpm !! L) as [f|] eqn:Ht.
  - destruct (fetch_hit bpm L f Hwf Hc Hs Hinv Ht (fun p => Hmax f p eq_refl))
      as (bpm' & Hfetch & Hwf' & Hc' & Hs' & Hview' & Hp').
    exists bpm', (Some f). split; [exact Hfetch|]. do 3 (split; [assumption|]).
    split; [intros L' _; apply Hview'|]. exact Hp'.
  - unfold FetchPage. rewrite (proj2 (Z.eqb_neq _ _)) by exact Hinv. rewrite Ht. unfold pick_frame. destruct (free_list_ bpm) as [|f fl] eqn:Hfl.
    + destruct (r_victim (replacer_ bpm)) as [[f|] r1] eqn:Hv.
      * destruct (r_victim_Some _ f r1 Hok Hv) as (_ & Hok1 & _ & _).
        destruct (r_pin_spec r1 f Hok1) as (Hok2 & Hcap2 & Helems2).
        destruct (evict_victim bpm f r1 (r_pin r1 f) Hwf Hc Hs Hfl Hv Hok2 Hcap2
                    ltac:(intros x Hx; apply Helems2, Hx))
          as (p & bpm3 & Hp & Hwb & Hwf4 & Hdet4 & Hc4 & Hs4 & Hview4 & Hnone4 & Hfree4 & _).
        change (get_page (set_replacer bpm r1) f) with (get_page bpm f). rewrite Hp.
        change (write_back (set_replacer (set_replacer bpm r1) (r_pin (replacer_ (set_replacer bpm r1)) f)) p)
          with (write_back (set_replacer bpm (r_pin r1 f)) p). rewrite Hwb.
        destruct (load_page_spec _ f L Hwf4 Hdet4 Hc4 Hs4 Hr)
          as (bpm' & Hload & Hwf' & Hc' & Hs' & Hview' & Ht' & Hp');
          [rewrite Hfree4 by (apply in_range_extent, Hr); exact Hfr | apply Hnone4, Ht|].
        rewrite Hload. eexists _, _. split; [reflexivity|].
        do 3 (split; [assumption|]). split; [intros L' HL'; rewrite Hview'; apply Hview4, HL'|].
        split; [exact Ht'|]. eexists. split; [exact Hp'|]. split; [apply Hview4, Hr | cbn; lia].
      * destruct (r_victim_None _ r1 Hok Hv) as [Hempty ->]. rewrite set_replacer_same.
        eexists _, _. split; [reflexivity|]. do 3 (split; [assumption|]). split; [reflexivity|]. auto.
    + destruct (evict_free bpm f fl Hwf Hfl) as (p & Hp & Hid & Hwb & Hdel & Hwf4 & Hdet4 & Hc4 & Hs4 & Hview4).
      rewrite Hp, Hwb, Hdel.
      destruct (load_page_spec _ f L Hwf4 Hdet4 (Hc4 Hc) (Hs4 Hs) Hr Hfr Ht)
        as (bpm' & Hload & Hwf' & Hc' & Hs' & Hview' & Ht' & Hp').
      rewrite Hload. eexists _, _. split; [reflexivity|].
      do 3 (split; [assumption|]). split; [intros L' HL'; rewrite Hview'; apply Hview4|].
      split; [exact Ht'|]. eexists. split; [exact Hp'|]. split; [apply Hview4 | cbn; lia].
Qed.

(** C4: [FlushPage] of a cached page writes its frame through to the disk
    below 2 GiB: afterwards the disk holds what callers read for the
    page, and the invariant, the agreement of clean frames and what
    callers read for every page are kept.  A page that is not cached
    gives [false] and changes nothing. *)
Theorem FlushPage_spec bpm L :
  wf bpm -> coupled bpm -> sync bpm ->
  match page_table_ bpm !! L with
  | None => FlushPage bpm L = Some (bpm, false)
  | Some f => exists bpm', FlushPage bpm L = Some (bpm', true) /\
      wf bpm' /\ coupled bpm' /\ sync bpm' /\ (forall L', 0 <= L' -> view bpm' L' = view bpm L') /\
      content (disk_manager_ bpm') L = view bpm L
  end.
Proof.
  intros Hwf (Hinv & Hcoup) Hs. pose proof Hwf as (_ & _ & _ & _ & _ & Htab & _).
  unfold FlushPage. destruct (page_table_ bpm !! L) as [f|] eqn:Ht; [|reflexivity].
  destruct (Htab L f Ht) as (_ & _ & HL0 & p & Hp & Hid & _). rewrite Hp.
  destruct (Hcoup L f Ht) as (Hr & _).
  destruct (WritePage_spec _ _ (data_ p) Hinv Hr) as (d' & -> & Hinv' & _ & Hc & Hfree).
  assert (Hc' : forall L', 0 <= L' -> page_table_ bpm !! L' = None -> content d' L' = content (disk_manager_ bpm) L').
  { intros L' HL' Hn. rewrite Hc by exact HL'. rewrite decide_False; [reflexivity|]. congruence. }
  eexists. split; [reflexivity|]. split; [exact Hwf|]. split; [|split; [|split]].
  - split; [exact Hinv'|]. intros L' g Hg. destruct (Hcoup L' g Hg) as (Hr' & Hf').
    split; [exact Hr'|]. cbn [disk_manager_ set_disk]. rewrite Hfree by (apply in_range_extent, Hr'). exact Hf'.
  - intros L' g q Hg Hq Hcl. cbn [page_table_ disk_manager_ set_disk] in *.
    destruct (Htab L' g Hg) as (_ & _ & HL' & _). rewrite Hc by exact HL'.
    destruct (decide (L' = L)) as [->|]; [|exact (Hs L' g q Hg Hq Hcl)].
    rewrite Ht in Hg. injection Hg as <-. change (get_page bpm f = Some q) in Hq. congruence.
  - intros L' HL'. unfold view. cbn [page_table_ disk_manager_ set_disk].
    destruct (page_table_ bpm !! L') eqn:HL; [reflexivity|]. apply Hc', HL; exact HL'.
  - cbn [disk_manager_ set_disk]. rewrite Hc by exact HL0. rewrite decide_True by reflexivity.
    unfold view. rewrite Ht. change (get_page bpm f) with (get_page bpm f). rewrite Hp. reflexivity.
Qed.

(** [AllocatePage] and the installation of the new, zeroed page in a
    detached frame, below 2 GiB. *)
Lemma allocate_install bpm f :
  wf bpm -> detached bpm f -> coupled bpm ->
  num_extents_ (meta_data_ (disk_manager_ bpm)) < EXTENT_LIMIT - 1 ->
  num_allocated_pages_ (meta_data_ (disk_manager_ bpm)) < MAX_VALID_PAGE_ID ->
  exists L d, AllocatePage bpm = (set_disk bpm d, L) /\
    let bpm5 := set_page (set_disk bpm d) f (mkPage L 0 false (zero_page PAGE_SIZE)) in
    let bpm' := set_table bpm5 (um_insert L f (page_table_ bpm5)) in
    wf bpm' /\ coupled bpm' /\ in_range L /\ is_free (disk_manager_ bpm) L = true /\ is_free d L = false /\
    page_table_ bpm !! L = None /\ page_table_ bpm' !! L = Some f /\
    get_page bpm' f = Some (mkPage L 0 false (zero_page PAGE_SIZE)) /\
    (forall L', 0 <= L' -> view bpm' L' = if decide (L' = L) then zero_page PAGE_SIZE else view bpm L') /\
    (sync bpm -> content (disk_manager_ bpm) L = zero_page PAGE_SIZE -> sync bpm') /\
    replacer_ bpm' = replacer_ bpm.
Proof.
  intros Hwf Hdet (Hinv & Hcoup) Hne Hnum.
  destruct (AllocatePage_post (disk_manager_ bpm) Hinv ltac:(unfold EXTENT_LIMIT in *; lia) Hnum)
    as (d & L & Heq & Hinv' & HL & HLe & Hfree & Hfree' & _ & Hother & _).
  pose proof (content_AllocatePage (disk_manager_ bpm)) as Hcont. rewrite Heq in Hcont. cbn [fst] in Hcont.
  assert (Hnot : page_table_ bpm !! L = None).
  { destruct (page_table_ bpm !! L) as [g|] eqn:E; [|reflexivity].
    destruct (Hcoup L g E) as (_ & Hf). congruence. }
  assert (Hr : in_range L).
  { split; [lia|]. destruct (MapPageId_split L ltac:(lia)) as (-> & Hd & Hm). consts. lia. }
  exists L, d. unfold AllocatePage. rewrite Heq. split; [reflexivity|]. cbv zeta.
  unfold um_insert. cbn [page_table_ set_page set_disk]. rewrite Hnot.
  pose proof Hdet as (Hf & _). pose proof Hwf as (Hlen & _).
  destruct (install_spec (set_disk bpm d) f L (mkPage L 0 false (zero_page PAGE_SIZE)) Hwf Hdet Hnot eq_refl)
    as (Hv & Hsy & Hcp).
  assert (Hc1 : coupled (set_disk bpm d)).
  { split; [exact Hinv'|]. intros L2 g Hg. destruct (Hcoup L2 g Hg) as (Hr2 & Hf2). split; [exact Hr2|].
    cbn [disk_manager_ set_disk]. rewrite Hother; [exact Hf2 | apply in_range_extent, Hr2 | congruence]. }
  split; [apply (wf_install (set_disk bpm d) f L);
          [exact Hwf | exact Hdet | lia | exact Hnot | reflexivity | cbn; unfold INT_MAX; lia]|].
  split; [exact (Hcp Hc1 Hr Hfree')|]. do 4 (split; [first [assumption | reflexivity]|]).
  split; [apply lookup_insert_eq|]. split; [apply get_page_set_page_same; assumption|].
  split; [|split; [|reflexivity]].
  - intros L' HL'. rewrite Hv. destruct (decide (L' = L)); [reflexivity|].
    unfold view. cbn [page_table_ disk_manager_ set_disk]. destruct (page_table_ bpm !! L'); [reflexivity|].
    apply Hcont, HL'.
  - intros Hs Hz. apply Hsy; [|intros _; cbn; rewrite Hcont by lia; symmetry; exact Hz].
    intros L2 g q Hg Hq Hcl. cbn [page_table_ disk_manager_ set_disk] in *.
    destruct (Hcoup L2 g Hg) as ((HL2 & _) & _). rewrite Hcont by exact HL2. exact (Hs L2 g q Hg Hq Hcl).
Qed.

(** C2: [NewPage] below 2 GiB never has undefined behaviour and keeps the
    invariant.  It returns a page that was free on disk and is now cached
    zeroed in a frame with pin count 0 that is not in the replacer; what
    callers read for every other page is unchanged, and clean frames stay
    in sync with the disk if the disk held zeros for the new page.  It
    returns [nullptr] exactly when no frame is free or evictable. *)
Theorem NewPage_spec bpm :
  wf bpm -> coupled bpm -> sync bpm ->
  num_extents_ (meta_data_ (disk_manager_ bpm)) < EXTENT_LIMIT - 1 ->
  num_allocated_pages_ (meta_data_ (disk_manager_ bpm)) < MAX_VALID_PAGE_ID ->
  exists bpm' res, NewPage bpm = Some (bpm', res) /\ wf bpm' /\ coupled bpm' /\
    match res with
    | Some (L, f) =>
        is_free (disk_manager_ bpm) L = true /\ page_table_ bpm !! L = None /\
        page_table_ bpm' !! L = Some f /\
        get_page bpm' f = Some (mkPage L 0 false (zero_page PAGE_SIZE)) /\
        f ∉ r_elems (replacer_ bpm') /\
        (forall L', 0 <= L' -> view bpm' L' = if decide (L' = L) then zero_page PAGE_SIZE else view bpm L') /\
        (content (disk_manager_ bpm) L = zero_page PAGE_SIZE -> sync bpm')
    | None => free_list_ bpm = [] /\ r_elems (replacer_ bpm) = [] /\ bpm' = bpm
    end.
Proof.
  intros Hwf Hc Hs Hne Hnum. pose proof Hwf as (_ & Hok & _).
  pose proof Hc as (_ & Hcoup).
  assert (Hfresh : forall L, is_free (disk_manager_ bpm) L = true -> page_table_ bpm !! L = None).
  { intros L HL. destruct (page_table_ bpm !! L) as [g|] eqn:E; [|reflexivity].
    destruct (Hcoup L g E) as (_ & Hf). congruence. }
  unfold NewPage, pick_frame. destruct (free_list_ bpm) as [|f fl] eqn:Hfl.
  - destruct (r_victim (replacer_ bpm)) as [[f|] r1] eqn:Hv.
    + destruct (r_victim_Some _ f r1 Hok Hv) as (_ & Hok1 & _ & _).
      destruct (evict_victim bpm f r1 r1 Hwf Hc Hs Hfl Hv Hok1 eq_refl (fun x H => H))
        as (p & bpm3 & Hp & Hwb & Hwf4 & Hdet4 & Hc4 & Hs4 & Hview4 & Hnone4 & Hfree4 & Hmeta4).
      change (get_page (set_replacer bpm r1) f) with (get_page bpm f). rewrite Hp. cbv beta iota zeta.
      rewrite Hwb. cbv beta iota zeta.
      destruct (allocate_install _ f Hwf4 Hdet4 Hc4 ltac:(rewrite Hmeta4; exact Hne) ltac:(rewrite Hmeta4; exact Hnum))
        as (L & d & Hal & Hwf' & Hc' & Hr & Hfr & _ & Hnot4 & Ht' & Hp' & Hview' & Hsync' & Hrep').
      rewrite Hal. cbv beta iota zeta. eexists _, _. split; [reflexivity|].
      split; [exact Hwf'|]. split; [exact Hc'|].
      assert (Hfr0 : is_free (disk_manager_ bpm) L = true)
        by (rewrite <- Hfree4 by (apply in_range_extent, Hr); exact Hfr).
      split; [exact Hfr0|]. split; [apply Hfresh, Hfr0|]. split; [exact Ht'|]. split; [exact Hp'|].
      split; [rewrite Hrep'; apply Hdet4|].
      split; [intros L' HL'; rewrite Hview' by exact HL'; destruct (decide (L' = L)); [reflexivity | apply Hview4, HL']|].
      intros Hz. apply Hsync'; [exact Hs4|]. pose proof (Hview4 L (proj1 Hr)) as Hv4.
      unfold view in Hv4. rewrite Hnot4, (Hfresh L Hfr0) in Hv4. rewrite Hv4. exact Hz.
    + destruct (r_victim_None _ r1 Hok Hv) as [Hempty ->]. rewrite set_replacer_same.
      eexists _, _. split; [reflexivity|]. auto.
  - destruct (wf_pop_free bpm f fl Hwf Hfl) as (Hwf1 & Hdet1 & p & Hp & _).
    change (get_page (set_free bpm fl) f) with (get_page bpm f). rewrite Hp. cbv beta iota zeta.
    destruct (allocate_install (set_free bpm fl) f Hwf1 Hdet1 Hc Hne Hnum)
      as (L & d & Hal & Hwf' & Hc' & Hr & Hfr & _ & Hnot4 & Ht' & Hp' & Hview' & Hsync' & Hrep').
    rewrite Hal. cbv beta iota zeta. eexists _, _. split; [reflexivity|].
    split; [exact Hwf'|]. split; [exact Hc'|].
    split; [exact Hfr|]. split; [exact Hnot4|]. split; [exact Ht'|]. split; [exact Hp'|].
    split; [rewrite Hrep'; apply Hdet1|]. split; [exact Hview'|].
    intros Hz. apply Hsync'; [exact Hs | exact Hz].
Qed.

(** The frame [NewPage] hands out holds the new page, unpinned and
    clean, whatever the pool's state. *)
Lemma NewPage_frame bpm bpm' L f :
  NewPage bpm = Some (bpm', Some (L, f)) -> get_page bpm' f = Some (mkPage L 0 false (zero_page PAGE_SIZE)).
Proof.
  unfold NewPage. destruct (pick_frame bpm) as [[fid|] bpm1]; [|discriminate].
  destruct (get_page bpm1 fid) as [p|] eqn:Hp; [|discriminate].
  assert (Hw : forall b, write_back bpm1 p = Some b -> pages_ b = pages_ bpm1).
  { unfold write_back. destruct (is_dirty_ p); [destruct (WritePage _ _ _)|]; by intros b [= <-]. }
  destruct (match free_list_ bpm with [] => true | _ => false end).
  1: destruct (write_back bpm1 p) as [bpm2|] eqn:E2; [|discriminate].
  all: destruct (AllocatePage _) as [bpm4 pid] eqn:Ha; intros [= <- <- <-].
  all: unfold AllocatePage in Ha; destruct (DiskManager.AllocatePage _); injection Ha as <- <-.
  all: rewrite (get_page_pages (set_page _ fid _)) by reflexivity; eapply get_page_set_page_some.
  all: rewrite (get_page_pages bpm1); [exact Hp|]; cbn; first [done | by apply Hw].
Qed.

(** ** [DeletePage] *)

(** C38: [DeletePage] of a cached, unpinned page deallocates it on disk,
    erases it from the page table and resets the frame, but appends the
    page id ([iter->first]) to the free list, not the frame id, and
    leaves the frame in the replacer. *)
Theorem DeletePage_spec bpm L f p :
  page_table_ bpm !! L = Some f -> get_page bpm f = Some p -> pin_count_ p = 0 ->
  exists bpm', DeletePage bpm L = Some (bpm', true) /\
    free_list_ bpm' = free_list_ bpm ++ [L] /\ replacer_ bpm' = replacer_ bpm /\
    page_table_ bpm' = delete L (page_table_ bpm) /\
    disk_manager_ bpm' = DiskManager.DeAllocatePage (disk_manager_ bpm) L.
Proof.
  intros Ht Hp Hpin. unfold DeletePage. rewrite Ht, Hp, Hpin. cbn [Z.eqb negb].
  eexists. split; [reflexivity|]. repeat split.
Qed.

(** C39: [DeletePage] returns the page id to the free list as a frame id.
    On a full pool (no free frame), deleting a cached, unpinned page
    whose id is not a frame of the pool leaves that id as the only free
    frame: every later [NewPage], and every [FetchPage] of a page that is
    not cached, takes it and indexes [pages_] out of range. *)
Theorem DeletePage_corrupts_free_list bpm L f p :
  length (pages_ bpm) = pool_size_ bpm -> Z.of_nat (pool_size_ bpm) <= L ->
  page_table_ bpm !! L = Some f -> get_page bpm f = Some p -> pin_count_ p = 0 -> free_list_ bpm = [] ->
  exists bpm', DeletePage bpm L = Some (bpm', true) /\ free_list_ bpm' = [L] /\ NewPage bpm' = None /\
    forall L', L' <> INVALID_PAGE_ID -> page_table_ bpm' !! L' = None -> FetchPage bpm' L' = None.
Proof.
  intros Hlen Hge Ht Hp Hpin Hfl. unfold DeletePage. rewrite Ht, Hp, Hpin. cbn [Z.eqb negb].
  eexists. split; [reflexivity|]. set (bpm' := set_table _ _).
  assert (Hfl' : free_list_ bpm' = [L]) by (unfold bpm'; cbn; rewrite Hfl; reflexivity).
  assert (Hnone : get_page (set_free bpm' []) L = None).
  { unfold get_page. rewrite (proj2 (Z.ltb_ge _ _)) by lia. apply lookup_ge_None_2.
    unfold bpm'. cbn [pages_ set_free set_table set_page DeallocatePage set_disk]. rewrite length_insert. lia. }
  split; [exact Hfl'|]. split.
  - unfold NewPage, pick_frame. rewrite Hfl'. cbn iota. by rewrite Hnone.
  - intros L' Hinv Hn. unfold FetchPage. rewrite (proj2 (Z.eqb_neq _ _) Hinv), Hn.
    unfold pick_frame. rewrite Hfl'. cbn iota. by rewrite Hnone.
Qed.

End Preservation.

(** ** Runs with the LRU replacer *)

#[local] Existing Instances LRUReplacer.lru_replacer LRUReplacer.lru_replacer_laws.

(** A pool of [n] frames over a fresh file. *)
Definition lru_pool_on (n : nat) (dm : DiskManager) : BufferPoolManager LRUReplacer.LRUReplacer :=
  create n (LRUReplacer.create n) dm.

Definition lru_pool (n : nat) : BufferPoolManager LRUReplacer.LRUReplacer := lru_pool_on n fresh.

(** The pool the constructor builds is well formed. *)
Lemma wf_lru_pool n dm : wf (lru_pool_on n dm).
Proof.
  unfold wf, lru_pool_on, create, frame, get_page.
  cbn [pool_size_ pages_ page_table_ free_list_ replacer_ r_ok r_capacity r_elems
       LRUReplacer.lru_replacer LRUReplacer.create LRUReplacer.lru_list LRUReplacer.max_supported_list_size].
  split; [apply length_replicate|]. split; [split; [constructor | simpl; lia]|]. split; [reflexivity|].
  split; [apply (NoDup_fmap_2 Z.of_nat), NoDup_seq|].
  split; [|split].
  - intros f Hf. apply (list_elem_of_fmap Z.of_nat) in Hf as (i & -> & Hi). apply elem_of_seq in Hi.
    split; [lia|]. split; [set_solver|]. exists empty_page.
    rewrite (proj2 (Z.ltb_ge _ _)) by lia. rewrite Nat2Z.id, lookup_replicate_2 by lia. auto.
  - intros L f Hf. rewrite lookup_empty in Hf. discriminate.
  - intros f Hf. set_solver.
Qed.

(** A fresh pool over a disk that satisfies the disk invariant satisfies
    every buffer pool invariant. *)
Lemma lru_pool_invariants n dm :
  DiskManager.inv dm -> wf (lru_pool_on n dm) /\ coupled (lru_pool_on n dm) /\ sync (lru_pool_on n dm).
Proof.
  intros Hinv. split; [apply wf_lru_pool|]. split; [split; [exact Hinv|]|];
    intros L f; cbn; rewrite lookup_empty; discriminate.
Qed.

(** The disk after one allocation on a fresh file. *)
Definition disk1 : DiskManager := fst (DiskManager.AllocatePage fresh).

Lemma inv_disk1 : DiskManager.inv disk1.
Proof.
  destruct (AllocatePage_post fresh inv_fresh ltac:(vm_compute; reflexivity) ltac:(vm_compute; reflexivity))
    as (dm' & L & Heq & Hinv & _). unfold disk1. rewrite Heq. exact Hinv.
Qed.

Lemma FetchPage_spec_witness :
  exists bpm' f, FetchPage (lru_pool_on 1 disk1) 0 = Some (bpm', Some f) /\
    page_table_ bpm' !! 0 = Some f.
Proof.
  destruct (lru_pool_invariants 1 disk1 inv_disk1) as (Hwf & Hc & Hs).
  destruct (FetchPage_spec (lru_pool_on 1 disk1) 0 Hwf Hc Hs ltac:(split; [lia | vm_compute; reflexivity])
              ltac:(vm_compute; reflexivity) ltac:(intros f p Hf; vm_compute in Hf; discriminate Hf))
    as (bpm' & [f|] & Heq & _ & _ & _ & _ & Hres).
  - exists bpm', f. split; [exact Heq | apply Hres].
  - destruct Hres as (_ & Hfl & _). vm_compute in Hfl. discriminate Hfl.
Defined.

Lemma NewPage_spec_witness :
  exists bpm' L f, NewPage (lru_pool 1) = Some (bpm', Some (L, f)) /\ page_table_ bpm' !! L = Some f.
Proof.
  destruct (lru_pool_invariants 1 fresh inv_fresh) as (Hwf & Hc & Hs).
  destruct (NewPage_spec (lru_pool 1) Hwf Hc Hs ltac:(vm_compute; reflexivity) ltac:(vm_compute; reflexivity))
    as (bpm' & [[L f]|] & Heq & _ & _ & Hres).
  - exists bpm', L, f. split; [exact Heq | apply Hres].
  - destruct Hres as (Hfl & _). vm_compute in Hfl. discriminate Hfl.
Defined.

Lemma FlushPage_spec_witness : FlushPage (lru_pool 1) 0 = Some (lru_pool 1, false).
Proof.
  destruct (lru_pool_invariants 1 fresh inv_fresh) as (Hwf & Hc & Hs).
  exact (FlushPage_spec (lru_pool 1) 0 Hwf Hc Hs).
Defined.

Definition one_page_pool : BufferPoolManager LRUReplacer.LRUReplacer :=
  match NewPage (lru_pool 1) with Some (b, _) => b | None => lru_pool 1 end.

Lemma UnpinPage_spec_witness :
  exists bpm', UnpinPage (lru_pool 2) 0 true = Some (bpm', false) /\ True.
Proof.
  pose proof (UnpinPage_spec (lru_pool 2) 0 true (wf_lru_pool 2 fresh)) as H.
  vm_compute in H. exists (lru_pool 2). split; [exact H | exact I].
Defined.

Lemma DeletePage_spec_witness :
  exists bpm', DeletePage one_page_pool 0 = Some (bpm', true) /\ free_list_ bpm' = [0].
Proof.
  destruct (DeletePage_spec one_page_pool 0 0 (mkPage 0 0 false (zero_page PAGE_SIZE))
              ltac:(vm_compute; reflexivity) ltac:(vm_compute; reflexivity) ltac:(reflexivity))
    as (bpm' & Hd & Hfl & _). exists bpm'. split; [exact Hd|]. rewrite Hfl. vm_compute. reflexivity.
Defined.

(** [k] calls of [NewPage], and [UnpinPage] of each page of a list. *)
Fixpoint NewPage_n {R} `{Replacer R} (k : nat) (bpm : BufferPoolManager R)
  : option (BufferPoolManager R * list (option (Z * Z))) :=
  match k with
  | O => Some (bpm, [])
  | S k' => NewPage bpm ≫= fun '(b1, r) => NewPage_n k' b1 ≫= fun '(b2, rs) => Some (b2, r :: rs)
  end.

Fixpoint UnpinPage_all {R} `{Replacer R} (bpm : BufferPoolManager R) (ps : list Z) (dirty : bool)
  : option (BufferPoolManager R) :=
  match ps with
  | [] => Some bpm
  | L :: ps' => UnpinPage bpm L dirty ≫= fun '(b1, _) => UnpinPage_all b1 ps' dirty
  end.

(** Churn scenario of the spec: ten [NewPage] calls on a pool of ten
    frames give pages 0..9 in frames 0..9; after all ten are unpinned as
    dirty, an eleventh [NewPage] returns [nullptr]: [NewPage] leaves the
    pin count at 0 without handing the frame to the replacer, so
    [UnpinPage] never does either and no frame can be evicted. *)
Example NewPage_pool_exhausted :
  option_map snd (NewPage_n 10 (lru_pool 10)) =
    Some (map (fun i => Some (i, i)) (seqZ 0 10)) /\
  (NewPage_n 10 (lru_pool 10) ≫= fun '(b1, _) =>
   UnpinPage_all b1 (seqZ 0 10) true ≫= fun b2 =>
   option_map (fun '(b3, r) => (r, LRUReplacer.lru_list (replacer_ b3))) (NewPage b2)) =
    Some (None, []).
Proof. split; vm_compute; reflexivity. Qed.

(** One frame holding page 1, unpinned, and no free frame: page 0 was
    created, fetched and unpinned, then page 1 replaced it and was
    fetched and unpinned. *)
Definition wfull_pool : BufferPoolManager LRUReplacer.LRUReplacer :=
  match NewPage (lru_pool 1) ≫= fun '(b1, _) =>
        FetchPage b1 0 ≫= fun '(b2, _) =>
        UnpinPage b2 0 false ≫= fun '(b3, _) =>
        NewPage b3 ≫= fun '(b4, _) =>
        FetchPage b4 1 ≫= fun '(b5, _) =>
        UnpinPage b5 1 false with
  | Some (b, _) => b
  | None => lru_pool 1
  end.

Lemma DeletePage_corrupts_free_list_witness :
  exists bpm', DeletePage wfull_pool 1 = Some (bpm', true) /\ free_list_ bpm' = [1] /\ NewPage bpm' = None /\
    forall L', L' <> INVALID_PAGE_ID -> page_table_ bpm' !! L' = None -> FetchPage bpm' L' = None.
Proof.
  apply (DeletePage_corrupts_free_list wfull_pool 1 0 (mkPage 1 0 false (zero_page PAGE_SIZE)));
    vm_compute; (reflexivity || discriminate).
Defined.

End BufferPool.
