(* ===== verification/KeyComparator.v ===== *)
(** * Key comparators (index/basic_comparator.h, index/generic_key.h)

    The B+ tree and its pages are templates over a key type and a
    comparator returning an [int]: negative, zero or positive.
    [KeyComparator] is that function; [KeyComparatorLaws] is what the
    index needs of it: a total order in which zero means the same key.
    [BasicComparator] is the comparator of the [int] instantiation
    (modelled from the spec: the header is not under src/).

    The reference list operations that the page methods are proved
    against live here: [sorted_insert], [lookup_key], [remove_key],
    [key_index], and [key_sorted], the strictly increasing order of the
    keys of a page. *)

From Stdlib Require Import ZArith Lia List Sorting.
From stdpp Require Import base list.
From S2P Require Import Spec2Rocq.
Import ListNotations.
Open Scope Z_scope.

Class KeyComparator (K : Type) := key_cmp : K -> K -> Z.

Class KeyComparatorLaws (K : Type) `{KeyComparator K} := {
  cmp_antisym a b : Z.sgn (key_cmp b a) = - Z.sgn (key_cmp a b);
  cmp_trans a b c : key_cmp a b <= 0 -> key_cmp b c <= 0 -> key_cmp a c <= 0;
  cmp_eq a b : key_cmp a b = 0 -> a = b
}.

(** [BasicComparator<int>::operator()]: -1, 0 or 1. *)
#[export] Instance BasicComparator : KeyComparator Z :=
  fun lhs rhs => if lhs <? rhs then -1 else if rhs <? lhs then 1 else 0.

#[export] Instance BasicComparator_laws : KeyComparatorLaws Z.
Proof.
  split; unfold key_cmp, BasicComparator; intros a b; [|intros c|];
    repeat match goal with |- context [?x <? ?y] => destruct (Z.ltb_spec x y) end; simpl; lia.
Qed.

(** ** Reference operations on the live pairs of a page *)

Section Reference.
Context {K V : Type} `{KeyComparator K}.
Implicit Types (k : K) (kv x : K * V) (l : list (K * V)).

(** Keys strictly increasing. *)
Fixpoint key_sorted (ks : list K) : bool :=
  match ks with
  | a :: ((b :: _) as ks') => (key_cmp a b <? 0) && key_sorted ks'
  | _ => true
  end.

Definition sorted_pairs l : Prop := key_sorted (map fst l) = true.

(** Insert before the first pair with a greater key. *)
Fixpoint sorted_insert kv l : list (K * V) :=
  match l with
  | [] => [kv]
  | x :: l' => if key_cmp (fst x) (fst kv) >? 0 then kv :: l else x :: sorted_insert kv l'
  end.

(** The value of the first pair whose key compares equal. *)
Fixpoint lookup_key k l : option V :=
  match l with
  | [] => None
  | x :: l' => if key_cmp k (fst x) =? 0 then Some (snd x) else lookup_key k l'
  end.

(** Drop the first pair whose key compares equal. *)
Fixpoint remove_key k l : list (K * V) :=
  match l with
  | [] => []
  | x :: l' => if key_cmp k (fst x) =? 0 then l' else x :: remove_key k l'
  end.

(** The number of pairs before the first one whose key is not smaller. *)
Fixpoint key_index k l : nat :=
  match l with
  | [] => O
  | x :: l' => if key_cmp (fst x) k >=? 0 then O else S (key_index k l')
  end.

End Reference.

(** ** The order *)

Section Order.
Context {K V : Type} `{HK : KeyComparatorLaws K}.
Implicit Types (a b c k : K) (kv x : K * V) (l : list (K * V)).

Lemma cmp_refl a : key_cmp a a = 0.
Proof. pose proof (cmp_antisym a a). apply Z.sgn_null_iff. lia. Qed.

Lemma cmp_flip_lt a b : key_cmp a b < 0 <-> key_cmp b a > 0.
Proof.
  pose proof (cmp_antisym a b).
  destruct (Z.sgn_spec (key_cmp a b)) as [[? E]|[[? E]|[? E]]];
    destruct (Z.sgn_spec (key_cmp b a)) as [[? E']|[[? E']|[? E']]]; lia.
Qed.

Lemma cmp_flip_ge a b : key_cmp a b >= 0 -> key_cmp b a <= 0.
Proof.
  intros Hab. destruct (Z.le_gt_cases (key_cmp b a) 0) as [|Hgt]; [assumption|].
  assert (key_cmp a b < 0) by (apply cmp_flip_lt; lia). lia.
Qed.

Lemma cmp_flip_eq a b : key_cmp a b = 0 -> key_cmp b a = 0.
Proof. intros E. apply cmp_eq in E as ->. apply cmp_refl. Qed.

Lemma cmp_lt_trans a b c : key_cmp a b < 0 -> key_cmp b c < 0 -> key_cmp a c < 0.
Proof.
  intros H1 H2. assert (key_cmp a c <= 0) by (apply (cmp_trans a b c); lia).
  destruct (Z.eq_dec (key_cmp a c) 0) as [E|]; [|lia].
  apply cmp_eq in E as ->. apply cmp_flip_lt in H2. lia.
Qed.

Lemma cmp_lt_le_trans a b c : key_cmp a b < 0 -> key_cmp b c <= 0 -> key_cmp a c < 0.
Proof.
  intros H1 H2. destruct (Z.eq_dec (key_cmp b c) 0) as [E|].
  - apply cmp_eq in E as ->. exact H1.
  - apply (cmp_lt_trans a b c); lia.
Qed.

Lemma cmp_le_lt_trans a b c : key_cmp a b <= 0 -> key_cmp b c < 0 -> key_cmp a c < 0.
Proof.
  intros H1 H2. destruct (Z.eq_dec (key_cmp a b) 0) as [E|].
  - apply cmp_eq in E as ->. exact H2.
  - apply (cmp_lt_trans a b c); lia.
Qed.

Lemma key_sorted_cons a ks :
  key_sorted (a :: ks) = true <-> key_sorted ks = true /\ Forall (fun b => key_cmp a b < 0) ks.
Proof.
  revert a; induction ks as [|b ks IH]; intros a; [simpl; split; auto|].
  cbn [key_sorted]. rewrite andb_true_iff, Z.ltb_lt, Forall_cons. split.
  - intros [Hab Hs]. split; [exact Hs|]. split; [exact Hab|].
    apply IH in Hs as [_ Hb]. eapply Forall_impl; [exact Hb|]. intros c Hc. eapply cmp_lt_trans; eauto.
  - intros [Hs [Hab _]]. auto.
Qed.

Lemma sorted_pairs_cons x l :
  sorted_pairs (x :: l) <-> sorted_pairs l /\ Forall (fun y => key_cmp (fst x) (fst y) < 0) l.
Proof. unfold sorted_pairs. cbn [map]. rewrite key_sorted_cons, Forall_map. reflexivity. Qed.

Lemma sorted_pairs_app l1 l2 :
  sorted_pairs (l1 ++ l2) <->
  sorted_pairs l1 /\ sorted_pairs l2 /\ Forall (fun x => Forall (fun y => key_cmp (fst x) (fst y) < 0) l2) l1.
Proof.
  induction l1 as [|x l1 IH]; [unfold sorted_pairs; simpl; split; [intros Hs; repeat split; auto | tauto]|].
  cbn [app]. rewrite !sorted_pairs_cons, IH, Forall_cons, Forall_app. tauto.
Qed.

(** In a sorted list the pairs after a pair with key [k] do not match [k]. *)
Lemma lookup_key_sorted_head x l : sorted_pairs (x :: l) -> lookup_key (fst x) l = None.
Proof.
  intros Hs. apply sorted_pairs_cons in Hs as [_ Hall].
  induction Hall as [|y l Hy Hall IH]; [reflexivity|]. cbn [lookup_key].
  rewrite (proj2 (Z.eqb_neq _ _)) by lia. exact IH.
Qed.

Lemma lookup_key_app k l1 l2 :
  lookup_key k (l1 ++ l2) = match lookup_key k l1 with Some v => Some v | None => lookup_key k l2 end.
Proof.
  induction l1 as [|x l1 IH]; [reflexivity|]. cbn [app lookup_key].
  destruct (key_cmp k (fst x) =? 0); [reflexivity | exact IH].
Qed.

Lemma lookup_key_None k l : lookup_key k l = None <-> Forall (fun x => key_cmp k (fst x) <> 0) l.
Proof.
  induction l as [|x l IH]; [split; auto|]. cbn [lookup_key]. rewrite Forall_cons, <- IH.
  destruct (Z.eqb_spec (key_cmp k (fst x)) 0); split; intros; try tauto; discriminate.
Qed.

(** [sorted_insert] places the pair between the smaller and the greater keys. *)
Lemma sorted_insert_split kv l :
  sorted_pairs l ->
  exists l1 l2, l = l1 ++ l2 /\ sorted_insert kv l = l1 ++ kv :: l2 /\
    Forall (fun x => key_cmp (fst x) (fst kv) <= 0) l1 /\
    Forall (fun x => key_cmp (fst x) (fst kv) > 0) l2.
Proof.
  induction l as [|x l IH]; intros Hs; [exists [], []; simpl; auto|].
  pose proof Hs as [Hs' Hall]%sorted_pairs_cons. cbn [sorted_insert].
  destruct (Z.gtb_spec (key_cmp (fst x) (fst kv)) 0) as [Hgt|Hle].
  - exists [], (x :: l). split; [reflexivity|]. split; [reflexivity|]. split; [constructor|].
    constructor; [lia|]. eapply Forall_impl; [exact Hall|]. intros y Hy.
    apply (proj1 (cmp_flip_lt (fst kv) (fst y))).
    apply (cmp_lt_trans _ (fst x)); [apply (proj2 (cmp_flip_lt _ _)); lia | exact Hy].
  - destruct (IH Hs') as (l1 & l2 & -> & -> & H1 & H2).
    exists (x :: l1), l2. repeat split; try reflexivity; try assumption. constructor; [lia | exact H1].
Qed.

Lemma sorted_insert_sorted kv l :
  sorted_pairs l -> lookup_key (fst kv) l = None -> sorted_pairs (sorted_insert kv l).
Proof.
  intros Hs Hnone. destruct (sorted_insert_split kv l Hs) as (l1 & l2 & -> & -> & H1 & H2).
  apply sorted_pairs_app in Hs as (Hs1 & Hs2 & H12). rewrite lookup_key_app in Hnone.
  destruct (lookup_key (fst kv) l1) eqn:E1; [discriminate|].
  apply sorted_pairs_app. split; [exact Hs1|]. split.
  - apply sorted_pairs_cons. split; [exact Hs2|]. eapply Forall_impl; [exact H2|].
    intros y Hy. apply cmp_flip_lt. exact Hy.
  - apply Forall_forall. intros x Hx. constructor; [|exact (proj1 (Forall_forall _ _) H12 x Hx)].
    pose proof (proj1 (Forall_forall _ _) H1 x Hx) as Hle. cbn beta in Hle.
    pose proof (proj1 (Forall_forall _ _) (proj1 (lookup_key_None _ _) E1) x Hx) as Hne. cbn beta in Hne.
    assert (key_cmp (fst x) (fst kv) <> 0) by (intros E; apply Hne, cmp_flip_eq, E). lia.
Qed.

Lemma remove_key_absent k l : lookup_key k l = None -> remove_key k l = l.
Proof.
  induction l as [|x l IH]; [reflexivity|]. cbn [lookup_key remove_key].
  destruct (key_cmp k (fst x) =? 0); [discriminate|]. intros Hl. rewrite (IH Hl). reflexivity.
Qed.

(** The first match splits the list; [remove_key] drops exactly it. *)
Lemma lookup_key_Some_split k l v :
  lookup_key k l = Some v ->
  exists P x S, l = P ++ x :: S /\ Forall (fun y => key_cmp k (fst y) <> 0) P /\
    key_cmp k (fst x) = 0 /\ snd x = v /\ remove_key k l = P ++ S.
Proof.
  induction l as [|y l IH]; [discriminate|]. cbn [lookup_key remove_key].
  destruct (Z.eqb_spec (key_cmp k (fst y)) 0) as [E|E]; intros Hl.
  - injection Hl as <-. exists [], y, l. repeat split; auto.
  - destruct (IH Hl) as (P & x & S & -> & HP & Hx & Hv & Hr).
    exists (y :: P), x, S. rewrite Hr. repeat split; auto.
Qed.

(** In a sorted list nothing after a match matches again. *)
Lemma sorted_after_match k P x S :
  sorted_pairs (P ++ x :: S) -> key_cmp k (fst x) = 0 -> Forall (fun y => key_cmp k (fst y) <> 0) S.
Proof.
  intros Hs Hx. apply cmp_eq in Hx as ->.
  apply sorted_pairs_app in Hs as (_ & Hs & _). apply sorted_pairs_cons in Hs as [_ Hall].
  eapply Forall_impl; [exact Hall|]. intros y Hy. cbn beta in Hy. lia.
Qed.

(** [key_index] on a sorted list counts the smaller keys. *)
Lemma key_index_sorted k l :
  sorted_pairs l -> key_index k l = length (List.filter (fun x => key_cmp (fst x) k <? 0) l).
Proof.
  induction l as [|x l IH]; intros Hs; [reflexivity|].
  apply sorted_pairs_cons in Hs as [Hs Hall]. cbn [key_index List.filter].
  destruct (Z.geb_spec (key_cmp (fst x) k) 0) as [Hge|Hlt].
  - rewrite (proj2 (Z.ltb_ge _ _)) by lia.
    assert (key_cmp k (fst x) <= 0) as Hkx.
    { destruct (Z.eq_dec (key_cmp (fst x) k) 0) as [E|E];
        [apply cmp_flip_eq in E; lia | pose proof (proj2 (cmp_flip_lt k (fst x)) ltac:(lia)); lia]. }
    clear IH Hs. induction Hall as [|y l Hxy Hall IHl]; [reflexivity|]. cbn [List.filter].
    pose proof (cmp_le_lt_trans _ _ _ Hkx Hxy) as Hky. apply cmp_flip_lt in Hky.
    rewrite (proj2 (Z.ltb_ge _ _)) by lia. exact IHl.
  - rewrite (proj2 (Z.ltb_lt _ _)) by lia. cbn [length]. rewrite (IH Hs). reflexivity.
Qed.

End Order.

#[export] Hint Resolve cmp_refl cmp_flip_eq : minisql.
