(* ===== verification/TreePage.v ===== *)
(** * B+ tree pages and the page store of the index

    The page layouts of page/b_plus_tree_page.h,
    b_plus_tree_leaf_page.h and b_plus_tree_internal_page.h (headers not
    under src/, so modelled from the spec): the common header
    [{page_type_, lsn_, size_, max_size_, parent_page_id_, page_id_}],
    the leaf's [next_page_id_] and the slot array [array_] of pairs.
    The array is kept as the page has it, a list of slots of which the
    first [size_] are live; [page_type_] is the constructor of [Node];
    [lsn_] is never read by the index and is left out.

    The B+ tree reaches its pages through the buffer pool: it fetches a
    page, casts its bytes to a node, writes through the pointer and
    unpins.  [Store] models the buffer pool as the index sees it: the
    nodes by page id (a gmap, so two pointers to one page see each
    other's writes), the pin counts the index leaves, the next page id
    [NewPage] hands out, and the index roots page (index id to root page
    id).  [fetch] fails (nullptr) on a page the store does not hold;
    frames running out is the buffer pool's business (BufferPool.v) and
    is not modelled here. *)

From Stdlib Require Import ZArith Lia List.
From stdpp Require Import base list gmap.
From S2P Require Import Spec2Rocq KeyComparator.
Import ListNotations.
Open Scope Z_scope.

Section Pages.
Context {K V : Type}.

Record LeafPage := mkLeafPage {
  l_page_id : Z;
  l_parent_page_id : Z;
  l_max_size : Z;
  l_size : Z;
  l_next_page_id : Z;
  l_array : list (K * V)
}.

Record InternalPage := mkInternalPage {
  i_page_id : Z;
  i_parent_page_id : Z;
  i_max_size : Z;
  i_size : Z;
  i_array : list (K * Z)
}.

Inductive Node :=
| LeafNode (p : LeafPage)
| InternalNode (p : InternalPage).

(** [GetMinSize()]: half the maximum, rounded down. *)
Definition min_size (max_size : Z) : Z := max_size / 2.

(** The live pairs: the first [size_] slots. *)
Definition leaf_items (p : LeafPage) : list (K * V) := take (Z.to_nat (l_size p)) (l_array p).
Definition internal_items (p : InternalPage) : list (K * Z) := take (Z.to_nat (i_size p)) (i_array p).

(** The header fields the page methods keep. *)
Definition leaf_header (p : LeafPage) : Z * Z * Z * Z :=
  (l_page_id p, l_parent_page_id p, l_max_size p, l_next_page_id p).
Definition internal_header (p : InternalPage) : Z * Z * Z :=
  (i_page_id p, i_parent_page_id p, i_max_size p).

(** The setters of the header. *)
Definition leaf_set_size (p : LeafPage) (n : Z) : LeafPage :=
  mkLeafPage (l_page_id p) (l_parent_page_id p) (l_max_size p) n (l_next_page_id p) (l_array p).
Definition leaf_set_array (p : LeafPage) (a : list (K * V)) : LeafPage :=
  mkLeafPage (l_page_id p) (l_parent_page_id p) (l_max_size p) (l_size p) (l_next_page_id p) a.
Definition leaf_set_parent (p : LeafPage) (parent : Z) : LeafPage :=
  mkLeafPage (l_page_id p) parent (l_max_size p) (l_size p) (l_next_page_id p) (l_array p).
(** [SetNextPageId]. *)
Definition SetNextPageId (p : LeafPage) (next : Z) : LeafPage :=
  mkLeafPage (l_page_id p) (l_parent_page_id p) (l_max_size p) (l_size p) next (l_array p).

Definition internal_set_size (p : InternalPage) (n : Z) : InternalPage :=
  mkInternalPage (i_page_id p) (i_parent_page_id p) (i_max_size p) n (i_array p).
Definition internal_set_array (p : InternalPage) (a : list (K * Z)) : InternalPage :=
  mkInternalPage (i_page_id p) (i_parent_page_id p) (i_max_size p) (i_size p) a.
Definition internal_set_parent (p : InternalPage) (parent : Z) : InternalPage :=
  mkInternalPage (i_page_id p) parent (i_max_size p) (i_size p) (i_array p).

(** The header fields every node has. *)
Definition node_page_id (n : Node) : Z :=
  match n with LeafNode p => l_page_id p | InternalNode p => i_page_id p end.
Definition node_parent (n : Node) : Z :=
  match n with LeafNode p => l_parent_page_id p | InternalNode p => i_parent_page_id p end.
Definition node_size (n : Node) : Z :=
  match n with LeafNode p => l_size p | InternalNode p => i_size p end.
Definition node_max_size (n : Node) : Z :=
  match n with LeafNode p => l_max_size p | InternalNode p => i_max_size p end.
(** [BPlusTreePage::SetParentPageId] through a [BPlusTreePage *]. *)
Definition node_set_parent (n : Node) (parent : Z) : Node :=
  match n with
  | LeafNode p => LeafNode (leaf_set_parent p parent)
  | InternalNode p => InternalNode (internal_set_parent p parent)
  end.

(** ** The page store *)

Record Store := mkStore {
  nodes : gmap Z Node;
  pins : gmap Z Z;
  next_page : Z;
  roots : gmap Z Z
}.

Definition pin_of (s : Store) (pid : Z) : Z := default 0 (pins s !! pid).

(** [FetchPage]: the node, pinned once more; [None] for nullptr. *)
Definition fetch (s : Store) (pid : Z) : option (Store * Node) :=
  match nodes s !! pid with
  | Some n => Some (mkStore (nodes s) (<[pid := pin_of s pid + 1]> (pins s)) (next_page s) (roots s), n)
  | None => None
  end.

(** [UnpinPage]: one pin less, never below zero. *)
Definition unpin (s : Store) (pid : Z) : Store :=
  if 0 <? pin_of s pid
  then mkStore (nodes s) (<[pid := pin_of s pid - 1]> (pins s)) (next_page s) (roots s)
  else s.

(** A write through the pointer to page [pid]. *)
Definition put (s : Store) (pid : Z) (n : Node) : Store :=
  mkStore (<[pid := n]> (nodes s)) (pins s) (next_page s) (roots s).

(** [NewPage]: a page id not in use, holding the node the caller's [Init]
    writes; pin count 0, as buffer_pool_manager.cpp leaves it. *)
Definition new_page (s : Store) : Store * Z :=
  (mkStore (nodes s) (<[next_page s := 0]> (pins s)) (next_page s + 1) (roots s), next_page s).

(** [DeletePage]: refused while the page is pinned. *)
Definition delete_page (s : Store) (pid : Z) : Store * bool :=
  if 0 <? pin_of s pid then (s, false)
  else (mkStore (delete pid (nodes s)) (delete pid (pins s)) (next_page s) (roots s), true).

(** The index roots page: [Insert] and [Update] of the entry of an index. *)
Definition set_root (s : Store) (index_id root : Z) : Store :=
  mkStore (nodes s) (pins s) (next_page s) (<[index_id := root]> (roots s)).

(** ** Store lemmas *)

Lemma fetch_Some s pid s' n :
  fetch s pid = Some (s', n) -> nodes s !! pid = Some n /\ nodes s' = nodes s /\ roots s' = roots s /\
    next_page s' = next_page s.
Proof. unfold fetch. destruct (nodes s !! pid); intros H; [injection H as <- <-|]; easy. Qed.

Lemma fetch_present s pid n :
  nodes s !! pid = Some n -> exists s', fetch s pid = Some (s', n) /\ nodes s' = nodes s /\
    roots s' = roots s /\ next_page s' = next_page s.
Proof. intros Hn. unfold fetch. rewrite Hn. eexists. split; [reflexivity|]. easy. Qed.

Lemma nodes_unpin s pid : nodes (unpin s pid) = nodes s.
Proof. unfold unpin. destruct (0 <? pin_of s pid); reflexivity. Qed.

Lemma roots_unpin s pid : roots (unpin s pid) = roots s.
Proof. unfold unpin. destruct (0 <? pin_of s pid); reflexivity. Qed.

Lemma next_page_unpin s pid : next_page (unpin s pid) = next_page s.
Proof. unfold unpin. destruct (0 <? pin_of s pid); reflexivity. Qed.

(** Pin counts are never negative: [UnpinPage] stops at zero. *)
Definition pins_nonneg (s : Store) : Prop := forall q, 0 <= pin_of s q.

Lemma pin_of_fetch s pid s1 n q :
  fetch s pid = Some (s1, n) -> pin_of s1 q = pin_of s q + (if decide (q = pid) then 1 else 0).
Proof.
  unfold fetch. destruct (nodes s !! pid); intros Hf; [injection Hf as <- <-|discriminate].
  unfold pin_of at 1. cbn [pins]. destruct (decide (q = pid)) as [->|Hne].
  - rewrite lookup_insert_eq. reflexivity.
  - rewrite lookup_insert_ne by congruence. unfold pin_of. lia.
Qed.

Lemma pin_of_unpin s pid q :
  0 < pin_of s pid -> pin_of (unpin s pid) q = pin_of s q - (if decide (q = pid) then 1 else 0).
Proof.
  intros Hp. unfold unpin. rewrite (proj2 (Z.ltb_lt _ _) Hp). unfold pin_of at 1. cbn [pins].
  destruct (decide (q = pid)) as [->|Hne].
  - rewrite lookup_insert_eq. reflexivity.
  - rewrite lookup_insert_ne by congruence. unfold pin_of. lia.
Qed.

Lemma nodes_put s pid n : nodes (put s pid n) = <[pid := n]> (nodes s).
Proof. reflexivity. Qed.

Lemma roots_delete_page s pid : roots (fst (delete_page s pid)) = roots s.
Proof. unfold delete_page. destruct (0 <? pin_of s pid); reflexivity. Qed.

Lemma nodes_delete_page s pid : pin_of s pid = 0 -> nodes (fst (delete_page s pid)) = delete pid (nodes s).
Proof. intros Hp. unfold delete_page. rewrite Hp. reflexivity. Qed.

Lemma pin_of_set_root s i r q : pin_of (set_root s i r) q = pin_of s q.
Proof. reflexivity. Qed.

Lemma pin_of_put s pid n q : pin_of (put s pid n) q = pin_of s q.
Proof. reflexivity. Qed.

(** A fetch followed by the unpin of the same page leaves the pins as
    they were. *)
Lemma fetch_unpin_pins s pid s1 n q :
  pins_nonneg s -> fetch s pid = Some (s1, n) -> pin_of (unpin s1 pid) q = pin_of s q.
Proof.
  intros Hnn Hf. pose proof (pin_of_fetch _ _ _ _ pid Hf) as Hp. rewrite decide_True in Hp by reflexivity.
  rewrite pin_of_unpin by (specialize (Hnn pid); lia). rewrite (pin_of_fetch _ _ _ _ q Hf).
  destruct (decide (q = pid)); lia.
Qed.

(** The check of [pins_nonneg] on the pin table. *)
Lemma pins_nonneg_check s : forallb (fun qc => 0 <=? snd qc) (map_to_list (pins s)) = true -> pins_nonneg s.
Proof.
  intros Hc q. unfold pin_of. destruct (pins s !! q) as [c|] eqn:Hq; cbn; [|lia].
  apply elem_of_map_to_list, list_elem_of_In in Hq. rewrite forallb_forall in Hc.
  specialize (Hc _ Hq). cbn in Hc. lia.
Qed.

Lemma pins_nonneg_same s s' : (forall q, pin_of s' q = pin_of s q) -> pins_nonneg s -> pins_nonneg s'.
Proof. intros E Hnn q. rewrite E. apply Hnn. Qed.

Lemma length_leaf_items p :
  0 <= l_size p -> (Z.to_nat (l_size p) <= length (l_array p))%nat -> length (leaf_items p) = Z.to_nat (l_size p).
Proof. intros _ H. unfold leaf_items. rewrite length_take. lia. Qed.

End Pages.

Arguments LeafPage : clear implicits.
Arguments InternalPage : clear implicits.
Arguments Node : clear implicits.
Arguments Store : clear implicits.

#[export] Hint Rewrite @nodes_unpin @roots_unpin @next_page_unpin : minisql_rw.
