(* ===== verification/LeafPage.v ===== *)
(** * Leaf pages of the B+ tree (page/b_plus_tree_leaf_page.cpp)

    [BPlusTreeLeafPage] translates the methods of the leaf page over the
    record [LeafPage] of TreePage.v: the loops of the C++ code are
    [Fixpoint]s whose fuel is the loop's trip count, reading and writing
    the slot array with [aget]/[aset] as the code indexes [array_].
    Methods on two pages ([MoveHalfTo], [MoveAllTo], ...) return both.

    The theorems prove each method equal, on the live pairs, to the
    reference operation of KeyComparator.v: [Insert] is [sorted_insert],
    [Lookup] is [lookup_key], [RemoveAndDeleteRecord] is [remove_key],
    [KeyIndex] counts the smaller keys, [MoveHalfTo] splits the pairs,
    [MoveAllTo] concatenates them in key order.  Each loop lemma states
    the loop's effect on an array cut into a prefix, the part the loop
    walks and the rest. *)

From Stdlib Require Import ZArith Lia List.
From stdpp Require Import base list.
From S2P Require Import Spec2Rocq KeyComparator TreePage.
Import ListNotations.
Open Scope Z_scope.

Module BPlusTreeLeafPage.

Section Leaf.
Context {K V : Type} `{KeyComparator K} `{Inhabited K} `{Inhabited V}.
Implicit Types (p this recipient : LeafPage K V) (key : K) (value : V) (a : list (K * V)).

(** [Init]: over the slots the page's memory holds. *)
Definition Init (slots : list (K * V)) (page_id parent_id max_size : Z) : LeafPage K V :=
  mkLeafPage page_id parent_id max_size 0 INVALID_PAGE_ID slots.

Definition KeyAt p (index : Z) : K := fst (aget (l_array p) index).
Definition GetItem p (index : Z) : K * V := aget (l_array p) index.

(** [KeyIndex]: [for (i = 0; i < size; ++i) if (cmp(array_[i].first, key) >= 0) return i; return size;] *)
Fixpoint key_index_loop (fuel : nat) (i : Z) a key : Z :=
  match fuel with
  | O => i
  | S f => if key_cmp (fst (aget a i)) key >=? 0 then i else key_index_loop f (i + 1) a key
  end.
Definition KeyIndex p key : Z := key_index_loop (Z.to_nat (l_size p)) 0 (l_array p) key.

(** [Insert]: [for (i = size - 1; i >= 0; --i)] shift the greater pairs
    one slot up, then write the pair into the hole. *)
Fixpoint insert_loop (fuel : nat) (i : Z) (kv : K * V) a : list (K * V) :=
  match fuel with
  | O => aset a 0 kv
  | S f => if key_cmp (fst (aget a i)) (fst kv) >? 0
           then insert_loop f (i - 1) kv (aset a (i + 1) (aget a i))
           else aset a (i + 1) kv
  end.
Definition Insert p key value : LeafPage K V * Z :=
  let size := l_size p in
  (leaf_set_size (leaf_set_array p (insert_loop (Z.to_nat size) (size - 1) (key, value) (l_array p))) (size + 1),
   size + 1).

(** [CopyNFrom]: [SetSize(size)], then [array_[i] = items[i]] for [i < size]. *)
Fixpoint copy_loop (fuel : nat) (i : Z) (items a : list (K * V)) : list (K * V) :=
  match fuel with
  | O => a
  | S f => copy_loop f (i + 1) items (aset a i (aget items i))
  end.
Definition CopyNFrom p (items : list (K * V)) (size : Z) : LeafPage K V :=
  leaf_set_array (leaf_set_size p size) (copy_loop (Z.to_nat size) 0 items (l_array p)).

(** [MoveHalfTo]: the upper [size / 2] pairs go to [recipient]. *)
Definition MoveHalfTo this recipient : LeafPage K V * LeafPage K V :=
  let size := l_size this in
  let recipient' := CopyNFrom recipient (drop (Z.to_nat (size - size / 2)) (l_array this)) (size / 2) in
  (leaf_set_size this (size - size / 2), recipient').

(** [Lookup]: the value of the first slot whose key compares equal. *)
Fixpoint lookup_loop (fuel : nat) (i : Z) a key : option V :=
  match fuel with
  | O => None
  | S f => if key_cmp key (fst (aget a i)) =? 0 then Some (snd (aget a i)) else lookup_loop f (i + 1) a key
  end.
Definition Lookup p key : option V := lookup_loop (Z.to_nat (l_size p)) 0 (l_array p) key.

(** [RemoveAndDeleteRecord]: once [flag] is set, each slot that does not
    match moves one slot down. *)
Fixpoint remove_loop (fuel : nat) (i : Z) (flag : bool) a key : bool * list (K * V) :=
  match fuel with
  | O => (flag, a)
  | S f =>
      if key_cmp key (fst (aget a i)) =? 0 then remove_loop f (i + 1) true a key
      else if flag then remove_loop f (i + 1) flag (aset a (i - 1) (aget a i)) key
      else remove_loop f (i + 1) flag a key
  end.
Definition RemoveAndDeleteRecord p key : LeafPage K V * Z :=
  let size := l_size p in
  let '(flag, a) := remove_loop (Z.to_nat size) 0 false (l_array p) key in
  if flag then (leaf_set_size (leaf_set_array p a) (size - 1), size - 1)
  else (leaf_set_array p a, size).

(** [CopyLastFrom]: [array_[size] = item; SetSize(size + 1)]. *)
Definition CopyLastFrom p (item : K * V) : LeafPage K V :=
  let size := l_size p in leaf_set_size (leaf_set_array p (aset (l_array p) size item)) (size + 1).


(** [MoveFirstToEndOf]. *)
Definition MoveFirstToEndOf this recipient : LeafPage K V * LeafPage K V :=
  let size := l_size this in
  let recipient' := CopyLastFrom recipient (aget (l_array this) 0) in
  (leaf_set_size (leaf_set_array this (shift_down_loop (Z.to_nat (size - 1)) 1 (l_array this))) (size - 1),
   recipient').


(** [CopyFirstFrom]. *)
Definition CopyFirstFrom p (item : K * V) : LeafPage K V :=
  let size := l_size p in
  leaf_set_size (leaf_set_array p (aset (shift_up_loop (Z.to_nat size) (size - 1) (l_array p)) 0 item)) (size + 1).

(** [MoveLastToFrontOf]. *)
Definition MoveLastToFrontOf this recipient : LeafPage K V * LeafPage K V :=
  let size := l_size this in
  let recipient' := CopyFirstFrom recipient (aget (l_array this) (size - 1)) in
  (leaf_set_size this (size - 1), recipient').

(** [MoveAllTo]: into the right sibling by moving the last pair to its
    front [size] times, into the left sibling by moving the first pair to
    its end; a page that is neither is left alone ("Not a sibling!"). *)
Definition MoveAllTo this recipient : LeafPage K V * LeafPage K V :=
  let size := l_size this in
  if l_next_page_id this =? l_page_id recipient then
    Nat.iter (Z.to_nat size) (fun '(t, r) => MoveLastToFrontOf t r) (this, recipient)
  else if l_next_page_id recipient =? l_page_id this then
    Nat.iter (Z.to_nat size) (fun '(t, r) => MoveFirstToEndOf t r) (this, recipient)
  else (this, recipient).

End Leaf.

(** ** The loops *)

Section Loops.
Context {K V : Type} `{KeyComparator K} `{Inhabited K} `{Inhabited V}.
Implicit Types (key : K) (kv x y z : K * V) (X L R P S IX IR : list (K * V)).

(** One step of an upward loop: the walked part moves into the prefix. *)
Ltac step_up IH X x :=
  rewrite <- (IH (X ++ [x])), <- app_assoc, Zlength_snoc; reflexivity.

Lemma lookup_loop_app X L R key :
  lookup_loop (length L) (Z.of_nat (length X)) (X ++ L ++ R) key = lookup_key key L.
Proof.
  revert X; induction L as [|x L IH]; intros X; [reflexivity|].
  cbn [length lookup_loop lookup_key app]. rewrite aget_mid by reflexivity.
  destruct (key_cmp key (fst x) =? 0); [reflexivity | step_up IH X x].
Qed.

Lemma key_index_loop_app X L R key :
  key_index_loop (length L) (Z.of_nat (length X)) (X ++ L ++ R) key =
  Z.of_nat (length X) + Z.of_nat (key_index key L).
Proof.
  revert X; induction L as [|x L IH]; intros X; [simpl; lia|].
  cbn [length key_index_loop key_index app]. rewrite aget_mid by reflexivity.
  destruct (key_cmp (fst x) key >=? 0); [lia|].
  specialize (IH (X ++ [x])). rewrite <- app_assoc, Zlength_snoc in IH.
  cbn [app] in IH. rewrite IH. lia.
Qed.

Lemma copy_loop_app X Y R IX Ys IR :
  length IX = length X -> length Y = length Ys ->
  copy_loop (length Ys) (Z.of_nat (length X)) (IX ++ Ys ++ IR) (X ++ Y ++ R) = X ++ Ys ++ R.
Proof.
  revert X Y IX; induction Ys as [|y Ys IH]; intros X Y IX HX HY;
    destruct Y as [|g Y]; try discriminate; [reflexivity|].
  cbn [length copy_loop app]. rewrite (aget_mid IX) by (rewrite HX; reflexivity).
  rewrite aset_mid by reflexivity.
  specialize (IH (X ++ [y]) Y (IX ++ [y])). rewrite <- !app_assoc, Zlength_snoc in IH.
  apply IH; [rewrite !length_app, HX; reflexivity | simpl in HY; lia].
Qed.

Lemma insert_loop_app P1 P2 y R kv :
  Forall (fun x => key_cmp (fst x) (fst kv) <= 0) P1 ->
  Forall (fun x => key_cmp (fst x) (fst kv) > 0) P2 ->
  insert_loop (length (P1 ++ P2)) (Z.of_nat (length (P1 ++ P2)) - 1) kv ((P1 ++ P2) ++ y :: R) =
  P1 ++ kv :: P2 ++ R.
Proof.
  intros HP1 HP2. revert y R; induction P2 as [|w P2 IH] using rev_ind; intros y R.
  - rewrite app_nil_r. destruct P1 as [|z P1 _] using rev_ind; [reflexivity|].
    rewrite Forall_app, Forall_singleton in HP1. destruct HP1 as [_ Hz]. cut_last P1 z. cbn [insert_loop].
    rewrite <- !app_assoc. cbn [app]. rewrite aget_mid by reflexivity.
    rewrite Z.gtb_ltb, (proj2 (Z.ltb_ge _ _)) by exact Hz. apply aset_mid1. reflexivity.
  - rewrite Forall_app, Forall_singleton in HP2. destruct HP2 as [HP2 Hw].
    rewrite (app_assoc P1 P2 [w]). cut_last (P1 ++ P2) w. cbn [insert_loop].
    rewrite <- (app_assoc (P1 ++ P2) [w]). cbn [app]. rewrite aget_mid by reflexivity.
    rewrite (proj2 (Z.gtb_lt _ _)) by lia. rewrite aset_mid1 by reflexivity.
    rewrite (IH HP2 w (w :: R)), <- app_assoc. reflexivity.
Qed.



Lemma remove_loop_flag X g S R key :
  Forall (fun x => key_cmp key (fst x) <> 0) S ->
  exists z, remove_loop (length S) (Z.of_nat (length X) + 1) true (X ++ g :: S ++ R) key =
            (true, X ++ S ++ z :: R).
Proof.
  revert X g; induction S as [|s S IH]; intros X g HS; [exists g; reflexivity|].
  apply Forall_cons in HS as [Hs HS]. cbn [length remove_loop app].
  rewrite aget_mid1 by reflexivity.
  rewrite (proj2 (Z.eqb_neq _ _) Hs), Z.add_simpl_r, aset_mid by reflexivity.
  destruct (IH (X ++ [s]) s HS) as [z Hz]. rewrite Zlength_snoc, <- !app_assoc in Hz.
  exists z. exact Hz.
Qed.

Lemma remove_loop_absent X L R key :
  Forall (fun x => key_cmp key (fst x) <> 0) L ->
  remove_loop (length L) (Z.of_nat (length X)) false (X ++ L ++ R) key = (false, X ++ L ++ R).
Proof.
  revert X; induction L as [|x L IH]; intros X HL; [reflexivity|].
  apply Forall_cons in HL as [Hx HL]. cbn [length remove_loop app].
  rewrite aget_mid by reflexivity. rewrite (proj2 (Z.eqb_neq _ _) Hx).
  specialize (IH (X ++ [x]) HL). rewrite Zlength_snoc, <- !app_assoc in IH. exact IH.
Qed.

Lemma remove_loop_found X P x S R key :
  Forall (fun y => key_cmp key (fst y) <> 0) P -> key_cmp key (fst x) = 0 ->
  Forall (fun y => key_cmp key (fst y) <> 0) S ->
  exists z, remove_loop (length (P ++ x :: S)) (Z.of_nat (length X)) false (X ++ (P ++ x :: S) ++ R) key =
            (true, X ++ P ++ S ++ z :: R).
Proof.
  revert X; induction P as [|w P IH]; intros X HP Hx HS.
  - cbn [app length remove_loop]. rewrite aget_mid by reflexivity.
    rewrite (proj2 (Z.eqb_eq _ _) Hx). exact (remove_loop_flag X x S R key HS).
  - apply Forall_cons in HP as [Hw HP]. cbn [app length remove_loop].
    rewrite aget_mid by reflexivity. rewrite (proj2 (Z.eqb_neq _ _) Hw).
    destruct (IH (X ++ [w]) HP Hx HS) as [z Hz]. exists z.
    rewrite <- !(app_assoc X [w]), Zlength_snoc in Hz. exact Hz.
Qed.

End Loops.

(** ** The methods on the live pairs *)

Section Specs.
Context {K V : Type} `{HK : KeyComparatorLaws K} `{Inhabited K} `{Inhabited V}.
Implicit Types (p this recipient : LeafPage K V) (key : K) (value : V).

(** A page whose size fits its slots: the live pairs, then the rest. *)
Lemma leaf_cut p :
  0 <= l_size p <= Z.of_nat (length (l_array p)) ->
  l_array p = leaf_items p ++ drop (Z.to_nat (l_size p)) (l_array p) /\
  Z.to_nat (l_size p) = length (leaf_items p).
Proof.
  intros Hsz. unfold leaf_items. rewrite take_drop. split; [reflexivity|]. rewrite length_take. lia.
Qed.

(** A page with a free slot. *)
Lemma leaf_room p :
  0 <= l_size p < Z.of_nat (length (l_array p)) ->
  exists y R, l_array p = leaf_items p ++ y :: R /\ Z.to_nat (l_size p) = length (leaf_items p).
Proof.
  intros Hsz. destruct (leaf_cut p ltac:(lia)) as [Ha Hl].
  destruct (drop (Z.to_nat (l_size p)) (l_array p)) as [|y R] eqn:E.
  - apply (f_equal length) in E. rewrite length_drop in E. simpl in E. lia.
  - exists y, R. split; assumption.
Qed.

(** The live pairs of a page whose array starts with [l] and whose size is its length. *)
Lemma items_of p l R : l_array p = l ++ R -> l_size p = Z.of_nat (length l) -> leaf_items p = l.
Proof. intros Ha Hs. unfold leaf_items. rewrite Ha, Hs, Nat2Z.id. apply take_app_length. Qed.

(** The live pairs after [Insert] (shared by the B+ tree proofs). *)
Lemma Insert_items p key value :
  0 <= l_size p < Z.of_nat (length (l_array p)) -> sorted_pairs (leaf_items p) ->
  let '(p', n) := Insert p key value in
  n = l_size p + 1 /\ l_size p' = n /\ leaf_items p' = sorted_insert (key, value) (leaf_items p) /\
  length (l_array p') = length (l_array p) /\ leaf_header p' = leaf_header p.
Proof.
  intros Hsz Hs. destruct (leaf_room p Hsz) as (y & R & Ha & Hn).
  destruct (sorted_insert_split (key, value) _ Hs) as (l1 & l2 & Hl & Hins & HP1 & HP2).
  unfold Insert. cbn [fst snd leaf_set_size leaf_set_array l_array l_size].
  rewrite Ha, Hn, Hins, Hl.
  replace (l_size p - 1) with (Z.of_nat (length (l1 ++ l2)) - 1) by (rewrite <- Hl; lia).
  rewrite insert_loop_app by assumption.
  split; [reflexivity|]. split; [reflexivity|]. split; [|split; [|reflexivity]].
  - apply (items_of _ _ R); cbn [l_array l_size]; [rewrite <- app_assoc; reflexivity|].
    apply (f_equal length) in Hl. rewrite length_app in *. simpl. lia.
  - rewrite !length_app. simpl. rewrite length_app. lia.
Qed.

(** The value [Lookup] finds. *)
Lemma Lookup_pairs p key :
  0 <= l_size p <= Z.of_nat (length (l_array p)) -> Lookup p key = lookup_key key (leaf_items p).
Proof.
  intros Hsz. destruct (leaf_cut p Hsz) as [Ha Hn]. unfold Lookup.
  rewrite Ha, Hn. exact (lookup_loop_app [] _ _ key).
Qed.

(** C7: [Insert] on a leaf whose live pairs are sorted and that has a
    free slot is the insertion of the pair in key order: the shifting loop
    leaves [sorted_insert (key, value)] of the old pairs as the live
    pairs, the size and the returned size are one more, and the header and
    the number of slots are unchanged. *)
Theorem Insert_spec p key value :
  0 <= l_size p < Z.of_nat (length (l_array p)) -> sorted_pairs (leaf_items p) ->
  let '(p', n) := Insert p key value in
  n = l_size p + 1 /\ l_size p' = n /\ leaf_items p' = sorted_insert (key, value) (leaf_items p) /\
  length (l_array p') = length (l_array p) /\ leaf_header p' = leaf_header p.
Proof. exact (Insert_items p key value). Qed.

(** [Lookup] scans the live slots of the leaf and returns the value of
    the first pair whose key compares equal to [key]: it is [lookup_key]
    on the live pairs. *)
Theorem Lookup_spec p key :
  0 <= l_size p <= Z.of_nat (length (l_array p)) -> Lookup p key = lookup_key key (leaf_items p).
Proof. exact (Lookup_pairs p key). Qed.

(** On a sorted leaf, [KeyIndex] (the index the iterator starts at)
    is the number of live pairs whose key is smaller than [key]. *)
Theorem KeyIndex_spec p key :
  0 <= l_size p <= Z.of_nat (length (l_array p)) -> sorted_pairs (leaf_items p) ->
  KeyIndex p key = Z.of_nat (length (List.filter (fun kv => key_cmp (fst kv) key <? 0) (leaf_items p))).
Proof.
  intros Hsz Hs. destruct (leaf_cut p Hsz) as [Ha Hn]. unfold KeyIndex.
  rewrite Ha, Hn, <- key_index_sorted by exact Hs. exact (key_index_loop_app [] _ _ key).
Qed.

(** The live pairs after [RemoveAndDeleteRecord]. *)
Lemma RemoveAndDeleteRecord_items p key :
  0 <= l_size p <= Z.of_nat (length (l_array p)) -> sorted_pairs (leaf_items p) ->
  let '(p', n) := RemoveAndDeleteRecord p key in
  leaf_items p' = remove_key key (leaf_items p) /\ l_size p' = n /\
  n = l_size p - (match lookup_key key (leaf_items p) with Some _ => 1 | None => 0 end) /\
  length (l_array p') = length (l_array p) /\ leaf_header p' = leaf_header p.
Proof.
  intros Hsz Hs. destruct (leaf_cut p Hsz) as [Ha Hn]. unfold RemoveAndDeleteRecord.
  remember (drop (Z.to_nat (l_size p)) (l_array p)) as D eqn:HD. clear HD.
  destruct (lookup_key key (leaf_items p)) as [v|] eqn:Hl.
  - destruct (lookup_key_Some_split _ _ _ Hl) as (P & x & S & HL & HP & Hx & _ & Hr).
    pose proof (sorted_after_match key P x S ltac:(rewrite <- HL; exact Hs) Hx) as HS.
    rewrite Hr, Ha, Hn, HL. destruct (remove_loop_found [] P x S D key HP Hx HS) as [z Hz].
    cbn [app length] in Hz. change (Z.of_nat 0) with 0 in Hz. rewrite Hz. cbn [fst snd leaf_set_size leaf_set_array l_array l_size].
    split; [|split; [reflexivity|split; [reflexivity|split; [|reflexivity]]]].
    + apply (items_of _ _ (z :: D)); cbn [l_array l_size];
        [rewrite <- app_assoc; reflexivity|].
      apply (f_equal length) in HL. rewrite !length_app in *. simpl in *. lia.
    + len.
  - rewrite (remove_key_absent _ _ Hl). apply lookup_key_None in Hl.
    pose proof (remove_loop_absent [] _ D key Hl) as Hz. cbn [app length] in Hz.
    change (Z.of_nat 0) with 0 in Hz. rewrite Ha, Hn, Hz. cbn [fst snd leaf_set_array l_array l_size].
    split; [apply (items_of _ _ D); [reflexivity | cbn; lia]|]. repeat split; try reflexivity. lia.
Qed.

(** On a sorted leaf, [RemoveAndDeleteRecord] removes the pair whose
    key compares equal to [key], if any, keeping the others in order; it
    returns and stores the size less one exactly when the key was present. *)
Theorem RemoveAndDeleteRecord_spec p key :
  0 <= l_size p <= Z.of_nat (length (l_array p)) -> sorted_pairs (leaf_items p) ->
  let '(p', n) := RemoveAndDeleteRecord p key in
  leaf_items p' = remove_key key (leaf_items p) /\ l_size p' = n /\
  n = l_size p - (match lookup_key key (leaf_items p) with Some _ => 1 | None => 0 end) /\
  length (l_array p') = length (l_array p) /\ leaf_header p' = leaf_header p.
Proof. exact (RemoveAndDeleteRecord_items p key). Qed.

(** [MoveHalfTo] (the leaf split) keeps the lower half of the live
    pairs and copies the upper [size / 2] into the recipient: the two
    pages' live pairs, in order, are the original ones. *)
Theorem MoveHalfTo_spec this recipient :
  0 <= l_size this <= Z.of_nat (length (l_array this)) ->
  l_size this / 2 <= Z.of_nat (length (l_array recipient)) ->
  let '(this', recipient') := MoveHalfTo this recipient in
  leaf_items this' ++ leaf_items recipient' = leaf_items this /\
  l_size this' = l_size this - l_size this / 2 /\ l_size recipient' = l_size this / 2 /\
  leaf_header this' = leaf_header this /\ leaf_header recipient' = leaf_header recipient /\
  length (l_array recipient') = length (l_array recipient).
Proof.
  intros Hsz Hr. destruct (leaf_cut this Hsz) as [Ha Hn].
  set (n := l_size this) in *. set (h := n / 2).
  assert (0 <= h <= n) by (subst h; split; [apply Z.div_pos | apply Z.div_le_upper_bound]; lia).
  set (A := take (Z.to_nat (n - h)) (leaf_items this)). set (B := drop (Z.to_nat (n - h)) (leaf_items this)).
  assert (HAB : leaf_items this = A ++ B) by (symmetry; apply take_drop).
  assert (HlA : length A = Z.to_nat (n - h)) by (subst A; rewrite length_take; lia).
  assert (HlB : length B = Z.to_nat h) by (subst B; rewrite length_drop; lia).
  set (Y := take (Z.to_nat h) (l_array recipient)). set (R' := drop (Z.to_nat h) (l_array recipient)).
  assert (HY : length Y = Z.to_nat h) by (subst Y; rewrite length_take; lia).
  unfold MoveHalfTo, CopyNFrom. fold n h. cbn [fst snd leaf_set_size leaf_set_array l_array l_size].
  assert (Hdrop : drop (Z.to_nat (n - h)) (l_array this) = B ++ drop (Z.to_nat n) (l_array this)).
  { rewrite Ha at 1. rewrite HAB, <- app_assoc, drop_app_length'; [reflexivity | symmetry; exact HlA]. }
  rewrite Hdrop, <- (take_drop (Z.to_nat h) (l_array recipient)). fold Y R'.
  rewrite <- HlB. pose proof (copy_loop_app [] Y R' [] B (drop (Z.to_nat n) (l_array this)) eq_refl
    ltac:(rewrite HY, HlB; reflexivity)) as Hc. cbn [app length] in Hc. change (Z.of_nat 0) with 0 in Hc. rewrite Hc.
  split; [|split; [reflexivity|split; [reflexivity|split; [reflexivity|split; [reflexivity|]]]]].
  - rewrite (items_of _ A (B ++ drop (Z.to_nat n) (l_array this))); cbn [l_array l_size leaf_set_size].
    + rewrite (items_of _ B R'); [symmetry; exact HAB | reflexivity | cbn; lia].
    + rewrite Ha at 1. rewrite HAB, <- app_assoc. reflexivity.
    + lia.
  - rewrite !length_app, HY, HlB. subst R'. rewrite length_drop. lia.
Qed.

Lemma MoveLastToFrontOf_step this recipient A x :
  leaf_items this = A ++ [x] -> 0 < l_size this <= Z.of_nat (length (l_array this)) ->
  0 <= l_size recipient < Z.of_nat (length (l_array recipient)) ->
  let '(t', r') := MoveLastToFrontOf this recipient in
  leaf_items t' = A /\ leaf_items r' = x :: leaf_items recipient /\
  l_size t' = l_size this - 1 /\ l_size r' = l_size recipient + 1 /\
  l_array t' = l_array this /\ length (l_array r') = length (l_array recipient) /\
  leaf_header t' = leaf_header this /\ leaf_header r' = leaf_header recipient.
Proof.
  intros Hit Hsz Hrz. destruct (leaf_cut this ltac:(lia)) as [Ha Hn].
  destruct (leaf_room recipient Hrz) as (y & R & Hra & Hrn).
  rewrite Hit in Ha, Hn. rewrite <- app_assoc in Ha. cbn [app] in Ha.
  destruct (shift_up_loop_app (leaf_items recipient) y R) as [z Hz].
  unfold MoveLastToFrontOf, CopyFirstFrom. cbn [fst snd leaf_set_size leaf_set_array l_array l_size].
  rewrite (Ha : l_array this = _). rewrite aget_mid by (rewrite length_app in Hn; simpl in Hn; lia).
  rewrite Hra, Hrn. replace (l_size recipient - 1) with (Z.of_nat (length (leaf_items recipient)) - 1) by lia.
  rewrite Hz, aset_0.
  split; [apply (items_of _ _ (x :: drop (Z.to_nat (l_size this)) (l_array this))); cbn; [exact Ha | len]|].
  split; [apply (items_of _ _ R); cbn; [reflexivity | lia]|].
  repeat split; try reflexivity; len.
Qed.

Lemma MoveFirstToEndOf_step this recipient x A :
  leaf_items this = x :: A -> 0 < l_size this <= Z.of_nat (length (l_array this)) ->
  0 <= l_size recipient < Z.of_nat (length (l_array recipient)) ->
  let '(t', r') := MoveFirstToEndOf this recipient in
  leaf_items t' = A /\ leaf_items r' = leaf_items recipient ++ [x] /\
  l_size t' = l_size this - 1 /\ l_size r' = l_size recipient + 1 /\
  length (l_array t') = length (l_array this) /\ length (l_array r') = length (l_array recipient) /\
  leaf_header t' = leaf_header this /\ leaf_header r' = leaf_header recipient.
Proof.
  intros Hit Hsz Hrz. destruct (leaf_cut this ltac:(lia)) as [Ha Hn].
  destruct (leaf_room recipient Hrz) as (y & R & Hra & Hrn).
  remember (drop (Z.to_nat (l_size this)) (l_array this)) as D eqn:HD. clear HD.
  rewrite Hit in Ha, Hn. cbn [app length] in Ha, Hn.
  destruct (shift_down_loop_app [] x A D) as [z Hz]. cbn [app length] in Hz. change (Z.of_nat 0 + 1) with 1 in Hz.
  unfold MoveFirstToEndOf, CopyLastFrom. cbn [fst snd leaf_set_size leaf_set_array l_array l_size].
  rewrite Ha. change (aget (x :: A ++ D) 0) with x.
  replace (Z.to_nat (l_size this - 1)) with (length A) by lia. rewrite Hz.
  rewrite Hra. rewrite aset_mid by lia.
  split; [apply (items_of _ _ (z :: D)); cbn; [reflexivity | lia]|].
  split; [apply (items_of _ _ R); cbn; [rewrite <- app_assoc; reflexivity | len]|].
  repeat split; try reflexivity; len.
Qed.

Lemma move_last_iter k this recipient :
  (k <= Z.to_nat (l_size this))%nat -> 0 <= l_size this <= Z.of_nat (length (l_array this)) ->
  0 <= l_size recipient -> l_size recipient + l_size this <= Z.of_nat (length (l_array recipient)) ->
  let '(t', r') := Nat.iter k (fun '(t, r) => MoveLastToFrontOf t r) (this, recipient) in
  leaf_items t' = take (Z.to_nat (l_size this) - k) (leaf_items this) /\
  leaf_items r' = drop (Z.to_nat (l_size this) - k) (leaf_items this) ++ leaf_items recipient /\
  l_size t' = l_size this - Z.of_nat k /\ l_size r' = l_size recipient + Z.of_nat k /\
  l_array t' = l_array this /\ length (l_array r') = length (l_array recipient) /\
  leaf_header t' = leaf_header this /\ leaf_header r' = leaf_header recipient.
Proof.
  intros Hk Hsz Hr0 Hrz. destruct (leaf_cut this Hsz) as [_ Hn].
  induction k as [|k IH]; [change (Nat.iter 0 ?f ?x) with x; cbv beta iota | rewrite Nat.iter_succ].
  - rewrite Nat.sub_0_r, Hn, take_ge, drop_ge by lia. repeat split; lia.
  - destruct (Nat.iter k (fun '(t, r) => MoveLastToFrontOf t r) (this, recipient)) as [t r]. cbv beta iota.
    destruct (IH ltac:(lia)) as (Ht & Hr & Hts & Hrs & Hta & Hra & Hth & Hrh).
    destruct (lookup_lt_is_Some_2 (leaf_items this) (Z.to_nat (l_size this) - S k)) as [x Hx]; [lia|].
    replace (Z.to_nat (l_size this) - k)%nat with (S (Z.to_nat (l_size this) - S k)) in Ht, Hr by lia.
    rewrite (take_S_r _ _ x Hx) in Ht.
    pose proof (MoveLastToFrontOf_step t r _ x Ht ltac:(rewrite Hta; lia) ltac:(lia)) as Hstep.
    destruct (MoveLastToFrontOf t r) as [t' r'].
    destruct Hstep as (E1 & E2 & E3 & E4 & E5 & E6 & E7 & E8).
    rewrite E1, E2, Hr, (drop_S _ x _ Hx), E3, E4, E5, E6, E7, E8, Hts, Hrs, Hta, Hra, Hth, Hrh.
    repeat split; lia.
Qed.

Lemma move_first_iter k this recipient :
  (k <= Z.to_nat (l_size this))%nat -> 0 <= l_size this <= Z.of_nat (length (l_array this)) ->
  0 <= l_size recipient -> l_size recipient + l_size this <= Z.of_nat (length (l_array recipient)) ->
  let '(t', r') := Nat.iter k (fun '(t, r) => MoveFirstToEndOf t r) (this, recipient) in
  leaf_items t' = drop k (leaf_items this) /\
  leaf_items r' = leaf_items recipient ++ take k (leaf_items this) /\
  l_size t' = l_size this - Z.of_nat k /\ l_size r' = l_size recipient + Z.of_nat k /\
  length (l_array t') = length (l_array this) /\ length (l_array r') = length (l_array recipient) /\
  leaf_header t' = leaf_header this /\ leaf_header r' = leaf_header recipient.
Proof.
  intros Hk Hsz Hr0 Hrz. destruct (leaf_cut this Hsz) as [_ Hn].
  induction k as [|k IH]; [change (Nat.iter 0 ?f ?x) with x; cbv beta iota | rewrite Nat.iter_succ].
  - rewrite drop_0, take_0, app_nil_r. repeat split; lia.
  - destruct (Nat.iter k (fun '(t, r) => MoveFirstToEndOf t r) (this, recipient)) as [t r]. cbv beta iota.
    destruct (IH ltac:(lia)) as (Ht & Hr & Hts & Hrs & Hta & Hra & Hth & Hrh).
    destruct (lookup_lt_is_Some_2 (leaf_items this) k) as [x Hx]; [lia|].
    rewrite (drop_S _ x _ Hx) in Ht.
    pose proof (MoveFirstToEndOf_step t r x _ Ht ltac:(rewrite Hta; lia) ltac:(lia)) as Hstep.
    destruct (MoveFirstToEndOf t r) as [t' r'].
    destruct Hstep as (E1 & E2 & E3 & E4 & E5 & E6 & E7 & E8).
    rewrite E1, E2, Hr, E3, E4, E5, E6, E7, E8, Hts, Hrs, Hta, Hra, Hth, Hrh, (take_S_r _ _ x Hx), app_assoc.
    repeat split; lia.
Qed.

(** [MoveAllTo] (the leaf merge) moves every live pair into the
    recipient: in front of its pairs when the page's next page is the
    recipient, after them when the recipient's next page is the page, and
    does nothing when neither links to the other.  The recipient's
    [next_page_id] is not updated (the caller does it). *)
Theorem MoveAllTo_spec this recipient :
  0 <= l_size this <= Z.of_nat (length (l_array this)) -> 0 <= l_size recipient ->
  l_size recipient + l_size this <= Z.of_nat (length (l_array recipient)) ->
  let '(this', recipient') := MoveAllTo this recipient in
  (l_next_page_id this = l_page_id recipient ->
     leaf_items recipient' = leaf_items this ++ leaf_items recipient /\ l_size this' = 0 /\
     l_size recipient' = l_size recipient + l_size this) /\
  (l_next_page_id this <> l_page_id recipient -> l_next_page_id recipient = l_page_id this ->
     leaf_items recipient' = leaf_items recipient ++ leaf_items this /\ l_size this' = 0 /\
     l_size recipient' = l_size recipient + l_size this) /\
  (l_next_page_id this <> l_page_id recipient -> l_next_page_id recipient <> l_page_id this ->
     this' = this /\ recipient' = recipient) /\
  leaf_header recipient' = leaf_header recipient.
Proof.
  intros Hsz Hr0 Hrz. destruct (leaf_cut this Hsz) as [_ Hn]. unfold MoveAllTo.
  destruct (Z.eqb_spec (l_next_page_id this) (l_page_id recipient)) as [E1|E1].
  - pose proof (move_last_iter (Z.to_nat (l_size this)) this recipient ltac:(lia) Hsz Hr0 Hrz) as Hi.
    destruct (Nat.iter _ _ _) as [t r]. destruct Hi as (_ & Hr & Hts & Hrs & _ & _ & _ & Hh).
    rewrite Nat.sub_diag, drop_0 in Hr. repeat split; try tauto; lia.
  - destruct (Z.eqb_spec (l_next_page_id recipient) (l_page_id this)) as [E2|E2].
    + pose proof (move_first_iter (Z.to_nat (l_size this)) this recipient ltac:(lia) Hsz Hr0 Hrz) as Hi.
      destruct (Nat.iter _ _ _) as [t r]. destruct Hi as (_ & Hr & Hts & Hrs & _ & _ & _ & Hh).
      rewrite Hn, take_ge in Hr by lia. repeat split; try tauto; lia.
    + repeat split; tauto.
Qed.

End Specs.

(** ** Witnesses, on the [int] instantiation *)

Section Witnesses.

Definition wleaf : LeafPage Z Z := mkLeafPage 5 (-1) 4 3 6 [(1, 10); (3, 30); (5, 50); (0, 0); (0, 0)].
Definition wright : LeafPage Z Z := mkLeafPage 6 (-1) 4 1 (-1) [(7, 70); (0, 0); (0, 0); (0, 0); (0, 0)].

Lemma Insert_spec_witness : leaf_items (fst (Insert wleaf 2 20)) = [(1, 10); (2, 20); (3, 30); (5, 50)].
Proof.
  pose proof (Insert_spec wleaf 2 20 ltac:(zcompute) ltac:(vm_compute; reflexivity)) as Hs.
  destruct (Insert wleaf 2 20) as [p' n]. destruct Hs as (_ & _ & Hi & _). exact Hi.
Defined.

Lemma Lookup_spec_witness : Lookup wleaf 3 = Some 30.
Proof. rewrite (Lookup_spec wleaf 3 ltac:(zcompute)). reflexivity. Defined.

Lemma KeyIndex_spec_witness : KeyIndex wleaf 4 = 2.
Proof. rewrite (KeyIndex_spec wleaf 4 ltac:(zcompute) ltac:(vm_compute; reflexivity)). reflexivity. Defined.

Lemma RemoveAndDeleteRecord_spec_witness :
  leaf_items (fst (RemoveAndDeleteRecord wleaf 3)) = [(1, 10); (5, 50)] /\ snd (RemoveAndDeleteRecord wleaf 3) = 2.
Proof.
  pose proof (RemoveAndDeleteRecord_spec wleaf 3 ltac:(zcompute) ltac:(vm_compute; reflexivity)) as Hs.
  destruct (RemoveAndDeleteRecord wleaf 3) as [p' n]. destruct Hs as (Hi & _ & Hn & _).
  cbn [fst snd]. rewrite Hi, Hn. split; reflexivity.
Defined.

Lemma MoveHalfTo_spec_witness :
  leaf_items (fst (MoveHalfTo wleaf wright)) ++ leaf_items (snd (MoveHalfTo wleaf wright)) = [(1, 10); (3, 30); (5, 50)].
Proof.
  pose proof (MoveHalfTo_spec wleaf wright ltac:(zcompute) ltac:(zcompute)) as Hs.
  destruct (MoveHalfTo wleaf wright) as [t r]. destruct Hs as (Hi & _). exact Hi.
Defined.

Lemma MoveAllTo_spec_witness :
  leaf_items (snd (MoveAllTo wleaf wright)) = [(1, 10); (3, 30); (5, 50); (7, 70)].
Proof.
  pose proof (MoveAllTo_spec wleaf wright ltac:(zcompute) ltac:(zcompute) ltac:(zcompute)) as Hs.
  destruct (MoveAllTo wleaf wright) as [t r]. destruct Hs as (Hright & _).
  destruct (Hright eq_refl) as (Hi & _). exact Hi.
Defined.

End Witnesses.

End BPlusTreeLeafPage.
