(* ===== verification/InternalPage.v ===== *)
(** * Internal pages of the B+ tree (page/b_plus_tree_internal_page.cpp)

    [BPlusTreeInternalPage] translates the methods of the internal page
    over the record [InternalPage] of TreePage.v.  Slot 0 holds the
    leftmost child; its key is not used by [Lookup].  The methods that
    move entries between pages also "adopt" the moved children: they
    fetch each child from the buffer pool, set its parent page id and
    unpin it dirty ([adopt] over the [Store] of TreePage.v; a failed fetch
    skips the child, as the C++ code does).  [MoveFirstToEndOf] and
    [MoveLastToFrontOf] first fetch the recipient page; the page they get
    is the recipient the caller passed (one frame), so the record is used
    and only the pin is taken and returned.

    The theorems give each method on the live entries: [Lookup] is
    [child_for], the routing of a key; [InsertNodeAfter] inserts after the
    entry of the old child; [Remove] deletes an entry; [MoveHalfTo],
    [MoveAllTo] and the single-entry moves move entries and reparent
    exactly the moved children. *)

From Stdlib Require Import ZArith Lia List.
From stdpp Require Import base list gmap.
From S2P Require Import Spec2Rocq KeyComparator TreePage.
Import ListNotations.
Open Scope Z_scope.

Module BPlusTreeInternalPage.

Section Internal.
Context {K V : Type} `{KeyComparator K} `{Inhabited K}.
Implicit Types (p this recipient : InternalPage K) (s : Store K V) (key middle_key : K).

(** [Init]: over the slots the page's memory holds. *)
Definition Init (slots : list (K * Z)) (page_id parent_id max_size : Z) : InternalPage K :=
  mkInternalPage page_id parent_id max_size 0 slots.

Definition KeyAt p (index : Z) : K := fst (aget (i_array p) index).
Definition SetKeyAt p (index : Z) key : InternalPage K :=
  internal_set_array p (aset (i_array p) index (key, snd (aget (i_array p) index))).
Definition ValueAt p (index : Z) : Z := snd (aget (i_array p) index).

(** [ValueIndex]: the first slot holding [value], or -1. *)
Fixpoint value_index_loop (fuel : nat) (i : Z) (a : list (K * Z)) (value : Z) : Z :=
  match fuel with
  | O => -1
  | S f => if snd (aget a i) =? value then i else value_index_loop f (i + 1) a value
  end.
Definition ValueIndex p (value : Z) : Z := value_index_loop (Z.to_nat (i_size p)) 0 (i_array p) value.

(** [Lookup]: from slot 1 on, the child left of the first key greater
    than [key]; the last child when there is none. *)
Fixpoint lookup_loop (fuel : nat) (i : Z) (a : list (K * Z)) key (size : Z) : Z :=
  match fuel with
  | O => snd (aget a (size - 1))
  | S f => if key_cmp key (fst (aget a i)) <? 0 then snd (aget a (i - 1)) else lookup_loop f (i + 1) a key size
  end.
Definition Lookup p key : Z := lookup_loop (Z.to_nat (i_size p - 1)) 1 (i_array p) key (i_size p).

(** [PopulateNewRoot]. *)
Definition PopulateNewRoot p (old_value : Z) (new_key : K) (new_value : Z) : InternalPage K :=
  let a := aset (i_array p) 0 (fst (aget (i_array p) 0), old_value) in
  internal_set_parent (internal_set_array (internal_set_size p 2) (aset a 1 (new_key, new_value))) INVALID_PAGE_ID.

(** [InsertNodeAfter]: from the last slot down, shift each entry that is
    not [old_value]'s one slot up; write the new entry after it. *)
Fixpoint insert_after_loop (fuel : nat) (i : Z) (a : list (K * Z)) (old_value : Z) (kv : K * Z) : list (K * Z) :=
  match fuel with
  | O => a
  | S f => if negb (snd (aget a i) =? old_value)
           then insert_after_loop f (i - 1) (aset a (i + 1) (aget a i)) old_value kv
           else aset a (i + 1) kv
  end.
Definition InsertNodeAfter p (old_value : Z) (new_key : K) (new_value : Z) : InternalPage K * Z :=
  let size := i_size p in
  (internal_set_size
     (internal_set_array p (insert_after_loop (Z.to_nat size) (size - 1) (i_array p) old_value (new_key, new_value)))
     (size + 1),
   size + 1).

(** Adopting a child: [FetchPage], [SetParentPageId], [UnpinPage(child, true)];
    nothing when the fetch fails. *)
Definition adopt s (child parent : Z) : Store K V :=
  match fetch s child with
  | Some (s1, n) => unpin (put s1 child (node_set_parent n parent)) child
  | None => s
  end.

(** [CopyNFrom]: [SetSize(size)], then copy each entry and adopt its child. *)
Fixpoint copy_adopt_loop (fuel : nat) (i : Z) (items a : list (K * Z)) (me : Z) s : Store K V * list (K * Z) :=
  match fuel with
  | O => (s, a)
  | S f => copy_adopt_loop f (i + 1) items (aset a i (aget items i)) me (adopt s (snd (aget items i)) me)
  end.
Definition CopyNFrom s p (items : list (K * Z)) (size : Z) : Store K V * InternalPage K :=
  let p1 := internal_set_size p size in
  let '(s', a) := copy_adopt_loop (Z.to_nat size) 0 items (i_array p1) (i_page_id p1) s in
  (s', internal_set_array p1 a).

(** [MoveHalfTo]: the upper [size / 2] entries go to [recipient]. *)
Definition MoveHalfTo s this recipient : Store K V * InternalPage K * InternalPage K :=
  let size := i_size this in
  let '(s', recipient') := CopyNFrom s recipient (drop (Z.to_nat (size - size / 2)) (i_array this)) (size / 2) in
  (s', internal_set_size this (size - size / 2), recipient').

(** [Remove]: [for (i = index; i < size - 1; ++i) array_[i] = array_[i + 1]; SetSize(--size)]. *)
Definition Remove p (index : Z) : InternalPage K :=
  let size := i_size p in
  internal_set_size (internal_set_array p (shift_down_loop (Z.to_nat (size - 1 - index)) (index + 1) (i_array p)))
    (size - 1).

(** [RemoveAndReturnOnlyChild]. *)
Definition RemoveAndReturnOnlyChild p : InternalPage K * Z :=
  (internal_set_size p (i_size p - 1), snd (aget (i_array p) 0)).

(** [CopyLastFrom]: append the entry and adopt its child. *)
Definition CopyLastFrom s p (pair : K * Z) : Store K V * InternalPage K :=
  let size := i_size p in
  let p' := internal_set_size (internal_set_array p (aset (i_array p) size pair)) (size + 1) in
  (adopt s (snd pair) (i_page_id p'), p').

(** [CopyFirstFrom]: shift every entry up, put the entry in slot 0 and
    adopt its child. *)
Definition CopyFirstFrom s p (pair : K * Z) : Store K V * InternalPage K :=
  let size := i_size p in
  let a := shift_up_loop (Z.to_nat size) (size - 1) (i_array p) in
  let p' := internal_set_array (internal_set_size p (size + 1)) (aset a 0 pair) in
  (adopt s (snd pair) (i_page_id p'), p').

(** [MoveFirstToEndOf]: the first child goes to the end of [recipient]
    under [middle_key]. *)
Definition MoveFirstToEndOf s this recipient middle_key : Store K V * InternalPage K * InternalPage K :=
  match fetch s (i_page_id recipient) with
  | None => (s, this, recipient)
  | Some (s1, _) =>
      let '(s2, recipient') := CopyLastFrom s1 recipient (middle_key, snd (aget (i_array this) 0)) in
      let size := i_size this in
      (unpin s2 (i_page_id recipient),
       internal_set_size (internal_set_array this (shift_down_loop (Z.to_nat (size - 1)) 1 (i_array this))) (size - 1),
       recipient')
  end.

(** [MoveLastToFrontOf]: the last entry goes to the front of [recipient],
    whose slot 1 then takes [middle_key]. *)
Definition MoveLastToFrontOf s this recipient middle_key : Store K V * InternalPage K * InternalPage K :=
  match fetch s (i_page_id recipient) with
  | None => (s, this, recipient)
  | Some (s1, _) =>
      let size := i_size this in
      let '(s2, recipient1) := CopyFirstFrom s1 recipient (aget (i_array this) (size - 1)) in
      (unpin s2 (i_page_id recipient), internal_set_size this (size - 1), SetKeyAt recipient1 1 middle_key)
  end.

(** [MoveAllTo]: [size] times [MoveFirstToEndOf], the middle key being
    [middle_key] first and then the key that has come to slot 0. *)
Fixpoint move_all_loop (fuel : nat) (i size : Z) s this recipient (cur : K)
  : Store K V * InternalPage K * InternalPage K :=
  match fuel with
  | O => (s, this, recipient)
  | S f =>
      let '(s1, this1, recipient1) := MoveFirstToEndOf s this recipient cur in
      move_all_loop f (i + 1) size s1 this1 recipient1 (if i <? size - 1 then KeyAt this1 0 else cur)
  end.
Definition MoveAllTo s this recipient middle_key : Store K V * InternalPage K * InternalPage K :=
  move_all_loop (Z.to_nat (i_size this)) 0 (i_size this) s this recipient middle_key.

End Internal.

(** ** Reference operations on the live entries *)

Section Reference.
Context {K : Type} `{KeyComparator K} `{Inhabited K}.

(** The child a key is routed to: the child of the last entry, from the
    second on, whose key is not greater than [key], else the first child. *)
Fixpoint route (key : K) (prev : K * Z) (l : list (K * Z)) : Z :=
  match l with
  | [] => snd prev
  | x :: l' => if key_cmp key (fst x) <? 0 then snd prev else route key x l'
  end.
Definition child_for (key : K) (items : list (K * Z)) : Z :=
  match items with [] => INVALID_PAGE_ID | x :: l => route key x l end.

(** The position of the first entry holding child [v]. *)
Fixpoint value_pos (v : Z) (l : list (K * Z)) : option nat :=
  match l with
  | [] => None
  | x :: l' => if snd x =? v then Some O else S <$> value_pos v l'
  end.

End Reference.

(** ** Reparenting children *)

Section Reparent.
Context {K V : Type}.
Implicit Types (m : gmap Z (Node K V)) (cs : list Z) (q : Z).

(** What adopting the children [cs] in order does to the nodes. *)
Definition reparent m cs q : gmap Z (Node K V) :=
  foldl (fun m c => match m !! c with Some n => <[c := node_set_parent n q]> m | None => m end) m cs.

Lemma node_set_parent_twice (n : Node K V) q : node_set_parent (node_set_parent n q) q = node_set_parent n q.
Proof. destruct n; reflexivity. Qed.

Lemma lookup_reparent m cs q x :
  reparent m cs q !! x = if decide (x ∈ cs) then (fun n => node_set_parent n q) <$> m !! x else m !! x.
Proof.
  revert m; induction cs as [|c cs IH]; intros m; [reflexivity|]. cbn [reparent foldl]. fold (reparent).
  unfold reparent in IH. rewrite IH.
  assert (Hstep : (match m !! c with Some n => <[c := node_set_parent n q]> m | None => m end) !! x =
                  if decide (x = c) then (fun n => node_set_parent n q) <$> m !! x else m !! x).
  { destruct (m !! c) as [n|] eqn:Hc; destruct (decide (x = c)) as [->|Hne].
    - rewrite lookup_insert_eq, Hc. reflexivity.
    - rewrite lookup_insert_ne by congruence. reflexivity.
    - rewrite Hc. reflexivity.
    - reflexivity. }
  rewrite Hstep. destruct (decide (x = c)) as [->|Hne];
    destruct (decide (_ ∈ cs)) as [Hin|Hout]; destruct (decide (_ ∈ c :: cs)) as [Hin'|Hout'];
    try set_solver; try reflexivity.
  destruct (m !! c); cbn; [rewrite node_set_parent_twice|]; reflexivity.
Qed.

End Reparent.

Section Loops.
Context {K V : Type} `{KeyComparator K} `{Inhabited K}.
Implicit Types (s : Store K V) (key : K) (X Y R IX IR L : list (K * Z)) (x y : K * Z).

Lemma route_loop_app X x L R key sz :
  sz = Z.of_nat (length X) + 1 + Z.of_nat (length L) ->
  lookup_loop (length L) (Z.of_nat (length X) + 1) (X ++ x :: L ++ R) key sz = route key x L.
Proof.
  revert X x; induction L as [|y L IH]; intros X x Hsz.
  - cbn [length lookup_loop route]. rewrite aget_mid by (cbn in Hsz; lia). reflexivity.
  - cbn [length lookup_loop route app]. rewrite aget_mid1 by reflexivity.
    destruct (key_cmp key (fst y) <? 0).
    + rewrite Z.add_simpl_r, aget_mid by reflexivity. reflexivity.
    + specialize (IH (X ++ [x]) y ltac:(rewrite Zlength_snoc; cbn [length] in Hsz; lia)).
      rewrite Zlength_snoc, <- app_assoc in IH. exact IH.
Qed.

Lemma value_index_loop_app X L R v :
  value_index_loop (length L) (Z.of_nat (length X)) (X ++ L ++ R) v =
  match value_pos v L with Some i => Z.of_nat (length X) + Z.of_nat i | None => -1 end.
Proof.
  revert X; induction L as [|x L IH]; intros X; [reflexivity|].
  cbn [length value_index_loop value_pos app]. rewrite aget_mid by reflexivity.
  destruct (snd x =? v); [lia|]. specialize (IH (X ++ [x])).
  rewrite Zlength_snoc, <- app_assoc in IH. cbn [app] in IH. rewrite IH.
  destruct (value_pos v L); cbn; lia.
Qed.

Lemma insert_after_loop_app P x S y R old kv :
  snd x = old -> Forall (fun w => snd w <> old) S ->
  insert_after_loop (length (P ++ x :: S)) (Z.of_nat (length (P ++ x :: S)) - 1) ((P ++ x :: S) ++ y :: R) old kv =
  P ++ x :: kv :: S ++ R.
Proof.
  intros Hx HS. revert y R; induction S as [|w S IH] using rev_ind; intros y R.
  - cut_last P x. cbn [insert_after_loop]. rewrite <- !app_assoc. cbn [app].
    rewrite aget_mid by reflexivity. rewrite Hx, Z.eqb_refl. apply aset_mid1. reflexivity.
  - rewrite Forall_app, Forall_singleton in HS. destruct HS as [HS Hw].
    rewrite (app_comm_cons S [w] x), (app_assoc P (x :: S) [w]). cut_last (P ++ x :: S) w.
    cbn [insert_after_loop]. rewrite <- (app_assoc (P ++ x :: S) [w]). cbn [app].
    rewrite aget_mid by reflexivity. rewrite (proj2 (Z.eqb_neq _ _) Hw). cbn [negb].
    rewrite aset_mid1 by reflexivity. rewrite (IH HS w (w :: R)), <- app_assoc. reflexivity.
Qed.

Lemma adopt_spec s c q :
  nodes (adopt s c q) = reparent (nodes s) [c] q /\ roots (adopt s c q) = roots s /\
  next_page (adopt s c q) = next_page s.
Proof.
  unfold adopt, fetch, reparent. cbn [foldl]. destruct (nodes s !! c); cbn; [|auto].
  rewrite nodes_unpin, roots_unpin, next_page_unpin. auto.
Qed.

Lemma reparent_app m cs1 cs2 q : reparent (reparent m cs1 q) cs2 q = @reparent K V m (cs1 ++ cs2) q.
Proof. unfold reparent. rewrite foldl_app. reflexivity. Qed.

Lemma copy_adopt_loop_app X Y R IX Ys IR me s :
  length IX = length X -> length Y = length Ys ->
  let '(s', a) := copy_adopt_loop (length Ys) (Z.of_nat (length X)) (IX ++ Ys ++ IR) (X ++ Y ++ R) me s in
  a = X ++ Ys ++ R /\ nodes s' = reparent (nodes s) (map snd Ys) me /\ roots s' = roots s /\
  next_page s' = next_page s.
Proof.
  revert X Y IX s; induction Ys as [|y Ys IH]; intros X Y IX s HX HY;
    destruct Y as [|g Y]; try discriminate; [cbn; auto|].
  cbn [length copy_adopt_loop app map]. rewrite (aget_mid IX) by (rewrite HX; reflexivity).
  rewrite aset_mid by reflexivity.
  destruct (adopt_spec s (snd y) me) as (Hn & Hr & Hp).
  specialize (IH (X ++ [y]) Y (IX ++ [y]) (adopt s (snd y) me)).
  rewrite <- !app_assoc, Zlength_snoc in IH. cbn [app] in IH.
  destruct (copy_adopt_loop _ _ _ _ _ _) as [s' a].
  destruct IH as (Ha & Hn' & Hr' & Hp'); [rewrite !length_app, HX; reflexivity | simpl in HY; lia|].
  rewrite Hn', Hn, Hr', Hr, Hp', Hp, reparent_app. auto.
Qed.

End Loops.

(** ** The methods on the live entries *)

Section Specs.
Context {K V : Type} `{HK : KeyComparatorLaws K} `{Inhabited K}.
Implicit Types (p this recipient : InternalPage K) (s : Store K V) (key middle_key : K).

Lemma internal_cut p :
  0 <= i_size p <= Z.of_nat (length (i_array p)) ->
  i_array p = internal_items p ++ drop (Z.to_nat (i_size p)) (i_array p) /\
  Z.to_nat (i_size p) = length (internal_items p).
Proof.
  intros Hsz. unfold internal_items. rewrite take_drop. split; [reflexivity|]. rewrite length_take. lia.
Qed.

Lemma internal_room p :
  0 <= i_size p < Z.of_nat (length (i_array p)) ->
  exists y R, i_array p = internal_items p ++ y :: R /\ Z.to_nat (i_size p) = length (internal_items p).
Proof.
  intros Hsz. destruct (internal_cut p ltac:(lia)) as [Ha Hl].
  destruct (drop (Z.to_nat (i_size p)) (i_array p)) as [|y R] eqn:E.
  - apply (f_equal length) in E. rewrite length_drop in E. simpl in E. lia.
  - exists y, R. split; assumption.
Qed.

Lemma internal_items_of p l R : i_array p = l ++ R -> i_size p = Z.of_nat (length l) -> internal_items p = l.
Proof. intros Ha Hs. unfold internal_items. rewrite Ha, Hs, Nat2Z.id. apply take_app_length. Qed.

(** Slot [0] of a nonempty page is its first entry. *)
Lemma aget_first p x l : internal_items p = x :: l -> aget (i_array p) 0 = x.
Proof.
  intros Hi. unfold aget, internal_items in *. cbn.
  destruct (i_array p) as [|y a]; [rewrite take_nil in Hi; discriminate|].
  destruct (Z.to_nat (i_size p)) as [|n]; [discriminate|]. cbn in Hi. injection Hi as ->. reflexivity.
Qed.

Lemma Lookup_items p key :
  1 <= i_size p <= Z.of_nat (length (i_array p)) -> Lookup p key = child_for key (internal_items p).
Proof.
  intros Hsz. destruct (internal_cut p ltac:(lia)) as [Ha Hn]. unfold Lookup.
  destruct (internal_items p) as [|x L] eqn:Hi; [cbn in Hn; lia|].
  rewrite Ha. cbn [child_for length] in *. replace (Z.to_nat (i_size p - 1)) with (length L) by lia.
  exact (route_loop_app [] x L _ key (i_size p) ltac:(cbn; lia)).
Qed.

Lemma ValueIndex_items p v :
  0 <= i_size p <= Z.of_nat (length (i_array p)) ->
  ValueIndex p v = match value_pos v (internal_items p) with Some i => Z.of_nat i | None => -1 end.
Proof.
  intros Hsz. destruct (internal_cut p Hsz) as [Ha Hn]. unfold ValueIndex.
  rewrite Ha, Hn. exact (value_index_loop_app [] _ _ v).
Qed.

Lemma InsertNodeAfter_items p P x S old new_key new_value :
  0 <= i_size p < Z.of_nat (length (i_array p)) -> internal_items p = P ++ x :: S ->
  snd x = old -> Forall (fun w => snd w <> old) S ->
  let '(p', n) := InsertNodeAfter p old new_key new_value in
  internal_items p' = P ++ x :: (new_key, new_value) :: S /\ n = i_size p + 1 /\ i_size p' = n /\
  length (i_array p') = length (i_array p) /\ internal_header p' = internal_header p.
Proof.
  intros Hsz Hi Hx HS. destruct (internal_room p Hsz) as (y & R & Ha & Hn).
  unfold InsertNodeAfter. cbn [fst snd internal_set_size internal_set_array i_array i_size].
  rewrite Ha, Hn, Hi. replace (i_size p - 1) with (Z.of_nat (length (P ++ x :: S)) - 1) by (rewrite <- Hi; lia).
  rewrite insert_after_loop_app by assumption.
  split; [apply (internal_items_of _ _ R); cbn; [rewrite <- app_assoc; reflexivity | rewrite Hi in Hn; len]|].
  repeat split; try reflexivity. rewrite Hi in *. len.
Qed.

Lemma Remove_items p index :
  0 <= index < i_size p -> i_size p <= Z.of_nat (length (i_array p)) ->
  internal_items (Remove p index) = take (Z.to_nat index) (internal_items p) ++ drop (S (Z.to_nat index)) (internal_items p) /\
  i_size (Remove p index) = i_size p - 1 /\ length (i_array (Remove p index)) = length (i_array p) /\
  internal_header (Remove p index) = internal_header p.
Proof.
  intros Hix Hsz. destruct (internal_cut p ltac:(lia)) as [Ha Hn].
  remember (drop (Z.to_nat (i_size p)) (i_array p)) as D eqn:HD. clear HD.
  set (X := take (Z.to_nat index) (internal_items p)).
  destruct (drop (Z.to_nat index) (internal_items p)) as [|g Tl] eqn:Hd.
  { apply (f_equal length) in Hd. rewrite length_drop in Hd. simpl in Hd. lia. }
  assert (Hsplit : internal_items p = X ++ g :: Tl) by (rewrite <- Hd; symmetry; apply take_drop).
  assert (HX : length X = Z.to_nat index) by (subst X; rewrite length_take; lia).
  assert (Hdrop : drop (S (Z.to_nat index)) (internal_items p) = Tl) by
    (rewrite <- Nat.add_1_r, <- drop_drop, Hd; reflexivity).
  unfold Remove. cbn [internal_set_size internal_set_array i_array i_size].
  rewrite Hdrop, Ha, Hsplit, <- app_assoc. cbn [app].
  replace (Z.to_nat (i_size p - 1 - index)) with (length Tl) by (rewrite Hsplit in Hn; len).
  replace (index + 1) with (Z.of_nat (length X) + 1) by lia.
  destruct (shift_down_loop_app X g Tl D) as [z Hz]. rewrite Hz.
  split; [apply (internal_items_of _ _ (z :: D)); cbn; [rewrite app_assoc; reflexivity | rewrite Hsplit in Hn; len]|].
  repeat split; try reflexivity. rewrite Hsplit in *. len.
Qed.

Lemma MoveHalfTo_items s this recipient :
  0 <= i_size this <= Z.of_nat (length (i_array this)) ->
  i_size this / 2 <= Z.of_nat (length (i_array recipient)) ->
  let '(s', this', recipient') := MoveHalfTo s this recipient in
  internal_items this' ++ internal_items recipient' = internal_items this /\
  i_size this' = i_size this - i_size this / 2 /\ i_size recipient' = i_size this / 2 /\
  nodes s' = reparent (nodes s) (map snd (internal_items recipient')) (i_page_id recipient) /\
  roots s' = roots s /\ next_page s' = next_page s /\
  i_array this' = i_array this /\ length (i_array recipient') = length (i_array recipient) /\
  internal_header this' = internal_header this /\ internal_header recipient' = internal_header recipient.
Proof.
  intros Hsz Hr. destruct (internal_cut this Hsz) as [Ha Hn].
  set (n := i_size this) in *. set (h := n / 2).
  assert (0 <= h <= n) by (subst h; split; [apply Z.div_pos | apply Z.div_le_upper_bound]; lia).
  set (A := take (Z.to_nat (n - h)) (internal_items this)). set (B := drop (Z.to_nat (n - h)) (internal_items this)).
  assert (HAB : internal_items this = A ++ B) by (symmetry; apply take_drop).
  assert (HlA : length A = Z.to_nat (n - h)) by (subst A; rewrite length_take; lia).
  assert (HlB : length B = Z.to_nat h) by (subst B; rewrite length_drop; lia).
  set (Y := take (Z.to_nat h) (i_array recipient)). set (R' := drop (Z.to_nat h) (i_array recipient)).
  assert (HY : length Y = Z.to_nat h) by (subst Y; rewrite length_take; lia).
  assert (Hdrop : drop (Z.to_nat (n - h)) (i_array this) = B ++ drop (Z.to_nat n) (i_array this)).
  { rewrite Ha at 1. rewrite HAB, <- app_assoc, drop_app_length'; [reflexivity | symmetry; exact HlA]. }
  unfold MoveHalfTo, CopyNFrom. fold n h. cbn [internal_set_size i_array i_page_id].
  rewrite Hdrop, <- (take_drop (Z.to_nat h) (i_array recipient)). fold Y R'. rewrite <- HlB.
  pose proof (copy_adopt_loop_app [] Y R' [] B (drop (Z.to_nat n) (i_array this)) (i_page_id recipient) s
    eq_refl ltac:(rewrite HY, HlB; reflexivity)) as Hc.
  cbn [app length] in Hc. change (Z.of_nat 0) with 0 in Hc.
  destruct (copy_adopt_loop _ _ _ _ _ _) as [s' a]. destruct Hc as (-> & Hnodes & Hroots & Hnext).
  assert (Hr' : internal_items (internal_set_array (internal_set_size recipient h) (B ++ R')) = B)
    by (apply (internal_items_of _ _ R'); cbn; [reflexivity | lia]).
  assert (Ht' : internal_items (internal_set_size this (n - h)) = A).
  { apply (internal_items_of _ _ (B ++ drop (Z.to_nat n) (i_array this))); cbn; [|lia].
    rewrite Ha at 1. rewrite HAB, <- app_assoc. reflexivity. }
  rewrite Hr', Ht', Hnodes. repeat split; try (symmetry; exact HAB); try assumption; try reflexivity.
  cbn [i_array internal_set_array]. rewrite !length_app, HY, HlB. reflexivity.
Qed.

Lemma move_first_step s this recipient middle_key x A :
  internal_items this = x :: A -> 0 < i_size this <= Z.of_nat (length (i_array this)) ->
  0 <= i_size recipient < Z.of_nat (length (i_array recipient)) ->
  nodes s !! i_page_id recipient <> None ->
  let '(s', this', recipient') := MoveFirstToEndOf s this recipient middle_key in
  internal_items this' = A /\ internal_items recipient' = internal_items recipient ++ [(middle_key, snd x)] /\
  i_size this' = i_size this - 1 /\ i_size recipient' = i_size recipient + 1 /\
  nodes s' = reparent (nodes s) [snd x] (i_page_id recipient) /\ roots s' = roots s /\
  next_page s' = next_page s /\
  length (i_array this') = length (i_array this) /\ length (i_array recipient') = length (i_array recipient) /\
  internal_header this' = internal_header this /\ internal_header recipient' = internal_header recipient.
Proof.
  intros Hit Hsz Hrz Hpres. destruct (nodes s !! i_page_id recipient) as [nr|] eqn:Hnr; [|congruence].
  destruct (fetch_present s _ nr Hnr) as (s1 & Hf & Hn1 & Hr1 & Hp1).
  destruct (internal_cut this ltac:(lia)) as [Ha Hn].
  destruct (internal_room recipient Hrz) as (y & R & Hra & Hrn).
  remember (drop (Z.to_nat (i_size this)) (i_array this)) as D eqn:HD. clear HD.
  rewrite Hit in Ha, Hn. cbn [app length] in Ha, Hn.
  destruct (shift_down_loop_app [] x A D) as [z Hz]. cbn [app length] in Hz. change (Z.of_nat 0 + 1) with 1 in Hz.
  unfold MoveFirstToEndOf, CopyLastFrom. rewrite Hf.
  cbn [fst snd internal_set_size internal_set_array i_array i_size i_page_id].
  destruct (adopt_spec s1 (snd x) (i_page_id recipient)) as (Hn2 & Hr2 & Hp2).
  rewrite Ha. change (aget (x :: A ++ D) 0) with x.
  replace (Z.to_nat (i_size this - 1)) with (length A) by lia. rewrite Hz, Hra, aset_mid by lia.
  rewrite nodes_unpin, roots_unpin, next_page_unpin, Hn2, Hr2, Hp2, Hn1, Hr1, Hp1.
  split; [apply (internal_items_of _ _ (z :: D)); cbn; [reflexivity | lia]|].
  split; [apply (internal_items_of _ _ R); cbn; [rewrite <- app_assoc; reflexivity | len]|].
  repeat split; try reflexivity; len.
Qed.

Lemma move_last_step s this recipient middle_key A x r0 rest :
  internal_items this = A ++ [x] -> 0 < i_size this <= Z.of_nat (length (i_array this)) ->
  internal_items recipient = r0 :: rest -> 0 < i_size recipient < Z.of_nat (length (i_array recipient)) ->
  nodes s !! i_page_id recipient <> None ->
  let '(s', this', recipient') := MoveLastToFrontOf s this recipient middle_key in
  internal_items this' = A /\ internal_items recipient' = x :: (middle_key, snd r0) :: rest /\
  i_size this' = i_size this - 1 /\ i_size recipient' = i_size recipient + 1 /\
  nodes s' = reparent (nodes s) [snd x] (i_page_id recipient) /\ roots s' = roots s /\
  next_page s' = next_page s /\
  i_array this' = i_array this /\ length (i_array recipient') = length (i_array recipient) /\
  internal_header this' = internal_header this /\ internal_header recipient' = internal_header recipient.
Proof.
  intros Hit Hsz Hri Hrz Hpres. destruct (nodes s !! i_page_id recipient) as [nr|] eqn:Hnr; [|congruence].
  destruct (fetch_present s _ nr Hnr) as (s1 & Hf & Hn1 & Hr1 & Hp1).
  destruct (internal_cut this ltac:(lia)) as [Ha Hn].
  destruct (internal_room recipient ltac:(lia)) as (y & R & Hra & Hrn).
  remember (drop (Z.to_nat (i_size this)) (i_array this)) as D eqn:HD. clear HD.
  rewrite Hit in Ha, Hn. rewrite <- app_assoc in Ha. cbn [app] in Ha. rewrite Hri in Hra, Hrn.
  destruct (shift_up_loop_app (r0 :: rest) y R) as [z Hz].
  unfold MoveLastToFrontOf, CopyFirstFrom, SetKeyAt. rewrite Hf.
  cbn [fst snd internal_set_size internal_set_array i_array i_size i_page_id].
  destruct (adopt_spec s1 x.2 (i_page_id recipient)) as (Hn2 & Hr2 & Hp2).
  rewrite (Ha : i_array this = _), aget_mid by (rewrite length_app in Hn; cbn in Hn; lia).
  rewrite Hra. replace (i_size recipient - 1) with (Z.of_nat (length (r0 :: rest)) - 1) by lia.
  replace (Z.to_nat (i_size recipient)) with (length (r0 :: rest)) by lia. rewrite Hz, aset_0.
  change (aget (x :: (r0 :: rest) ++ R) 1) with r0. change (aset (x :: (r0 :: rest) ++ R) 1 (middle_key, snd r0))
    with (x :: (middle_key, snd r0) :: rest ++ R).
  rewrite nodes_unpin, roots_unpin, next_page_unpin, Hn2, Hr2, Hp2, Hn1, Hr1, Hp1.
  split; [apply (internal_items_of _ _ (x :: D)); cbn; [exact Ha | len]|].
  split; [apply (internal_items_of _ _ R); cbn; [reflexivity | len]|].
  repeat split; try reflexivity; len.
Qed.

Lemma move_all_loop_S f i size s this recipient cur :
  move_all_loop (S f) i size s this recipient cur =
  let '(s1, this1, recipient1) := MoveFirstToEndOf s this recipient cur in
  move_all_loop f (i + 1) size s1 this1 recipient1 (if i <? size - 1 then KeyAt this1 0 else cur).
Proof. reflexivity. Qed.

Lemma move_all_loop_spec L x i size s this recipient cur :
  internal_items this = x :: L -> i_size this = Z.of_nat (S (length L)) ->
  i_size this <= Z.of_nat (length (i_array this)) -> i + Z.of_nat (S (length L)) = size ->
  0 <= i_size recipient -> i_size recipient + Z.of_nat (S (length L)) <= Z.of_nat (length (i_array recipient)) ->
  nodes s !! i_page_id recipient <> None ->
  let '(s', this', recipient') := move_all_loop (S (length L)) i size s this recipient cur in
  internal_items recipient' = internal_items recipient ++ (cur, snd x) :: L /\ i_size this' = 0 /\
  i_size recipient' = i_size recipient + Z.of_nat (S (length L)) /\
  nodes s' = reparent (nodes s) (map snd (x :: L)) (i_page_id recipient) /\ roots s' = roots s /\
  next_page s' = next_page s /\ internal_header recipient' = internal_header recipient.
Proof.
  revert x i s this recipient cur.
  induction L as [|x1 L IH]; intros x i s this recipient cur Hit Hts Hta Hi Hr0 Hrz Hpres;
    rewrite move_all_loop_S;
    pose proof (move_first_step s this recipient cur x _ Hit ltac:(cbn in Hts |- *; lia) ltac:(cbn in Hrz; lia) Hpres)
      as Hstep;
    destruct (MoveFirstToEndOf s this recipient cur) as [[s1 t1] r1];
    destruct Hstep as (E1 & E2 & E3 & E4 & E5 & E6 & E7 & E8 & E9 & E10 & E11).
  - cbn [move_all_loop length]. rewrite E2, E3, E4, E5, E6, E7, E11, Hts. repeat split; lia.
  - cbn [length] in *. rewrite (proj2 (Z.ltb_lt _ _)) by lia. unfold KeyAt.
    rewrite (aget_first t1 x1 L E1).
    assert (Hpres1 : nodes s1 !! i_page_id recipient <> None).
    { rewrite E5, lookup_reparent. destruct (decide _); [|exact Hpres].
      destruct (nodes s !! i_page_id recipient); [discriminate | contradiction]. }
    assert (Hid : i_page_id r1 = i_page_id recipient) by (unfold internal_header in E11; congruence).
    rewrite <- Hid in Hpres1.
    pose proof (IH x1 (i + 1) s1 t1 r1 (fst x1) E1 ltac:(lia) ltac:(rewrite E8; lia) ltac:(lia)
      ltac:(lia) ltac:(rewrite E9; lia) Hpres1) as Hrest.
    destruct (move_all_loop _ _ _ _ _ _ _) as [[s' t'] r'].
    destruct Hrest as (F1 & F2 & F3 & F4 & F5 & F6 & F7).
    rewrite F1, E2, F4, Hid, E5, F5, E6, F6, E7, F7, E11, F3, E4, reparent_app, <- app_assoc, <- surjective_pairing.
    repeat split; try reflexivity; lia.
Qed.

Lemma MoveAllTo_items s this recipient middle_key x L :
  internal_items this = x :: L -> 0 <= i_size this <= Z.of_nat (length (i_array this)) ->
  0 <= i_size recipient -> i_size recipient + i_size this <= Z.of_nat (length (i_array recipient)) ->
  nodes s !! i_page_id recipient <> None ->
  let '(s', this', recipient') := MoveAllTo s this recipient middle_key in
  internal_items recipient' = internal_items recipient ++ (middle_key, snd x) :: L /\ i_size this' = 0 /\
  i_size recipient' = i_size recipient + i_size this /\
  nodes s' = reparent (nodes s) (map snd (internal_items this)) (i_page_id recipient) /\
  roots s' = roots s /\ next_page s' = next_page s /\ internal_header recipient' = internal_header recipient.
Proof.
  intros Hit Hsz Hr0 Hrz Hpres. destruct (internal_cut this Hsz) as [_ Hn].
  rewrite Hit in Hn |- *. unfold MoveAllTo. replace (Z.to_nat (i_size this)) with (S (length L)) by (cbn in Hn; lia).
  replace (i_size recipient + i_size this) with (i_size recipient + Z.of_nat (S (length L))) by (cbn in Hn; lia).
  exact (move_all_loop_spec L x 0 (i_size this) s this recipient middle_key Hit ltac:(cbn in Hn |- *; lia)
    ltac:(lia) ltac:(cbn in Hn |- *; lia) Hr0 ltac:(cbn in Hn |- *; lia) Hpres).
Qed.

Lemma PopulateNewRoot_items p old_value new_key new_value :
  (2 <= length (i_array p))%nat ->
  internal_items (PopulateNewRoot p old_value new_key new_value) =
    [(fst (aget (i_array p) 0), old_value); (new_key, new_value)] /\
  i_parent_page_id (PopulateNewRoot p old_value new_key new_value) = INVALID_PAGE_ID /\
  i_page_id (PopulateNewRoot p old_value new_key new_value) = i_page_id p /\
  i_size (PopulateNewRoot p old_value new_key new_value) = 2.
Proof.
  intros Hl. destruct p as [pid par mx sz [|a0 [|a1 rest]]]; cbn in Hl; try lia.
  unfold PopulateNewRoot, internal_items. cbn. repeat split; reflexivity.
Qed.

End Specs.

(** ** Properties of the internal page *)

Section Claims.
Context {K V : Type} `{HK : KeyComparatorLaws K} `{Inhabited K}.
Implicit Types (p this recipient : InternalPage K) (s : Store K V) (key middle_key : K).

Lemma length_filter_le {A} (f : A -> bool) (l : list A) : (length (List.filter f l) <= length l)%nat.
Proof. induction l as [|z l IH]; [cbn; lia|]. cbn. destruct (f z); cbn; lia. Qed.

(** Keys above a key greater than [key] are not counted. *)
Lemma filter_above key (y : K * Z) (L : list (K * Z)) :
  key_cmp key (fst y) < 0 -> Forall (fun z => key_cmp (fst y) (fst z) < 0) L ->
  List.filter (fun z => key_cmp (fst z) key <=? 0) L = [].
Proof.
  intros Hlt Hall. induction Hall as [|z L Hyz Hall IHl]; [reflexivity|]. cbn [List.filter].
  pose proof (cmp_lt_trans _ _ _ Hlt Hyz) as Hkz. apply cmp_flip_lt in Hkz.
  rewrite (proj2 (Z.leb_gt _ _)) by lia. exact IHl.
Qed.

(** On sorted keys, [route] picks the entry after the keys not greater than [key]. *)
Lemma route_sorted key x L :
  sorted_pairs L ->
  route key x L = snd (nth (length (List.filter (fun y => key_cmp (fst y) key <=? 0) L)) (x :: L) x).
Proof.
  revert x; induction L as [|y L IH]; intros x Hs; [reflexivity|].
  apply sorted_pairs_cons in Hs as [Hs Hall]. cbn [route List.filter].
  destruct (Z.ltb_spec (key_cmp key (fst y)) 0) as [Hlt|Hge].
  - rewrite (proj2 (Z.leb_gt _ _)) by (apply cmp_flip_lt in Hlt; lia).
    rewrite (filter_above key y L Hlt Hall). reflexivity.
  - rewrite (proj2 (Z.leb_le _ _)) by (destruct (Z.eq_dec (key_cmp key (fst y)) 0) as [E|E];
      [apply cmp_flip_eq in E; lia | pose proof (proj2 (cmp_flip_lt (fst y) key)); lia]).
    cbn [length]. change (nth (S ?n) (x :: ?l) ?d) with (nth n l d). rewrite (IH y Hs). f_equal. apply nth_indep. cbn [length].
    pose proof (length_filter_le (fun y0 => key_cmp (fst y0) key <=? 0) L). lia.
Qed.

(** [Lookup] routes a key to the child of the last entry, from the
    second on, whose key is not greater than it, and to the first child
    when every key from the second on is greater: with the separator keys
    sorted, it returns the child at the position counting the separators
    not greater than the key. *)
Theorem Lookup_routes p key :
  1 <= i_size p <= Z.of_nat (length (i_array p)) -> sorted_pairs (tl (internal_items p)) ->
  Lookup p key = snd (nth (length (List.filter (fun y => key_cmp (fst y) key <=? 0) (tl (internal_items p))))
                          (internal_items p) (key, INVALID_PAGE_ID)).
Proof.
  intros Hsz Hs. rewrite Lookup_items by exact Hsz. destruct (internal_cut p ltac:(lia)) as [_ Hn].
  destruct (internal_items p) as [|x L]; [cbn in Hn; lia|]. cbn [child_for tl] in *.
  rewrite (route_sorted key x L Hs). f_equal. apply nth_indep. cbn [length].
  pose proof (length_filter_le (fun y => key_cmp (fst y) key <=? 0) L). lia.
Qed.

(** The first entry holding [v] splits the entries. *)
Lemma value_pos_split v (l : list (K * Z)) j :
  value_pos v l = Some j -> exists P x S, l = P ++ x :: S /\ length P = j /\ snd x = v.
Proof.
  revert j; induction l as [|y l IH]; intros j; [discriminate|]. cbn [value_pos].
  destruct (Z.eqb_spec (snd y) v) as [E|E]; intros Hj.
  - injection Hj as <-. exists [], y, l. auto.
  - destruct (value_pos v l) as [j'|]; [|discriminate]. injection Hj as <-.
    destruct (IH j' eq_refl) as (P & x & S & -> & HP & Hx). exists (y :: P), x, S. cbn. auto.
Qed.

(** With the children of a page distinct, [InsertNodeAfter] puts the
    new entry right after the entry of [old_value], at the position one
    past the one [ValueIndex] reports for it, and returns the new size. *)
Theorem InsertNodeAfter_spec p old_value new_key new_value :
  0 <= i_size p < Z.of_nat (length (i_array p)) -> NoDup (map snd (internal_items p)) ->
  0 <= ValueIndex p old_value ->
  let '(p', n) := InsertNodeAfter p old_value new_key new_value in
  let j := Z.to_nat (ValueIndex p old_value) in
  internal_items p' = take (S j) (internal_items p) ++ (new_key, new_value) :: drop (S j) (internal_items p) /\
  n = i_size p + 1 /\ i_size p' = n.
Proof.
  intros Hsz Hnd Hvi. rewrite ValueIndex_items in * by lia.
  destruct (value_pos old_value (internal_items p)) as [j|] eqn:Hj; [|lia].
  destruct (value_pos_split _ _ _ Hj) as (P & x & S & Hl & HP & Hx).
  assert (HS : Forall (fun w => snd w <> old_value) S).
  { rewrite Hl, map_app in Hnd. cbn [map] in Hnd. apply NoDup_app in Hnd as (_ & _ & Hnd).
    apply NoDup_cons in Hnd as [Hnot _]. apply Forall_forall. intros w Hw E. apply Hnot.
    rewrite Hx, <- E. apply list_elem_of_fmap. exists w. auto. }
  pose proof (InsertNodeAfter_items p P x S old_value new_key new_value Hsz Hl Hx HS) as Hins.
  destruct (InsertNodeAfter p old_value new_key new_value) as [p' n].
  destruct Hins as (Hi & Hn & Hs' & _). cbv zeta. rewrite Nat2Z.id, Hi, Hl, <- HP.
  rewrite (take_S_r _ _ x) by (apply list_lookup_middle; reflexivity).
  rewrite take_app_length, <- Nat.add_1_r, <- drop_drop, drop_app_length. cbn [drop].
  rewrite <- app_assoc. auto.
Qed.

(** [Remove] at the index [ValueIndex] gives for a child (the way
    [Coalesce] drops a merged page from its parent) removes exactly that
    child's entry, keeping the others in order. *)
Theorem Remove_ValueIndex_spec p c :
  1 <= i_size p <= Z.of_nat (length (i_array p)) -> NoDup (map snd (internal_items p)) ->
  c ∈ map snd (internal_items p) ->
  internal_items (Remove p (ValueIndex p c)) = List.filter (fun e => negb (snd e =? c)) (internal_items p) /\
  i_size (Remove p (ValueIndex p c)) = i_size p - 1.
Proof.
  intros Hsz Hnd Hc. pose proof (ValueIndex_items p c ltac:(lia)) as Hvi.
  destruct (value_pos c (internal_items p)) as [j|] eqn:Hj.
  2:{ exfalso. apply list_elem_of_fmap in Hc as (e & He & Hin). clear Hvi Hnd.
      induction (internal_items p) as [|y l IH]; [inversion Hin|]. cbn in Hj.
      destruct (Z.eqb_spec (snd y) c); [discriminate|]. destruct (value_pos c l); [discriminate|].
      apply elem_of_cons in Hin as [->|Hin]; [congruence | auto]. }
  destruct (value_pos_split _ _ _ Hj) as (P & x & S & Hl & HP & Hx).
  destruct (internal_cut p ltac:(lia)) as [_ Hn].
  destruct (Remove_items p (ValueIndex p c) ltac:(rewrite Hvi, Hl in *; len) ltac:(lia)) as (Hi & Hs & _).
  rewrite Hi, Hs, Hvi, Nat2Z.id, Hl, <- HP, take_app_length, <- Nat.add_1_r, <- drop_drop, drop_app_length.
  split; [|reflexivity]. cbn [drop].
  rewrite Hl, map_app in Hnd. cbn [map] in Hnd. apply NoDup_app in Hnd as (_ & Hdis & Hnd).
  apply NoDup_cons in Hnd as [Hnot _]. rewrite List.filter_app. cbn [List.filter]. rewrite Hx, Z.eqb_refl.
  cbn [negb]. f_equal; [|f_equal]; apply eq_sym, List.forallb_filter_id, forallb_forall; intros e He;
    apply negb_true_iff, Z.eqb_neq; intros E.
  - apply (Hdis (snd e)); [apply list_elem_of_fmap; exists e; split; [reflexivity | apply list_elem_of_In, He]|].
    rewrite E, <- Hx. left.
  - apply Hnot. rewrite Hx, <- E. apply list_elem_of_fmap. exists e. split; [reflexivity | apply list_elem_of_In, He].
Qed.

(** The internal split [MoveHalfTo] keeps the lower half of the
    entries, copies the upper [size / 2] to the recipient and makes the
    recipient the parent of exactly the moved children: every other page
    of the store is untouched. *)
Theorem MoveHalfTo_reparents s this recipient :
  0 <= i_size this <= Z.of_nat (length (i_array this)) ->
  i_size this / 2 <= Z.of_nat (length (i_array recipient)) ->
  let '(s', this', recipient') := MoveHalfTo s this recipient in
  internal_items this' ++ internal_items recipient' = internal_items this /\
  i_size recipient' = i_size this / 2 /\
  forall q, nodes s' !! q = if decide (q ∈ map snd (internal_items recipient'))
                            then (fun n => node_set_parent n (i_page_id recipient)) <$> nodes s !! q
                            else nodes s !! q.
Proof.
  intros Hsz Hr. pose proof (MoveHalfTo_items s this recipient Hsz Hr) as Hm.
  destruct (MoveHalfTo s this recipient) as [[s' t'] r'].
  destruct Hm as (Hi & _ & Hrs & Hn & _). split; [exact Hi|]. split; [exact Hrs|].
  intros q. rewrite Hn. apply lookup_reparent.
Qed.

(** The internal merge [MoveAllTo] appends every entry to the
    recipient, the first one under the separator [middle_key] from the
    parent, empties the page and makes the recipient the parent of
    exactly its children. *)
Theorem MoveAllTo_reparents s this recipient middle_key :
  1 <= i_size this <= Z.of_nat (length (i_array this)) -> 0 <= i_size recipient ->
  i_size recipient + i_size this <= Z.of_nat (length (i_array recipient)) ->
  nodes s !! i_page_id recipient <> None ->
  let '(s', this', recipient') := MoveAllTo s this recipient middle_key in
  internal_items recipient' =
    internal_items recipient ++ (middle_key, snd (hd (middle_key, INVALID_PAGE_ID) (internal_items this)))
                              :: tl (internal_items this) /\
  i_size this' = 0 /\
  forall q, nodes s' !! q = if decide (q ∈ map snd (internal_items this))
                            then (fun n => node_set_parent n (i_page_id recipient)) <$> nodes s !! q
                            else nodes s !! q.
Proof.
  intros Hsz Hr0 Hrz Hpres. destruct (internal_cut this ltac:(lia)) as [_ Hn].
  destruct (internal_items this) as [|x L] eqn:Hit; [cbn in Hn; lia|].
  pose proof (MoveAllTo_items s this recipient middle_key x L Hit ltac:(lia) Hr0 Hrz Hpres) as Hm.
  destruct (MoveAllTo s this recipient middle_key) as [[s' t'] r'].
  destruct Hm as (Hi & Hts & _ & Hnodes & _). cbn [hd tl]. split; [exact Hi|]. split; [exact Hts|].
  intros q. rewrite Hnodes, Hit. apply lookup_reparent.
Qed.

End Claims.

(** ** Witnesses, on the [int] instantiation *)

Section Witnesses.

Definition wleaf (id : Z) : Node Z Z := LeafNode (mkLeafPage id 9 4 0 INVALID_PAGE_ID []).
Definition wstore : Store Z Z :=
  mkStore (list_to_map [(10, wleaf 10); (11, wleaf 11); (12, wleaf 12); (13, wleaf 13);
                        (15, InternalNode (mkInternalPage 15 (-1) 4 1 [(0, 20)]))]) ∅ 20 ∅.
Definition wnode : InternalPage Z := mkInternalPage 9 (-1) 4 4 [(0, 10); (5, 11); (8, 12); (12, 13); (0, 0)].
Definition wright : InternalPage Z := mkInternalPage 16 (-1) 4 0 [(0, 0); (0, 0); (0, 0); (0, 0); (0, 0)].
Definition wleft : InternalPage Z := mkInternalPage 15 (-1) 4 1 [(0, 20); (0, 0); (0, 0); (0, 0); (0, 0); (0, 0)].

Lemma Lookup_routes_witness : Lookup wnode 9 = 12.
Proof. rewrite (Lookup_routes wnode 9 ltac:(zcompute) ltac:(vm_compute; reflexivity)). reflexivity. Defined.

Lemma InsertNodeAfter_spec_witness :
  internal_items (fst (InsertNodeAfter wnode 11 6 14)) = [(0, 10); (5, 11); (6, 14); (8, 12); (12, 13)].
Proof.
  pose proof (InsertNodeAfter_spec wnode 11 6 14 ltac:(zcompute) ltac:(vm_compute; repeat constructor; set_solver)
    ltac:(zcompute)) as Hs.
  destruct (InsertNodeAfter wnode 11 6 14) as [p' n]. destruct Hs as (Hi & _). exact Hi.
Defined.

Lemma Remove_ValueIndex_spec_witness :
  internal_items (Remove wnode (ValueIndex wnode 12)) = [(0, 10); (5, 11); (12, 13)].
Proof.
  rewrite (proj1 (Remove_ValueIndex_spec wnode 12 ltac:(zcompute) ltac:(vm_compute; repeat constructor; set_solver)
    ltac:(vm_compute; set_solver))). reflexivity.
Defined.

Lemma MoveHalfTo_reparents_witness :
  internal_items (snd (fst (MoveHalfTo wstore wnode wright))) ++ internal_items (snd (MoveHalfTo wstore wnode wright)) =
  [(0, 10); (5, 11); (8, 12); (12, 13)].
Proof.
  pose proof (MoveHalfTo_reparents wstore wnode wright ltac:(zcompute) ltac:(zcompute)) as Hs.
  destruct (MoveHalfTo wstore wnode wright) as [[s' t'] r']. destruct Hs as (Hi & _). exact Hi.
Defined.

Lemma MoveAllTo_reparents_witness :
  internal_items (snd (MoveAllTo wstore wnode wleft 3)) = [(0, 20); (3, 10); (5, 11); (8, 12); (12, 13)].
Proof.
  pose proof (MoveAllTo_reparents wstore wnode wleft 3 ltac:(zcompute) ltac:(zcompute) ltac:(zcompute)
    ltac:(vm_compute; discriminate)) as Hs.
  destruct (MoveAllTo wstore wnode wleft 3) as [[s' t'] r']. destruct Hs as (Hi & _). exact Hi.
Defined.

End Witnesses.

End BPlusTreeInternalPage.
