(* ===== verification/IndexIterator.v ===== *)
(** * The index iterator (index/index_iterator.cpp)

    An iterator holds the leaf page it is on and a copy of the pair it
    points at ([page_id_], [value_]); it is built and advanced through the
    page store, each access a [FetchPage] followed by an [UnpinPage].
    [operator++] re-finds the current key in the leaf with [KeyIndex],
    steps past it, and follows [next_page_id_] past the end of the leaf.
    [None] stands for the C++ code dereferencing the nullptr of a failed
    fetch (or reading a page that is not a leaf as a leaf). *)

From Stdlib Require Import ZArith Lia List.
From stdpp Require Import base list gmap.
From S2P Require Import Spec2Rocq KeyComparator TreePage LeafPage.
Import ListNotations.
Open Scope Z_scope.

Module IndexIterator.
Import BPlusTreeLeafPage.

Section Iterator.
Context {K V : Type} `{KeyComparator K} `{Inhabited K} `{Inhabited V} `{EqDecision V}.
Implicit Types (s : Store K V).

Record IndexIterator := mkIndexIterator {
  page_id_ : Z;
  value_ : K * V
}.

(** A node read as a leaf page. *)
Definition as_leaf (n : Node K V) : option (LeafPage K V) :=
  match n with LeafNode l => Some l | InternalNode _ => None end.

(** The constructor: [value_ = node->GetItem(index)]. *)
Definition make_iterator s (page_id index : Z) : option (Store K V * IndexIterator) :=
  '(s1, n) ← fetch s page_id;
  node ← as_leaf n;
  Some (unpin s1 page_id, mkIndexIterator page_id (GetItem node index)).

(** [operator*]. *)
Definition deref (it : IndexIterator) : K * V := value_ it.

(** [operator++]. *)
Definition next s (it : IndexIterator) : option (Store K V * IndexIterator) :=
  let pid := page_id_ it in
  '(s1, n) ← fetch s pid;
  node ← as_leaf n;
  let index0 := KeyIndex node (fst (value_ it)) in
  let index := if key_cmp (fst (value_ it)) (KeyAt node index0) =? 0 then index0 + 1 else index0 in
  if index <? l_size node then Some (unpin s1 pid, mkIndexIterator pid (GetItem node index))
  else
    let next_id := l_next_page_id node in
    let s2 := unpin s1 pid in
    if next_id =? INVALID_PAGE_ID then Some (s2, mkIndexIterator next_id (value_ it))
    else match fetch s2 next_id with
         | None => Some (s2, mkIndexIterator next_id (value_ it))
         | Some (s3, n2) =>
             node2 ← as_leaf n2;
             Some (unpin s3 next_id, mkIndexIterator next_id (GetItem node2 0))
         end.

(** [operator==] and [operator!=]. *)
Definition iter_eqb (a b : IndexIterator) : bool :=
  (page_id_ a =? page_id_ b) && (key_cmp (fst (value_ a)) (fst (value_ b)) =? 0)
  && bool_decide (snd (value_ a) = snd (value_ b)).
Definition iter_neqb (a b : IndexIterator) : bool := negb (iter_eqb a b).

End Iterator.

Arguments IndexIterator : clear implicits.

End IndexIterator.
