(* ===== verification/BPlusTree.v ===== *)
(** * The B+ tree index (index/b_plus_tree.cpp)

    [BPlusTree] is the object's state: [index_id_], [root_page_id_] and the
    two maximum sizes; the buffer pool it holds is the page store [Store]
    of TreePage.v, threaded through every method.  Each method reads the
    frame of a page from the store, runs the page methods of LeafPage.v and
    InternalPage.v on it and writes it back before anything else can read
    that page, so two pointers to one frame see each other's writes as
    they do in C++.  Methods return [None] where the C++ code has
    undefined behaviour (a nullptr from [FetchPage] dereferenced, a page
    read as the wrong kind of node), fails an [assert], or where the model
    runs out of fuel; the fuel of each loop is one more than the number of
    pages of the store, a bound on the height of the tree. *)

From Stdlib Require Import ZArith Lia List.
From stdpp Require Import base list gmap.
From S2P Require Import Spec2Rocq KeyComparator TreePage LeafPage InternalPage IndexIterator.
Import ListNotations.
Open Scope Z_scope.

Module BPlusTreeIndex.
Module Leaf := BPlusTreeLeafPage.
Module Internal := BPlusTreeInternalPage.
Import IndexIterator.

(** The members of the C++ object (the buffer pool and the comparator
    aside: the store is passed along, the comparator is the class
    instance). *)
Record BPlusTree := mkBPlusTree {
  index_id_ : Z;
  root_page_id_ : Z;
  leaf_max_size_ : Z;
  internal_max_size_ : Z
}.

Definition set_root_page_id (t : BPlusTree) (root : Z) : BPlusTree :=
  mkBPlusTree (index_id_ t) root (leaf_max_size_ t) (internal_max_size_ t).

Section Tree.
Context {K V : Type} `{KeyComparator K} `{Inhabited K} `{Inhabited V} `{EqDecision V}.
(** The slots of a fresh leaf and internal page (LEAF_PAGE_SIZE and
    INTERNAL_PAGE_SIZE of the page headers). *)
Context (leaf_slots internal_slots : nat).
Implicit Types (t : BPlusTree) (s : Store K V) (key : K) (value : V).

Definition tree_fuel s : nat := S (size (nodes s)).

Definition as_internal (n : Node K V) : option (InternalPage K) :=
  match n with InternalNode p => Some p | LeafNode _ => None end.
Definition internal_at s (pid : Z) : option (InternalPage K) := nodes s !! pid ≫= as_internal.

(** [N::KeyAt] for a node of either kind. *)
Definition node_key_at (n : Node K V) (index : Z) : K :=
  match n with LeafNode l => Leaf.KeyAt l index | InternalNode p => Internal.KeyAt p index end.

(** [UpdateRootPageId]: the index roots page records [root_page_id_]
    ([Insert] and [Update] alike). *)
Definition UpdateRootPageId t s : Store K V := set_root s (index_id_ t) (root_page_id_ t).

(** The constructor: the root recorded for [index_id], or an empty tree
    recorded as such. *)
Definition create s (index_id leaf_max_size internal_max_size : Z) : BPlusTree * Store K V :=
  match roots s !! index_id with
  | Some root => (mkBPlusTree index_id root leaf_max_size internal_max_size, s)
  | None =>
      let t := mkBPlusTree index_id INVALID_PAGE_ID leaf_max_size internal_max_size in
      (t, UpdateRootPageId t s)
  end.

(** [Check]: [CheckAllUnpinned] of the buffer pool, every pin count
    zero. *)
Definition Check s : bool := forallb (fun qc => snd qc =? 0) (map_to_list (pins s)).

(** [Destroy]: forget the root and delete the index's entry of the
    roots page (the pages themselves stay). *)
Definition Destroy t s : BPlusTree * Store K V :=
  (set_root_page_id t INVALID_PAGE_ID,
   mkStore (nodes s) (pins s) (next_page s) (delete (index_id_ t) (roots s))).

Definition IsEmpty t : bool := root_page_id_ t =? INVALID_PAGE_ID.

(** [GetValue]: the loop of the descent; [Some v] is [true] with [v]
    pushed on [result]. *)
Fixpoint get_value_loop (fuel : nat) s (cur : Z) key : option (Store K V * option V) :=
  match fuel with
  | O => None
  | S f =>
      if cur =? INVALID_PAGE_ID then Some (s, None) else
      match fetch s cur with
      | None => Some (s, None)
      | Some (s1, LeafNode l) => Some (unpin s1 cur, Leaf.Lookup l key)
      | Some (s1, InternalNode n) => get_value_loop f (unpin s1 (i_page_id n)) (Internal.Lookup n key) key
      end
  end.
Definition GetValue t s key : option (Store K V * option V) :=
  get_value_loop (tree_fuel s) s (root_page_id_ t) key.

(** [StartNewTree]: a fresh leaf holding the pair becomes the root. *)
Definition StartNewTree t s key value : BPlusTree * Store K V :=
  let '(s1, new_page_id) := new_page s in
  let node := Leaf.Init (replicate leaf_slots inhabitant) new_page_id INVALID_PAGE_ID (leaf_max_size_ t) in
  let node1 := fst (Leaf.Insert node key value) in
  let s2 := unpin (put s1 new_page_id (LeafNode node1)) new_page_id in
  let t' := set_root_page_id t new_page_id in
  (t', UpdateRootPageId t' s2).

(** The descent of [InsertIntoLeaf] and [Remove] to the leaf of [key],
    left pinned; [None] inside for the nullptr of a failed fetch. *)
Fixpoint find_leaf (fuel : nat) s (cur : Z) key : option (Store K V * option (Z * LeafPage K V)) :=
  match fuel with
  | O => None
  | S f =>
      match fetch s cur with
      | None => Some (s, None)
      | Some (s1, LeafNode l) => Some (s1, Some (cur, l))
      | Some (s1, InternalNode n) => find_leaf f (unpin s1 cur) (Internal.Lookup n key) key
      end
  end.

(** [Split] of a leaf: the upper half goes to a fresh leaf threaded after
    [node].  [NewPage] of the store does not fail. *)
Definition SplitLeaf t s (node : LeafPage K V) : Store K V * LeafPage K V * LeafPage K V :=
  let '(s1, new_page_id) := new_page s in
  let new0 := SetNextPageId
                (Leaf.Init (replicate leaf_slots inhabitant) new_page_id (l_parent_page_id node) (leaf_max_size_ t))
                (l_next_page_id node) in
  let '(node1, new1) := Leaf.MoveHalfTo (SetNextPageId node new_page_id) new0 in
  (put (put s1 (l_page_id node1) (LeafNode node1)) new_page_id (LeafNode new1), node1, new1).

(** [Split] of an internal page: the moved children are adopted by the
    fresh page. *)
Definition SplitInternal t s (node : InternalPage K) : Store K V * InternalPage K * InternalPage K :=
  let '(s1, new_page_id) := new_page s in
  let new0 := Internal.Init (replicate internal_slots inhabitant) new_page_id (i_parent_page_id node)
                (internal_max_size_ t) in
  let '(s2, node1, new1) := Internal.MoveHalfTo s1 node new0 in
  (put (put s2 (i_page_id node1) (InternalNode node1)) new_page_id (InternalNode new1), node1, new1).

(** [InsertIntoParent]: left empty in the source ([InsertIntoLeaf] does
    the work itself). *)
Definition InsertIntoParent t s : BPlusTree * Store K V := (t, s).

(** [FindLeafPage]: a stub returning nullptr. *)
Definition FindLeafPage (s : Store K V) (key : K) (leftMost : bool) : option (LeafPage K V) := None.

(** The new root of [InsertIntoLeaf] over [merge_left] and [merge_right]. *)
Definition new_root t s (merge_left merge_right : Z) (right_key : K) : option (BPlusTree * Store K V * bool) :=
  let '(s1, new_page_id) := new_page s in
  let root := Internal.PopulateNewRoot
                (Internal.Init (replicate internal_slots inhabitant) new_page_id INVALID_PAGE_ID (internal_max_size_ t))
                merge_left right_key merge_right in
  let t' := set_root_page_id t new_page_id in
  let s2 := UpdateRootPageId t' (put s1 new_page_id (InternalNode root)) in
  '(s3, left_node) ← fetch s2 merge_left;
  let s4 := unpin (put s3 merge_left (node_set_parent left_node new_page_id)) merge_left in
  '(s5, right_node) ← fetch s4 merge_right;
  let s6 := unpin (put s5 merge_right (node_set_parent right_node new_page_id)) merge_right in
  Some (t', unpin s6 new_page_id, true).

(** The upward loop of [InsertIntoLeaf]: refresh the key of the child we
    came from, insert the split-off sibling after it, split again on
    overflow, and stop at the root. *)
Fixpoint insert_up (fuel : nat) t s (cur merge_left merge_right : Z) (left_key right_key : K)
  : option (BPlusTree * Store K V * bool) :=
  match fuel with
  | O => None
  | S f =>
      if cur =? INVALID_PAGE_ID then
        if negb (merge_left =? root_page_id_ t) then Some (t, s, false)
        else if merge_right =? INVALID_PAGE_ID then Some (t, s, true)
        else new_root t s merge_left merge_right right_key
      else
        '(s1, n) ← fetch s cur;
        node ← as_internal n;
        let node1 := Internal.SetKeyAt node (Internal.ValueIndex node merge_left) left_key in
        let '(s2, node2, merge_right', right_key') :=
          if merge_right =? INVALID_PAGE_ID then (put s1 cur (InternalNode node1), node1, merge_right, right_key)
          else
            let '(node2, sz) := Internal.InsertNodeAfter node1 merge_left right_key merge_right in
            let s2 := put s1 cur (InternalNode node2) in
            if internal_max_size_ t <? sz then
              let '(s3, node3, split) := SplitInternal t s2 node2 in
              (unpin s3 (i_page_id split), node3, i_page_id split, Internal.KeyAt split 0)
            else (s2, node2, INVALID_PAGE_ID, right_key) in
        insert_up f t (unpin s2 (i_page_id node2)) (i_parent_page_id node2) (i_page_id node2) merge_right'
          (Internal.KeyAt node2 0) right_key'
  end.

(** [InsertIntoLeaf]. *)
Definition InsertIntoLeaf t s key value : option (BPlusTree * Store K V * bool) :=
  '(s1, found) ← find_leaf (tree_fuel s) s (root_page_id_ t) key;
  match found with
  | None => Some (t, s1, false)
  | Some (cur, leaf) =>
      match Leaf.Lookup leaf key with
      | Some _ => Some (t, unpin s1 cur, false)
      | None =>
          let left_key := Leaf.KeyAt leaf 0 in
          let '(leaf1, sz) := Leaf.Insert leaf key value in
          let s2 := put s1 cur (LeafNode leaf1) in
          let '(s3, leaf2, merge_right, right_key) :=
            if leaf_max_size_ t <? sz then
              let '(s3, leaf2, split) := SplitLeaf t s2 leaf1 in
              (unpin s3 (l_page_id split), leaf2, l_page_id split, Leaf.KeyAt split 0)
            else (s2, leaf1, INVALID_PAGE_ID, left_key) in
          insert_up (tree_fuel s3) t (unpin s3 (l_page_id leaf2)) (l_parent_page_id leaf2) cur merge_right
            left_key right_key
      end
  end.

(** [Insert]. *)
Definition Insert t s key value : option (BPlusTree * Store K V * bool) :=
  if IsEmpty t then let '(t', s') := StartNewTree t s key value in Some (t', s', true)
  else InsertIntoLeaf t s key value.

(** [AdjustRoot]: an empty root leaf empties the tree; a root with one
    child hands the root to that child.  [true]: delete the old root. *)
Definition AdjustRoot t s (old_root : Node K V) : option (BPlusTree * Store K V * bool) :=
  match old_root with
  | LeafNode l =>
      if l_size l =? 0 then
        let t' := set_root_page_id t INVALID_PAGE_ID in Some (t', UpdateRootPageId t' s, true)
      else Some (t, s, false)
  | InternalNode root =>
      if i_size root =? 1 then
        let child_id := Internal.ValueAt root 0 in
        '(s1, child) ← fetch s child_id;
        let s2 := unpin (put s1 child_id (node_set_parent child INVALID_PAGE_ID)) child_id in
        let t' := set_root_page_id t child_id in
        Some (t', UpdateRootPageId t' s2, true)
      else Some (t, s, false)
  end.

(** The [while (abs(size - neighbor size) > 1)] loop of [Redistribute]
    on leaves. *)
Fixpoint redistribute_leaf_loop (fuel : nat) (index : Z) (isibling inode : LeafPage K V)
  : option (LeafPage K V * LeafPage K V) :=
  match fuel with
  | O => None
  | S f =>
      if 1 <? Z.abs (l_size inode - l_size isibling) then
        let '(isibling1, inode1) :=
          if index =? 0 then Leaf.MoveFirstToEndOf isibling inode else Leaf.MoveLastToFrontOf isibling inode in
        redistribute_leaf_loop f index isibling1 inode1
      else Some (isibling, inode)
  end.

(** The same loop on internal pages, the middle key rotating through. *)
Fixpoint redistribute_internal_loop (fuel : nat) (index : Z) s (isibling inode : InternalPage K) (middle_key : K)
  : option (Store K V * InternalPage K * InternalPage K) :=
  match fuel with
  | O => None
  | S f =>
      if 1 <? Z.abs (i_size inode - i_size isibling) then
        if index =? 0 then
          let '(s1, isibling1, inode1) := Internal.MoveFirstToEndOf s isibling inode middle_key in
          redistribute_internal_loop f index s1 isibling1 inode1 (Internal.KeyAt isibling1 0)
        else
          let '(s1, isibling1, inode1) := Internal.MoveLastToFrontOf s isibling inode middle_key in
          redistribute_internal_loop f index s1 isibling1 inode1 (Internal.KeyAt inode1 0)
      else Some (s, isibling, inode)
  end.

(** [Redistribute(neighbor_node, node, index)]: [index = 0] moves the
    right neighbour's first entries to the end of [node], otherwise the
    left neighbour's last entries to its front, until the sizes differ by
    at most one.  Both pages are written back. *)
Definition Redistribute s (neighbor_node node : Node K V) (index : Z) : option (Store K V) :=
  let fuel := S (Z.to_nat (node_size neighbor_node + node_size node)) in
  match node, neighbor_node with
  | InternalNode inode, InternalNode isibling =>
      let parent_id := i_parent_page_id inode in
      '(s1, pn) ← fetch s parent_id;
      parent_node ← as_internal pn;
      let middle_key := Internal.KeyAt parent_node
                          (Internal.ValueIndex parent_node
                             (if index =? 0 then i_page_id isibling else i_page_id inode)) in
      '(s2, isibling1, inode1) ← redistribute_internal_loop fuel index (unpin s1 parent_id) isibling inode middle_key;
      Some (put (put s2 (i_page_id isibling1) (InternalNode isibling1)) (i_page_id inode1) (InternalNode inode1))
  | LeafNode inode, LeafNode isibling =>
      '(isibling1, inode1) ← redistribute_leaf_loop fuel index isibling inode;
      Some (put (put s (l_page_id isibling1) (LeafNode isibling1)) (l_page_id inode1) (LeafNode inode1))
  | _, _ => None
  end.

(** [Coalesce(&neighbor_node, &node, &parent, index)]: the right page of
    the pair ([neighbor_node] when [index = 0], else [node]) moves all its
    entries into the left one and leaves the parent.  [true]: the parent
    has underflowed.  The three pages are written back. *)
Definition Coalesce s (neighbor_node node : Node K V) (parent : InternalPage K) (index : Z)
  : option (Store K V * bool) :=
  let '(neighbor_node, node) := if index =? 0 then (node, neighbor_node) else (neighbor_node, node) in
  match node, neighbor_node with
  | LeafNode inode, LeafNode isibling =>
      let '(inode1, isibling1) := Leaf.MoveAllTo inode isibling in
      let isibling2 := SetNextPageId isibling1 (l_next_page_id inode1) in
      let parent1 := Internal.Remove parent (Internal.ValueIndex parent (l_page_id inode1)) in
      Some (put (put (put s (l_page_id inode1) (LeafNode inode1)) (l_page_id isibling2) (LeafNode isibling2))
              (i_page_id parent1) (InternalNode parent1),
            i_size parent1 <? min_size (i_max_size parent1))
  | InternalNode inode, InternalNode isibling =>
      let middle_key := Internal.KeyAt parent (Internal.ValueIndex parent (i_page_id inode)) in
      let '(s1, inode1, isibling1) := Internal.MoveAllTo s inode isibling middle_key in
      let parent1 := Internal.Remove parent (Internal.ValueIndex parent (i_page_id inode1)) in
      Some (put (put (put s1 (i_page_id inode1) (InternalNode inode1)) (i_page_id isibling1) (InternalNode isibling1))
              (i_page_id parent1) (InternalNode parent1),
            i_size parent1 <? min_size (i_max_size parent1))
  | _, _ => None
  end.

Section Body.
(** [CoalesceOrRedistribute] is written as one step over the recursive
    call [rec] it makes on the parent. *)
Variable rec : BPlusTree -> Store K V -> Z -> option (BPlusTree * Store K V * bool).

(** The recursive call of a redistribution, whose result must be [false]. *)
Definition refresh_parent t s (do_it : bool) (parent_id : Z) : option (BPlusTree * Store K V) :=
  if do_it then ('(t1, s1, flag) ← rec t s parent_id; if (flag : bool) then None else Some (t1, s1))
  else Some (t, s).

(** The two redistribution attempts of [CoalesceOrRedistribute]: with
    the sibling at [rindex] ([index = 0]: the right one), if the two pages
    hold enough entries; [inr] when they do not. *)
Definition try_redistribute t s (node_id parent_id : Z) (mindex msize rindex index : Z)
  : option ((BPlusTree * Store K V * bool) + Store K V) :=
  parent_node ← internal_at s parent_id;
  let sibling_id := Internal.ValueAt parent_node rindex in
  '(s1, sibling_node) ← fetch s sibling_id;
  node ← nodes s1 !! node_id;
  if min_size (node_max_size node) <=? (msize + node_size sibling_node) / 2 then
    s2 ← Redistribute s1 sibling_node node index;
    parent2 ← internal_at s2 parent_id;
    sibling2 ← nodes s2 !! sibling_id;
    node2 ← nodes s2 !! node_id;
    let parent3 := if index =? 0 then Internal.SetKeyAt parent2 rindex (node_key_at sibling2 0)
                   else Internal.SetKeyAt parent2 mindex (node_key_at node2 0) in
    '(t3, s3) ← refresh_parent t (put s2 parent_id (InternalNode parent3)) ((mindex =? 0) || (rindex =? 0)) parent_id;
    Some (inl (t3, unpin (unpin s3 sibling_id) parent_id, false))
  else Some (inr (unpin s1 sibling_id)).

(** The two coalescing branches: into [node] from its right sibling
    ([index = 0], which deletes the sibling and returns [false]) or into
    the left sibling (returns [true]: delete [node]). *)
Definition coalesce_with t s (node_id parent_id : Z) (mindex rindex index : Z)
  : option (BPlusTree * Store K V * bool) :=
  parent_node ← internal_at s parent_id;
  let sibling_id := Internal.ValueAt parent_node rindex in
  '(s1, sibling_node) ← fetch s sibling_id;
  node ← nodes s1 !! node_id;
  '(s2, underflow) ← Coalesce s1 sibling_node node parent_node index;
  '(t3, s3, flag) ← (if underflow || (if index =? 0 then mindex =? 0 else rindex =? 0)
                      then rec t s2 parent_id else Some (t, s2, false));
  let s4 := unpin (unpin s3 sibling_id) parent_id in
  let s5 := if index =? 0 then fst (delete_page s4 sibling_id) else s4 in
  let s6 := if (flag : bool) then fst (delete_page s5 parent_id) else s5 in
  Some (t3, s6, negb (index =? 0)).

(** One call of [CoalesceOrRedistribute] on the page [node_id]. *)
Definition cor_body t s (node_id : Z) : option (BPlusTree * Store K V * bool) :=
  node ← nodes s !! node_id;
  if node_parent node =? INVALID_PAGE_ID then
    if node_page_id node =? root_page_id_ t then AdjustRoot t s node else None
  else
    let parent_id := node_parent node in
    '(s1, pn) ← fetch s parent_id;
    parent_node ← as_internal pn;
    let mindex := Internal.ValueIndex parent_node (node_page_id node) in
    let msize := node_size node in
    let psize := i_size parent_node in
    let s2 := put s1 parent_id (InternalNode (Internal.SetKeyAt parent_node mindex (node_key_at node 0))) in
    if min_size (node_max_size node) <=? msize then
      if mindex =? 0 then '(t3, s3, _) ← rec t s2 parent_id; Some (t3, s3, false)
      else Some (t, s2, false)
    else
      r1 ← (if mindex <? psize - 1 then try_redistribute t s2 node_id parent_id mindex msize (mindex + 1) 0
            else Some (inr s2));
      match r1 with
      | inl res => Some res
      | inr s3 =>
          r2 ← (if 0 <? mindex then try_redistribute t s3 node_id parent_id mindex msize (mindex - 1) 1
                else Some (inr s3));
          match r2 with
          | inl res => Some res
          | inr s4 =>
              if mindex <? psize - 1 then coalesce_with t s4 node_id parent_id mindex (mindex + 1) 0
              else if 0 <? mindex then coalesce_with t s4 node_id parent_id mindex (mindex - 1) 1
              else None
          end
      end.

End Body.

(** [CoalesceOrRedistribute]: [true] means the page should be deleted. *)
Fixpoint CoalesceOrRedistribute (fuel : nat) t s (node_id : Z) : option (BPlusTree * Store K V * bool) :=
  match fuel with
  | O => None
  | S f => cor_body (CoalesceOrRedistribute f) t s node_id
  end.

(** [Remove]. *)
Definition Remove t s key : option (BPlusTree * Store K V) :=
  if IsEmpty t then Some (t, s) else
  '(s1, found) ← find_leaf (tree_fuel s) s (root_page_id_ t) key;
  match found with
  | None => Some (t, s1)
  | Some (cur, leaf) =>
      let leaf_id := l_page_id leaf in
      match Leaf.Lookup leaf key with
      | None => Some (t, unpin s1 cur)
      | Some _ =>
          let s2 := put s1 cur (LeafNode (fst (Leaf.RemoveAndDeleteRecord leaf key))) in
          '(t3, s3, delete_it) ← CoalesceOrRedistribute (tree_fuel s2) t s2 cur;
          if (delete_it : bool) then Some (t3, fst (delete_page (unpin s3 leaf_id) leaf_id))
          else Some (t3, unpin s3 leaf_id)
      end
  end.

(** The descents of [Begin()], [Begin(key)] and [End()]: the child taken
    at an internal page is [choose] of it. *)
Fixpoint descend (choose : InternalPage K -> Z) (fuel : nat) s (cur : Z) : option (Store K V * Z * LeafPage K V) :=
  match fuel with
  | O => None
  | S f =>
      '(s1, n) ← fetch s cur;
      match n with
      | LeafNode l => Some (s1, cur, l)
      | InternalNode p => descend choose f (unpin s1 (i_page_id p)) (choose p)
      end
  end.

(** [Begin()]: the first pair of the leftmost leaf. *)
Definition Begin t s : option (Store K V * IndexIterator K V) :=
  '(s1, leaf_id, _) ← descend (fun p => Internal.ValueAt p 0) (tree_fuel s) s (root_page_id_ t);
  '(s2, it) ← make_iterator s1 leaf_id 0;
  Some (unpin s2 leaf_id, it).

(** [Begin(key)]: the slot [KeyIndex] gives in the leaf of [key]. *)
Definition BeginAt t s key : option (Store K V * IndexIterator K V) :=
  '(s1, leaf_id, leaf) ← descend (fun p => Internal.Lookup p key) (tree_fuel s) s (root_page_id_ t);
  '(s2, it) ← make_iterator s1 leaf_id (Leaf.KeyIndex leaf key);
  Some (unpin s2 leaf_id, it).

(** [End()]: one step past the last pair of the rightmost leaf. *)
Definition End t s : option (Store K V * IndexIterator K V) :=
  '(s1, leaf_id, leaf) ← descend (fun p => Internal.ValueAt p (i_size p - 1)) (tree_fuel s) s (root_page_id_ t);
  '(s2, it) ← make_iterator s1 leaf_id (l_size leaf - 1);
  next (unpin s2 leaf_id) it.

End Tree.

End BPlusTreeIndex.
