(* ===== verification/BPlusTreeSpec.v ===== *)
(** * What a B+ tree of pages means, and the search of BPlusTree.v

    [subtree m parent pid lo hi h kvs]: in the nodes [m] of the page
    store, page [pid] is the root of a well-formed subtree of height [h]
    whose parent pointer is [parent], whose keys lie in [[lo, hi)] and
    whose leaves hold, left to right, the pairs [kvs].  An internal page
    with live entries [(k0,c0) .. (kn,cn)] routes [[lo, k1)] to [c0],
    [[ki, ki+1)] to [ci] and [[kn, hi)] to [cn]; the key of slot 0 is not
    used.  The invariant reads only the nodes, so the pins that the
    methods move leave it alone.

    On such a tree the descent of [GetValue], [InsertIntoLeaf] and
    [Remove] takes the child [InternalPage::Lookup] gives, reaches the
    leaf whose range holds the key within [height + 1] steps, and the
    height is smaller than the number of pages: the fuel [tree_fuel]
    (pages + 1) is enough, so the loops terminate with a result. *)

From Stdlib Require Import ZArith Lia List.
From stdpp Require Import base list gmap sets.
From S2P Require Import Spec2Rocq KeyComparator TreePage LeafPage InternalPage IndexIterator BPlusTree.
Import ListNotations.
Open Scope Z_scope.

Module BPlusTreeSpec.
Import BPlusTreeIndex.
Module Leaf := BPlusTreeLeafPage.
Module Internal := BPlusTreeInternalPage.

Section Invariant.
Context {K V : Type} `{HK : KeyComparatorLaws K} `{Inhabited K} `{Inhabited V}.
Implicit Types (m : gmap Z (Node K V)) (key : K).

Definition above (lo : option K) (k : K) : Prop := match lo with None => True | Some l => key_cmp l k <= 0 end.
Definition below (hi : option K) (k : K) : Prop := match hi with None => True | Some h => key_cmp k h < 0 end.
Definition upto (hi : option K) (k : K) : Prop := match hi with None => True | Some h => key_cmp k h <= 0 end.
Definition in_range (lo hi : option K) (kv : K * V) : Prop := above lo (fst kv) /\ below hi (fst kv).

Inductive subtree m : Z -> Z -> option K -> option K -> nat -> list (K * V) -> Prop :=
| subtree_leaf parent pid l lo hi :
    m !! pid = Some (LeafNode l) -> pid <> INVALID_PAGE_ID ->
    l_page_id l = pid -> l_parent_page_id l = parent ->
    0 <= l_size l <= Z.of_nat (length (l_array l)) ->
    sorted_pairs (leaf_items l) -> Forall (in_range lo hi) (leaf_items l) ->
    subtree m parent pid lo hi 0 (leaf_items l)
| subtree_internal parent pid p lo hi h kvs :
    m !! pid = Some (InternalNode p) -> pid <> INVALID_PAGE_ID ->
    i_page_id p = pid -> i_parent_page_id p = parent ->
    1 <= i_size p <= Z.of_nat (length (i_array p)) ->
    children m pid lo hi h (internal_items p) kvs ->
    subtree m parent pid lo hi (S h) kvs
with children m : Z -> option K -> option K -> nat -> list (K * Z) -> list (K * V) -> Prop :=
| children_last parent lo hi h k c kvs :
    subtree m parent c lo hi h kvs -> children m parent lo hi h [(k, c)] kvs
| children_cons parent lo hi h k c k' c' rest kvs kvs' :
    subtree m parent c lo (Some k') h kvs -> above lo k' -> upto hi k' ->
    children m parent (Some k') hi h ((k', c') :: rest) kvs' ->
    children m parent lo hi h ((k, c) :: (k', c') :: rest) (kvs ++ kvs').

Scheme subtree_mut := Induction for subtree Sort Prop
  with children_mut := Induction for children Sort Prop.
Combined Scheme subtree_children_mut from subtree_mut, children_mut.

(** A well-formed tree: the root has no parent and no bounds. *)
Definition tree_ok (t : BPlusTree) (s : Store K V) (h : nat) (kvs : list (K * V)) : Prop :=
  subtree (nodes s) INVALID_PAGE_ID (root_page_id_ t) None None h kvs.

(** ** Ranges *)

Lemma above_le lo k x : above lo k -> key_cmp k x <= 0 -> above lo x.
Proof. destruct lo as [l|]; cbn; [apply cmp_trans|trivial]. Qed.

Lemma below_upto hi k x : upto hi k -> key_cmp x k < 0 -> below hi x.
Proof. destruct hi as [u|]; cbn; [intros; eapply cmp_lt_le_trans; eassumption|trivial]. Qed.

Lemma subtree_children_range m :
  (forall parent pid lo hi h kvs, subtree m parent pid lo hi h kvs -> Forall (in_range lo hi) kvs) /\
  (forall parent lo hi h items kvs, children m parent lo hi h items kvs -> Forall (in_range lo hi) kvs).
Proof.
  apply subtree_children_mut; auto.
  intros parent lo hi h k c k' c' rest kvs kvs' _ IH1 Hlo Hhi _ IH2. apply Forall_app. split.
  - eapply Forall_impl; [exact IH1|]. intros [x v] [Ha Hb]. split; [exact Ha|].
    exact (below_upto _ _ _ Hhi Hb).
  - eapply Forall_impl; [exact IH2|]. intros [x v] [Ha Hb]. split; [|exact Hb].
    exact (above_le _ _ _ Hlo Ha).
Qed.

Lemma subtree_range m parent pid lo hi h kvs :
  subtree m parent pid lo hi h kvs -> Forall (in_range lo hi) kvs.
Proof. apply subtree_children_range. Qed.

Lemma children_range m parent lo hi h items kvs :
  children m parent lo hi h items kvs -> Forall (in_range lo hi) kvs.
Proof. apply subtree_children_range. Qed.

(** A key outside the range of a list of pairs is not in it. *)
Lemma lookup_key_below lo k' kvs key :
  Forall (in_range lo (Some k')) kvs -> key_cmp k' key <= 0 -> lookup_key key kvs = None.
Proof.
  intros Hall Hk. apply lookup_key_None. eapply Forall_impl; [exact Hall|].
  intros [x v] [_ Hb] E. cbn in *. apply cmp_eq in E. subst x. apply cmp_flip_lt in Hb. lia.
Qed.

Lemma lookup_key_above k' hi kvs key :
  Forall (in_range (Some k') hi) kvs -> key_cmp key k' < 0 -> lookup_key key kvs = None.
Proof.
  intros Hall Hk. apply lookup_key_None. eapply Forall_impl; [exact Hall|].
  intros [x v] [Ha _] E. cbn in *. apply cmp_eq in E. subst x. apply cmp_flip_lt in Hk. lia.
Qed.

(** ** Routing *)

(** [InternalPage::Lookup] on the entries of a well-formed page picks the
    child whose range holds the key, and that child holds every pair of
    the key the page holds. *)
Lemma children_route m parent lo hi h items kvs key :
  children m parent lo hi h items kvs -> above lo key -> below hi key ->
  exists c lo' hi' kvs_c, Internal.child_for key items = c /\ subtree m parent c lo' hi' h kvs_c /\
    above lo' key /\ below hi' key /\ lookup_key key kvs = lookup_key key kvs_c.
Proof.
  induction 1 as [parent lo hi h k c kvs Hc|parent lo hi h k c k' c' rest kvs kvs' Hc Hlo Hhi Hrest IH];
    intros Ha Hb.
  - exists c, lo, hi, kvs. auto.
  - cbn [Internal.child_for Internal.route fst snd]. rewrite lookup_key_app.
    destruct (Z.ltb_spec (key_cmp key k') 0) as [Hlt|Hge].
    + exists c, lo, (Some k'), kvs. repeat split; auto.
      destruct (lookup_key key kvs); [reflexivity|].
      exact (lookup_key_above _ _ _ _ (children_range _ _ _ _ _ _ _ Hrest) Hlt).
    + assert (Hk : key_cmp k' key <= 0) by (apply cmp_flip_ge; lia).
      destruct (IH Hk Hb) as (c1 & lo1 & hi1 & kvs1 & Hr & Hs & Ha1 & Hb1 & Hl).
      exists c1, lo1, hi1, kvs1. repeat split; auto.
      rewrite (lookup_key_below _ _ _ _ (subtree_range _ _ _ _ _ _ _ Hc) Hk). exact Hl.
Qed.

Lemma subtree_present m parent pid lo hi h kvs : subtree m parent pid lo hi h kvs -> is_Some (m !! pid).
Proof. destruct 1; eauto. Qed.

Lemma subtree_valid m parent pid lo hi h kvs : subtree m parent pid lo hi h kvs -> pid <> INVALID_PAGE_ID.
Proof. destruct 1; assumption. Qed.

Lemma subtree_leaf_inv m parent pid lo hi kvs l :
  subtree m parent pid lo hi 0 kvs -> m !! pid = Some (LeafNode l) ->
  kvs = leaf_items l /\ l_page_id l = pid /\ l_parent_page_id l = parent /\
  0 <= l_size l <= Z.of_nat (length (l_array l)) /\ sorted_pairs (leaf_items l) /\
  Forall (in_range lo hi) (leaf_items l).
Proof. inversion 1; subst. intros E. rewrite E in *. match goal with Hm : Some _ = Some _ |- _ => injection Hm as <- end. auto 7. Qed.

Lemma children_head m parent lo hi h k c rest kvs :
  children m parent lo hi h ((k, c) :: rest) kvs -> exists lo' hi' kvs', subtree m parent c lo' hi' h kvs'.
Proof. inversion 1; subst; eauto. Qed.

(** ** Heights and the fuel *)

(** A page has one height: its first child has the height below. *)
Lemma subtree_height_unique m h1 : forall parent pid lo hi kvs h2 parent' lo' hi' kvs',
  subtree m parent pid lo hi h1 kvs -> subtree m parent' pid lo' hi' h2 kvs' -> h1 = h2.
Proof.
  induction h1 as [|h1 IH]; intros parent pid lo hi kvs h2 parent' lo' hi' kvs' Hs1 Hs2;
    inversion Hs1; subst; inversion Hs2; subst; try congruence.
  match goal with E1 : m !! ?x = Some (InternalNode ?p), E2 : m !! ?x = Some (InternalNode ?q) |- _ =>
    rewrite E1 in E2; injection E2 as <- end.
  match goal with C1 : children _ _ _ _ h1 _ _, C2 : children _ _ _ _ ?h _ _ |- _ =>
    destruct (internal_items p) as [|[k c] rest]; [inversion C1|];
    destruct (children_head _ _ _ _ _ _ _ _ _ C1) as (? & ? & ? & S1);
    destruct (children_head _ _ _ _ _ _ _ _ _ C2) as (? & ? & ? & S2) end.
  f_equal. exact (IH _ _ _ _ _ _ _ _ _ _ S1 S2).
Qed.

(** The leftmost path from a page of height [h] has [h + 1] distinct
    pages of the store. *)
Lemma subtree_pages m h : forall parent pid lo hi kvs, subtree m parent pid lo hi h kvs ->
  exists l, length l = S h /\ NoDup l /\
    Forall (fun q => exists h' par lo' hi' kvs', (h' <= h)%nat /\ subtree m par q lo' hi' h' kvs') l.
Proof.
  induction h as [|h IH]; intros parent pid lo hi kvs Hs.
  - exists [pid]. split; [reflexivity|]. split; [apply NoDup_singleton|]. repeat constructor. eauto 7.
  - inversion Hs as [|? ? pg ? ? ? ? Hm Hinv Hid Hpar Hsz C]; subst.
    destruct (internal_items pg) as [|[k c] rest]; [inversion C|].
    destruct (children_head _ _ _ _ _ _ _ _ _ C) as (lo1 & hi1 & kvs1 & Hc).
    destruct (IH _ _ _ _ _ Hc) as (l & Hlen & Hnd & Hall).
    exists (i_page_id pg :: l). split; [cbn; lia|]. split.
    + constructor; [|exact Hnd]. intros Hin. rewrite Forall_forall in Hall.
      destruct (Hall _ Hin) as (h' & par & lo' & hi' & kvs' & Hle & Hs').
      pose proof (subtree_height_unique _ _ _ _ _ _ _ _ _ _ _ _ Hs Hs'). lia.
    + constructor; [eauto 7|]. eapply Forall_impl; [exact Hall|].
      intros q (h' & par & lo' & hi' & kvs' & Hle & Hq). exists h', par, lo', hi', kvs'. split; [lia|exact Hq].
Qed.

(** The height of a subtree is smaller than the number of pages. *)
Lemma subtree_height_lt m parent pid lo hi h kvs : subtree m parent pid lo hi h kvs -> (h < size m)%nat.
Proof.
  intros Hs. destruct (subtree_pages _ _ _ _ _ _ _ Hs) as (l & Hlen & Hnd & Hall).
  assert (Hsub : list_to_set l ⊆@{gset Z} dom m).
  { intros q Hq. apply elem_of_list_to_set in Hq. rewrite Forall_forall in Hall.
    destruct (Hall _ Hq) as (? & ? & ? & ? & ? & _ & Hq'). apply elem_of_dom. exact (subtree_present _ _ _ _ _ _ _ Hq'). }
  apply subseteq_size in Hsub. rewrite size_list_to_set, size_dom in Hsub by exact Hnd. lia.
Qed.

(** ** The descents *)

(** The loop of [GetValue] finds in the leaf of the key what the subtree
    holds for it, and leaves nodes and pins as they were. *)
Lemma get_value_loop_spec h : forall fuel s parent pid lo hi kvs key,
  subtree (nodes s) parent pid lo hi h kvs -> above lo key -> below hi key -> (h < fuel)%nat -> pins_nonneg s ->
  exists s', get_value_loop fuel s pid key = Some (s', lookup_key key kvs) /\ nodes s' = nodes s /\
    forall q, pin_of s' q = pin_of s q.
Proof.
  induction h as [|h IH]; intros [|fuel] s parent pid lo hi kvs key Hs Ha Hb Hf Hnn; try lia; cbn [get_value_loop].
  - inversion Hs as [? ? l ? ? Hm Hinv Hid Hpar Hsz Hsort Hr|]; subst.
    rewrite (proj2 (Z.eqb_neq _ _)) by assumption.
    destruct (fetch_present _ _ _ Hm) as (s1 & Hfe & Hn1 & _ & _). rewrite Hfe.
    eexists. split; [rewrite Leaf.Lookup_pairs by assumption; reflexivity|]. rewrite nodes_unpin.
    split; [exact Hn1|]. intros q. exact (fetch_unpin_pins _ _ _ _ q Hnn Hfe).
  - inversion Hs as [|? ? pg ? ? ? ? Hm Hinv Hid Hpar Hsz C]; subst.
    rewrite (proj2 (Z.eqb_neq _ _)) by assumption.
    destruct (fetch_present _ _ _ Hm) as (s1 & Hfe & Hn1 & _ & _). rewrite Hfe.
    rewrite Internal.Lookup_items by assumption.
    destruct (children_route _ _ _ _ _ _ _ key C Ha Hb) as (c & lo' & hi' & kvs_c & -> & Hc & Ha' & Hb' & ->).
    rewrite <- Hn1, <- (nodes_unpin s1 (i_page_id pg)) in Hc.
    destruct (IH fuel _ _ _ _ _ _ key Hc Ha' Hb' ltac:(lia)
                (pins_nonneg_same _ _ (fun q => fetch_unpin_pins _ _ _ _ q Hnn Hfe) Hnn)) as (s' & -> & Hn' & Hp').
    exists s'. split; [reflexivity|]. rewrite Hn', nodes_unpin. split; [exact Hn1|].
    intros q. rewrite Hp'. exact (fetch_unpin_pins _ _ _ _ q Hnn Hfe).
Qed.

(** The descent of [InsertIntoLeaf] and [Remove] stops at the leaf whose
    range holds the key, pinned once more; the pages it passed are
    unpinned again. *)
Lemma find_leaf_spec h : forall fuel s parent pid lo hi kvs key,
  subtree (nodes s) parent pid lo hi h kvs -> above lo key -> below hi key -> (h < fuel)%nat -> pins_nonneg s ->
  exists s' leaf_id l par lo' hi', find_leaf fuel s pid key = Some (s', Some (leaf_id, l)) /\
    nodes s !! leaf_id = Some (LeafNode l) /\
    subtree (nodes s) par leaf_id lo' hi' 0 (leaf_items l) /\ above lo' key /\ below hi' key /\
    lookup_key key kvs = lookup_key key (leaf_items l) /\ nodes s' = nodes s /\
    forall q, pin_of s' q = pin_of s q + (if decide (q = leaf_id) then 1 else 0).
Proof.
  induction h as [|h IH]; intros [|fuel] s parent pid lo hi kvs key Hs Ha Hb Hf Hnn; try lia; cbn [find_leaf].
  - inversion Hs as [? ? l ? ? Hm Hinv Hid Hpar Hsz Hsort Hr|]; subst.
    destruct (fetch_present _ _ _ Hm) as (s1 & Hfe & Hn1 & _ & _). rewrite Hfe.
    do 7 eexists; [reflexivity|]. split; [exact Hm|]. split; [exact Hs|]. do 3 (split; [assumption || reflexivity|]).
    split; [exact Hn1|]. intros q. exact (pin_of_fetch _ _ _ _ q Hfe).
  - inversion Hs as [|? ? pg ? ? ? ? Hm Hinv Hid Hpar Hsz C]; subst.
    destruct (fetch_present _ _ _ Hm) as (s1 & Hfe & Hn1 & _ & _). rewrite Hfe.
    rewrite Internal.Lookup_items by assumption.
    destruct (children_route _ _ _ _ _ _ _ key C Ha Hb) as (c & lo' & hi' & kvs_c & -> & Hc & Ha' & Hb' & ->).
    rewrite <- Hn1, <- (nodes_unpin s1 (i_page_id pg)) in Hc.
    destruct (IH fuel _ _ _ _ _ _ key Hc Ha' Hb' ltac:(lia)
                (pins_nonneg_same _ _ (fun q => fetch_unpin_pins _ _ _ _ q Hnn Hfe) Hnn))
      as (s' & leaf_id & l & par & lo2 & hi2 & -> & Hml & Hl & Ha2 & Hb2 & Hk & Hn' & Hp').
    rewrite nodes_unpin, Hn1 in Hml, Hl, Hn'.
    exists s', leaf_id, l, par, lo2, hi2. repeat split; try assumption.
    intros q. rewrite Hp', (fetch_unpin_pins _ _ _ _ q Hnn Hfe). reflexivity.
Qed.

(** ** An executable check of the invariant *)

Definition aboveb (lo : option K) (k : K) : bool := match lo with None => true | Some l => key_cmp l k <=? 0 end.
Definition belowb (hi : option K) (k : K) : bool := match hi with None => true | Some u => key_cmp k u <? 0 end.
Definition uptob (hi : option K) (k : K) : bool := match hi with None => true | Some u => key_cmp k u <=? 0 end.

(** The check of the children of an internal page, given the check
    [chk] of a subtree. *)
Definition check_children (chk : Z -> Z -> option K -> option K -> option (nat * list (K * V)))
    (parent : Z) (hi : option K) : option K -> list (K * Z) -> option (nat * list (K * V)) :=
  fix go (lo : option K) (items : list (K * Z)) : option (nat * list (K * V)) :=
    match items with
    | [] => None
    | [(_, c)] => chk parent c lo hi
    | (_, c) :: ((k', _) :: _) as rest =>
        if aboveb lo k' && uptob hi k' then
          '(h1, kvs1) ← chk parent c lo (Some k');
          '(h2, kvs2) ← go (Some k') rest;
          if Nat.eqb h1 h2 then Some (h1, kvs1 ++ kvs2) else None
        else None
    end.

(** The height and the pairs of the subtree at [pid], when it is one. *)
Fixpoint check_subtree (fuel : nat) m (parent pid : Z) (lo hi : option K) : option (nat * list (K * V)) :=
  match fuel with
  | O => None
  | S f =>
      if pid =? INVALID_PAGE_ID then None else
      match m !! pid with
      | Some (LeafNode l) =>
          if (l_page_id l =? pid) && (l_parent_page_id l =? parent) && (0 <=? l_size l)
             && (l_size l <=? Z.of_nat (length (l_array l))) && key_sorted (map fst (leaf_items l))
             && forallb (fun kv => aboveb lo (fst kv) && belowb hi (fst kv)) (leaf_items l)
          then Some (O, leaf_items l) else None
      | Some (InternalNode p) =>
          if (i_page_id p =? pid) && (i_parent_page_id p =? parent) && (1 <=? i_size p)
             && (i_size p <=? Z.of_nat (length (i_array p)))
          then check_children (check_subtree f m) pid hi lo (internal_items p) ≫= fun '(h, kvs) => Some (S h, kvs)
          else None
      | None => None
      end
  end.

Definition check_tree (t : BPlusTree) (s : Store K V) : option (nat * list (K * V)) :=
  check_subtree (tree_fuel s) (nodes s) INVALID_PAGE_ID (root_page_id_ t) None None.

Lemma aboveb_above lo k : aboveb lo k = true -> above lo k.
Proof. destruct lo; cbn; [lia|trivial]. Qed.
Lemma belowb_below hi k : belowb hi k = true -> below hi k.
Proof. destruct hi; cbn; [lia|trivial]. Qed.
Lemma uptob_upto hi k : uptob hi k = true -> upto hi k.
Proof. destruct hi; cbn; [lia|trivial]. Qed.

Lemma check_children_cons chk parent hi lo k c k' c' rest :
  check_children chk parent hi lo ((k, c) :: (k', c') :: rest) =
  if aboveb lo k' && uptob hi k' then
    '(h1, kvs1) ← chk parent c lo (Some k');
    '(h2, kvs2) ← check_children chk parent hi (Some k') ((k', c') :: rest);
    if Nat.eqb h1 h2 then Some (h1, kvs1 ++ kvs2) else None
  else None.
Proof. reflexivity. Qed.

Lemma check_children_sound m chk parent hi :
  (forall c lo' hi' h kvs, chk parent c lo' hi' = Some (h, kvs) -> subtree m parent c lo' hi' h kvs) ->
  forall items lo h kvs, check_children chk parent hi lo items = Some (h, kvs) -> children m parent lo hi h items kvs.
Proof.
  intros Hchk items. induction items as [|[k c] items IH]; intros lo h kvs E; [discriminate|].
  destruct items as [|[k' c'] rest]; [constructor; exact (Hchk _ _ _ _ _ E)|].
  rewrite check_children_cons in E. destruct (aboveb lo k' && uptob hi k') eqn:Eb; [|discriminate].
  apply andb_prop in Eb as [Ea Eu].
  apply bind_Some in E as ([h1 kvs1] & E1 & E). cbv beta iota in E.
  apply bind_Some in E as ([h2 kvs2] & E2 & E). cbv beta iota in E.
  destruct (Nat.eqb_spec h1 h2) as [<-|]; [|discriminate]. injection E as <- <-.
  apply children_cons; [exact (Hchk _ _ _ _ _ E1)|apply aboveb_above, Ea|apply uptob_upto, Eu|exact (IH _ _ _ E2)].
Qed.

(** The check is sound: what it accepts is a subtree. *)
Lemma check_subtree_sound fuel : forall m parent pid lo hi h kvs,
  check_subtree fuel m parent pid lo hi = Some (h, kvs) -> subtree m parent pid lo hi h kvs.
Proof.
  induction fuel as [|f IH]; intros m parent pid lo hi h kvs E; [discriminate|]. cbn [check_subtree] in E.
  destruct (Z.eqb_spec pid INVALID_PAGE_ID) as [|Hinv]; [discriminate|].
  destruct (m !! pid) as [[l|p]|] eqn:Hm; [| |discriminate].
  - repeat match type of E with context [if ?b then _ else _] =>
      let Eb := fresh "Eb" in destruct b eqn:Eb; [|discriminate] end.
    injection E as <- <-. repeat rewrite andb_true_iff in *. destruct_and!. zbool.
    apply subtree_leaf; try assumption; [lia|]. apply Forall_forall. intros kv Hin%list_elem_of_In.
    match goal with Hf : forallb _ _ = true |- _ =>
      rewrite forallb_forall in Hf; specialize (Hf kv Hin); apply andb_prop in Hf as [? ?] end.
    split; [apply aboveb_above|apply belowb_below]; assumption.
  - destruct ((i_page_id p =? pid) && (i_parent_page_id p =? parent) && (1 <=? i_size p)
              && (i_size p <=? Z.of_nat (length (i_array p)))) eqn:Eb; [|discriminate].
    repeat rewrite andb_true_iff in Eb. destruct_and!. zbool.
    destruct (check_children (check_subtree f m) pid hi lo (internal_items p)) as [[h1 kvs1]|] eqn:Ec;
      [|discriminate]. cbn in E. injection E as <- <-.
    econstructor; try eassumption; [lia|].
    exact (check_children_sound m _ pid hi (fun c lo' hi' h' kvs' => IH m pid c lo' hi' h' kvs') _ _ _ _ Ec).
Qed.

Lemma check_tree_sound t s h kvs : check_tree t s = Some (h, kvs) -> tree_ok t s h kvs.
Proof. apply check_subtree_sound. Qed.

End Invariant.

(** ** Search and the first insertion *)

Section Claims.
Context {K V : Type} `{HK : KeyComparatorLaws K} `{Inhabited K} `{Inhabited V} `{EqDecision V}.
Context (leaf_slots internal_slots : nat).
Implicit Types (t : BPlusTree) (s : Store K V) (key : K) (value : V).

(** C8: On a well-formed tree of height [h] holding the pairs [kvs],
    [GetValue] returns (with the fuel of the model, the number of pages
    plus one) the value [kvs] holds for the key, and it leaves the nodes
    and every pin count as they were: each page it fetches it unpins. *)
Theorem GetValue_spec t s h kvs key :
  tree_ok t s h kvs -> pins_nonneg s ->
  exists s', GetValue t s key = Some (s', lookup_key key kvs) /\ nodes s' = nodes s /\
    forall q, pin_of s' q = pin_of s q.
Proof.
  intros Hok Hnn. unfold GetValue.
  exact (get_value_loop_spec h (tree_fuel s) s _ _ _ _ kvs key Hok I I
           (Nat.lt_lt_succ_r _ _ (subtree_height_lt _ _ _ _ _ _ _ Hok)) Hnn).
Qed.

(** C9: The descent loop of [InsertIntoLeaf] and [Remove] terminates on
    a well-formed tree within the fuel of the model (pages + 1): it ends at
    a leaf of the tree whose key range holds the key and which holds every
    pair of the key the tree holds; that leaf is left pinned once more and
    every other pin is as before. *)
Theorem find_leaf_terminates t s h kvs key :
  tree_ok t s h kvs -> pins_nonneg s ->
  exists s' leaf_id l par lo hi, find_leaf (tree_fuel s) s (root_page_id_ t) key = Some (s', Some (leaf_id, l)) /\
    nodes s !! leaf_id = Some (LeafNode l) /\ subtree (nodes s) par leaf_id lo hi 0 (leaf_items l) /\ above lo key /\ below hi key /\
    lookup_key key kvs = lookup_key key (leaf_items l) /\ nodes s' = nodes s /\
    forall q, pin_of s' q = pin_of s q + (if decide (q = leaf_id) then 1 else 0).
Proof.
  intros Hok Hnn.
  exact (find_leaf_spec h (tree_fuel s) s _ _ _ _ kvs key Hok I I
           (Nat.lt_lt_succ_r _ _ (subtree_height_lt _ _ _ _ _ _ _ Hok)) Hnn).
Qed.

(** The nodes after [StartNewTree]: the new leaf at the next page id. *)
Lemma StartNewTree_nodes t s key value :
  let '(t', s') := StartNewTree leaf_slots t s key value in
  root_page_id_ t' = next_page s /\ index_id_ t' = index_id_ t /\
  roots s' !! index_id_ t = Some (next_page s) /\
  nodes s' = <[next_page s := LeafNode (fst (Leaf.Insert (Leaf.Init (replicate leaf_slots inhabitant)
                 (next_page s) INVALID_PAGE_ID (leaf_max_size_ t)) key value))]> (nodes s).
Proof.
  unfold StartNewTree, new_page, UpdateRootPageId, set_root. cbn.
  rewrite lookup_insert_eq, nodes_unpin. repeat split.
Qed.

(** [Insert] into an empty tree ([StartNewTree]) takes the next page
    for a leaf holding just the pair, makes it the root, records it in the
    index roots page and returns [true]; the result is a well-formed tree
    of height 0 holding [[(key, value)]]. *)
Theorem Insert_empty_spec t s key value :
  IsEmpty t = true -> (1 <= leaf_slots)%nat -> next_page s <> INVALID_PAGE_ID ->
  exists t' s', Insert leaf_slots internal_slots t s key value = Some (t', s', true) /\
    tree_ok t' s' 0 [(key, value)] /\ roots s' !! index_id_ t = Some (root_page_id_ t') /\
    root_page_id_ t' <> INVALID_PAGE_ID.
Proof.
  intros Hempty Hslots Hnext. unfold Insert. rewrite Hempty.
  pose proof (StartNewTree_nodes t s key value) as Hn.
  destruct (StartNewTree leaf_slots t s key value) as [t' s'] eqn:E. destruct Hn as (Hr & Hi & Hroots & Hn).
  set (p := Leaf.Init (replicate leaf_slots inhabitant) (next_page s) INVALID_PAGE_ID (leaf_max_size_ t)) in Hn.
  assert (Hp : 0 <= l_size p < Z.of_nat (length (l_array p))) by (cbn; rewrite length_replicate; lia).
  pose proof (Leaf.Insert_items p key value Hp eq_refl) as HI.
  destruct (Leaf.Insert p key value) as [p' n] eqn:Ep. destruct HI as (-> & Hsz & Hitems & Hlen & Hhd).
  cbn [fst] in Hn. injection Hhd as Hid Hpar _ _.
  exists t', s'. split; [reflexivity|]. split; [|rewrite Hr; split; assumption].
  unfold tree_ok. rewrite Hr, Hn. replace [(key, value)] with (leaf_items p') by exact Hitems.
  apply subtree_leaf; [apply lookup_insert_eq|exact Hnext|exact Hid|exact Hpar| |rewrite Hitems; reflexivity|].
  - rewrite Hsz, Hlen. cbn in *. lia.
  - rewrite Hitems. repeat constructor.
Qed.

(** C10: The pin leak of [CoalesceOrRedistribute]: when [Remove] takes a
    key out of a leaf that is not its parent's first child and that keeps
    at least the minimum size, the parent page is fetched (to refresh the
    leaf's key in it) and never unpinned.  The removal leaves the parent
    pinned once more than before; every other pin is as before. *)
Theorem Remove_leaks_parent_pin t s h kvs key s1 leaf_id l parent_id p :
  tree_ok t s h kvs -> pins_nonneg s ->
  find_leaf (tree_fuel s) s (root_page_id_ t) key = Some (s1, Some (leaf_id, l)) ->
  l_parent_page_id l = parent_id -> parent_id <> INVALID_PAGE_ID -> nodes s !! parent_id = Some (InternalNode p) ->
  Internal.ValueIndex p leaf_id <> 0 -> is_Some (lookup_key key (leaf_items l)) ->
  min_size (l_max_size l) <= l_size l - 1 ->
  exists s', Remove t s key = Some (t, s') /\ pin_of s' parent_id = pin_of s parent_id + 1 /\
    forall q, q <> parent_id -> pin_of s' q = pin_of s q.
Proof.
  intros Hok Hnn Hf Hpar Hpv Hp Hidx [v Hv] Hmin.
  destruct (find_leaf_spec h (tree_fuel s) s _ _ _ _ kvs key Hok I I
             (Nat.lt_lt_succ_r _ _ (subtree_height_lt _ _ _ _ _ _ _ Hok)) Hnn) as (s1' & leaf_id' & l' & par & lo & hi & Hf' & Hml & Hsub & _ & _ & _ & Hn1 & Hp1).
  rewrite Hf in Hf'. injection Hf' as <- <- <-.
  destruct (subtree_leaf_inv _ _ _ _ _ _ _ Hsub Hml) as (_ & Hid & Hpar' & Hsz & Hsort & _).
  pose proof (Leaf.RemoveAndDeleteRecord_items l key Hsz Hsort) as HR.
  destruct (Leaf.RemoveAndDeleteRecord l key) as [l2 n] eqn:ER. rewrite Hv in HR.
  destruct HR as (_ & Hsz2 & Hn & _ & Hhd). injection Hhd as Hid2 Hpar2 Hmax2 _.
  assert (Hne : parent_id <> leaf_id) by (intros E; rewrite E, Hml in Hp; discriminate).
  unfold Remove, IsEmpty. rewrite (proj2 (Z.eqb_neq _ _) (subtree_valid _ _ _ _ _ _ _ Hok)), Hf. cbn [mbind option_bind].
  rewrite Leaf.Lookup_pairs, Hv by assumption. rewrite ER, Hid. cbn [fst].
  unfold tree_fuel. cbn [CoalesceOrRedistribute]. unfold cor_body.
  rewrite nodes_put, lookup_insert_eq. cbn [mbind option_bind node_parent node_page_id node_size node_max_size node_key_at].
  rewrite Hpar2, Hpar, (proj2 (Z.eqb_neq _ _) Hpv).
  destruct (fetch_present (put s1 leaf_id (LeafNode l2)) parent_id (InternalNode p)) as (s3 & Hfe & _ & _ & _).
  { rewrite nodes_put, lookup_insert_ne, Hn1 by congruence. exact Hp. }
  rewrite Hfe. cbn [mbind option_bind as_internal]. rewrite Hid2, Hid, Hmax2, (proj2 (Z.leb_le _ _)) by lia.
  rewrite (proj2 (Z.eqb_neq _ _) Hidx). cbn [mbind option_bind].
  eexists. split; [reflexivity|].
  assert (Hpins : forall q, pin_of (unpin (put s3 parent_id (InternalNode (Internal.SetKeyAt p (Internal.ValueIndex p leaf_id) (Leaf.KeyAt l2 0)))) leaf_id) q =
                            pin_of s q + (if decide (q = parent_id) then 1 else 0)).
  { intros q. rewrite pin_of_unpin, !pin_of_put, (pin_of_fetch _ _ _ _ q Hfe), pin_of_put, Hp1.
    - destruct (decide (q = leaf_id)) as [->|]; [rewrite decide_False by congruence|]; lia.
    - rewrite pin_of_put, (pin_of_fetch _ _ _ _ _ Hfe), pin_of_put, Hp1, decide_True by reflexivity.
      specialize (Hnn leaf_id). destruct (decide _); lia. }
  split; [rewrite Hpins, decide_True by reflexivity; reflexivity|].
  intros q Hq. rewrite Hpins, decide_False by exact Hq. lia.
Qed.

(** The root leaf of a tree of height 0. *)
Lemma tree_ok_leaf t s kvs :
  tree_ok t s 0 kvs -> exists l, nodes s !! root_page_id_ t = Some (LeafNode l) /\ kvs = leaf_items l /\
    l_page_id l = root_page_id_ t /\ l_parent_page_id l = INVALID_PAGE_ID /\
    0 <= l_size l <= Z.of_nat (length (l_array l)) /\ sorted_pairs (leaf_items l).
Proof. intros Hok. inversion Hok; subst. eexists. split; [eassumption|]. split; [reflexivity|]. tauto. Qed.

(** Removing the only key of a tree (a root leaf holding one pair)
    empties the tree: the root page id becomes INVALID_PAGE_ID, the index
    roots page records it, and the old root page is deleted when nothing
    else holds a pin on it. *)
Theorem Remove_last_key t s key v :
  tree_ok t s 0 [(key, v)] -> pins_nonneg s ->
  exists t' s', Remove t s key = Some (t', s') /\ IsEmpty t' = true /\
    roots s' !! index_id_ t = Some INVALID_PAGE_ID /\
    (pin_of s (root_page_id_ t) = 0 -> nodes s' !! root_page_id_ t = None).
Proof.
  intros Hok Hnn.
  destruct (find_leaf_spec 0 (tree_fuel s) s _ _ _ _ _ key Hok I I ltac:(unfold tree_fuel; lia) Hnn)
    as (s1 & leaf_id & l & par & lo & hi & Hf & Hml & Hsub & _ & _ & Hk & Hn1 & Hp1).
  destruct (tree_ok_leaf _ _ _ Hok) as (l0 & Hm0 & Hkvs & Hid0 & Hpar0 & _).
  assert (Eleaf : leaf_id = root_page_id_ t /\ l = l0).
  { unfold tree_fuel in Hf. cbn [find_leaf] in Hf. destruct (fetch_present _ _ _ Hm0) as (s0 & Hfe & _).
    rewrite Hfe in Hf. injection Hf as _ <- <-. auto. }
  destruct Eleaf as [-> ->].
  assert (Hv : lookup_key key (leaf_items l0) = Some v) by (rewrite <- Hkvs; cbn [lookup_key]; rewrite cmp_refl; reflexivity).
  destruct (subtree_leaf_inv _ _ _ _ _ _ _ Hsub Hml) as (_ & _ & _ & Hsz & Hsort & _).
  pose proof (Leaf.RemoveAndDeleteRecord_items l0 key Hsz Hsort) as HR.
  destruct (Leaf.RemoveAndDeleteRecord l0 key) as [l2 n] eqn:ER. rewrite Hv in HR.
  destruct HR as (_ & Hsz2 & Hn & _ & Hhd). injection Hhd as Hid2 Hpar2 _ _.
  assert (Hsize : l_size l0 = 1).
  { pose proof (length_leaf_items l0 ltac:(lia) ltac:(lia)) as E. rewrite <- Hkvs in E. cbn in E. lia. }
  unfold Remove, IsEmpty. rewrite (proj2 (Z.eqb_neq _ _) (subtree_valid _ _ _ _ _ _ _ Hok)), Hf.
  cbn [mbind option_bind]. rewrite Leaf.Lookup_pairs, Hv by assumption. rewrite ER, Hid0. cbn [fst].
  unfold tree_fuel. cbn [CoalesceOrRedistribute]. unfold cor_body.
  rewrite nodes_put, lookup_insert_eq. cbn [mbind option_bind node_parent node_page_id].
  rewrite Hpar2, Hpar0, Z.eqb_refl, Hid2, Hid0, Z.eqb_refl. cbn [AdjustRoot].
  rewrite Hsz2, Hn, Hsize, Z.sub_diag. cbn [Z.eqb mbind option_bind].
  eexists _, _. split; [reflexivity|]. split; [reflexivity|]. split.
  - rewrite roots_delete_page, roots_unpin. apply lookup_insert_eq.
  - intros Hp0. rewrite nodes_delete_page; [apply lookup_delete_eq|].
    unfold UpdateRootPageId. assert (Hp2 := Hp1 (root_page_id_ t)). rewrite decide_True in Hp2 by reflexivity.
    rewrite pin_of_unpin; rewrite pin_of_set_root, pin_of_put, Hp2, ?decide_True by reflexivity; lia.
Qed.

End Claims.

(** ** The repository's test (test/index/b_plus_tree_test.cpp)

    [SampleTest] builds a tree of [int] keys with leaf and internal
    maximum size 4 (the slots of a page are more than 5, as LEAF_PAGE_SIZE
    is), inserts the keys [0 .. n-1] with themselves as values, asserts
    [Check()], reads every key back, removes them all in order and asserts
    that none is found any more. *)

Section SampleTest.

Definition test_slots : nat := 6.

Definition insert_keys (ks : list Z) (t : BPlusTree) (s : Store Z Z) : option (BPlusTree * Store Z Z) :=
  fold_left (fun acc k => '(t, s) ← acc; '(t', s', _) ← Insert test_slots test_slots t s k k; Some (t', s'))
    ks (Some (t, s)).

Definition remove_keys (ks : list Z) (t : BPlusTree) (s : Store Z Z) : option (BPlusTree * Store Z Z) :=
  fold_left (fun acc k => '(t, s) ← acc; Remove t s k) ks (Some (t, s)).

Definition found (t : BPlusTree) (s : Store Z Z) (k : Z) : bool :=
  match GetValue t s k with Some (_, Some v) => v =? k | _ => false end.
Definition missing (t : BPlusTree) (s : Store Z Z) (k : Z) : bool :=
  match GetValue t s k with Some (_, None) => true | _ => false end.

(** The test with [n] keys: whether its assertions hold, and what
    [Check()] would say after the removals (the test does not ask). *)
Definition sample_test (n : nat) : option (bool * bool) :=
  let ks := map Z.of_nat (seq 0 n) in
  let '(t0, s0) := create (mkStore ∅ ∅ 0 ∅ : Store Z Z) 0 4 4 in
  '(t1, s1) ← insert_keys ks t0 s0;
  '(t2, s2) ← remove_keys ks t1 s1;
  Some (Check s1 && forallb (found t1 s1) ks && forallb (missing t2 s2) ks && IsEmpty t2, Check s2).

(** The repository's B+ tree test, run on the model with its 3000
    keys: every assertion holds (all pages unpinned after the inserts,
    every key found with its value, no key found after the removals, the
    tree empty), but [Check()] after the removals would fail: the removals
    leave pages pinned. *)
Example SampleTest_model : sample_test 3000 = Some (true, false).
Proof. vm_compute. reflexivity. Qed.

End SampleTest.


(** ** Witnesses *)

Section Witnesses.

Definition wstart : BPlusTree * Store Z Z := create (mkStore ∅ ∅ 0 ∅) 0 4 4.
(** The keys [0 .. 9]: a root (page 2) over three leaves. *)
Definition wten : BPlusTree * Store Z Z :=
  default wstart (insert_keys (map Z.of_nat (seq 0 10)) (fst wstart) (snd wstart)).
Definition wkvs : list (Z * Z) := map (fun k => (k, k)) (map Z.of_nat (seq 0 10)).
Definition wone : BPlusTree * Store Z Z := default wstart (insert_keys [5] (fst wstart) (snd wstart)).
(** The leaf of key 9 as the descent leaves it, and the root page. *)
Definition wleak : Store Z Z * Z * LeafPage Z Z :=
  match find_leaf (tree_fuel (snd wten)) (snd wten) (root_page_id_ (fst wten)) 9 with
  | Some (s1, Some (lid, l)) => (s1, lid, l)
  | _ => (snd wten, 0, mkLeafPage 0 0 0 0 0 [])
  end.
Definition wparent : InternalPage Z :=
  match nodes (snd wten) !! 2 with Some (InternalNode p) => p | _ => mkInternalPage 0 0 0 0 [] end.

Lemma GetValue_spec_witness :
  exists s', GetValue (fst wten) (snd wten) 7 = Some (s', lookup_key 7 wkvs) /\ nodes s' = nodes (snd wten) /\
    forall q, pin_of s' q = pin_of (snd wten) q.
Proof.
  apply (GetValue_spec (fst wten) (snd wten) 1%nat wkvs 7);
    [apply check_tree_sound; vm_compute; reflexivity|apply pins_nonneg_check; vm_compute; reflexivity].
Defined.

Lemma find_leaf_terminates_witness :
  exists s' leaf_id l par lo hi,
    find_leaf (tree_fuel (snd wten)) (snd wten) (root_page_id_ (fst wten)) 9 = Some (s', Some (leaf_id, l)) /\
    nodes (snd wten) !! leaf_id = Some (LeafNode l) /\ subtree (nodes (snd wten)) par leaf_id lo hi 0 (leaf_items l) /\
    above lo 9 /\ below hi 9 /\ lookup_key 9 wkvs = lookup_key 9 (leaf_items l) /\ nodes s' = nodes (snd wten) /\
    forall q, pin_of s' q = pin_of (snd wten) q + (if decide (q = leaf_id) then 1 else 0).
Proof.
  apply (find_leaf_terminates (fst wten) (snd wten) 1%nat wkvs 9);
    [apply check_tree_sound; vm_compute; reflexivity|apply pins_nonneg_check; vm_compute; reflexivity].
Defined.

Lemma Insert_empty_spec_witness :
  exists t' s', Insert test_slots test_slots (fst wstart) (snd wstart) 5 50 = Some (t', s', true) /\
    tree_ok t' s' 0 [(5, 50)] /\ roots s' !! index_id_ (fst wstart) = Some (root_page_id_ t') /\
    root_page_id_ t' <> INVALID_PAGE_ID.
Proof. apply Insert_empty_spec; [reflexivity|vm_compute; lia|vm_compute; discriminate]. Defined.

Lemma Remove_leaks_parent_pin_witness :
  exists s', Remove (fst wten) (snd wten) 9 = Some (fst wten, s') /\
    pin_of s' 2 = pin_of (snd wten) 2 + 1 /\ forall q, q <> 2 -> pin_of s' q = pin_of (snd wten) q.
Proof.
  apply (Remove_leaks_parent_pin (fst wten) (snd wten) 1%nat wkvs 9 (fst (fst wleak)) (snd (fst wleak)) (snd wleak)
           2 wparent);
    [apply check_tree_sound; vm_compute; reflexivity|apply pins_nonneg_check; vm_compute; reflexivity|
     vm_compute; reflexivity|vm_compute; reflexivity|discriminate|vm_compute; reflexivity|
     vm_compute; discriminate|vm_compute; eexists; reflexivity|vm_compute; discriminate].
Defined.

Lemma Remove_last_key_witness :
  exists t' s', Remove (fst wone) (snd wone) 5 = Some (t', s') /\ IsEmpty t' = true /\
    roots s' !! index_id_ (fst wone) = Some INVALID_PAGE_ID /\
    (pin_of (snd wone) (root_page_id_ (fst wone)) = 0 -> nodes s' !! root_page_id_ (fst wone) = None).
Proof.
  apply (Remove_last_key (fst wone) (snd wone) 5 5);
    [apply check_tree_sound; vm_compute; reflexivity|apply pins_nonneg_check; vm_compute; reflexivity].
Defined.

End Witnesses.

End BPlusTreeSpec.
