(* ===== verification/Records.v ===== *)
(** * Records: columns and schemas and their byte formats
    (record/column.cpp, record/schema.cpp)

    A serialized object is the list of bytes [SerializeTo] writes from
    [buf] on, with the offset it returns; [DeserializeFrom] reads the
    memory from [buf] on, a list of bytes.  The integers are written with
    MACH_WRITE_TO in the machine's little-endian layout ([le_encode]);
    [size_t] is 8 bytes, [uint32_t] and the enum [TypeId] 4, [bool] 1.
    The offsets are [uint32_t] and wrap at 2^32.

    [Column::DeserializeFrom] copies the name into [new char[str_len]]
    without a terminating NUL and then builds a [std::string] from it as
    a C string: the name read back is every byte up to the first NUL,
    which lies past the copy unless the name holds one.  The model takes
    the bytes the heap holds after the copy as [heap_after]; reading past
    them without meeting a NUL is undefined behaviour ([None]).  The
    magic numbers come from the headers (not under src/) and are
    variables of the sections. *)

From Stdlib Require Import ZArith Lia List.
From stdpp Require Import base list.
From S2P Require Import Spec2Rocq.
Import ListNotations.
Open Scope Z_scope.

Module Records.

(** [TypeId] of record/types.h. *)
Inductive TypeId := kTypeInvalid | kTypeInt | kTypeFloat | kTypeChar.

#[export] Instance TypeId_eq_dec : EqDecision TypeId.
Proof. solve_decision. Defined.

Definition type_to_Z (t : TypeId) : Z :=
  match t with kTypeInvalid => 0 | kTypeInt => 1 | kTypeFloat => 2 | kTypeChar => 3 end.

(** An enum read back from memory; a value that is none of the
    enumerators is [None]. *)
Definition type_of_Z (z : Z) : option TypeId :=
  match z with 0 => Some kTypeInvalid | 1 => Some kTypeInt | 2 => Some kTypeFloat | 3 => Some kTypeChar | _ => None end.

(** The fields of [Column]; the name is its bytes. *)
Record Column := mkColumn {
  name_ : list Z;
  type_ : TypeId;
  len_ : Z;
  table_ind_ : Z;
  nullable_ : bool;
  unique_ : bool
}.

(** [Column(name, type, index, nullable, unique)]: not for CHAR, and the
    [switch] fixes the length; any other type fails the ASSERT. *)
Definition Column_new (name : list Z) (type : TypeId) (index : Z) (nullable unique : bool) : option Column :=
  match type with
  | kTypeInt | kTypeFloat => Some (mkColumn name type 4 index nullable unique)
  | _ => None
  end.

(** [Column(name, type, length, index, nullable, unique)]: CHAR only. *)
Definition Column_new_char (name : list Z) (type : TypeId) (length index : Z) (nullable unique : bool)
  : option Column :=
  match type with
  | kTypeChar => Some (mkColumn name type length index nullable unique)
  | _ => None
  end.

(** [Column(const Column *other)]. *)
Definition Column_copy (other : Column) : Column :=
  mkColumn (name_ other) (type_ other) (len_ other) (table_ind_ other) (nullable_ other) (unique_ other).

Definition bool_byte (b : bool) : Z := if b then 1 else 0.

(** [MACH_READ_FROM(T, buf + off)] of an [n]-byte unsigned [T]. *)
Definition rd (buf : list Z) (off n : nat) : Z := le_decode (read_bytes buf off n).

(** The bytes of a C string: up to the first NUL; [None] when there is
    none in the memory modelled. *)
Fixpoint cstring (l : list Z) : option (list Z) :=
  match l with
  | [] => None
  | b :: l' => if b =? 0 then Some [] else cons b <$> cstring l'
  end.

Section ColumnCodec.
Variable COLUMN_MAGIC_NUM : Z.

(** [Column::SerializeTo]: the bytes written and the offset returned. *)
Definition Column_SerializeTo (c : Column) : list Z * Z :=
  (le_encode 4 COLUMN_MAGIC_NUM ++ le_encode 4 (len_ c) ++ le_encode 4 (table_ind_ c)
     ++ le_encode 4 (type_to_Z (type_ c)) ++ [bool_byte (nullable_ c)] ++ [bool_byte (unique_ c)]
     ++ le_encode 8 (Z.of_nat (length (name_ c))) ++ name_ c,
   wrap 32 (4 + 4 + 4 + 4 + 1 + 1 + 8 + Z.of_nat (length (name_ c)))).

(** [Column::GetSerializedSize]. *)
Definition Column_GetSerializedSize (c : Column) : Z :=
  wrap 32 (3 * 4 + 4 + 2 * 1 + 8 + Z.of_nat (length (name_ c))).

(** [Column::DeserializeFrom]: the offset returned and the column built,
    [(0, None)] on a wrong magic number. *)
Definition Column_DeserializeFrom (buf heap_after : list Z) : option (Z * option Column) :=
  if rd buf 0 4 =? COLUMN_MAGIC_NUM then
    let len := rd buf 4 4 in
    let table_ind := rd buf 8 4 in
    let type := rd buf 12 4 in
    let nullable := negb (rd buf 16 1 =? 0) in
    let unique := negb (rd buf 17 1 =? 0) in
    let str_len := rd buf 18 8 in
    name ← cstring (read_bytes buf 26 (Z.to_nat str_len) ++ heap_after);
    t ← type_of_Z type;
    column ← (if decide (t = kTypeChar) then Column_new_char name t len table_ind nullable unique
              else Column_new name t table_ind nullable unique);
    Some (wrap 32 (26 + str_len), Some column)
  else Some (0, None).

End ColumnCodec.

(** ** Reading back what was written *)

Lemma read_bytes_skip (A R : list Z) off n :
  (length A <= off)%nat -> read_bytes (A ++ R) off n = read_bytes R (off - length A) n.
Proof. intros Hl. unfold read_bytes. rewrite drop_app_ge by exact Hl. reflexivity. Qed.

Lemma read_bytes_head (A R : list Z) n : length A = n -> read_bytes (A ++ R) 0 n = A.
Proof. intros <-. unfold read_bytes. rewrite drop_0. apply take_app_length. Qed.

(** Read the field at a constant offset of a concatenation of fields of
    known lengths. *)
Ltac read_field :=
  unfold rd;
  repeat (rewrite read_bytes_skip by (rewrite ?length_le_encode; cbn [length]; lia); cbn [Nat.sub length]);
  rewrite ?length_le_encode; cbn [Nat.sub];
  rewrite read_bytes_head by (rewrite ?length_le_encode; reflexivity).

Lemma le_decode_bool b : le_decode [bool_byte b] = bool_byte b.
Proof. destruct b; reflexivity. Qed.

Lemma bool_byte_nonzero b : negb (bool_byte b =? 0) = b.
Proof. destruct b; reflexivity. Qed.

Lemma type_of_to_Z t : type_of_Z (type_to_Z t) = Some t.
Proof. destruct t; reflexivity. Qed.

Lemma type_to_Z_range t : 0 <= type_to_Z t < 2 ^ (8 * Z.of_nat 4).
Proof. destruct t; cbn; lia. Qed.

(** A C string read over bytes without NUL runs on into what follows. *)
Lemma cstring_app (l r : list Z) : Forall (fun b => b <> 0) l -> cstring (l ++ r) = (app l) <$> cstring r.
Proof.
  induction 1 as [|b l Hb _ IH]; cbn [app cstring].
  - destruct (cstring r); reflexivity.
  - rewrite (proj2 (Z.eqb_neq _ _) Hb), IH. destruct (cstring r); reflexivity.
Qed.

(** The fields of a column that its serialization can hold. *)
Definition column_ok (c : Column) : Prop :=
  0 <= len_ c < 2 ^ 32 /\ 0 <= table_ind_ c < 2 ^ 32 /\ Forall is_byte (name_ c) /\
  26 + Z.of_nat (length (name_ c)) < 2 ^ 32 /\
  (type_ c = kTypeChar \/ ((type_ c = kTypeInt \/ type_ c = kTypeFloat) /\ len_ c = 4)).

(** The check of [column_ok] and of a name without NUL. *)
Definition column_okb (c : Column) : bool :=
  (0 <=? len_ c) && (len_ c <? 2 ^ 32) && (0 <=? table_ind_ c) && (table_ind_ c <? 2 ^ 32)
  && forallb (fun b => (0 <=? b) && (b <? 256)) (name_ c) && (26 + Z.of_nat (length (name_ c)) <? 2 ^ 32)
  && match type_ c with kTypeChar => true | kTypeInt | kTypeFloat => len_ c =? 4 | kTypeInvalid => false end.

Lemma column_okb_sound c : column_okb c = true -> column_ok c.
Proof.
  unfold column_okb, column_ok. intros E. repeat rewrite andb_true_iff in E. destruct_and!. zbool.
  split; [lia|]. split; [lia|]. split.
  - apply Forall_forall. intros b Hb%list_elem_of_In.
    match goal with Hf : forallb _ _ = true |- _ =>
      rewrite forallb_forall in Hf; specialize (Hf b Hb); apply andb_true_iff in Hf as [? ?] end.
    zbool. unfold is_byte. lia.
  - split; [lia|]. destruct (type_ c); zbool; auto; discriminate.
Qed.

Section ColumnProofs.
Variable COLUMN_MAGIC_NUM : Z.
Hypothesis magic_range : 0 <= COLUMN_MAGIC_NUM < 2 ^ 32.

Lemma Column_SerializeTo_length c :
  Z.of_nat (length (fst (Column_SerializeTo COLUMN_MAGIC_NUM c))) = 26 + Z.of_nat (length (name_ c)).
Proof. cbn [Column_SerializeTo fst]. rewrite !length_app, !length_le_encode. cbn [length]. lia. Qed.

(** What [DeserializeFrom] reads back from the bytes of a column: all the
    fields, the name followed by the heap bytes up to the first NUL. *)
Lemma Column_DeserializeFrom_SerializeTo c rest heap_after tail :
  column_ok c -> Forall (fun b => b <> 0) (name_ c) -> cstring heap_after = Some tail ->
  Column_DeserializeFrom COLUMN_MAGIC_NUM (fst (Column_SerializeTo COLUMN_MAGIC_NUM c) ++ rest) heap_after =
  Some (snd (Column_SerializeTo COLUMN_MAGIC_NUM c),
        Some (mkColumn (name_ c ++ tail) (type_ c) (len_ c) (table_ind_ c) (nullable_ c) (unique_ c))).
Proof.
  intros (Hlen & Hti & Hbytes & Hnl & Htype) Hnz Htail.
  unfold Column_DeserializeFrom, Column_SerializeTo. cbn [fst snd]. rewrite <- !app_assoc.
  match goal with |- context [rd ?b 0 4] => set (buf := b) end.
  assert (E0 : rd buf 0 4 = COLUMN_MAGIC_NUM).
  { unfold rd, buf. rewrite read_bytes_head by apply length_le_encode. apply le_decode_encode_small. cbn; lia. }
  rewrite E0, Z.eqb_refl.
  assert (E1 : rd buf 4 4 = len_ c) by (unfold buf; read_field; apply le_decode_encode_small; cbn; lia).
  assert (E2 : rd buf 8 4 = table_ind_ c) by (unfold buf; read_field; apply le_decode_encode_small; cbn; lia).
  assert (E3 : rd buf 12 4 = type_to_Z (type_ c))
    by (unfold buf; read_field; apply le_decode_encode_small, type_to_Z_range).
  assert (E4 : rd buf 16 1 = bool_byte (nullable_ c)) by (unfold buf; read_field; apply le_decode_bool).
  assert (E5 : rd buf 17 1 = bool_byte (unique_ c)) by (unfold buf; read_field; apply le_decode_bool).
  assert (E6 : rd buf 18 8 = Z.of_nat (length (name_ c)))
    by (unfold buf; read_field; apply le_decode_encode_small; cbn; lia).
  rewrite E1, E2, E3, E4, E5, E6, !bool_byte_nonzero, type_of_to_Z, Nat2Z.id.
  unfold buf, read_bytes at 1.
  rewrite !drop_app_ge by (rewrite ?length_le_encode; cbn [length]; lia).
  rewrite !length_le_encode. cbn [length Nat.sub]. rewrite drop_0, take_app_length.
  rewrite cstring_app, Htail by exact Hnz. cbn [fmap option_fmap option_map mbind option_bind].
  destruct Htype as [E | [[E | E] Hl]]; rewrite E; [|rewrite Hl..]; reflexivity.
Qed.

End ColumnProofs.

(** ** Schemas *)

Record Schema := mkSchema { columns_ : list Column }.

Section SchemaCodec.
Variables SCHEMA_MAGIC_NUM COLUMN_MAGIC_NUM : Z.

(** The loop of [Schema::SerializeTo]: each column at the offset reached. *)
Fixpoint serialize_columns (cs : list Column) (tot : Z) : list Z * Z :=
  match cs with
  | [] => ([], tot)
  | c :: cs' =>
      let '(b, n) := Column_SerializeTo COLUMN_MAGIC_NUM c in
      let '(bs, tot') := serialize_columns cs' (wrap 32 (tot + n)) in
      (b ++ bs, tot')
  end.

(** [Schema::SerializeTo]. *)
Definition Schema_SerializeTo (sc : Schema) : list Z * Z :=
  let '(bs, tot) := serialize_columns (columns_ sc) (4 + 8) in
  (le_encode 4 SCHEMA_MAGIC_NUM ++ le_encode 8 (Z.of_nat (length (columns_ sc))) ++ bs, tot).

(** [Schema::GetSerializedSize]. *)
Definition Schema_GetSerializedSize (sc : Schema) : Z :=
  fold_left (fun tot c => wrap 32 (tot + Column_GetSerializedSize c)) (columns_ sc) (4 + 8).

(** The loop of [Schema::DeserializeFrom]: [num] columns, each read at
    the offset reached.  A column with a wrong magic number consumes no
    bytes and leaves [tmp] as it was, so the previous column is pushed
    again, or, on the first iteration, the uninitialised pointer
    (undefined behaviour). *)
Fixpoint deserialize_columns (fuel : nat) (buf heap_after : list Z) (tot : Z) (tmp : option Column)
  : option (Z * list Column) :=
  match fuel with
  | O => Some (tot, [])
  | S f =>
      '(n, read) ← Column_DeserializeFrom COLUMN_MAGIC_NUM (drop (Z.to_nat tot) buf) heap_after;
      let tmp' := match read with Some c => Some c | None => tmp end in
      c ← tmp';
      '(tot', cs) ← deserialize_columns f buf heap_after (wrap 32 (tot + n)) tmp';
      Some (tot', c :: cs)
  end.

(** [Schema::DeserializeFrom]. *)
Definition Schema_DeserializeFrom (buf heap_after : list Z) : option (Z * option Schema) :=
  if rd buf 0 4 =? SCHEMA_MAGIC_NUM then
    let num := rd buf 4 8 in
    '(tot, columns) ← deserialize_columns (Z.to_nat num) buf heap_after (4 + 8) None;
    Some (tot, Some (mkSchema columns))
  else Some (0, None).

End SchemaCodec.

(** ** Round trips *)

Definition nul_free (c : Column) : Prop := Forall (fun b => b <> 0) (name_ c).

Section SchemaProofs.
Variables SCHEMA_MAGIC_NUM COLUMN_MAGIC_NUM : Z.
Hypothesis schema_magic_range : 0 <= SCHEMA_MAGIC_NUM < 2 ^ 32.
Hypothesis column_magic_range : 0 <= COLUMN_MAGIC_NUM < 2 ^ 32.

(** The offset [Column::SerializeTo] returns is the number of bytes it
    wrote, and [GetSerializedSize]. *)
Lemma Column_SerializeTo_size c :
  column_ok c -> snd (Column_SerializeTo COLUMN_MAGIC_NUM c) = Z.of_nat (length (fst (Column_SerializeTo COLUMN_MAGIC_NUM c))) /\
    snd (Column_SerializeTo COLUMN_MAGIC_NUM c) = Column_GetSerializedSize c.
Proof.
  intros (_ & _ & _ & Hn & _). rewrite Column_SerializeTo_length.
  unfold Column_GetSerializedSize, Column_SerializeTo, wrap. cbn [snd]. rewrite !Z.mod_small by lia. lia.
Qed.

(** With a NUL right after the copied name, a column reads back as it was
    written. *)
Lemma Column_roundtrip c rest heap_after :
  column_ok c -> nul_free c -> cstring heap_after = Some [] ->
  Column_DeserializeFrom COLUMN_MAGIC_NUM (fst (Column_SerializeTo COLUMN_MAGIC_NUM c) ++ rest) heap_after =
  Some (snd (Column_SerializeTo COLUMN_MAGIC_NUM c), Some c).
Proof.
  intros Hok Hnz Hh. rewrite (Column_DeserializeFrom_SerializeTo _ column_magic_range c rest heap_after [] Hok Hnz Hh).
  rewrite app_nil_r. destruct c; reflexivity.
Qed.

Lemma nul_free_check c : forallb (fun b => negb (b =? 0)) (name_ c) = true -> nul_free c.
Proof.
  intros E. apply Forall_forall. intros b Hb%list_elem_of_In. rewrite forallb_forall in E.
  specialize (E b Hb). apply negb_true_iff, Z.eqb_neq in E. exact E.
Qed.

Definition columns_ok (cs : list Column) : Prop := Forall (fun c => column_ok c /\ nul_free c) cs.

(** The loop of [DeserializeFrom] reads back the columns the loop of
    [SerializeTo] wrote from the same offset. *)
Lemma deserialize_columns_serialize cs : forall P rest heap_after tmp,
  columns_ok cs -> cstring heap_after = Some [] ->
  Z.of_nat (length P + length (fst (serialize_columns COLUMN_MAGIC_NUM cs (Z.of_nat (length P))))) < 2 ^ 32 ->
  deserialize_columns COLUMN_MAGIC_NUM (length cs)
    (P ++ fst (serialize_columns COLUMN_MAGIC_NUM cs (Z.of_nat (length P))) ++ rest) heap_after (Z.of_nat (length P)) tmp
  = Some (snd (serialize_columns COLUMN_MAGIC_NUM cs (Z.of_nat (length P))), cs) /\
  snd (serialize_columns COLUMN_MAGIC_NUM cs (Z.of_nat (length P))) =
    Z.of_nat (length P + length (fst (serialize_columns COLUMN_MAGIC_NUM cs (Z.of_nat (length P))))).
Proof.
  induction cs as [|c cs IH]; intros P rest heap_after tmp Hok Hh Hlen.
  - cbn. split; [reflexivity|lia].
  - apply Forall_cons in Hok as [[Hc Hnz] Hok].
    pose proof (Column_SerializeTo_size c Hc) as [Hn _].
    pose proof (Column_roundtrip c) as Hrt.
    cbn [serialize_columns] in *. destruct (Column_SerializeTo COLUMN_MAGIC_NUM c) as [b n] eqn:Ec.
    cbn [fst snd] in Hn.
    assert (Ew : wrap 32 (Z.of_nat (length P) + n) = Z.of_nat (length (P ++ b))).
    { destruct (serialize_columns COLUMN_MAGIC_NUM cs (wrap 32 (Z.of_nat (length P) + n))) as [bs t'].
      cbn [fst] in Hlen. rewrite ?length_app in *. unfold wrap. rewrite Z.mod_small; lia. }
    rewrite Ew in *. destruct (serialize_columns COLUMN_MAGIC_NUM cs (Z.of_nat (length (P ++ b)))) as [bs t'] eqn:Es.
    cbn [fst snd] in *.
    specialize (IH (P ++ b) rest heap_after (Some c) Hok Hh). rewrite Es in IH. cbn [fst snd] in IH.
    destruct IH as [IH Ht]; [rewrite !length_app in *; lia|].
    split; [|rewrite Ht, !length_app; lia].
    cbn [deserialize_columns length]. rewrite Nat2Z.id, <- app_assoc, drop_app_length.
    specialize (Hrt (bs ++ rest) heap_after Hc Hnz Hh). cbn [fst snd] in Hrt.
    rewrite Hrt. cbn [mbind option_bind]. rewrite Ew. rewrite <- app_assoc in IH. rewrite IH. reflexivity.
Qed.

(** The offset [Schema::SerializeTo] returns is [GetSerializedSize]. *)
Lemma serialize_columns_size cs tot :
  columns_ok cs ->
  snd (serialize_columns COLUMN_MAGIC_NUM cs tot) = fold_left (fun t c => wrap 32 (t + Column_GetSerializedSize c)) cs tot.
Proof.
  revert tot; induction cs as [|c cs IH]; intros tot Hok; [reflexivity|].
  apply Forall_cons in Hok as [[Hc _] Hok]. pose proof (Column_SerializeTo_size c Hc) as [_ Hs].
  cbn [serialize_columns fold_left]. destruct (Column_SerializeTo COLUMN_MAGIC_NUM c) as [b n] eqn:Ec.
  cbn [snd] in Hs. rewrite <- Hs. specialize (IH (wrap 32 (tot + n)) Hok).
  destruct (serialize_columns COLUMN_MAGIC_NUM cs (wrap 32 (tot + n))). exact IH.
Qed.

Lemma serialize_columns_length cs tot : (length cs <= length (fst (serialize_columns COLUMN_MAGIC_NUM cs tot)))%nat.
Proof.
  revert tot; induction cs as [|c cs IH]; intros tot; cbn [serialize_columns]; [cbn; lia|].
  destruct (Column_SerializeTo COLUMN_MAGIC_NUM c) as [b n] eqn:Ec.
  pose proof (IH (wrap 32 (tot + n))) as Hl.
  destruct (serialize_columns COLUMN_MAGIC_NUM cs (wrap 32 (tot + n))). cbn [fst length] in *.
  assert (Hb : length b = (26 + length (name_ c))%nat).
  { pose proof (Column_SerializeTo_length COLUMN_MAGIC_NUM c) as E. rewrite Ec in E. cbn in E. lia. }
  rewrite length_app. lia.
Qed.

(** C17: Round trip of a schema: when the byte after each copied column
    name is a NUL, [Schema::DeserializeFrom] reads back from the bytes
    [Schema::SerializeTo] wrote (whatever follows them) the same schema,
    and the offset both return is the number of bytes written, which is
    [GetSerializedSize]. *)
Theorem Schema_roundtrip sc rest heap_after :
  columns_ok (columns_ sc) -> cstring heap_after = Some [] ->
  Z.of_nat (length (fst (Schema_SerializeTo SCHEMA_MAGIC_NUM COLUMN_MAGIC_NUM sc))) < 2 ^ 32 ->
  Schema_DeserializeFrom SCHEMA_MAGIC_NUM COLUMN_MAGIC_NUM
    (fst (Schema_SerializeTo SCHEMA_MAGIC_NUM COLUMN_MAGIC_NUM sc) ++ rest) heap_after =
    Some (snd (Schema_SerializeTo SCHEMA_MAGIC_NUM COLUMN_MAGIC_NUM sc), Some sc) /\
  snd (Schema_SerializeTo SCHEMA_MAGIC_NUM COLUMN_MAGIC_NUM sc) =
    Z.of_nat (length (fst (Schema_SerializeTo SCHEMA_MAGIC_NUM COLUMN_MAGIC_NUM sc))) /\
  snd (Schema_SerializeTo SCHEMA_MAGIC_NUM COLUMN_MAGIC_NUM sc) = Schema_GetSerializedSize sc.
Proof.
  intros Hok Hh Hlen. destruct sc as [cs]. cbn [columns_] in *.
  set (P := le_encode 4 SCHEMA_MAGIC_NUM ++ le_encode 8 (Z.of_nat (length cs))).
  assert (HP : 4 + 8 = Z.of_nat (length P)) by (unfold P; rewrite length_app, !length_le_encode; reflexivity).
  unfold Schema_SerializeTo, Schema_GetSerializedSize in *. cbn [columns_] in *. rewrite HP in *.
  rewrite <- (serialize_columns_size cs (Z.of_nat (length P)) Hok).
  destruct (deserialize_columns_serialize cs P rest heap_after None Hok Hh) as [Hd Ht].
  { destruct (serialize_columns COLUMN_MAGIC_NUM cs (Z.of_nat (length P))). cbn in Hlen |- *. exact Hlen. }
  destruct (serialize_columns COLUMN_MAGIC_NUM cs (Z.of_nat (length P))) as [bs tot] eqn:Es. cbn [fst snd] in *.
  split; [|split; [rewrite Ht, length_app; unfold P; rewrite !length_app; lia|reflexivity]].
  unfold Schema_DeserializeFrom.
  match goal with |- context [rd ?b 0 4] =>
    replace b with (P ++ bs ++ rest) by (unfold P; rewrite <- !app_assoc; reflexivity) end.
  assert (E0 : rd (P ++ bs ++ rest) 0 4 = SCHEMA_MAGIC_NUM).
  { unfold rd, P. rewrite <- app_assoc, read_bytes_head by apply length_le_encode.
    apply le_decode_encode_small. cbn; lia. }
  assert (Hcs : (length cs <= length bs)%nat).
  { pose proof (serialize_columns_length cs (Z.of_nat (length P))) as Hl. rewrite Es in Hl. exact Hl. }
  assert (E1 : rd (P ++ bs ++ rest) 4 8 = Z.of_nat (length cs)).
  { unfold P in *. rewrite <- app_assoc. read_field. apply le_decode_encode_small.
    rewrite !length_app, !length_le_encode in Hlen. cbn. lia. }
  rewrite E0, Z.eqb_refl, E1, Nat2Z.id, HP, Hd. reflexivity.
Qed.

End SchemaProofs.

Section ColumnClaims.
Variable COLUMN_MAGIC_NUM : Z.
Hypothesis column_magic_range : 0 <= COLUMN_MAGIC_NUM < 2 ^ 32.

(** C18: [Column::DeserializeFrom] on the bytes [Column::SerializeTo]
    wrote reads back every field, but the name it builds from the
    unterminated copy is the written name followed by the heap bytes up to
    the first NUL: unless the byte after the copy happens to be NUL, the
    column read back has a longer name than the one written. *)
Theorem Column_DeserializeFrom_overread c rest heap_after tail :
  column_ok c -> nul_free c -> cstring heap_after = Some tail ->
  Column_DeserializeFrom COLUMN_MAGIC_NUM (fst (Column_SerializeTo COLUMN_MAGIC_NUM c) ++ rest) heap_after =
    Some (snd (Column_SerializeTo COLUMN_MAGIC_NUM c),
          Some (mkColumn (name_ c ++ tail) (type_ c) (len_ c) (table_ind_ c) (nullable_ c) (unique_ c))) /\
  (tail <> [] -> mkColumn (name_ c ++ tail) (type_ c) (len_ c) (table_ind_ c) (nullable_ c) (unique_ c) <> c).
Proof.
  intros Hok Hnz Ht. split; [exact (Column_DeserializeFrom_SerializeTo _ column_magic_range c rest heap_after tail Hok Hnz Ht)|].
  intros Hne E. apply (f_equal (fun c => length (name_ c))) in E. cbn in E. rewrite length_app in E.
  destruct tail; [contradiction|cbn in E; lia].
Qed.

End ColumnClaims.

(** ** Witnesses *)

Section Witnesses.

(** The magic numbers of the MiniSQL headers. *)
Definition wcolumn_magic : Z := 210928.
Definition wschema_magic : Z := 200715.
(** Column "id" of type int, and "name" of type char(8). *)
Definition wcol_id : Column := mkColumn [105; 100] kTypeInt 4 0 false true.
Definition wcol_name : Column := mkColumn [110; 97; 109; 101] kTypeChar 8 1 true false.

Lemma Column_DeserializeFrom_overread_witness :
  Column_DeserializeFrom wcolumn_magic (fst (Column_SerializeTo wcolumn_magic wcol_id) ++ [7; 7]) [65; 0] =
    Some (snd (Column_SerializeTo wcolumn_magic wcol_id),
          Some (mkColumn (name_ wcol_id ++ [65]) (type_ wcol_id) (len_ wcol_id) (table_ind_ wcol_id)
                  (nullable_ wcol_id) (unique_ wcol_id))) /\
  ([65] <> [] -> mkColumn (name_ wcol_id ++ [65]) (type_ wcol_id) (len_ wcol_id) (table_ind_ wcol_id)
                  (nullable_ wcol_id) (unique_ wcol_id) <> wcol_id).
Proof.
  apply Column_DeserializeFrom_overread;
    [unfold wcolumn_magic; lia|apply column_okb_sound; reflexivity|apply nul_free_check; reflexivity|reflexivity].
Defined.

Lemma Schema_roundtrip_witness :
  Schema_DeserializeFrom wschema_magic wcolumn_magic
    (fst (Schema_SerializeTo wschema_magic wcolumn_magic (mkSchema [wcol_id; wcol_name])) ++ [1; 2; 3]) [0] =
    Some (snd (Schema_SerializeTo wschema_magic wcolumn_magic (mkSchema [wcol_id; wcol_name])),
          Some (mkSchema [wcol_id; wcol_name])) /\
  snd (Schema_SerializeTo wschema_magic wcolumn_magic (mkSchema [wcol_id; wcol_name])) =
    Z.of_nat (length (fst (Schema_SerializeTo wschema_magic wcolumn_magic (mkSchema [wcol_id; wcol_name])))) /\
  snd (Schema_SerializeTo wschema_magic wcolumn_magic (mkSchema [wcol_id; wcol_name])) =
    Schema_GetSerializedSize (mkSchema [wcol_id; wcol_name]).
Proof.
  apply Schema_roundtrip; [unfold wschema_magic; lia|unfold wcolumn_magic; lia| |reflexivity|vm_compute; reflexivity].
  unfold columns_ok. cbn [columns_].
  repeat (apply List.Forall_cons; [split; [apply column_okb_sound|apply nul_free_check]; reflexivity|]).
  constructor.
Defined.

End Witnesses.

End Records.
