(* ===== verification/RowFormat.v ===== *)
(** * Rows and their byte format (record/row.cpp)

    A row is its [RowId] and its fields.  [Row::SerializeTo] writes the
    magic number, the number of fields ([size_t]), the [RowId]
    ([int32_t] page id and [uint32_t] slot), a null bitmap of
    [n / 8 + 1] bytes in which bit [i mod 8] of byte [i / 8] is set for a
    field that is not null ([bitmap[i / 8] += 1 << (i % 8)] on a [char]),
    then every field.  [Row::DeserializeFrom] reads them back, asking the
    schema for the type of field [i] and the bitmap for its null flag.

    Fields are record/field.h and types.cpp, not under src/: the class
    [FieldCodec] is what the row code uses of a field (its null flag and
    type, [SerializeTo], [GetSerializedSize], [DeserializeFrom]), and
    [FieldCodecLaws] the contract the row theorems rely on, that a field
    reads back from its own bytes. *)

From Stdlib Require Import ZArith Lia List Strings.Byte.
From stdpp Require Import base list.
From S2P Require Import Spec2Rocq Records.
Import ListNotations.
Open Scope Z_scope.

Module RowFormat.
Import Records.

(** What the row code uses of a field. *)
Class FieldCodec (Field : Type) := {
  field_is_null : Field -> bool;
  field_type : Field -> TypeId;
  field_SerializeTo : Field -> list Z;
  field_GetSerializedSize : Field -> Z;
  field_DeserializeFrom : list Z -> TypeId -> bool -> option (Field * Z)
}.

(** A field reads back from its own bytes, given its type and null flag,
    and its size is the number of its bytes. *)
Class FieldCodecLaws (Field : Type) `{FieldCodec Field} := {
  field_roundtrip f rest :
    field_DeserializeFrom (field_SerializeTo f ++ rest) (field_type f) (field_is_null f) =
    Some (f, Z.of_nat (length (field_SerializeTo f)));
  field_size f : field_GetSerializedSize f = Z.of_nat (length (field_SerializeTo f))
}.

Record RowId := mkRowId { page_id : Z; slot_num : Z }.

Record Row (Field : Type) := mkRow { rid_ : RowId; fields_ : list Field }.
Arguments mkRow {Field}.
Arguments rid_ {Field}.
Arguments fields_ {Field}.

Section RowCodec.
Context {Field : Type} `{FieldCodec Field}.
Variable ROW_MAGIC_NUM : Z.

(** [uint8_t num = 1 << bit_index]. *)
Definition bit_of (i : nat) : Z := Z.shiftl 1 (Z.of_nat (i mod 8)).

(** The first loop of [SerializeTo]: set the bit of each field that is
    not null, [bitmap[byte_index] += num] on a [char]. *)
Fixpoint bitmap_loop (fs : list Field) (i : nat) (bitmap : list Z) : list Z :=
  match fs with
  | [] => bitmap
  | f :: fs' =>
      bitmap_loop fs' (S i)
        (if field_is_null f then bitmap
         else aset bitmap (Z.of_nat (i / 8)) (aget bitmap (Z.of_nat (i / 8)) +u8 bit_of i))
  end.

(** [new char[n / 8 + 1]], zeroed, then the loop. *)
Definition row_bitmap (fs : list Field) : list Z :=
  bitmap_loop fs 0 (replicate (length fs / 8 + 1) 0).

(** The last loop of [SerializeTo]: each field at the offset reached. *)
Fixpoint serialize_fields (fs : list Field) (tot : Z) : list Z * Z :=
  match fs with
  | [] => ([], tot)
  | f :: fs' =>
      let b := field_SerializeTo f in
      let '(bs, tot') := serialize_fields fs' (wrap 32 (tot + Z.of_nat (length b))) in
      (b ++ bs, tot')
  end.

(** [Row::SerializeTo]. *)
Definition Row_SerializeTo (row : Row Field) : list Z * Z :=
  let n := length (fields_ row) in
  let '(bs, tot) := serialize_fields (fields_ row) (wrap 32 (4 + 8 + 8 + Z.of_nat (n / 8 + 1))) in
  (le_encode 4 ROW_MAGIC_NUM ++ le_encode 8 (Z.of_nat n) ++ le_encode 4 (page_id (rid_ row))
     ++ le_encode 4 (slot_num (rid_ row)) ++ row_bitmap (fields_ row) ++ bs,
   tot).

(** [Row::GetSerializedSize]. *)
Definition Row_GetSerializedSize (row : Row Field) : Z :=
  fold_left (fun tot f => wrap 32 (tot + field_GetSerializedSize f)) (fields_ row)
    (wrap 32 (4 + 8 + 8 + Z.of_nat (length (fields_ row) / 8 + 1))).

(** The loop of [DeserializeFrom]: field [i] is null when its bit is
    clear ([(bitmap[byte_index] & num) == 0]; the sign of the [char] does
    not reach bits 0 to 7), its type is that of column [i] of the schema
    (an index past the columns is undefined behaviour). *)
Fixpoint deserialize_fields (fuel : nat) (i : nat) (buf bitmap : list Z) (cols : list Column) (tot : Z)
  : option (Z * list Field) :=
  match fuel with
  | O => Some (tot, [])
  | S f =>
      let is_null := Z.land (nth0 bitmap (i / 8)) (bit_of i) =? 0 in
      col ← cols !! i;
      '(fld, k) ← field_DeserializeFrom (drop (Z.to_nat tot) buf) (type_ col) is_null;
      '(tot', fs) ← deserialize_fields f (S i) buf bitmap cols (wrap 32 (tot + k));
      Some (tot', fld :: fs)
  end.

(** [Row::DeserializeFrom]: [(0, None)] on a wrong magic number. *)
Definition Row_DeserializeFrom (buf : list Z) (schema : Schema) : option (Z * option (Row Field)) :=
  if rd buf 0 4 =? ROW_MAGIC_NUM then
    let n := rd buf 4 8 in
    let rid := mkRowId (to_signed 32 (rd buf 12 4)) (rd buf 16 4) in
    let nb := n / 8 + 1 in
    let bitmap := read_bytes buf 20 (Z.to_nat nb) in
    '(tot, fs) ← deserialize_fields (Z.to_nat n) 0 buf bitmap (columns_ schema) (wrap 32 (4 + 8 + 8 + nb));
    Some (tot, Some (mkRow rid fs))
  else Some (0, None).

End RowCodec.

(** ** The null bitmap, bit by bit *)

(** [bitval g base m] is the byte whose bit [j < m] is [g (base + j)]. *)
Fixpoint bitval (g : nat -> bool) (base m : nat) : Z :=
  match m with
  | O => 0
  | S m' => Z.b2z (g base) + 2 * bitval g (S base) m'
  end.

Lemma bitval_range g base m : 0 <= bitval g base m < 2 ^ Z.of_nat m.
Proof.
  revert base; induction m as [|m IH]; intros base; cbn [bitval]; [cbn; lia|].
  specialize (IH (S base)). rewrite Nat2Z.inj_succ, Z.pow_succ_r by lia.
  destruct (g base); cbn [Z.b2z]; lia.
Qed.

Lemma bitval_ext g g' base m :
  (forall j, (j < m)%nat -> g (base + j)%nat = g' (base + j)%nat) -> bitval g base m = bitval g' base m.
Proof.
  revert base; induction m as [|m IH]; intros base Hg; cbn [bitval]; [reflexivity|].
  f_equal; [f_equal; rewrite <- (Nat.add_0_r base); apply Hg; lia|].
  f_equal. apply IH. intros j Hj. rewrite Nat.add_succ_l, <- Nat.add_succ_r. apply Hg. lia.
Qed.

Lemma bitval_zero g base m :
  (forall j, (j < m)%nat -> g (base + j)%nat = false) -> bitval g base m = 0.
Proof.
  intros Hg. rewrite (bitval_ext g (fun _ => false)) by exact Hg.
  clear Hg. revert base; induction m as [|m IH]; intros base; cbn [bitval]; [reflexivity|].
  rewrite IH. reflexivity.
Qed.

(** Setting one clear bit adds its power of two. *)
Lemma bitval_set g g' base m j :
  (j < m)%nat -> g (base + j)%nat = false -> g' (base + j)%nat = true ->
  (forall x, x <> (base + j)%nat -> g' x = g x) ->
  bitval g' base m = bitval g base m + 2 ^ Z.of_nat j.
Proof.
  revert base j; induction m as [|m IH]; intros base j Hj H0 H1 Hrest; [lia|].
  cbn [bitval]. destruct j as [|j].
  - rewrite Nat.add_0_r in *. rewrite H0, H1.
    rewrite (bitval_ext g' g) by (intros x _; apply Hrest; lia). cbn. lia.
  - rewrite Hrest by lia. rewrite (IH (S base) j) by (rewrite ?Nat.add_succ_l, <- ?Nat.add_succ_r; auto; lia).
    rewrite Nat2Z.inj_succ, Z.pow_succ_r by lia. lia.
Qed.

Lemma bitval_testbit g base m j :
  Z.testbit (bitval g base m) (Z.of_nat j) = (j <? m)%nat && g (base + j)%nat.
Proof.
  revert base j; induction m as [|m IH]; intros base j; cbn [bitval].
  - rewrite Z.testbit_0_l. reflexivity.
  - destruct j as [|j].
    + rewrite Nat.add_0_r. destruct (g base); cbn [Z.b2z];
        [rewrite Z.add_comm, Z.testbit_odd_0|rewrite Z.add_0_l, Z.testbit_even_0]; reflexivity.
    + rewrite Nat2Z.inj_succ. destruct (g base); cbn [Z.b2z];
        [rewrite Z.add_comm, Z.testbit_odd_succ by lia|rewrite Z.add_0_l, Z.testbit_even_succ by lia];
        rewrite IH, Nat.add_succ_r; reflexivity.
Qed.

(** [(x & (1 << j)) == 0] tests bit [j]. *)
Lemma land_pow2_eqb_0 x j : 0 <= j -> (Z.land x (2 ^ j) =? 0) = negb (Z.testbit x j).
Proof.
  intros Hj. destruct (Z.testbit x j) eqn:E; cbn [negb].
  - apply Z.eqb_neq. intros H0.
    assert (Z.testbit (Z.land x (2 ^ j)) j = true) as Ht by (rewrite Z.land_spec, E, Z.pow2_bits_true; auto).
    rewrite H0, Z.testbit_0_l in Ht. discriminate.
  - apply Z.eqb_eq. apply Z.bits_inj_0. intros n.
    rewrite Z.land_spec. destruct (Z.eq_dec n j) as [->|Hn]; [rewrite E; reflexivity|].
    destruct (Z.ltb_spec n 0); [rewrite Z.testbit_neg_r by lia; reflexivity|].
    rewrite Z.pow2_bits_false by lia. apply andb_false_r.
Qed.

Section RowProofs.
Context {Field : Type} `{FieldCodec Field}.

(** Whether field [k] of [fs] exists and is not null. *)
Definition notnull (fs : list Field) (k : nat) : bool :=
  match fs !! k with Some f => negb (field_is_null f) | None => false end.

Lemma bit_of_pow i : bit_of i = 2 ^ Z.of_nat (i mod 8).
Proof. unfold bit_of. rewrite Z.shiftl_1_l. reflexivity. Qed.

Definition bitmap_inv (fs : list Field) (k : nat) (bm : list Z) : Prop :=
  length bm = (length fs / 8 + 1)%nat /\
  forall b, (b < length bm)%nat -> nth0 bm b = bitval (fun x => (x <? k)%nat && notnull fs x) (8 * b) 8.

(** One step of the loop: field [k] sets its bit when it is not null. *)
Lemma bitmap_step fs k f bm :
  fs !! k = Some f -> bitmap_inv fs k bm ->
  bitmap_inv fs (S k)
    (if field_is_null f then bm
     else aset bm (Z.of_nat (k / 8)) (aget bm (Z.of_nat (k / 8)) +u8 bit_of k)).
Proof.
  intros Hf [Hlen Hbm].
  assert (Hk : (k < length fs)%nat) by (apply lookup_lt_Some in Hf; exact Hf).
  assert (Hkb : (k / 8 < length bm)%nat) by (rewrite Hlen; pose proof (Nat.Div0.div_le_mono k (length fs) 8); lia).
  assert (Hdiv : (8 * (k / 8) + k mod 8)%nat = k) by (symmetry; apply Nat.div_mod; lia).
  assert (Hmod : (k mod 8 < 8)%nat) by (apply Nat.mod_upper_bound; lia).
  destruct (field_is_null f) eqn:En.
  - split; [exact Hlen|]. intros b Hb. rewrite Hbm by exact Hb. apply bitval_ext. intros j _.
    unfold notnull. destruct (Nat.ltb_spec (8 * b + j) k), (Nat.ltb_spec (8 * b + j) (S k)); try lia; try reflexivity.
    replace (8 * b + j)%nat with k by lia. rewrite Hf, En. reflexivity.
  - unfold aset, aget. rewrite Nat2Z.id. split; [rewrite length_insert; exact Hlen|].
    intros b Hb. rewrite length_insert in Hb. rewrite nth0_insert.
    destruct (decide (b = k / 8 /\ k / 8 < length bm)%nat) as [[-> _]|Hne].
    + rewrite list_lookup_total_alt, (nth0_lookup bm (k / 8) Hkb). cbn [default].
      rewrite Hbm by exact Hkb. rewrite bit_of_pow.
      assert (Hset : bitval (fun x => (x <? S k)%nat && notnull fs x) (8 * (k / 8)) 8 =
                     bitval (fun x => (x <? k)%nat && notnull fs x) (8 * (k / 8)) 8 + 2 ^ Z.of_nat (k mod 8)).
      { apply bitval_set; rewrite ?Hdiv; auto.
        - rewrite Nat.ltb_irrefl. reflexivity.
        - unfold notnull. rewrite (proj2 (Nat.ltb_lt k (S k))) by lia. rewrite Hf, En. reflexivity.
        - intros x Hx. destruct (Nat.ltb_spec x k), (Nat.ltb_spec x (S k)); try lia; reflexivity. }
      unfold id. rewrite Hset. apply wrap_small. rewrite <- Hset. apply bitval_range.
    + rewrite Hbm by exact Hb. apply bitval_ext. intros j Hj.
      destruct (Nat.ltb_spec (8 * b + j) k), (Nat.ltb_spec (8 * b + j) (S k)); try reflexivity; lia.
Qed.

Lemma bitmap_loop_inv fs : forall k bm,
  bitmap_inv fs k bm -> bitmap_inv fs (length fs) (bitmap_loop (drop k fs) k bm).
Proof.
  intros k bm. remember (drop k fs) as rest eqn:Er. revert k bm Er.
  induction rest as [|f rest IH]; intros k bm Er Hinv; cbn [bitmap_loop].
  - assert (length fs <= k)%nat by (apply (f_equal length) in Er; rewrite length_drop in Er; cbn in Er; lia).
    destruct Hinv as [Hl Hbm]. split; [exact Hl|]. intros b Hb. rewrite Hbm by exact Hb.
    apply bitval_ext. intros j _. unfold notnull.
    destruct (Nat.ltb_spec (8 * b + j) k), (Nat.ltb_spec (8 * b + j) (length fs)); try reflexivity.
    + rewrite (lookup_ge_None_2 fs) by lia. reflexivity.
    + lia.
  - assert (Hf : fs !! k = Some f) by (rewrite <- (Nat.add_0_r k), <- lookup_drop, <- Er; reflexivity).
    apply IH; [|exact (bitmap_step fs k f bm Hf Hinv)].
    replace (S k) with (k + 1)%nat by lia. rewrite <- drop_drop, <- Er. reflexivity.
Qed.

(** The bitmap [SerializeTo] writes has [n / 8 + 1] bytes, and the bit of
    field [k] is clear exactly when that field is null. *)
Lemma row_bitmap_spec fs :
  length (row_bitmap fs) = (length fs / 8 + 1)%nat /\
  forall k f, fs !! k = Some f ->
  (Z.land (nth0 (row_bitmap fs) (k / 8)) (bit_of k) =? 0) = field_is_null f.
Proof.
  destruct (bitmap_loop_inv fs 0 (replicate (length fs / 8 + 1) 0)) as [Hl Hbm].
  { split; [apply length_replicate|]. intros b Hb. rewrite length_replicate in Hb.
    unfold nth0. rewrite lookup_replicate_2 by exact Hb. cbn [default].
    symmetry. apply bitval_zero. reflexivity. }
  rewrite drop_0 in Hl, Hbm. unfold row_bitmap. split; [exact Hl|].
  intros k f Hf. assert (Hk : (k < length fs)%nat) by (apply lookup_lt_Some in Hf; exact Hf).
  rewrite Hbm by (rewrite Hl; pose proof (Nat.Div0.div_le_mono k (length fs) 8); lia).
  rewrite bit_of_pow, land_pow2_eqb_0, bitval_testbit by lia.
  rewrite <- Nat.div_mod by lia.
  rewrite (proj2 (Nat.ltb_lt _ _) (Nat.mod_upper_bound k 8 ltac:(lia))), (proj2 (Nat.ltb_lt _ _) Hk).
  unfold notnull. rewrite Hf. apply negb_involutive.
Qed.

End RowProofs.

(** A [RowId] [MACH_WRITE_TO] can carry: an [int32_t] page id and a
    [uint32_t] slot. *)
Definition rid_ok (r : RowId) : Prop :=
  -2 ^ 31 <= page_id r < 2 ^ 31 /\ 0 <= slot_num r < 2 ^ 32.

Section RowRoundTrip.
Context {Field : Type} `{FieldCodecLaws Field}.
Variable ROW_MAGIC_NUM : Z.
Hypothesis ROW_MAGIC_NUM_range : 0 <= ROW_MAGIC_NUM < 2 ^ 32.

(** The schema gives field [k] of the row its type. *)
Definition row_fits (schema : Schema) (row : Row Field) : Prop :=
  forall k f, fields_ row !! k = Some f ->
  exists col, columns_ schema !! k = Some col /\ type_ col = field_type f.

Definition fields_bytes (fs : list Field) : list Z := concat (map field_SerializeTo fs).

(** The last loop of [SerializeTo] writes the fields one after the other
    and returns [GetSerializedSize]'s sum. *)
Lemma serialize_fields_eq fs tot :
  serialize_fields fs tot =
  (fields_bytes fs, fold_left (fun t f => wrap 32 (t + field_GetSerializedSize f)) fs tot).
Proof.
  revert tot; induction fs as [|f fs IH]; intros tot; [reflexivity|].
  cbn [serialize_fields fold_left]. rewrite IH, field_size. reflexivity.
Qed.

Lemma fold_sizes_small fs tot :
  0 <= tot -> tot + Z.of_nat (length (fields_bytes fs)) < 2 ^ 32 ->
  fold_left (fun t f => wrap 32 (t + field_GetSerializedSize f)) fs tot =
  tot + Z.of_nat (length (fields_bytes fs)).
Proof.
  revert tot; induction fs as [|f fs IH]; intros tot Hpos Hlt; cbn [fold_left]; [cbn; lia|].
  unfold fields_bytes in *. cbn [map concat] in *. rewrite length_app in Hlt.
  rewrite field_size, wrap_small by lia. rewrite IH by lia. rewrite length_app. lia.
Qed.

(** The loop of [DeserializeFrom] reads back the fields the loop of
    [SerializeTo] wrote, when the schema gives each its type and the
    bitmap its null flag. *)
Lemma deserialize_fields_serialize fs : forall i P rest bitmap cols,
  (forall k f, fs !! k = Some f ->
     (exists col, cols !! (i + k)%nat = Some col /\ type_ col = field_type f) /\
     (Z.land (nth0 bitmap ((i + k) / 8)) (bit_of (i + k)) =? 0) = field_is_null f) ->
  Z.of_nat (length P + length (fields_bytes fs)) < 2 ^ 32 ->
  deserialize_fields (length fs) i (P ++ fields_bytes fs ++ rest) bitmap cols (Z.of_nat (length P))
  = Some (Z.of_nat (length P + length (fields_bytes fs)), fs).
Proof.
  unfold fields_bytes. induction fs as [|f fs IH]; intros i P rest bitmap cols Hfs Hlen.
  - cbn. rewrite Nat.add_0_r. reflexivity.
  - destruct (Hfs 0%nat f eq_refl) as [[col [Hcol Hty]] Hnull]. rewrite Nat.add_0_r in Hcol, Hnull.
    cbn [deserialize_fields length map concat] in *. rewrite length_app in Hlen.
    rewrite Hnull, Hcol. cbn [mbind option_bind]. rewrite Nat2Z.id, drop_app_length, <- app_assoc, Hty, field_roundtrip.
    cbn [mbind option_bind].
    replace (wrap 32 (Z.of_nat (length P) + Z.of_nat (length (field_SerializeTo f))))
      with (Z.of_nat (length (P ++ field_SerializeTo f))) by (rewrite length_app, wrap_small; lia).
    rewrite app_assoc, IH; [rewrite !length_app, Nat.add_assoc; reflexivity| |rewrite length_app; lia].
    intros k g Hg. rewrite Nat.add_succ_comm. exact (Hfs (S k) g Hg).
Qed.

(** The header [SerializeTo] writes before the fields. *)
Definition row_header (row : Row Field) : list Z :=
  le_encode 4 ROW_MAGIC_NUM ++ le_encode 8 (Z.of_nat (length (fields_ row))) ++ le_encode 4 (page_id (rid_ row))
    ++ le_encode 4 (slot_num (rid_ row)) ++ row_bitmap (fields_ row).

Lemma Row_SerializeTo_eq row :
  Row_SerializeTo ROW_MAGIC_NUM row =
  (row_header row ++ fields_bytes (fields_ row),
   fold_left (fun t f => wrap 32 (t + field_GetSerializedSize f)) (fields_ row)
     (wrap 32 (4 + 8 + 8 + Z.of_nat (length (fields_ row) / 8 + 1)))).
Proof. unfold Row_SerializeTo, row_header. rewrite serialize_fields_eq, <- !app_assoc. reflexivity. Qed.

Lemma length_row_header row : length (row_header row) = (20 + (length (fields_ row) / 8 + 1))%nat.
Proof. unfold row_header. rewrite !length_app, !length_le_encode, (proj1 (row_bitmap_spec _)). lia. Qed.

(** C16: Round trip of a row: when the schema gives every field its type
    and the [RowId] fits its [int32_t]/[uint32_t] slots,
    [Row::DeserializeFrom] reads back from the bytes [Row::SerializeTo]
    wrote (whatever follows them) the same row, null flags included, and
    the offset both return is the number of bytes written, which is
    [Row::GetSerializedSize]. *)
Theorem Row_roundtrip schema row rest :
  row_fits schema row -> rid_ok (rid_ row) ->
  Z.of_nat (length (fst (Row_SerializeTo ROW_MAGIC_NUM row))) < 2 ^ 32 ->
  Row_DeserializeFrom ROW_MAGIC_NUM (fst (Row_SerializeTo ROW_MAGIC_NUM row) ++ rest) schema =
    Some (snd (Row_SerializeTo ROW_MAGIC_NUM row), Some row) /\
  snd (Row_SerializeTo ROW_MAGIC_NUM row) = Z.of_nat (length (fst (Row_SerializeTo ROW_MAGIC_NUM row))) /\
  snd (Row_SerializeTo ROW_MAGIC_NUM row) = Row_GetSerializedSize row.
Proof.
  intros Hfit [Hpid Hslot] Hlen. rewrite Row_SerializeTo_eq in *. cbn [fst snd] in *.
  rewrite length_app, length_row_header in Hlen.
  assert (Hw : wrap 32 (4 + 8 + 8 + Z.of_nat (length (fields_ row) / 8 + 1)) = Z.of_nat (length (row_header row)))
    by (rewrite length_row_header, wrap_small; lia).
  unfold Row_GetSerializedSize. rewrite Hw, fold_sizes_small by (rewrite ?length_row_header; lia).
  split; [|split; [rewrite length_app; lia|reflexivity]].
  destruct row as [[pid slot] fs]. cbn [rid_ fields_ page_id slot_num] in *.
  assert (Hn : (length fs < 8 * (length fs / 8 + 1))%nat)
    by (pose proof (Nat.div_mod (length fs) 8); pose proof (Nat.mod_upper_bound (length fs) 8); lia).
  set (B := (row_header _ ++ fields_bytes fs) ++ rest).
  assert (E0 : rd B 0 4 = ROW_MAGIC_NUM).
  { unfold B, row_header, rd. rewrite <- !app_assoc, read_bytes_head by apply length_le_encode.
    apply le_decode_encode_small. cbn; lia. }
  assert (E1 : rd B 4 8 = Z.of_nat (length fs)).
  { unfold B, row_header. cbn [fields_ rid_ page_id slot_num]. rewrite <- !app_assoc. read_field.
    apply le_decode_encode_small. cbn. lia. }
  assert (E2 : to_signed 32 (rd B 12 4) = pid).
  { unfold B, row_header. cbn [fields_ rid_ page_id slot_num]. rewrite <- !app_assoc. read_field.
    apply to_signed_le_encode4. exact Hpid. }
  assert (E3 : rd B 16 4 = slot).
  { unfold B, row_header. cbn [fields_ rid_ page_id slot_num]. rewrite <- !app_assoc. read_field.
    apply le_decode_encode_small. cbn. lia. }
  assert (Enb : Z.of_nat (length fs) / 8 + 1 = Z.of_nat (length fs / 8 + 1))
    by (rewrite Nat2Z.inj_add, Nat2Z.inj_div; reflexivity).
  assert (E4 : read_bytes B 20 (Z.to_nat (Z.of_nat (length fs) / 8 + 1)) = row_bitmap fs).
  { rewrite Enb, Nat2Z.id, <- (proj1 (row_bitmap_spec fs)).
    unfold B, row_header, read_bytes. cbn [fields_ rid_ page_id slot_num]. rewrite <- !app_assoc.
    rewrite !drop_app_ge by (rewrite ?length_le_encode; cbn [length]; lia). rewrite !length_le_encode.
    cbn [Nat.sub]. rewrite drop_0. apply take_app_length. }
  unfold Row_DeserializeFrom. rewrite E0, Z.eqb_refl, E1, E2, E3, Nat2Z.id, E4, Enb.
  replace (wrap 32 (4 + 8 + 8 + Z.of_nat (length fs / 8 + 1))) with
    (Z.of_nat (length (row_header (mkRow (mkRowId pid slot) fs)))) by (rewrite <- Hw; reflexivity).
  unfold B. rewrite <- app_assoc, deserialize_fields_serialize; [cbn [mbind option_bind]; rewrite Nat2Z.inj_add; reflexivity| |rewrite length_row_header; cbn [fields_]; lia].
  intros k f Hf. cbn [Nat.add]. split; [exact (Hfit k f Hf)|]. exact (proj2 (row_bitmap_spec fs) k f Hf).
Qed.

End RowRoundTrip.

(** [row_fits] decided column by column. *)
Fixpoint row_fitsb {Field} `{FieldCodec Field} (cs : list Column) (fs : list Field) : bool :=
  match fs, cs with
  | [], _ => true
  | f :: fs', c :: cs' => bool_decide (type_ c = field_type f) && row_fitsb cs' fs'
  | _ :: _, [] => false
  end.

Lemma row_fitsb_sound {Field} `{FieldCodec Field} schema (row : Row Field) :
  row_fitsb (columns_ schema) (fields_ row) = true -> row_fits schema row.
Proof.
  destruct schema as [cs], row as [r fs]. unfold row_fits. cbn [columns_ fields_].
  revert cs; induction fs as [|f fs IH]; intros cs Hb k g Hg; [inversion Hg|].
  destruct cs as [|c cs]; [discriminate|].
  cbn [row_fitsb] in Hb. apply andb_true_iff in Hb as [Ht Hb]. apply bool_decide_eq_true in Ht.
  destruct k as [|k]; cbn in Hg |- *; [injection Hg as <-; eauto|exact (IH cs Hb k g Hg)].
Qed.

(** ** Witnesses *)

Section Witnesses.

(** A sample field type: a [char(1)] that may be null, one byte when it
    is not null and none when it is. *)
#[local] Instance char1_codec : FieldCodec (option byte) := {|
  field_is_null f := match f with None => true | Some _ => false end;
  field_type _ := kTypeChar;
  field_SerializeTo f := match f with None => [] | Some b => [Z.of_N (Byte.to_N b)] end;
  field_GetSerializedSize f := match f with None => 0 | Some _ => 1 end;
  field_DeserializeFrom buf _ is_null :=
    if is_null then Some (None, 0)
    else match buf with
         | x :: _ => b ← Byte.of_N (Z.to_N x); Some (Some b, 1)
         | [] => None
         end
|}.

#[local] Instance char1_laws : FieldCodecLaws (option byte).
Proof.
  split; intros [b|]; try reflexivity. intros rest. cbn. rewrite N2Z.id, Byte.of_to_N. reflexivity.
Qed.

Definition wrow_magic : Z := 200417.
(** Nine fields, so that the bitmap has two bytes. *)
Definition wrow : Row (option byte) :=
  mkRow (mkRowId (-5) 3) [Some x61; None; Some x62; Some x63; None; None; Some x64; Some x65; None].
Definition wrow_schema : Schema := mkSchema (repeat (mkColumn [99] kTypeChar 1 0 true false) 9).

Lemma Row_roundtrip_witness :
  Row_DeserializeFrom wrow_magic (fst (Row_SerializeTo wrow_magic wrow) ++ [9; 9]) wrow_schema =
    Some (snd (Row_SerializeTo wrow_magic wrow), Some wrow) /\
  snd (Row_SerializeTo wrow_magic wrow) = Z.of_nat (length (fst (Row_SerializeTo wrow_magic wrow))) /\
  snd (Row_SerializeTo wrow_magic wrow) = Row_GetSerializedSize wrow.
Proof.
  apply Row_roundtrip;
    [unfold wrow_magic; lia|apply row_fitsb_sound; reflexivity|unfold rid_ok; cbn; lia|vm_compute; reflexivity].
Defined.

End Witnesses.

End RowFormat.
