(* ===== verification/Catalog.v ===== *)
(** * Catalog metadata and its byte format (catalog/catalog.cpp,
      catalog/table.cpp, catalog/indexes.cpp)

    The catalog keeps, on its meta page, two [std::map]s from table ids
    and index ids to the pages that hold their metadata ([CatalogMeta]);
    each table's metadata page holds its id, name, heap root page and
    schema ([TableMetadata]); each index's holds its id, name, table id
    and key map ([IndexMetadata]).  A [std::map] is a list of pairs
    strictly increasing in the key, [map_insert] its [insert] (which keeps
    an existing key's value).

    The codecs write with MACH_WRITE_TO and read with MACH_READ_FROM as
    in Records.v.  [IndexMetadata::SerializeTo] writes into the page: it
    writes the name length and the key-map size as 4 bytes
    (MACH_WRITE_UINT32) but advances by [sizeof(size_t)], 8 bytes, so the
    4 bytes after each are whatever the page held; its
    [DeserializeFrom] reads them back as 8-byte [size_t]s.  So the index
    codec is modelled on the page buffer it writes into, and a
    [memcpy] or read past the end of that page is undefined behaviour,
    [None]. *)

From Stdlib Require Import ZArith Lia List Sorting.Sorted.
From stdpp Require Import base list.
From S2P Require Import Spec2Rocq Records.
Import ListNotations.
Open Scope Z_scope.

Module Catalog.
Import Records.

(** [std::map::insert]: nothing when the key is present. *)
Fixpoint map_insert (k v : Z) (m : list (Z * Z)) : list (Z * Z) :=
  match m with
  | [] => [(k, v)]
  | (k', v') :: m' =>
      if k <? k' then (k, v) :: m
      else if k =? k' then m
      else (k', v') :: map_insert k v m'
  end.

Record CatalogMeta := mkCatalogMeta {
  table_meta_pages_ : list (Z * Z);
  index_meta_pages_ : list (Z * Z)
}.

(** The pairs of a map, in key order: an id ([uint32_t]) and a page id
    ([int32_t]). *)
Definition encode_pairs (m : list (Z * Z)) : list Z :=
  concat (map (fun '(k, v) => le_encode 4 k ++ le_encode 4 v) m).

Section CatalogMetaCodec.
Variable CATALOG_METADATA_MAGIC_NUM : Z.

(** [CatalogMeta::SerializeTo]: the bytes written at the start of the
    meta page. *)
Definition CatalogMeta_SerializeTo (cm : CatalogMeta) : list Z :=
  le_encode 4 CATALOG_METADATA_MAGIC_NUM
  ++ le_encode 8 (Z.of_nat (length (table_meta_pages_ cm))) ++ encode_pairs (table_meta_pages_ cm)
  ++ le_encode 8 (Z.of_nat (length (index_meta_pages_ cm))) ++ encode_pairs (index_meta_pages_ cm).

(** A loop of [CatalogMeta::DeserializeFrom]: [size] pairs from
    [tot_offset] on, each inserted into the map. *)
Fixpoint read_pairs (fuel : nat) (buf : list Z) (tot : Z) (m : list (Z * Z)) : list (Z * Z) * Z :=
  match fuel with
  | O => (m, tot)
  | S f =>
      let id := rd buf (Z.to_nat tot) 4 in
      let page_id := to_signed 32 (rd buf (Z.to_nat (wrap 32 (tot + 4))) 4) in
      read_pairs f buf (wrap 32 (tot + 8)) (map_insert id page_id m)
  end.

(** [CatalogMeta::DeserializeFrom]: [None] is the nullptr of a wrong
    magic number. *)
Definition CatalogMeta_DeserializeFrom (buf : list Z) : option CatalogMeta :=
  if rd buf 0 4 =? CATALOG_METADATA_MAGIC_NUM then
    let n1 := rd buf 4 8 in
    let '(tables, tot1) := read_pairs (Z.to_nat n1) buf 12 [] in
    let n2 := rd buf (Z.to_nat tot1) 8 in
    let '(indexes, _) := read_pairs (Z.to_nat n2) buf (wrap 32 (tot1 + 8)) [] in
    Some (mkCatalogMeta tables indexes)
  else None.

(** [CatalogMeta::GetSerializedSize]. *)
Definition CatalogMeta_GetSerializedSize (cm : CatalogMeta) : Z :=
  wrap 32 (4 + 2 * 8 + Z.of_nat (length (table_meta_pages_ cm)) * (4 + 4)
           + Z.of_nat (length (index_meta_pages_ cm)) * (4 + 4)).

End CatalogMetaCodec.

Record TableMetadata := mkTableMetadata {
  table_id_ : Z;
  table_name_ : list Z;
  root_page_id_ : Z;
  schema_ : Schema
}.

Section TableMetadataCodec.
Variables TABLE_METADATA_MAGIC_NUM SCHEMA_MAGIC_NUM COLUMN_MAGIC_NUM : Z.

(** [TableMetadata::SerializeTo]. *)
Definition TableMetadata_SerializeTo (tm : TableMetadata) : list Z * Z :=
  let '(sb, sn) := Schema_SerializeTo SCHEMA_MAGIC_NUM COLUMN_MAGIC_NUM (schema_ tm) in
  (le_encode 4 TABLE_METADATA_MAGIC_NUM ++ le_encode 4 (table_id_ tm)
     ++ le_encode 8 (Z.of_nat (length (table_name_ tm))) ++ table_name_ tm ++ le_encode 4 (root_page_id_ tm) ++ sb,
   wrap 32 (wrap 32 (4 + 4 + 8 + Z.of_nat (length (table_name_ tm)) + 4) + sn)).

(** [TableMetadata::GetSerializedSize]. *)
Definition TableMetadata_GetSerializedSize (tm : TableMetadata) : Z :=
  wrap 32 (4 + 4 + 8 + Z.of_nat (length (table_name_ tm)) + 4 + Schema_GetSerializedSize (schema_ tm)).

(** [TableMetadata::DeserializeFrom]: the name is the C string built from
    the unterminated [name1] (as in [Column::DeserializeFrom]); a schema
    with a wrong magic number leaves [schema] uninitialised, [None]. *)
Definition TableMetadata_DeserializeFrom (buf heap_after : list Z) : option (Z * option TableMetadata) :=
  if rd buf 0 4 =? TABLE_METADATA_MAGIC_NUM then
    let table_id := rd buf 4 4 in
    let str_len := rd buf 8 8 in
    table_name ← cstring (read_bytes buf 16 (Z.to_nat str_len) ++ heap_after);
    let tot := wrap 32 (16 + str_len) in
    let root_page_id := to_signed 32 (rd buf (Z.to_nat tot) 4) in
    let tot' := wrap 32 (tot + 4) in
    '(n, read) ← Schema_DeserializeFrom SCHEMA_MAGIC_NUM COLUMN_MAGIC_NUM (drop (Z.to_nat tot') buf) heap_after;
    schema ← read;
    Some (wrap 32 (tot' + n), Some (mkTableMetadata table_id table_name root_page_id schema))
  else Some (0, None).

End TableMetadataCodec.

Record IndexMetadata := mkIndexMetadata {
  index_id_ : Z;
  index_name_ : list Z;
  im_table_id_ : Z;
  key_map_ : list Z
}.

Section IndexMetadataCodec.
Variable INDEX_METADATA_MAGIC_NUM : Z.

(** The loop of [SerializeTo]: each key-map entry, 4 bytes. *)
Fixpoint write_key_map (buf : list Z) (offset : Z) (km : list Z) : list Z * Z :=
  match km with
  | [] => (buf, offset)
  | x :: km' => write_key_map (write_bytes buf (Z.to_nat offset) (le_encode 4 x)) (wrap 32 (offset + 4)) km'
  end.

(** [IndexMetadata::SerializeTo] into the page [buf]: the page after the
    writes and the offset returned.  The length and the size take 4
    bytes each and the offset moves by 8. *)
Definition IndexMetadata_SerializeTo (buf : list Z) (im : IndexMetadata) : list Z * Z :=
  let len := Z.of_nat (length (index_name_ im)) in
  let b1 := write_bytes buf 0 (le_encode 4 INDEX_METADATA_MAGIC_NUM) in
  let b2 := write_bytes b1 4 (le_encode 4 (index_id_ im)) in
  let b3 := write_bytes b2 8 (le_encode 4 len) in
  let b4 := write_bytes b3 16 (index_name_ im) in
  let off := wrap 32 (16 + len) in
  let b5 := write_bytes b4 (Z.to_nat off) (le_encode 4 (im_table_id_ im)) in
  let b6 := write_bytes b5 (Z.to_nat (wrap 32 (off + 4))) (le_encode 4 (Z.of_nat (length (key_map_ im)))) in
  write_key_map b6 (wrap 32 (off + 4 + 8)) (key_map_ im).

(** [IndexMetadata::GetSerializedSize]. *)
Definition IndexMetadata_GetSerializedSize (im : IndexMetadata) : Z :=
  wrap 32 (4 + 4 + 4 + 2 * 8 + Z.of_nat (length (index_name_ im)) + Z.of_nat (length (key_map_ im)) * 4).

(** The loop of [DeserializeFrom]: [size] entries of 4 bytes, reading
    past the page undefined. *)
Fixpoint read_key_map (fuel : nat) (buf : list Z) (offset : Z) : option (list Z * Z) :=
  match fuel with
  | O => Some ([], offset)
  | S f =>
      if (Z.to_nat offset + 4 <=? length buf)%nat then
        '(km, off') ← read_key_map f buf (wrap 32 (offset + 4));
        Some (rd buf (Z.to_nat offset) 4 :: km, off')
      else None
  end.

(** [IndexMetadata::DeserializeFrom]: [(0, None)] on a wrong magic
    number; [None] when a length read back sends a [memcpy] or a read
    past the page. *)
Definition IndexMetadata_DeserializeFrom (buf heap_after : list Z) : option (Z * option IndexMetadata) :=
  if negb (rd buf 0 4 =? INDEX_METADATA_MAGIC_NUM) then Some (0, None)
  else
    let index_id := rd buf 4 4 in
    let str_len := rd buf 8 8 in
    if 16 + str_len <=? Z.of_nat (length buf) then
      index_name ← cstring (read_bytes buf 16 (Z.to_nat str_len) ++ heap_after);
      let offset := wrap 32 (16 + str_len) in
      let table_id := rd buf (Z.to_nat offset) 4 in
      let size := rd buf (Z.to_nat (wrap 32 (offset + 4))) 8 in
      '(key_map, offset') ← read_key_map (Z.to_nat size) buf (wrap 32 (offset + 4 + 8));
      Some (offset', Some (mkIndexMetadata index_id index_name table_id key_map))
    else None.

End IndexMetadataCodec.

(** ** The meta page round trip *)

Definition key_lt (a b : Z * Z) : Prop := fst a < fst b.

(** What a [std::map<uint32_t, int32_t>] holds: keys in increasing order,
    each pair in range. *)
Definition map_ok (m : list (Z * Z)) : Prop :=
  StronglySorted key_lt m /\ Forall (fun '(k, v) => 0 <= k < 2 ^ 32 /\ -2 ^ 31 <= v < 2 ^ 31) m.

Fixpoint map_okb (m : list (Z * Z)) : bool :=
  match m with
  | [] => true
  | (k, v) :: m' =>
      forallb (fun '(k', _) => k <? k') m' && ((0 <=? k) && (k <? 2 ^ 32) && (- 2 ^ 31 <=? v) && (v <? 2 ^ 31))
      && map_okb m'
  end.

Lemma map_okb_sound m : map_okb m = true -> map_ok m.
Proof.
  induction m as [|[k v] m IH]; intros H; [split; constructor|].
  cbn [map_okb] in H. rewrite !andb_true_iff in H. destruct H as [[Hall [[[H1 H2] H3] H4]] Hm].
  destruct (IH Hm) as [Hs Hf]. zbool. split.
  - constructor; [exact Hs|]. apply Forall_forall. intros [k' v'] Hin.
    rewrite forallb_forall in Hall. apply list_elem_of_In in Hin. specialize (Hall _ Hin). apply Z.ltb_lt in Hall. exact Hall.
  - constructor; [|exact Hf]. lia.
Qed.

Lemma rd_at (P X R : list Z) n : length X = n -> rd (P ++ X ++ R) (length P) n = le_decode X.
Proof.
  intros Hn. unfold rd. rewrite read_bytes_skip by lia. rewrite Nat.sub_diag. f_equal. apply read_bytes_head, Hn.
Qed.

Lemma map_insert_last k v m : Forall (fun a => fst a < k) m -> map_insert k v m = m ++ [(k, v)].
Proof.
  induction 1 as [|[k' v'] m Hk _ IH]; cbn [map_insert]; [reflexivity|]. cbn in Hk.
  rewrite (proj2 (Z.ltb_ge _ _)), (proj2 (Z.eqb_neq _ _)), IH by lia. reflexivity.
Qed.

Lemma sorted_app_lt (l1 l2 : list (Z * Z)) x :
  StronglySorted key_lt (l1 ++ x :: l2) -> Forall (fun a => fst a < fst x) l1.
Proof.
  induction l1 as [|a l1 IH]; intros Hs; [constructor|]. cbn in Hs.
  apply StronglySorted_inv in Hs as [Hs Ha]. constructor; [|exact (IH Hs)].
  rewrite Forall_forall in Ha. apply Ha. apply list_elem_of_In, in_or_app. right. left. reflexivity.
Qed.

Lemma length_encode_pairs m : length (encode_pairs m) = (8 * length m)%nat.
Proof.
  induction m as [|[k v] m IH]; [reflexivity|]. unfold encode_pairs in *. cbn [map concat length].
  rewrite !length_app, !length_le_encode, IH. lia.
Qed.

Lemma encode_pairs_cons k v m : encode_pairs ((k, v) :: m) = le_encode 4 k ++ le_encode 4 v ++ encode_pairs m.
Proof. unfold encode_pairs. cbn [map concat]. rewrite app_assoc. reflexivity. Qed.

(** A loop of [DeserializeFrom] reads back, in order, the pairs the
    loop of [SerializeTo] wrote, and inserts each after the others. *)
Lemma read_pairs_encode m : forall acc P rest,
  StronglySorted key_lt (acc ++ m) -> Forall (fun '(k, v) => 0 <= k < 2 ^ 32 /\ -2 ^ 31 <= v < 2 ^ 31) m ->
  Z.of_nat (length P + 8 * length m) < 2 ^ 32 ->
  read_pairs (length m) (P ++ encode_pairs m ++ rest) (Z.of_nat (length P)) acc =
    (acc ++ m, Z.of_nat (length P + 8 * length m)).
Proof.
  induction m as [|[k v] m IH]; intros acc P rest Hs Hr Hlen.
  - cbn. rewrite app_nil_r, Nat.add_0_r. reflexivity.
  - apply Forall_cons in Hr as [[Hk Hv] Hr]. cbn [length read_pairs] in *. rewrite encode_pairs_cons, <- !app_assoc.
    set (R := encode_pairs m ++ rest).
    assert (E1 : rd (P ++ le_encode 4 k ++ le_encode 4 v ++ R) (length P) 4 = k)
      by (rewrite rd_at by apply length_le_encode; apply le_decode_encode_small; cbn; lia).
    assert (E2 : rd (P ++ le_encode 4 k ++ le_encode 4 v ++ R) (length (P ++ le_encode 4 k)) 4 = le_decode (le_encode 4 v))
      by (rewrite app_assoc, rd_at by apply length_le_encode; reflexivity).
    rewrite Nat2Z.id, E1.
    replace (wrap 32 (Z.of_nat (length P) + 4)) with (Z.of_nat (length (P ++ le_encode 4 k)))
      by (rewrite length_app, length_le_encode, wrap_small; lia).
    rewrite Nat2Z.id, E2, to_signed_le_encode4 by exact Hv.
    replace (wrap 32 (Z.of_nat (length P) + 8)) with (Z.of_nat (length ((P ++ le_encode 4 k) ++ le_encode 4 v)))
      by (rewrite !length_app, !length_le_encode, wrap_small; lia).
    rewrite (map_insert_last k v acc) by (exact (sorted_app_lt acc m (k, v) Hs)).
    replace (P ++ le_encode 4 k ++ le_encode 4 v ++ R) with (((P ++ le_encode 4 k) ++ le_encode 4 v) ++ encode_pairs m ++ rest)
      by (unfold R; rewrite <- !app_assoc; reflexivity).
    rewrite IH; [|rewrite <- app_assoc; exact Hs|exact Hr|rewrite !length_app, !length_le_encode; lia].
    rewrite <- app_assoc, !length_app, !length_le_encode. f_equal. lia.
Qed.

Section CatalogMetaProofs.
Variable CATALOG_METADATA_MAGIC_NUM : Z.
Hypothesis CATALOG_METADATA_MAGIC_NUM_range : 0 <= CATALOG_METADATA_MAGIC_NUM < 2 ^ 32.

Lemma length_CatalogMeta_SerializeTo cm :
  length (CatalogMeta_SerializeTo CATALOG_METADATA_MAGIC_NUM cm) =
  (20 + 8 * length (table_meta_pages_ cm) + 8 * length (index_meta_pages_ cm))%nat.
Proof. unfold CatalogMeta_SerializeTo. rewrite !length_app, !length_le_encode, !length_encode_pairs. lia. Qed.

(** C19: Round trip of the catalog meta page: [CatalogMeta::DeserializeFrom]
    reads back, from the bytes [CatalogMeta::SerializeTo] wrote (whatever
    follows them), the same two maps, and [GetSerializedSize] is the
    number of bytes written. *)
Theorem CatalogMeta_roundtrip cm rest :
  map_ok (table_meta_pages_ cm) -> map_ok (index_meta_pages_ cm) ->
  Z.of_nat (length (CatalogMeta_SerializeTo CATALOG_METADATA_MAGIC_NUM cm)) < 2 ^ 32 ->
  CatalogMeta_DeserializeFrom CATALOG_METADATA_MAGIC_NUM (CatalogMeta_SerializeTo CATALOG_METADATA_MAGIC_NUM cm ++ rest)
    = Some cm /\
  Z.of_nat (length (CatalogMeta_SerializeTo CATALOG_METADATA_MAGIC_NUM cm)) =
    CatalogMeta_GetSerializedSize cm.
Proof.
  intros [Hts Htr] [His Hir] Hlen. pose proof (length_CatalogMeta_SerializeTo cm) as Hl.
  split; [|unfold CatalogMeta_GetSerializedSize; rewrite Hl, wrap_small; lia].
  destruct cm as [T I]. cbn [table_meta_pages_ index_meta_pages_] in *.
  unfold CatalogMeta_SerializeTo, CatalogMeta_DeserializeFrom. cbn [table_meta_pages_ index_meta_pages_].
  set (P1 := le_encode 4 CATALOG_METADATA_MAGIC_NUM ++ le_encode 8 (Z.of_nat (length T))).
  set (P2 := P1 ++ encode_pairs T ++ le_encode 8 (Z.of_nat (length I))).
  assert (HP1 : length P1 = 12%nat) by (unfold P1; rewrite length_app, !length_le_encode; reflexivity).
  assert (HP2 : length P2 = (20 + 8 * length T)%nat)
    by (unfold P2; rewrite !length_app, HP1, length_encode_pairs, length_le_encode; lia).
  replace (le_encode 4 CATALOG_METADATA_MAGIC_NUM ++ le_encode 8 (Z.of_nat (length T)) ++ encode_pairs T
             ++ le_encode 8 (Z.of_nat (length I)) ++ encode_pairs I) with (P2 ++ encode_pairs I)
    by (unfold P2, P1; rewrite <- !app_assoc; reflexivity).
  assert (E0 : rd ((P2 ++ encode_pairs I) ++ rest) 0 4 = CATALOG_METADATA_MAGIC_NUM).
  { unfold P2, P1. rewrite <- !app_assoc. read_field. apply le_decode_encode_small. cbn. lia. }
  assert (E1 : rd ((P2 ++ encode_pairs I) ++ rest) 4 8 = Z.of_nat (length T)).
  { unfold P2, P1. rewrite <- !app_assoc. read_field. apply le_decode_encode_small. cbn. lia. }
  rewrite E0, Z.eqb_refl, E1, Nat2Z.id.
  replace ((P2 ++ encode_pairs I) ++ rest) with (P1 ++ encode_pairs T ++ (le_encode 8 (Z.of_nat (length I)) ++ encode_pairs I ++ rest))
    by (unfold P2; rewrite <- !app_assoc; reflexivity).
  replace 12 with (Z.of_nat (length P1)) by (rewrite HP1; reflexivity).
  rewrite (read_pairs_encode T [] P1) by (first [exact Hts|exact Htr|rewrite HP1; lia]).
  replace (length P1 + 8 * length T)%nat with (length (P1 ++ encode_pairs T))
    by (rewrite length_app, length_encode_pairs; lia).
  rewrite Nat2Z.id, app_assoc, rd_at by apply length_le_encode.
  rewrite le_decode_encode_small by (cbn; lia). rewrite Nat2Z.id.
  replace (wrap 32 (Z.of_nat (length (P1 ++ encode_pairs T)) + 8)) with (Z.of_nat (length P2))
    by (rewrite HP2, length_app, length_encode_pairs, wrap_small; lia).
  replace ((P1 ++ encode_pairs T) ++ le_encode 8 (Z.of_nat (length I)) ++ encode_pairs I ++ rest)
    with (P2 ++ encode_pairs I ++ rest) by (unfold P2; rewrite <- !app_assoc; reflexivity).
  rewrite (read_pairs_encode I [] P2); [reflexivity|exact His|exact Hir|rewrite HP2; lia].
Qed.

End CatalogMetaProofs.

Section TableMetadataProofs.
Variables TABLE_METADATA_MAGIC_NUM SCHEMA_MAGIC_NUM COLUMN_MAGIC_NUM : Z.
Hypothesis TABLE_METADATA_MAGIC_NUM_range : 0 <= TABLE_METADATA_MAGIC_NUM < 2 ^ 32.

(** Round trip of a table's metadata page, given its schema's:
    when the schema reads back from its own bytes (the conclusion of
    [Schema_roundtrip]), the table id is a [uint32_t], the root page id an
    [int32_t], the name has no NUL and the heap byte after the copied name
    is one, [TableMetadata::DeserializeFrom] reads back the metadata
    [TableMetadata::SerializeTo] wrote, and both offsets are the number of
    bytes written, which is [GetSerializedSize]. *)
Theorem TableMetadata_roundtrip tm rest heap_after :
  0 <= table_id_ tm < 2 ^ 32 -> -2 ^ 31 <= root_page_id_ tm < 2 ^ 31 ->
  Forall (fun b => b <> 0) (table_name_ tm) -> cstring heap_after = Some [] ->
  Z.of_nat (length (fst (TableMetadata_SerializeTo TABLE_METADATA_MAGIC_NUM SCHEMA_MAGIC_NUM COLUMN_MAGIC_NUM tm))) < 2 ^ 32 ->
  Schema_DeserializeFrom SCHEMA_MAGIC_NUM COLUMN_MAGIC_NUM
    (fst (Schema_SerializeTo SCHEMA_MAGIC_NUM COLUMN_MAGIC_NUM (schema_ tm)) ++ rest) heap_after =
    Some (snd (Schema_SerializeTo SCHEMA_MAGIC_NUM COLUMN_MAGIC_NUM (schema_ tm)), Some (schema_ tm)) /\
  snd (Schema_SerializeTo SCHEMA_MAGIC_NUM COLUMN_MAGIC_NUM (schema_ tm)) =
    Z.of_nat (length (fst (Schema_SerializeTo SCHEMA_MAGIC_NUM COLUMN_MAGIC_NUM (schema_ tm)))) /\
  snd (Schema_SerializeTo SCHEMA_MAGIC_NUM COLUMN_MAGIC_NUM (schema_ tm)) = Schema_GetSerializedSize (schema_ tm) ->
  TableMetadata_DeserializeFrom TABLE_METADATA_MAGIC_NUM SCHEMA_MAGIC_NUM COLUMN_MAGIC_NUM
    (fst (TableMetadata_SerializeTo TABLE_METADATA_MAGIC_NUM SCHEMA_MAGIC_NUM COLUMN_MAGIC_NUM tm) ++ rest) heap_after =
    Some (snd (TableMetadata_SerializeTo TABLE_METADATA_MAGIC_NUM SCHEMA_MAGIC_NUM COLUMN_MAGIC_NUM tm), Some tm) /\
  snd (TableMetadata_SerializeTo TABLE_METADATA_MAGIC_NUM SCHEMA_MAGIC_NUM COLUMN_MAGIC_NUM tm) =
    Z.of_nat (length (fst (TableMetadata_SerializeTo TABLE_METADATA_MAGIC_NUM SCHEMA_MAGIC_NUM COLUMN_MAGIC_NUM tm))) /\
  snd (TableMetadata_SerializeTo TABLE_METADATA_MAGIC_NUM SCHEMA_MAGIC_NUM COLUMN_MAGIC_NUM tm) =
    TableMetadata_GetSerializedSize tm.
Proof.
  intros Hid Hroot Hnz Hh Hlen (Hsch & Hsn & Hsz). destruct tm as [id name root sc]. cbn [table_id_ table_name_ root_page_id_ schema_] in *.
  unfold TableMetadata_SerializeTo, TableMetadata_GetSerializedSize in *. cbn [table_id_ table_name_ root_page_id_ schema_] in *.
  destruct (Schema_SerializeTo SCHEMA_MAGIC_NUM COLUMN_MAGIC_NUM sc) as [sb sn] eqn:Es. cbn [fst snd] in *.
  rewrite !length_app, !length_le_encode in Hlen.
  assert (Hoff : wrap 32 (wrap 32 (4 + 4 + 8 + Z.of_nat (length name) + 4) + sn) = Z.of_nat (20 + length name + length sb))
    by (rewrite Hsn, (wrap_small 32 (4 + 4 + 8 + Z.of_nat (length name) + 4)), wrap_small; lia).
  rewrite Hoff. split; [|split; [rewrite !length_app, !length_le_encode; lia|rewrite <- Hsz; rewrite Hsn, wrap_small; lia]].
  set (P := le_encode 4 TABLE_METADATA_MAGIC_NUM ++ le_encode 4 id ++ le_encode 8 (Z.of_nat (length name))).
  assert (HP : length P = 16%nat) by (unfold P; rewrite !length_app, !length_le_encode; reflexivity).
  replace ((le_encode 4 TABLE_METADATA_MAGIC_NUM ++ le_encode 4 id ++ le_encode 8 (Z.of_nat (length name)) ++ name
              ++ le_encode 4 root ++ sb) ++ rest)
    with (P ++ name ++ le_encode 4 root ++ sb ++ rest) by (unfold P; rewrite <- !app_assoc; reflexivity).
  unfold TableMetadata_DeserializeFrom.
  assert (E0 : rd (P ++ name ++ le_encode 4 root ++ sb ++ rest) 0 4 = TABLE_METADATA_MAGIC_NUM).
  { unfold P. rewrite <- !app_assoc. read_field. apply le_decode_encode_small. cbn. lia. }
  assert (E1 : rd (P ++ name ++ le_encode 4 root ++ sb ++ rest) 4 4 = id).
  { unfold P. rewrite <- !app_assoc. read_field. apply le_decode_encode_small. cbn. lia. }
  assert (E2 : rd (P ++ name ++ le_encode 4 root ++ sb ++ rest) 8 8 = Z.of_nat (length name)).
  { unfold P. rewrite <- !app_assoc. read_field. apply le_decode_encode_small. cbn. lia. }
  assert (E3 : read_bytes (P ++ name ++ le_encode 4 root ++ sb ++ rest) 16 (length name) = name).
  { rewrite read_bytes_skip by lia. rewrite HP, Nat.sub_diag. apply read_bytes_head. reflexivity. }
  rewrite E0, Z.eqb_refl, E1, E2, Nat2Z.id, E3, (cstring_app name heap_after Hnz), Hh. cbn [fmap option_fmap option_map mbind option_bind].
  rewrite app_nil_r.
  replace (wrap 32 (16 + Z.of_nat (length name))) with (Z.of_nat (length (P ++ name)))
    by (rewrite length_app, HP, wrap_small; lia).
  rewrite Nat2Z.id, app_assoc, rd_at, to_signed_le_encode4 by (first [exact Hroot|apply length_le_encode]).
  replace (wrap 32 (Z.of_nat (length (P ++ name)) + 4)) with (Z.of_nat (length ((P ++ name) ++ le_encode 4 root)))
    by (rewrite !length_app, HP, length_le_encode, wrap_small; lia).
  rewrite Nat2Z.id, app_assoc, drop_app_length, Hsch. cbn [mbind option_bind].
  f_equal. f_equal. rewrite Hsn, !length_app, HP, length_le_encode, wrap_small by lia. lia.
Qed.

End TableMetadataProofs.

(** ** Writing into the page *)

Lemma write_bytes_0 (B bytes : list Z) : write_bytes B 0 bytes = bytes ++ drop (length bytes) B.
Proof. reflexivity. Qed.

(** A write just after a prefix leaves the prefix. *)
Lemma write_bytes_after (A B bytes : list Z) n :
  length A = n -> write_bytes (A ++ B) n bytes = A ++ bytes ++ drop (length bytes) B.
Proof.
  intros <-. unfold write_bytes. rewrite take_app_length, drop_app_ge by lia.
  f_equal. f_equal. f_equal. lia.
Qed.

Lemma length_read_bytes (buf : list Z) k j : (k + j <= length buf)%nat -> length (read_bytes buf k j) = j.
Proof. intros. unfold read_bytes. rewrite length_take, length_drop. lia. Qed.

Lemma drop_read_bytes (buf : list Z) k j : drop k buf = read_bytes buf k j ++ drop (k + j) buf.
Proof. unfold read_bytes. rewrite <- drop_drop, take_drop. reflexivity. Qed.

Lemma le_decode_app (A B : list Z) : le_decode (A ++ B) = le_decode A + 2 ^ (8 * Z.of_nat (length A)) * le_decode B.
Proof.
  induction A as [|a A IH]; cbn [app le_decode length]; [cbn; lia|].
  rewrite IH, Nat2Z.inj_succ, Z.mul_succ_r, Z.pow_add_r by lia. change (2 ^ 8) with 256. lia.
Qed.

Section IndexMetadataProofs.
Variable INDEX_METADATA_MAGIC_NUM : Z.

(** The loop of [SerializeTo] writes the entries one after the other. *)
Lemma write_key_map_after km : forall A B,
  (4 * length km <= length B)%nat -> Z.of_nat (length A + 4 * length km) < 2 ^ 32 ->
  write_key_map (A ++ B) (Z.of_nat (length A)) km =
  (A ++ concat (map (le_encode 4) km) ++ drop (4 * length km) B, Z.of_nat (length A + 4 * length km)).
Proof.
  induction km as [|x km IH]; intros A B Hb Hlen; cbn [write_key_map length map concat] in *.
  - rewrite Nat.add_0_r. reflexivity.
  - rewrite Nat2Z.id, write_bytes_after, length_le_encode by reflexivity.
    replace (wrap 32 (Z.of_nat (length A) + 4)) with (Z.of_nat (length (A ++ le_encode 4 x)))
      by (rewrite length_app, length_le_encode, wrap_small; lia).
    rewrite app_assoc, IH by (rewrite ?length_drop, ?length_app, ?length_le_encode; lia).
    rewrite <- !app_assoc, drop_drop, !length_app, length_le_encode.
    replace (4 * S (length km))%nat with (4 + 4 * length km)%nat by lia. f_equal. f_equal. lia.
Qed.

(** The page after [IndexMetadata::SerializeTo]: the fields, with the
    4 bytes the page held at 12 and after the table id left as they were. *)
Lemma IndexMetadata_SerializeTo_eq buf im :
  (28 + length (index_name_ im) + 4 * length (key_map_ im) <= length buf)%nat ->
  Z.of_nat (length buf) < 2 ^ 32 ->
  IndexMetadata_SerializeTo INDEX_METADATA_MAGIC_NUM buf im =
  (le_encode 4 INDEX_METADATA_MAGIC_NUM ++ le_encode 4 (index_id_ im)
     ++ le_encode 4 (Z.of_nat (length (index_name_ im))) ++ read_bytes buf 12 4 ++ index_name_ im
     ++ le_encode 4 (im_table_id_ im) ++ le_encode 4 (Z.of_nat (length (key_map_ im)))
     ++ read_bytes buf (24 + length (index_name_ im)) 4 ++ concat (map (le_encode 4) (key_map_ im))
     ++ drop (28 + length (index_name_ im) + 4 * length (key_map_ im)) buf,
   Z.of_nat (28 + length (index_name_ im) + 4 * length (key_map_ im))).
Proof.
  destruct im as [iid name tid km]. cbn [index_name_ key_map_ index_id_ im_table_id_]. intros Hb Hlen.
  unfold IndexMetadata_SerializeTo. cbn [index_name_ key_map_ index_id_ im_table_id_]. cbv zeta.
  set (L := length name). set (N := length km).
  assert (H1 : write_bytes buf 0 (le_encode 4 INDEX_METADATA_MAGIC_NUM) = le_encode 4 INDEX_METADATA_MAGIC_NUM ++ drop 4 buf)
    by (rewrite write_bytes_0, length_le_encode; reflexivity).
  rewrite H1, write_bytes_after, length_le_encode, drop_drop by apply length_le_encode.
  rewrite app_assoc, write_bytes_after, length_le_encode, drop_drop by (rewrite length_app, !length_le_encode; reflexivity).
  rewrite (drop_read_bytes buf (4 + 4 + 4) 4), app_assoc, app_assoc, write_bytes_after, drop_drop
    by (rewrite !length_app, !length_le_encode, length_read_bytes; lia).
  replace (Z.to_nat (wrap 32 (16 + Z.of_nat L))) with (length (((((le_encode 4 INDEX_METADATA_MAGIC_NUM ++
      le_encode 4 iid) ++ le_encode 4 (Z.of_nat L)) ++ read_bytes buf (4 + 4 + 4) 4) ++ name)))
    by (rewrite !length_app, !length_le_encode, length_read_bytes, wrap_small; lia).
  rewrite app_assoc, write_bytes_after, length_le_encode, drop_drop by reflexivity.
  subst L N.
  set (P5 := ((((le_encode 4 INDEX_METADATA_MAGIC_NUM ++ le_encode 4 iid) ++ le_encode 4 (Z.of_nat (length name)))
                ++ read_bytes buf (4 + 4 + 4) 4) ++ name)).
  assert (HP5 : length P5 = (16 + length name)%nat)
    by (unfold P5; rewrite !length_app, !length_le_encode, length_read_bytes; lia).
  replace (Z.to_nat (wrap 32 (wrap 32 (16 + Z.of_nat (length name)) + 4))) with (length (P5 ++ le_encode 4 tid))
    by (rewrite length_app, HP5, length_le_encode, (wrap_small 32 (16 + _)), wrap_small; lia).
  rewrite app_assoc, write_bytes_after, length_le_encode, drop_drop by reflexivity.
  rewrite (drop_read_bytes buf _ 4), app_assoc, app_assoc.
  replace (wrap 32 (wrap 32 (16 + Z.of_nat (length name)) + 4 + 8))
    with (Z.of_nat (length (((P5 ++ le_encode 4 tid) ++ le_encode 4 (Z.of_nat (length km)))
                             ++ read_bytes buf (4 + 4 + 4 + 4 + length name + 4 + 4) 4)))
    by (rewrite !length_app, HP5, !length_le_encode, length_read_bytes, (wrap_small 32 (16 + _)), wrap_small; lia).
  rewrite write_key_map_after
    by (rewrite ?length_drop, ?length_app, ?HP5, ?length_le_encode, ?length_read_bytes; lia).
  rewrite !length_app, HP5, !length_le_encode, length_read_bytes, drop_drop by lia. unfold P5.
  rewrite <- !app_assoc. f_equal; [|f_equal; lia].
  replace (4 + 4 + 4 + 4 + length name + 4 + 4)%nat with (24 + length name)%nat by lia.
  do 9 f_equal. f_equal. lia.
Qed.


Lemma read_at (P X R : list Z) : read_bytes (P ++ X ++ R) (length P) (length X) = X.
Proof. rewrite read_bytes_skip by lia. rewrite Nat.sub_diag. apply read_bytes_head. reflexivity. Qed.

(** The loop of [DeserializeFrom] reads back the entries the loop of
    [SerializeTo] wrote. *)
Lemma read_key_map_encode km : forall P R,
  Forall (fun x => 0 <= x < 2 ^ 32) km -> Z.of_nat (length P + 4 * length km) < 2 ^ 32 ->
  read_key_map (length km) (P ++ concat (map (le_encode 4) km) ++ R) (Z.of_nat (length P)) =
  Some (km, Z.of_nat (length P + 4 * length km)).
Proof.
  induction km as [|x km IH]; intros P R Hr Hlen; cbn [length read_key_map map concat] in *.
  - rewrite Nat.add_0_r. reflexivity.
  - apply Forall_cons in Hr as [Hx Hr]. rewrite Nat2Z.id.
    rewrite (proj2 (Nat.leb_le _ _)) by (rewrite !length_app, length_le_encode; lia).
    replace (wrap 32 (Z.of_nat (length P) + 4)) with (Z.of_nat (length (P ++ le_encode 4 x)))
      by (rewrite length_app, length_le_encode, wrap_small; lia).
    rewrite <- app_assoc, app_assoc, IH by first [exact Hr|rewrite ?length_app, ?length_le_encode; lia].
    cbn [mbind option_bind]. rewrite <- app_assoc, rd_at, le_decode_encode_small by (first [apply length_le_encode|cbn; lia]).
    rewrite length_app, length_le_encode. do 3 f_equal. lia.
Qed.

Definition zeros4 : list Z := [0; 0; 0; 0].

(** The two 8-byte lengths [DeserializeFrom] reads: the 4 bytes written
    and the 4 the page held. *)
Lemma le_decode_len_gap (x : Z) (G : list Z) :
  0 <= x < 2 ^ 32 -> le_decode (le_encode 4 x ++ G) = x + 2 ^ 32 * le_decode G.
Proof. intros Hx. rewrite le_decode_app, length_le_encode, le_decode_encode_small by (cbn; lia). reflexivity. Qed.

Hypothesis INDEX_METADATA_MAGIC_NUM_range : 0 <= INDEX_METADATA_MAGIC_NUM < 2 ^ 32.

Lemma length_concat_encode4 km : length (concat (map (le_encode 4) km)) = (4 * length km)%nat.
Proof. induction km as [|x km IH]; [reflexivity|]. cbn [map concat length]. rewrite length_app, length_le_encode, IH. lia. Qed.

(** The page [SerializeTo] leaves, read from the start: its magic number,
    id and the low half of the name length; the length and the size as
    8-byte fields whose high halves are the stale bytes [G1] and [G2]. *)
Lemma IndexMetadata_DeserializeFrom_page iid name tid km G1 G2 D heap_after :
  0 <= iid < 2 ^ 32 -> Z.of_nat (length name) < 2 ^ 32 -> length G1 = 4%nat ->
  let page := le_encode 4 INDEX_METADATA_MAGIC_NUM ++ le_encode 4 iid ++ le_encode 4 (Z.of_nat (length name)) ++ G1
                ++ name ++ le_encode 4 tid ++ le_encode 4 (Z.of_nat (length km)) ++ G2
                ++ concat (map (le_encode 4) km) ++ D in
  IndexMetadata_DeserializeFrom INDEX_METADATA_MAGIC_NUM page heap_after =
  if 16 + (Z.of_nat (length name) + 2 ^ 32 * le_decode G1) <=? Z.of_nat (length page) then
    index_name ← cstring (read_bytes page 16 (Z.to_nat (Z.of_nat (length name) + 2 ^ 32 * le_decode G1)) ++ heap_after);
    let offset := wrap 32 (16 + (Z.of_nat (length name) + 2 ^ 32 * le_decode G1)) in
    let table_id := rd page (Z.to_nat offset) 4 in
    let size := rd page (Z.to_nat (wrap 32 (offset + 4))) 8 in
    '(key_map, offset') ← read_key_map (Z.to_nat size) page (wrap 32 (offset + 4 + 8));
    Some (offset', Some (mkIndexMetadata iid index_name table_id key_map))
  else None.
Proof.
  intros Hid Hn HG1 page. unfold IndexMetadata_DeserializeFrom.
  assert (E0 : rd page 0 4 = INDEX_METADATA_MAGIC_NUM) by (unfold page; read_field; apply le_decode_encode_small; cbn; lia).
  assert (E1 : rd page 4 4 = iid) by (unfold page; read_field; apply le_decode_encode_small; cbn; lia).
  assert (E2 : rd page 8 8 = Z.of_nat (length name) + 2 ^ 32 * le_decode G1).
  { unfold page. set (R := name ++ _).
    replace (le_encode 4 INDEX_METADATA_MAGIC_NUM ++ le_encode 4 iid ++ le_encode 4 (Z.of_nat (length name)) ++ G1 ++ R)
      with ((le_encode 4 INDEX_METADATA_MAGIC_NUM ++ le_encode 4 iid) ++ (le_encode 4 (Z.of_nat (length name)) ++ G1) ++ R)
      by (rewrite <- !app_assoc; reflexivity).
    rewrite rd_at by (rewrite length_app, length_le_encode, HG1; reflexivity).
    apply le_decode_len_gap. lia. }
  rewrite E0, Z.eqb_refl, E1, E2. reflexivity.
Qed.

(** Round trip of an index's metadata page, when the page held
    zeros where [SerializeTo] skips bytes (the 4 high bytes of the name
    length, which it writes in 4 bytes and [DeserializeFrom] reads in 8,
    and the 4 after the name); a frame from [NewPage] is zeroed, so a
    metadata page [CreateIndex] writes meets this: [IndexMetadata::DeserializeFrom]
    reads back, from the page [IndexMetadata::SerializeTo] wrote into,
    the metadata it wrote, given ids and key-map entries that are
    [uint32_t]s, a name without NUL followed on the heap by one, and a
    page long enough to hold the record; the offset it returns is the
    one [SerializeTo] returned, which is [GetSerializedSize]. *)
Theorem IndexMetadata_roundtrip buf im heap_after :
  0 <= index_id_ im < 2 ^ 32 -> 0 <= im_table_id_ im < 2 ^ 32 -> Forall (fun x => 0 <= x < 2 ^ 32) (key_map_ im) ->
  Forall (fun b => b <> 0) (index_name_ im) -> cstring heap_after = Some [] ->
  (28 + length (index_name_ im) + 4 * length (key_map_ im) <= length buf)%nat -> Z.of_nat (length buf) < 2 ^ 32 ->
  read_bytes buf 12 4 = zeros4 -> read_bytes buf (24 + length (index_name_ im)) 4 = zeros4 ->
  IndexMetadata_DeserializeFrom INDEX_METADATA_MAGIC_NUM (fst (IndexMetadata_SerializeTo INDEX_METADATA_MAGIC_NUM buf im)) heap_after =
    Some (snd (IndexMetadata_SerializeTo INDEX_METADATA_MAGIC_NUM buf im), Some im) /\
  snd (IndexMetadata_SerializeTo INDEX_METADATA_MAGIC_NUM buf im) = IndexMetadata_GetSerializedSize im.
Proof.
  intros Hid Htid Hkm Hnz Hh Hb Hlen HG1 HG2. rewrite IndexMetadata_SerializeTo_eq by assumption.
  destruct im as [iid name tid km]. cbn [index_id_ index_name_ im_table_id_ key_map_ fst snd] in *.
  rewrite HG1, HG2. split; [|unfold IndexMetadata_GetSerializedSize; cbn [index_name_ key_map_]; rewrite wrap_small; lia].
  rewrite IndexMetadata_DeserializeFrom_page by (first [exact Hid|reflexivity|lia]).
  change (le_decode zeros4) with 0. rewrite Z.mul_0_r, Z.add_0_r. cbv zeta.
  set (P16 := le_encode 4 INDEX_METADATA_MAGIC_NUM ++ le_encode 4 iid ++ le_encode 4 (Z.of_nat (length name)) ++ zeros4).
  set (R := le_encode 4 (Z.of_nat (length km)) ++ zeros4).
  set (D := drop _ buf).
  assert (HP16 : length P16 = 16%nat) by (unfold P16; rewrite !length_app, !length_le_encode; reflexivity).
  assert (HR : length R = 8%nat) by (unfold R; rewrite length_app, length_le_encode; reflexivity).
  replace (le_encode 4 INDEX_METADATA_MAGIC_NUM ++ le_encode 4 iid ++ le_encode 4 (Z.of_nat (length name)) ++ zeros4
           ++ name ++ le_encode 4 tid ++ le_encode 4 (Z.of_nat (length km)) ++ zeros4 ++ concat (map (le_encode 4) km) ++ D)
    with (P16 ++ name ++ le_encode 4 tid ++ R ++ concat (map (le_encode 4) km) ++ D)
    by (unfold P16, R; rewrite <- !app_assoc; reflexivity).
  rewrite (proj2 (Z.leb_le _ _)) by (rewrite !length_app, HP16; lia).
  rewrite Nat2Z.id, <- HP16, read_at, (cstring_app name heap_after Hnz), Hh.
  cbn [fmap option_fmap option_map mbind option_bind]. rewrite app_nil_r.
  replace (wrap 32 (16 + Z.of_nat (length name))) with (Z.of_nat (length (P16 ++ name)))
    by (rewrite length_app, HP16, wrap_small; lia).
  rewrite Nat2Z.id, (app_assoc P16 name), rd_at, le_decode_encode_small by (first [apply length_le_encode|cbn; lia]).
  replace (wrap 32 (Z.of_nat (length (P16 ++ name)) + 4)) with (Z.of_nat (length ((P16 ++ name) ++ le_encode 4 tid)))
    by (rewrite !length_app, HP16, length_le_encode, wrap_small; lia).
  rewrite Nat2Z.id, (app_assoc (P16 ++ name)), rd_at by exact HR.
  unfold R at 1. rewrite le_decode_len_gap by lia. change (le_decode zeros4) with 0. rewrite Z.mul_0_r, Z.add_0_r, Nat2Z.id.
  replace (wrap 32 (Z.of_nat (length (P16 ++ name)) + 4 + 8))
    with (Z.of_nat (length (((P16 ++ name) ++ le_encode 4 tid) ++ R)))
    by (rewrite !length_app, HP16, HR, length_le_encode, wrap_small; lia).
  rewrite (app_assoc _ R), read_key_map_encode by (first [exact Hkm|rewrite !length_app, HP16, HR, length_le_encode; lia]).
  cbn [mbind option_bind]. rewrite !length_app, HP16, HR, length_le_encode. do 3 f_equal. lia.
Qed.

End IndexMetadataProofs.

Section Witnesses.

Definition wcatalog_magic : Z := 89849.
Definition wtable_magic : Z := 344528.
Definition windex_magic : Z := 344529.
Definition wcm : CatalogMeta := mkCatalogMeta [(0, 1); (3, 5)] [(1, 7)].
Definition wtm : TableMetadata := mkTableMetadata 2 [116] 9 (mkSchema [wcol_id; wcol_name]).
Definition wim : IndexMetadata := mkIndexMetadata 3 [105; 120] 2 [0; 1].

Lemma CatalogMeta_roundtrip_witness :
  CatalogMeta_DeserializeFrom wcatalog_magic (CatalogMeta_SerializeTo wcatalog_magic wcm ++ [4; 4]) = Some wcm /\
  Z.of_nat (length (CatalogMeta_SerializeTo wcatalog_magic wcm)) = CatalogMeta_GetSerializedSize wcm.
Proof.
  apply CatalogMeta_roundtrip; [unfold wcatalog_magic; lia|apply map_okb_sound; reflexivity|apply map_okb_sound; reflexivity|].
  vm_compute. reflexivity.
Defined.

Lemma TableMetadata_roundtrip_witness :
  TableMetadata_DeserializeFrom wtable_magic wschema_magic wcolumn_magic
    (fst (TableMetadata_SerializeTo wtable_magic wschema_magic wcolumn_magic wtm) ++ []) [0] =
    Some (snd (TableMetadata_SerializeTo wtable_magic wschema_magic wcolumn_magic wtm), Some wtm) /\
  snd (TableMetadata_SerializeTo wtable_magic wschema_magic wcolumn_magic wtm) =
    Z.of_nat (length (fst (TableMetadata_SerializeTo wtable_magic wschema_magic wcolumn_magic wtm))) /\
  snd (TableMetadata_SerializeTo wtable_magic wschema_magic wcolumn_magic wtm) = TableMetadata_GetSerializedSize wtm.
Proof.
  apply TableMetadata_roundtrip; [unfold wtable_magic; lia|cbn; lia|cbn; lia|repeat constructor; lia|reflexivity
                                 |vm_compute; reflexivity|vm_compute; repeat split; reflexivity].
Defined.

Lemma IndexMetadata_roundtrip_witness :
  IndexMetadata_DeserializeFrom windex_magic (fst (IndexMetadata_SerializeTo windex_magic (zero_page 64) wim)) [0] =
    Some (snd (IndexMetadata_SerializeTo windex_magic (zero_page 64) wim), Some wim) /\
  snd (IndexMetadata_SerializeTo windex_magic (zero_page 64) wim) = IndexMetadata_GetSerializedSize wim.
Proof.
  apply IndexMetadata_roundtrip;
    first [unfold windex_magic; lia|cbn; lia|repeat constructor; lia|reflexivity|vm_compute; reflexivity].
Defined.

End Witnesses.

End Catalog.
