(* ===== verification/TablePage.v ===== *)
(** * The slotted table page (storage/table_page.h, modelled from the spec)

    table_page.cpp is not under src/: this file models the page the spec
    describes in sections 3 and 4.5, the one [TableHeap] and
    [TableIterator] call.  A page has the header
    [{page_id, prev_page_id, next_page_id, lsn, free_space_pointer,
    tuple_count}] (24 bytes) and a slot array of 8-byte slots, one per
    tuple, each [{offset, size}].  A slot is kept here as what it holds:
    [None] for a slot whose tuple [ApplyDelete] reclaimed (size 0), and
    [Some (t, deleted)] for a tuple and its tombstone bit (the high bit of
    the size).  Tuples are of any type with a size in bytes.

    [InsertTuple] needs [size + sizeof(slot)] free bytes, reuses the first
    reclaimed slot or appends one, and gives the tuple's slot number;
    [MarkDelete] sets the tombstone of a live tuple, [RollbackDelete]
    clears it, [ApplyDelete] reclaims the slot; [UpdateTuple] replaces a
    live tuple in place when the new one is no larger; [GetTuple] reads a
    live tuple; [GetFirstTupleRid] and [GetNextTupleRid] give the first
    live slot, from the start or after a slot. *)

From Stdlib Require Import ZArith Lia List Sorting.Sorted.
From stdpp Require Import base list.
From S2P Require Import Spec2Rocq.
Import ListNotations.
Open Scope Z_scope.

Module TablePage.

Definition SIZE_TABLE_PAGE_HEADER : Z := 24.
Definition SIZE_SLOT : Z := 8.

Section Page.
Context {T : Type} (tuple_size : T -> Z).

Record TablePage := mkTablePage {
  tp_page_id : Z;
  tp_prev_page_id : Z;
  tp_next_page_id : Z;
  tp_slots : list (option (T * bool))
}.

Definition set_slots (p : TablePage) (sl : list (option (T * bool))) : TablePage :=
  mkTablePage (tp_page_id p) (tp_prev_page_id p) (tp_next_page_id p) sl.

(** [SetNextPageId]. *)
Definition tp_SetNextPageId (p : TablePage) (next : Z) : TablePage :=
  mkTablePage (tp_page_id p) (tp_prev_page_id p) next (tp_slots p).

(** [Init(page_id, prev_page_id, ...)]: no tuples, no next page. *)
Definition tp_Init (page_id prev_page_id : Z) : TablePage :=
  mkTablePage page_id prev_page_id INVALID_PAGE_ID [].

Definition slot_bytes (sl : option (T * bool)) : Z :=
  match sl with Some (t, _) => tuple_size t | None => 0 end.

(** [GetFreeSpaceRemaining]: the page less its header, slots and tuples. *)
Definition tp_free_space (p : TablePage) : Z :=
  PAGE_SIZE - SIZE_TABLE_PAGE_HEADER - SIZE_SLOT * Z.of_nat (length (tp_slots p))
  - sumZ (map slot_bytes (tp_slots p)).

(** A slot that [GetFirstTupleRid]/[GetNextTupleRid] stop at. *)
Definition live (sl : option (T * bool)) : bool :=
  match sl with Some (_, false) => true | _ => false end.

Fixpoint first_free (sl : list (option (T * bool))) (i : nat) : option nat :=
  match sl with
  | [] => None
  | None :: _ => Some i
  | Some _ :: r => first_free r (S i)
  end.

(** [InsertTuple]: the slot number of the new tuple, [None] when the page
    has no room. *)
Definition tp_InsertTuple (p : TablePage) (t : T) : option (TablePage * Z) :=
  if tuple_size t + SIZE_SLOT <=? tp_free_space p then
    match first_free (tp_slots p) 0 with
    | Some i => Some (set_slots p (<[i := Some (t, false)]> (tp_slots p)), Z.of_nat i)
    | None => Some (set_slots p (tp_slots p ++ [Some (t, false)]), Z.of_nat (length (tp_slots p)))
    end
  else None.

Definition tp_slot (p : TablePage) (slot : Z) : option (option (T * bool)) :=
  if 0 <=? slot then tp_slots p !! Z.to_nat slot else None.

Definition tp_set_slot (p : TablePage) (slot : Z) (sl : option (T * bool)) : TablePage :=
  set_slots p (<[Z.to_nat slot := sl]> (tp_slots p)).

(** [MarkDelete]: false on a slot past the count or already deleted. *)
Definition tp_MarkDelete (p : TablePage) (slot : Z) : TablePage * bool :=
  match tp_slot p slot with
  | Some (Some (t, false)) => (tp_set_slot p slot (Some (t, true)), true)
  | _ => (p, false)
  end.

(** [RollbackDelete]: clear the tombstone. *)
Definition tp_RollbackDelete (p : TablePage) (slot : Z) : TablePage :=
  match tp_slot p slot with
  | Some (Some (t, true)) => tp_set_slot p slot (Some (t, false))
  | _ => p
  end.

(** [ApplyDelete]: reclaim the slot. *)
Definition tp_ApplyDelete (p : TablePage) (slot : Z) : TablePage :=
  match tp_slot p slot with
  | Some (Some _) => tp_set_slot p slot None
  | _ => p
  end.

(** [GetTuple]: the live tuple of the slot. *)
Definition tp_GetTuple (p : TablePage) (slot : Z) : option T :=
  match tp_slot p slot with
  | Some (Some (t, false)) => Some t
  | _ => None
  end.

(** [UpdateTuple]: in place when the new tuple is no larger. *)
Definition tp_UpdateTuple (p : TablePage) (t : T) (slot : Z) : option TablePage :=
  match tp_slot p slot with
  | Some (Some (old, false)) =>
      if tuple_size t <=? tuple_size old then Some (tp_set_slot p slot (Some (t, false))) else None
  | _ => None
  end.

Fixpoint first_live (sl : list (option (T * bool))) (i : nat) : option nat :=
  match sl with
  | [] => None
  | s :: r => if live s then Some i else first_live r (S i)
  end.

(** [GetFirstTupleRid] and [GetNextTupleRid]: the slot number of the
    first live slot, from slot 0 or after [slot]. *)
Definition tp_GetFirstTupleRid (p : TablePage) : option Z :=
  Z.of_nat <$> first_live (tp_slots p) 0.

Definition tp_GetNextTupleRid (p : TablePage) (slot : Z) : option Z :=
  Z.of_nat <$> first_live (drop (S (Z.to_nat slot)) (tp_slots p)) (S (Z.to_nat slot)).

(** The live slots, in order: what an iteration of the page visits. *)
Fixpoint live_from (sl : list (option (T * bool))) (i : nat) : list nat :=
  match sl with
  | [] => []
  | s :: r => if live s then i :: live_from r (S i) else live_from r (S i)
  end.

Definition live_slots (p : TablePage) : list nat := live_from (tp_slots p) 0.

End Page.

Arguments TablePage : clear implicits.

(** ** Lemmas *)

Section PageLemmas.
Context {T : Type}.
Implicit Types (p : TablePage T) (sl : list (option (T * bool))).

Lemma first_live_head sl i : first_live sl i = head (live_from sl i).
Proof. revert i; induction sl as [|s r IH]; intros i; cbn; [reflexivity|]. destruct (live s); auto. Qed.

Lemma live_from_ge sl i : Forall (fun x => (i <= x)%nat) (live_from sl i).
Proof.
  revert i; induction sl as [|s r IH]; intros i; cbn; [constructor|].
  assert (Forall (fun x => (i <= x)%nat) (live_from r (S i)))
    by (eapply Forall_impl; [exact (IH (S i))|]; cbn; lia).
  destruct (live s); [constructor; [lia|]|]; assumption.
Qed.

Lemma live_from_sorted sl i : StronglySorted lt (live_from sl i).
Proof.
  revert i; induction sl as [|s r IH]; intros i; cbn; [constructor|].
  destruct (live s); [|apply IH]. constructor; [apply IH|].
  eapply Forall_impl; [apply live_from_ge|]. cbn; lia.
Qed.

Lemma live_from_drop sl : forall i k,
  live_from (drop k sl) (i + k) = List.filter (fun x => (i + k <=? x)%nat) (live_from sl i).
Proof.
  induction sl as [|s r IH]; intros i k; [rewrite drop_nil; reflexivity|].
  destruct k as [|k].
  - rewrite Nat.add_0_r, drop_0. symmetry. apply filter_all_true.
    eapply Forall_impl; [apply live_from_ge|]. intros x Hx. apply Nat.leb_le. exact Hx.
  - cbn [drop live_from]. rewrite <- Nat.add_succ_comm, IH.
    destruct (live s); [|reflexivity]. cbn [List.filter].
    rewrite (proj2 (Nat.leb_gt _ _)) by lia. reflexivity.
Qed.

Lemma sorted_split (l1 l2 : list nat) j :
  StronglySorted lt (l1 ++ j :: l2) -> Forall (fun x => (x < j)%nat) l1 /\ Forall (fun x => (j < x)%nat) l2.
Proof.
  induction l1 as [|x l1 IH]; intros Hs; cbn in Hs.
  - apply StronglySorted_inv in Hs as [_ H]. split; [constructor|exact H].
  - apply StronglySorted_inv in Hs as [Hs Hx]. destruct (IH Hs) as [H1 H2]. split; [|exact H2].
    constructor; [|exact H1]. apply Forall_app in Hx as [_ Hx]. inversion Hx; assumption.
Qed.

(** [GetNextTupleRid] after a live slot gives the next live slot. *)
Lemma GetNextTupleRid_live p l1 j l2 :
  live_slots p = l1 ++ j :: l2 ->
  tp_GetNextTupleRid p (Z.of_nat j) = Z.of_nat <$> head l2.
Proof.
  intros Hl. unfold tp_GetNextTupleRid. rewrite Nat2Z.id, first_live_head.
  rewrite <- (Nat.add_0_l (S j)), live_from_drop. fold (live_slots p). rewrite Hl.
  destruct (sorted_split l1 l2 j) as [H1 H2]; [rewrite <- Hl; apply live_from_sorted|].
  rewrite List.filter_app. cbn [List.filter]. rewrite (proj2 (Nat.leb_gt _ _)) by lia.
  rewrite (filter_all_false _ l1), (filter_all_true _ l2); [reflexivity| |].
  - eapply Forall_impl; [exact H2|]. intros x Hx. cbn in Hx. apply Nat.leb_le. lia.
  - eapply Forall_impl; [exact H1|]. intros x Hx. cbn in Hx. apply Nat.leb_gt. lia.
Qed.

Lemma GetFirstTupleRid_live p : tp_GetFirstTupleRid p = Z.of_nat <$> head (live_slots p).
Proof. unfold tp_GetFirstTupleRid. rewrite first_live_head. reflexivity. Qed.

Lemma first_free_spec sl i k : first_free sl i = Some k -> (i <= k)%nat /\ sl !! (k - i)%nat = Some None.
Proof.
  revert i; induction sl as [|[x|] r IH]; intros i H; cbn in H; try discriminate.
  - destruct (IH (S i) H) as [Hle Hk]. split; [lia|]. replace (k - i)%nat with (S (k - S i)) by lia. exact Hk.
  - injection H as <-. rewrite Nat.sub_diag. split; reflexivity.
Qed.

Section Insert.
Variable tuple_size : T -> Z.

(** [InsertTuple] puts the tuple in a live slot and leaves the header. *)
Lemma tp_InsertTuple_GetTuple p t p' slot :
  tp_InsertTuple tuple_size p t = Some (p', slot) ->
  tp_GetTuple p' slot = Some t /\ tp_page_id p' = tp_page_id p /\ tp_next_page_id p' = tp_next_page_id p.
Proof.
  unfold tp_InsertTuple. destruct (_ <=? _); [|discriminate].
  destruct (first_free (tp_slots p) 0) as [k|] eqn:Ef; intros [= <- <-]; cbn; (split; [|split; reflexivity]);
    unfold tp_GetTuple, tp_slot; cbn [tp_slots set_slots]; rewrite (proj2 (Z.leb_le _ _)) by lia; rewrite Nat2Z.id.
  - apply first_free_spec in Ef as [_ Hk]. rewrite Nat.sub_0_r in Hk.
    rewrite list_lookup_insert_eq by (eapply lookup_lt_Some; exact Hk). reflexivity.
  - rewrite lookup_app_r, Nat.sub_diag by lia. reflexivity.
Qed.

Lemma tp_InsertTuple_None p t :
  tp_InsertTuple tuple_size p t = None <-> tp_free_space tuple_size p < tuple_size t + SIZE_SLOT.
Proof.
  unfold tp_InsertTuple. destruct (Z.leb_spec (tuple_size t + SIZE_SLOT) (tp_free_space tuple_size p)).
  - destruct (first_free _ _); split; intros; (discriminate || lia).
  - split; auto.
Qed.

Lemma tp_free_space_Init pid prev : tp_free_space tuple_size (tp_Init pid prev) = PAGE_SIZE - SIZE_TABLE_PAGE_HEADER.
Proof. reflexivity. Qed.

(** [UpdateTuple] through [GetTuple]: it needs a live tuple no smaller
    than the new one. *)
Lemma tp_UpdateTuple_GetTuple p t slot :
  tp_UpdateTuple tuple_size p t slot =
  match tp_GetTuple p slot with
  | Some old => if tuple_size t <=? tuple_size old then Some (tp_set_slot p slot (Some (t, false))) else None
  | None => None
  end.
Proof. unfold tp_UpdateTuple, tp_GetTuple. destruct (tp_slot p slot) as [[[? []]|]|]; reflexivity. Qed.

(** With tuples of nonnegative size no page has more room than an empty
    one. *)
Lemma tp_free_space_le p :
  (forall x, 0 <= tuple_size x) -> tp_free_space tuple_size p <= PAGE_SIZE - SIZE_TABLE_PAGE_HEADER.
Proof.
  intros Hnn. unfold tp_free_space, SIZE_SLOT.
  assert (0 <= sumZ (map (slot_bytes tuple_size) (tp_slots p))).
  { induction (tp_slots p) as [|[[x b]|] r IH]; cbn; [lia| |lia]. specialize (Hnn x). lia. }
  lia.
Qed.

End Insert.

End PageLemmas.

End TablePage.
