(* ===== verification/TableHeap.v ===== *)
(** * The table heap and its iterator (storage/table_heap.cpp,
      storage/table_iterator.cpp)

    A table heap is a chain of table pages from [first_page_id_], linked
    by their [next_page_id].  Its operations reach the pages through the
    buffer pool, each a [FetchPage] then an [UnpinPage] ([HeapStore]
    below, the buffer pool as the heap sees it: the pages by id, their
    pin counts, the next page id and the number of frames).  Latches do
    nothing in a single thread and are left out.  [None] stands for the
    C++ code dereferencing the nullptr of a failed fetch (or an [assert]
    failing, or a walk running out of fuel on a cyclic chain); error
    returns of the C++ code are values.

    [TableIterator] holds a [RowId]; [operator++] asks the page for the
    next live slot and otherwise walks the chain to the first page with a
    live tuple, or gives [INVALID_ROWID] past the last page. *)

From Stdlib Require Import ZArith Lia List Sorting.Sorted.
From stdpp Require Import base list gmap.
From S2P Require Import Spec2Rocq RowFormat TablePage.
Import ListNotations.
Open Scope Z_scope.

Module TableHeap.
Import RowFormat TablePage.

Section Heap.
Context {T : Type} (tuple_size : T -> Z).
(** [sizeof(Row)], the size of the C++ object (not of its tuple). *)
Variable sizeof_Row : Z.

Record HeapStore := mkHeapStore {
  hpages : gmap Z (TablePage T);
  hpins : gmap Z Z;
  hnext_page_id : Z;
  hpool_size : nat
}.
Implicit Types (s : HeapStore).

Definition hpin_of s (pid : Z) : Z := default 0 (hpins s !! pid).

(** [FetchPage]: the page, pinned once more; nullptr when absent. *)
Definition hfetch s (pid : Z) : option (HeapStore * TablePage T) :=
  p ← hpages s !! pid;
  Some (mkHeapStore (hpages s) (<[pid := hpin_of s pid + 1]> (hpins s)) (hnext_page_id s) (hpool_size s), p).

(** [UnpinPage]: one pin less, never below zero. *)
Definition hunpin s (pid : Z) : HeapStore :=
  if 0 <? hpin_of s pid
  then mkHeapStore (hpages s) (<[pid := hpin_of s pid - 1]> (hpins s)) (hnext_page_id s) (hpool_size s)
  else s.

(** A write through the pointer to page [pid]. *)
Definition hput s (pid : Z) (p : TablePage T) : HeapStore :=
  mkHeapStore (<[pid := p]> (hpages s)) (hpins s) (hnext_page_id s) (hpool_size s).

(** The pages held in a frame with a positive pin count. *)
Definition pinned_count s : nat :=
  length (List.filter (fun pid => 0 <? hpin_of s pid) (elements (dom (hpages s)))).

(** [NewPage]: nullptr when every frame holds a pinned page; otherwise a
    zeroed page with the next id (the buffer pool leaves its pin count
    at 0, see BufferPool.v). *)
Definition hnew_page s : option (HeapStore * Z) :=
  if (hpool_size s <=? pinned_count s)%nat then None
  else let pid := hnext_page_id s in
       Some (mkHeapStore (<[pid := mkTablePage 0 0 0 []]> (hpages s)) (<[pid := 0]> (hpins s))
               (pid + 1) (hpool_size s), pid).

(** Enough steps to walk a chain of distinct pages. *)
Definition hfuel s : nat := S (size (hpages s)).

Record TableHeap := mkTableHeap { first_page_id_ : Z }.

(** The loop of [InsertTuple]: the first page of the chain that takes
    the tuple ([inl] its [RowId]), or the last page id ([inr]). *)
Fixpoint insert_loop (fuel : nat) s (iter last_page_id : Z) (t : T) : option (HeapStore * (RowId + Z)) :=
  match fuel with
  | O => None
  | S f =>
      if iter =? INVALID_PAGE_ID then Some (s, inr last_page_id)
      else
        '(s1, page) ← hfetch s iter;
        match tp_InsertTuple tuple_size page t with
        | Some (page', slot) =>
            Some (hunpin (hput s1 iter page') (tp_page_id page'), inl (mkRowId (tp_page_id page') slot))
        | None => insert_loop f (hunpin s1 (tp_page_id page)) (tp_next_page_id page) iter t
        end
  end.

(** [TableHeap::InsertTuple]: whether it reports success, and the
    [RowId] the page wrote into the row. *)
Definition InsertTuple (th : TableHeap) s (t : T) : option (HeapStore * bool * option RowId) :=
  if sizeof_Row >? PAGE_SIZE then Some (s, false, None)
  else
    '(s1, r) ← insert_loop (hfuel s) s (first_page_id_ th) INVALID_PAGE_ID t;
    match r with
    | inl rid => Some (s1, true, Some rid)
    | inr last_page_id =>
        match hnew_page s1 with
        | None => Some (s1, false, None)
        | Some (s2, insert_page_id) =>
            let s3 := match hfetch s2 last_page_id with
                      | Some (s', last_page) =>
                          hunpin (hput s' last_page_id (tp_SetNextPageId last_page insert_page_id)) last_page_id
                      | None => s2
                      end in
            let page := tp_Init insert_page_id last_page_id in
            match tp_InsertTuple tuple_size page t with
            | Some (page', slot) =>
                Some (hunpin (hput s3 insert_page_id page') insert_page_id, true,
                      Some (mkRowId insert_page_id slot))
            | None => Some (hunpin (hput s3 insert_page_id page) insert_page_id, true, None)
            end
        end
    end.

(** [TableHeap::MarkDelete]. *)
Definition MarkDelete s (rid : RowId) : HeapStore * bool :=
  match hfetch s (page_id rid) with
  | None => (s, false)
  | Some (s1, page) =>
      let page' := fst (tp_MarkDelete page (slot_num rid)) in
      (hunpin (hput s1 (page_id rid) page') (tp_page_id page'), true)
  end.

(** [TableHeap::UpdateTuple]: the failure paths return without
    unpinning. *)
Definition UpdateTuple s (t : T) (rid : RowId) : HeapStore * bool :=
  if sizeof_Row >? PAGE_SIZE then (s, false)
  else match hfetch s (page_id rid) with
       | None => (s, false)
       | Some (s1, page) =>
           match tp_GetTuple page (slot_num rid) with
           | Some _ =>
               match tp_UpdateTuple tuple_size page t (slot_num rid) with
               | Some page' => (hunpin (hput s1 (page_id rid) page') (tp_page_id page'), true)
               | None => (s1, false)
               end
           | None => (s1, false)
           end
       end.

(** [TableHeap::ApplyDelete]. *)
Definition ApplyDelete s (rid : RowId) : option HeapStore :=
  '(s1, page) ← hfetch s (page_id rid);
  let page' := tp_ApplyDelete page (slot_num rid) in
  Some (hunpin (hput s1 (page_id rid) page') (tp_page_id page')).

(** [TableHeap::RollbackDelete]. *)
Definition RollbackDelete s (rid : RowId) : option HeapStore :=
  '(s1, page) ← hfetch s (page_id rid);
  let page' := tp_RollbackDelete page (slot_num rid) in
  Some (hunpin (hput s1 (page_id rid) page') (tp_page_id page')).

(** [TableHeap::GetTuple]: unpins, then reads the page. *)
Definition GetTuple s (rid : RowId) : HeapStore * option T :=
  match hfetch s (page_id rid) with
  | None => (s, None)
  | Some (s1, page) => (hunpin s1 (tp_page_id page), tp_GetTuple page (slot_num rid))
  end.

(** [INVALID_ROWID], also the default [RowId]. *)
Definition INVALID_ROWID : RowId := mkRowId INVALID_PAGE_ID 0.

(** [TableHeap::Begin]: the first live slot of the first page, or the
    default [RowId] when that page has none. *)
Definition Begin (th : TableHeap) s : option (HeapStore * RowId) :=
  '(s1, page) ← hfetch s (first_page_id_ th);
  let rid := match tp_GetFirstTupleRid page with
             | Some slot => mkRowId (tp_page_id page) slot
             | None => INVALID_ROWID
             end in
  Some (hunpin s1 (first_page_id_ th), rid).

(** [TableHeap::End]. *)
Definition End : RowId := INVALID_ROWID.

(** [TableIterator::operator==] on the [RowId]s of one heap. *)
Definition rid_eqb (a b : RowId) : bool := (page_id a =? page_id b) && (slot_num a =? slot_num b).

(** The loop of [operator++] from page [pid] on: the first page with a
    live tuple, [INVALID_ROWID] at a page it cannot fetch. *)
Fixpoint walk (fuel : nat) s (pid : Z) : option (HeapStore * RowId) :=
  match fuel with
  | O => None
  | S f =>
      match hfetch s pid with
      | None => Some (s, INVALID_ROWID)
      | Some (s1, page) =>
          match tp_GetFirstTupleRid page with
          | Some slot => Some (hunpin s1 pid, mkRowId (tp_page_id page) slot)
          | None => walk f (hunpin s1 pid) (tp_next_page_id page)
          end
      end
  end.

(** [TableIterator::operator++]. *)
Definition iter_next s (id : RowId) : option (HeapStore * RowId) :=
  match hfetch s (page_id id) with
  | None => Some (s, INVALID_ROWID)
  | Some (s1, page) =>
      match tp_GetNextTupleRid page (slot_num id) with
      | Some slot => Some (hunpin s1 (page_id id), mkRowId (tp_page_id page) slot)
      | None => walk (hfuel s1) (hunpin s1 (page_id id)) (tp_next_page_id page)
      end
  end.

(** [TableIterator::operator*]: the row of the iterator's [RowId]. *)
Definition iter_deref s (id : RowId) : HeapStore * option T := GetTuple s id.

(** A scan [for (it = Begin(); it != End(); ++it)], collecting the
    [RowId]s it visits. *)
Fixpoint scan (fuel : nat) s (it : RowId) : option (list RowId) :=
  match fuel with
  | O => None
  | S f =>
      if rid_eqb it End then Some []
      else '(s', it') ← iter_next s it; rest ← scan f s' it'; Some (it :: rest)
  end.

End Heap.

Arguments HeapStore : clear implicits.

(** ** The page chain *)

Section Chain.
Context {T : Type}.
Implicit Types (m : gmap Z (TablePage T)).

(** [chain m pid pids]: following [next_page_id] from [pid] visits the
    distinct pages [pids], each stored under its own id, and stops at a
    page id the store does not hold. *)
Inductive chain m : Z -> list Z -> Prop :=
| chain_end pid : m !! pid = None -> chain m pid []
| chain_cons pid p pids :
    m !! pid = Some p -> tp_page_id p = pid -> pid ∉ pids ->
    chain m (tp_next_page_id p) pids -> chain m pid (pid :: pids).

(** The [RowId]s of the live tuples of page [pid], in slot order. *)
Definition page_rids (pid : Z) (p : TablePage T) : list RowId :=
  map (fun j => mkRowId pid (Z.of_nat j)) (live_slots p).

(** The live tuples of the pages [pids], in chain order. *)
Definition live_rids m (pids : list Z) : list RowId :=
  concat (map (fun pid => match m !! pid with Some p => page_rids pid p | None => [] end) pids).

Lemma live_rids_cons m pid p pids :
  m !! pid = Some p -> live_rids m (pid :: pids) = page_rids pid p ++ live_rids m pids.
Proof. intros Hp. unfold live_rids. cbn [map concat]. rewrite Hp. reflexivity. Qed.

Lemma chain_in_dom m pid pids : chain m pid pids -> NoDup pids /\ (list_to_set pids : gset Z) ⊆ dom m.
Proof.
  induction 1 as [pid Hn|pid p pids Hp Hid Hnot _ [Hnd Hsub]]; [split; [constructor|set_solver]|].
  split; [constructor; assumption|]. cbn [list_to_set]. apply union_least; [|exact Hsub].
  apply singleton_subseteq_l. apply elem_of_dom. eauto.
Qed.

Lemma chain_length m pid pids : chain m pid pids -> (length pids <= size m)%nat.
Proof.
  intros [Hnd Hsub]%chain_in_dom. rewrite <- (size_list_to_set (C:=gset Z)) by exact Hnd.
  rewrite <- size_dom. apply subseteq_size. exact Hsub.
Qed.

(** Where the iterator stands: on live slot [j] of page [pid], with
    [R] the [RowId]s still to visit, this one first. *)
Definition cursor m (it : RowId) (R : list RowId) : Prop :=
  exists pid p l1 j l2 pids,
    m !! pid = Some p /\ tp_page_id p = pid /\ live_slots p = l1 ++ j :: l2 /\
    chain m (tp_next_page_id p) pids /\ it = mkRowId pid (Z.of_nat j) /\
    R = it :: map (fun k => mkRowId pid (Z.of_nat k)) l2 ++ live_rids m pids.

End Chain.

(** ** Store lemmas *)

Section StoreLemmas.
Context {T : Type}.
Implicit Types (s : HeapStore T).

(** The store after the pin of a fetch. *)
Definition bump s (pid : Z) : HeapStore T :=
  mkHeapStore (hpages s) (<[pid := hpin_of s pid + 1]> (hpins s)) (hnext_page_id s) (hpool_size s).

Lemma hfetch_some s pid p : hpages s !! pid = Some p -> hfetch s pid = Some (bump s pid, p).
Proof. intros Hp. unfold hfetch. rewrite Hp. reflexivity. Qed.

Lemma hfetch_none s pid : hpages s !! pid = None -> hfetch s pid = None.
Proof. intros Hp. unfold hfetch. rewrite Hp. reflexivity. Qed.

Lemma hpages_hunpin s pid : hpages (hunpin s pid) = hpages s.
Proof. unfold hunpin. destruct (0 <? hpin_of s pid); reflexivity. Qed.

Lemma hpin_of_hunpin_hput s pid p x : hpin_of (hunpin (hput s pid p) x) = hpin_of (hunpin s x).
Proof. unfold hunpin, hput, hpin_of. cbn. destruct (0 <? _); reflexivity. Qed.

(** A fetch and its unpin leave every pin count as it was. *)
Lemma hpin_of_fetch_unpin s pid x :
  0 <= hpin_of s pid ->
  hpin_of (hunpin (bump s pid) pid) x = hpin_of s x.
Proof.
  intros H0. unfold bump, hunpin, hpin_of at 1 2. cbn [hpins]. rewrite lookup_insert_eq. cbn [default id].
  rewrite (proj2 (Z.ltb_lt _ _)) by lia.
  unfold hpin_of. cbn [hpins]. rewrite insert_insert_eq. destruct (decide (x = pid)) as [->|Hne].
  - rewrite !lookup_insert_eq. cbn [default id]. lia.
  - rewrite lookup_insert_ne by congruence. reflexivity.
Qed.

Lemma hpages_bump s pid : hpages (bump s pid) = hpages s.
Proof. reflexivity. Qed.

(** What fetches, unpins and writes leave alone. *)
Definition hmeta s : Z * nat := (hnext_page_id s, hpool_size s).

Lemma hmeta_hunpin s pid : hmeta (hunpin s pid) = hmeta s.
Proof. unfold hunpin. destruct (0 <? hpin_of s pid); reflexivity. Qed.
Lemma hmeta_hput s pid p : hmeta (hput s pid p) = hmeta s.
Proof. reflexivity. Qed.
Lemma hmeta_bump s pid : hmeta (bump s pid) = hmeta s.
Proof. reflexivity. Qed.

Lemma pinned_count_ext s s' :
  hpages s' = hpages s -> (forall x, hpin_of s' x = hpin_of s x) -> pinned_count s' = pinned_count s.
Proof. intros Hp Hx. unfold pinned_count. rewrite Hp. f_equal. apply filter_ext. intros a. rewrite Hx. reflexivity. Qed.


End StoreLemmas.

(** Reduce the pages of a store built by fetches, writes and unpins. *)
Ltac hsimpl := repeat progress (rewrite ?hpages_hunpin, ?hpages_bump; cbn [hput hpages]).

#[export] Hint Rewrite @hpages_hunpin @hpin_of_hunpin_hput @hpages_bump @hmeta_hunpin @hmeta_hput @hmeta_bump : minisql_rw.

(** ** Scanning the heap *)

Section Scan.
Context {T : Type}.
Implicit Types (s : HeapStore T) (m : gmap Z (TablePage T)).

Lemma page_rids_cons pid (p : TablePage T) j l2 :
  live_slots p = j :: l2 ->
  page_rids pid p = mkRowId pid (Z.of_nat j) :: map (fun k => mkRowId pid (Z.of_nat k)) l2.
Proof. intros Hl. unfold page_rids. rewrite Hl. reflexivity. Qed.

(** The walk of [operator++] reaches the first live tuple of the rest of
    the chain, or [INVALID_ROWID] when there is none. *)
Lemma walk_chain m pid pids :
  chain m pid pids -> forall fuel s, hpages s = m -> (length pids < fuel)%nat ->
  exists s' it, walk fuel s pid = Some (s', it) /\ hpages s' = m /\
    ((live_rids m pids = [] /\ it = INVALID_ROWID) \/ cursor m it (live_rids m pids)).
Proof.
  induction 1 as [pid Hn|pid p pids Hp Hid Hnot Hch IH]; intros [|fuel] s Hs Hf; cbn in Hf; try lia.
  - cbn [walk]. rewrite hfetch_none by congruence. eauto 8.
  - cbn [walk]. rewrite (hfetch_some _ _ p) by congruence. rewrite GetFirstTupleRid_live, (live_rids_cons m pid p) by exact Hp.
    destruct (live_slots p) as [|j l2] eqn:El; cbn [head fmap option_fmap option_map].
    + destruct (IH fuel (hunpin (bump s pid) pid)) as (s' & it & Hw & Hs' & Hr); [rewrite hpages_hunpin; exact Hs|lia|].
      exists s', it. rewrite Hw. unfold page_rids. rewrite El. auto.
    + eexists _, _. split; [reflexivity|]. rewrite hpages_hunpin. split; [exact Hs|right].
      exists pid, p, [], j, l2, pids. rewrite Hid, (page_rids_cons pid p j l2 El). auto 7.
Qed.

(** [operator++] moves the cursor to the next [RowId] to visit. *)
Lemma iter_next_cursor m s it R :
  hpages s = m -> cursor m it R ->
  exists s' it', iter_next s it = Some (s', it') /\ hpages s' = m /\
    ((tail R = [] /\ it' = INVALID_ROWID) \/ cursor m it' (tail R)).
Proof.
  intros Hs (pid & p & l1 & j & l2 & pids & Hp & Hid & Hl & Hch & -> & ->).
  unfold iter_next. cbn [page_id slot_num tail]. rewrite (hfetch_some _ _ p) by congruence.
  rewrite (GetNextTupleRid_live p l1 j l2 Hl).
  destruct l2 as [|j' l2]; cbn [head fmap option_fmap option_map map app].
  - destruct (walk_chain m _ pids Hch (hfuel (bump s pid)) (hunpin (bump s pid) pid)) as (s' & it' & Hw & Hs' & Hr).
    + rewrite hpages_hunpin. exact Hs.
    + unfold hfuel. rewrite hpages_bump, Hs. pose proof (chain_length _ _ _ Hch). lia.
    + exists s', it'. auto.
  - eexists _, _. split; [reflexivity|]. rewrite hpages_hunpin. split; [exact Hs|right].
    exists pid, p, (l1 ++ [j]), j', l2, pids. rewrite Hid, <- app_assoc. auto 7.
Qed.

Lemma scan_End fuel s : scan (S fuel) s End = Some [].
Proof. reflexivity. Qed.

(** From a cursor, the scan visits the rest of the live tuples and
    reaches [End]. *)
Lemma scan_cursor m : forall n s it R,
  m !! INVALID_PAGE_ID = None -> hpages s = m -> cursor m it R -> (length R < n)%nat ->
  scan n s it = Some R.
Proof.
  induction n as [|n IH]; intros s it R Hinv Hs Hc Hn; [cbn in Hn; lia|].
  assert (Hne : rid_eqb it End = false).
  { destruct Hc as (pid & p & _ & j & _ & _ & Hp & _ & _ & _ & -> & _). unfold rid_eqb, End, INVALID_ROWID.
    cbn [page_id slot_num]. destruct (Z.eqb_spec pid INVALID_PAGE_ID) as [->|]; [congruence|reflexivity]. }
  cbn [scan]. rewrite Hne. destruct (iter_next_cursor m s it R Hs Hc) as (s' & it' & Hi & Hs' & Hr).
  rewrite Hi. cbn [mbind option_bind].
  assert (HR : R = it :: tail R) by (destruct Hc as (? & ? & ? & ? & ? & ? & ? & ? & ? & ? & ? & ->); reflexivity).
  destruct Hr as [[Ht ->]|Hc'].
  - destruct n as [|n]; [rewrite HR, Ht in Hn; cbn in Hn; lia|]. rewrite scan_End. cbn. rewrite HR, Ht. reflexivity.
  - rewrite (IH s' it' (tail R) Hinv Hs' Hc') by (rewrite HR in Hn; cbn in Hn; lia). cbn. rewrite <- HR. reflexivity.
Qed.

Lemma sorted_NoDup (l : list nat) : StronglySorted lt l -> NoDup l.
Proof.
  induction 1 as [|x l _ IH Hx]; constructor; [|exact IH].
  intros Hin. rewrite Forall_forall in Hx. specialize (Hx x Hin). lia.
Qed.

Lemma live_rids_page_ids m pids r : r ∈ live_rids m pids -> page_id r ∈ pids.
Proof.
  unfold live_rids. intros Hr%list_elem_of_In. apply in_concat in Hr as (l & Hl & Hr).
  apply in_map_iff in Hl as (pid & <- & Hpid). apply list_elem_of_In.
  destruct (m !! pid) as [p|]; [|inversion Hr].
  unfold page_rids in Hr. apply in_map_iff in Hr as (j & <- & _). exact Hpid.
Qed.

(** Each live tuple of a chain is one [RowId]. *)
Lemma live_rids_NoDup m pid pids : chain m pid pids -> NoDup (live_rids m pids).
Proof.
  induction 1 as [pid Hn|pid p pids Hp Hid Hnot _ IH]; [constructor|].
  rewrite (live_rids_cons m pid p pids Hp). apply NoDup_app. split; [|split; [|exact IH]].
  - unfold page_rids. apply NoDup_fmap_2; [|apply sorted_NoDup, live_from_sorted].
    intros j k [= E]. lia.
  - intros r Hr Hr'. apply live_rids_page_ids in Hr'. unfold page_rids in Hr.
    apply list_elem_of_In, in_map_iff in Hr as (j & <- & _). exact (Hnot Hr').
Qed.

Lemma chain_head m pid pids p : chain m pid pids -> m !! pid = Some p ->
  exists pids', pids = pid :: pids' /\ tp_page_id p = pid /\ chain m (tp_next_page_id p) pids'.
Proof. intros Hc Hp. inversion Hc as [? Hn|? p' ? Hp' Hid _ Hch]; subst; [congruence|]. rewrite Hp in Hp'. injection Hp' as <-. eauto. Qed.

Lemma Begin_some th s p :
  hpages s !! first_page_id_ th = Some p ->
  Begin th s = Some (hunpin (bump s (first_page_id_ th)) (first_page_id_ th),
                     match head (live_slots p) with
                     | Some j => mkRowId (tp_page_id p) (Z.of_nat j)
                     | None => INVALID_ROWID
                     end).
Proof.
  intros Hp. unfold Begin. rewrite (hfetch_some _ _ p Hp). cbn [mbind option_bind].
  rewrite GetFirstTupleRid_live. destruct (head (live_slots p)); reflexivity.
Qed.

(** C11: Iterating a table heap from [Begin()] to [End()] visits every
    live (not deleted) tuple of the page chain exactly once, in chain
    and slot order, and reaches [End()] after as many steps, when the
    first page holds a live tuple. *)
Theorem Begin_scan th s p pids :
  hpages s !! INVALID_PAGE_ID = None ->
  chain (hpages s) (first_page_id_ th) pids ->
  hpages s !! first_page_id_ th = Some p -> live_slots p <> [] ->
  exists s1 it, Begin th s = Some (s1, it) /\
    scan (S (length (live_rids (hpages s) pids))) s1 it = Some (live_rids (hpages s) pids) /\
    NoDup (live_rids (hpages s) pids).
Proof.
  intros Hinv Hc Hp Hl. pose proof (live_rids_NoDup _ _ _ Hc) as Hnd.
  destruct (chain_head _ _ _ p Hc Hp) as (pids' & -> & Hid & Hch).
  destruct (live_slots p) as [|j l2] eqn:El; [congruence|].
  eexists _, _. split; [rewrite (Begin_some th s p Hp), El; reflexivity|]. split; [|exact Hnd].
  apply (scan_cursor (hpages s)); [exact Hinv|rewrite hpages_hunpin; reflexivity| |lia].
  exists (first_page_id_ th), p, [], j, l2, pids'. rewrite Hid.
  rewrite (live_rids_cons _ _ p _ Hp), (page_rids_cons _ p j l2 El). auto 7.
Qed.

(** C12: [TableHeap::Begin] looks only at the first page: when that page
    holds no live tuple, it returns [End()] even though later pages of
    the chain hold live tuples, so no scan from [Begin()] visits them. *)
Theorem Begin_misses_later_pages th s p pids :
  chain (hpages s) (first_page_id_ th) pids ->
  hpages s !! first_page_id_ th = Some p -> live_slots p = [] ->
  live_rids (hpages s) pids <> [] ->
  exists s1, Begin th s = Some (s1, End) /\
    forall n, scan n s1 End <> Some (live_rids (hpages s) pids).
Proof.
  intros Hc Hp Hl Hne. eexists. split; [rewrite (Begin_some th s p Hp), Hl; reflexivity|].
  intros [|n]; [discriminate|]. rewrite scan_End. intros [= E]. exact (Hne (eq_sym E)).
Qed.

End Scan.

(** ** Inserting and updating *)

Section Insert.
Context {T : Type} (tuple_size : T -> Z) (sizeof_Row : Z).
Implicit Types (s : HeapStore T) (m : gmap Z (TablePage T)).

Lemma chain_cons_inv m iter x rest :
  chain m iter (x :: rest) ->
  iter = x /\ exists p, m !! x = Some p /\ tp_page_id p = x /\ chain m (tp_next_page_id p) rest.
Proof. inversion 1; subst. eauto. Qed.

Definition rejects m (t : T) (pid : Z) : Prop :=
  exists p, m !! pid = Some p /\ tp_InsertTuple tuple_size p t = None.

(** A page of the chain that has no room: the loop unpins it and goes on. *)
Lemma insert_loop_skip fuel s iter last p t :
  hpages s !! iter = Some p -> tp_page_id p = iter -> hpages s !! INVALID_PAGE_ID = None ->
  tp_InsertTuple tuple_size p t = None ->
  insert_loop tuple_size (S fuel) s iter last t =
  insert_loop tuple_size fuel (hunpin (bump s iter) iter) (tp_next_page_id p) iter t.
Proof.
  intros Hp Hid Hinv Hno. cbn [insert_loop].
  destruct (Z.eqb_spec iter INVALID_PAGE_ID) as [->|_]; [congruence|].
  rewrite (hfetch_some _ _ p Hp). cbn [mbind option_bind]. rewrite Hno, Hid. reflexivity.
Qed.

(** The loop stops at the first page of the chain with room. *)
Lemma insert_loop_first_fit m t q post pq pq' slot pre : forall fuel s iter last,
  hpages s = m -> m !! INVALID_PAGE_ID = None -> chain m iter (pre ++ q :: post) ->
  Forall (rejects m t) pre -> m !! q = Some pq -> tp_InsertTuple tuple_size pq t = Some (pq', slot) ->
  (length pre < fuel)%nat -> (forall x, 0 <= hpin_of s x) ->
  exists s', insert_loop tuple_size fuel s iter last t = Some (s', inl (mkRowId q slot)) /\
    hpages s' = <[q := pq']> m /\ hmeta s' = hmeta s /\ forall x, hpin_of s' x = hpin_of s x.
Proof.
  induction pre as [|x pre IH]; intros [|fuel] s iter last Hs Hinv Hc Hrej Hq Hins Hf Hnn; cbn in Hf; try lia.
  - apply chain_cons_inv in Hc as (-> & p & Hp & Hid & _). rewrite Hq in Hp. injection Hp as <-.
    destruct (tp_InsertTuple_GetTuple tuple_size pq t pq' slot Hins) as (_ & Hid' & _).
    cbn [insert_loop]. destruct (Z.eqb_spec q INVALID_PAGE_ID) as [->|_]; [congruence|].
    rewrite (hfetch_some _ _ pq) by congruence. cbn [mbind option_bind]. rewrite Hins, Hid', Hid.
    eexists. split; [reflexivity|]. autorewrite with minisql_rw. cbn [hput hpages].
    rewrite hpages_bump, Hs. split; [reflexivity|split; [reflexivity|]]. intros y. apply hpin_of_fetch_unpin, Hnn.
  - apply chain_cons_inv in Hc as (-> & p & Hp & Hid & Hch). apply Forall_cons in Hrej as [(p' & Hp' & Hno) Hrej].
    rewrite Hp in Hp'. injection Hp' as <-.
    rewrite (insert_loop_skip fuel s x last p t) by congruence.
    destruct (IH fuel (hunpin (bump s x) x) (tp_next_page_id p) x) as (s' & Hl & Hs' & Hm & Hpin);
      autorewrite with minisql_rw; auto; [lia|intros y; rewrite hpin_of_fetch_unpin; auto|].
    exists s'. rewrite Hm, hmeta_hunpin. split; [exact Hl|split; [exact Hs'|split; [reflexivity|]]].
    intros y. rewrite Hpin. apply hpin_of_fetch_unpin, Hnn.
Qed.

(** The loop runs off the end of a chain whose pages all lack room. *)
Lemma insert_loop_reject m t last plast pids : forall fuel s iter last0,
  hpages s = m -> m !! INVALID_PAGE_ID = None -> chain m iter (pids ++ [last]) ->
  m !! last = Some plast -> tp_next_page_id plast = INVALID_PAGE_ID ->
  Forall (rejects m t) (pids ++ [last]) -> (S (length pids) < fuel)%nat -> (forall x, 0 <= hpin_of s x) ->
  exists s', insert_loop tuple_size fuel s iter last0 t = Some (s', inr last) /\
    hpages s' = m /\ hmeta s' = hmeta s /\ forall x, hpin_of s' x = hpin_of s x.
Proof.
  induction pids as [|x pids IH]; intros [|fuel] s iter last0 Hs Hinv Hc Hl Hnext Hrej Hf Hnn; cbn in Hf; try lia.
  - apply chain_cons_inv in Hc as (-> & p & Hp & Hid & _). rewrite Hl in Hp. injection Hp as <-.
    apply Forall_cons in Hrej as [(p' & Hp' & Hno) _]. rewrite Hl in Hp'. injection Hp' as <-.
    rewrite (insert_loop_skip fuel s last last0 plast t) by congruence.
    destruct fuel as [|fuel]; [lia|]. cbn [insert_loop]. rewrite Hnext, Z.eqb_refl.
    eexists. split; [reflexivity|]. autorewrite with minisql_rw. split; [exact Hs|split; [reflexivity|]].
    intros y. apply hpin_of_fetch_unpin, Hnn.
  - apply chain_cons_inv in Hc as (-> & p & Hp & Hid & Hch). apply Forall_cons in Hrej as [(p' & Hp' & Hno) Hrej].
    rewrite Hp in Hp'. injection Hp' as <-.
    rewrite (insert_loop_skip fuel s x last0 p t) by congruence.
    destruct (IH fuel (hunpin (bump s x) x) (tp_next_page_id p) x) as (s' & Hlp & Hs' & Hm & Hpin);
      autorewrite with minisql_rw; auto; [lia|intros y; rewrite hpin_of_fetch_unpin; auto|].
    exists s'. rewrite Hm, hmeta_hunpin. split; [exact Hlp|split; [exact Hs'|split; [reflexivity|]]].
    intros y. rewrite Hpin. apply hpin_of_fetch_unpin, Hnn.
Qed.

(** C13: [TableHeap::InsertTuple] puts a tuple into the first page of the
    chain with room for it: it reports success with the [RowId] of the
    new slot, changes only that page, leaves every pin count as it was,
    and [GetTuple] of that [RowId] reads the tuple back. *)
Theorem InsertTuple_first_fit th s t pre q post pq pq' slot :
  sizeof_Row <= PAGE_SIZE -> hpages s !! INVALID_PAGE_ID = None -> (forall x, 0 <= hpin_of s x) ->
  chain (hpages s) (first_page_id_ th) (pre ++ q :: post) ->
  Forall (rejects (hpages s) t) pre ->
  hpages s !! q = Some pq -> tp_InsertTuple tuple_size pq t = Some (pq', slot) ->
  exists s', InsertTuple tuple_size sizeof_Row th s t = Some (s', true, Some (mkRowId q slot)) /\
    hpages s' = <[q := pq']> (hpages s) /\ (forall x, hpin_of s' x = hpin_of s x) /\
    snd (GetTuple s' (mkRowId q slot)) = Some t.
Proof.
  intros Hsz Hinv Hnn Hc Hrej Hq Hins.
  destruct (insert_loop_first_fit (hpages s) t q post pq pq' slot pre (hfuel s) s (first_page_id_ th) INVALID_PAGE_ID)
    as (s' & Hl & Hs' & _ & Hpin); auto.
  { pose proof (chain_length _ _ _ Hc) as Hlen. rewrite length_app in Hlen. cbn in Hlen. unfold hfuel. lia. }
  exists s'. unfold InsertTuple. rewrite Z.gtb_ltb, (proj2 (Z.ltb_ge _ _)) by lia.
  rewrite Hl. split; [reflexivity|split; [exact Hs'|split; [exact Hpin|]]].
  destruct (tp_InsertTuple_GetTuple tuple_size pq t pq' slot Hins) as (Hget & _).
  unfold GetTuple. cbn [page_id slot_num]. rewrite (hfetch_some _ _ pq'); [exact Hget|].
  rewrite Hs'. apply lookup_insert_eq.
Qed.

(** C14: When a tuple does not fit even an empty page, every page of the
    chain refuses it and [TableHeap::InsertTuple] allocates a new page,
    links it after the last one, and still reports success, although
    the page's own [InsertTuple] failed: no [RowId] is assigned and the
    new page is empty, so the row is lost. *)
Theorem InsertTuple_reports_lost_row th s t pids last plast :
  (forall x, 0 <= tuple_size x) ->
  sizeof_Row <= PAGE_SIZE -> hpages s !! INVALID_PAGE_ID = None -> (forall x, 0 <= hpin_of s x) ->
  (forall pid, pid ∈ dom (hpages s) -> pid < hnext_page_id s) ->
  chain (hpages s) (first_page_id_ th) (pids ++ [last]) ->
  hpages s !! last = Some plast -> tp_next_page_id plast = INVALID_PAGE_ID ->
  PAGE_SIZE - SIZE_TABLE_PAGE_HEADER < tuple_size t + SIZE_SLOT ->
  (pinned_count s < hpool_size s)%nat ->
  exists s', InsertTuple tuple_size sizeof_Row th s t = Some (s', true, None) /\
    hpages s' = <[hnext_page_id s := tp_Init (hnext_page_id s) last]>
                  (<[last := tp_SetNextPageId plast (hnext_page_id s)]> (hpages s)).
Proof.
  intros Hnn_size Hsz Hinv Hnn Hfresh Hc Hl Hnext Hbig Hpool.
  assert (Hrej : Forall (rejects (hpages s) t) (pids ++ [last])).
  { apply Forall_forall. intros x Hx. pose proof (proj2 (chain_in_dom _ _ _ Hc)) as Hsub.
    assert (Hd : x ∈ dom (hpages s)) by (apply Hsub; apply elem_of_list_to_set; exact Hx).
    apply elem_of_dom in Hd as [p Hp]. exists p. split; [exact Hp|].
    apply tp_InsertTuple_None. pose proof (tp_free_space_le tuple_size p Hnn_size). lia. }
  destruct (insert_loop_reject (hpages s) t last plast pids (hfuel s) s (first_page_id_ th) INVALID_PAGE_ID)
    as (s1 & Hloop & Hs1 & Hm1 & Hpin1); auto.
  { pose proof (chain_length _ _ _ Hc) as Hlen. rewrite length_app in Hlen. cbn in Hlen. unfold hfuel. lia. }
  assert (Hnew : last <> hnext_page_id s).
  { intros E. assert (last ∈ dom (hpages s)) as Hd%Hfresh by (apply elem_of_dom; eauto). lia. }
  unfold InsertTuple. rewrite Z.gtb_ltb, (proj2 (Z.ltb_ge _ _)) by lia. rewrite Hloop.
  cbn [mbind option_bind]. unfold hnew_page.
  rewrite (pinned_count_ext s s1 Hs1 Hpin1). unfold hmeta in Hm1. injection Hm1 as Hn1 Hp1.
  rewrite Hp1, Hn1, (proj2 (Nat.leb_gt _ _)) by lia.
  rewrite (hfetch_some _ _ plast) by (cbn [hpages]; rewrite lookup_insert_ne by congruence; rewrite Hs1; exact Hl).
  rewrite (proj2 (tp_InsertTuple_None tuple_size _ _)) by (rewrite tp_free_space_Init; lia).
  eexists. split; [reflexivity|]. hsimpl.
  rewrite Hs1, (insert_insert_ne _ last (hnext_page_id s)) by congruence. rewrite insert_insert_eq. reflexivity.
Qed.

(** C15: [TableHeap::UpdateTuple] returns false without unpinning the page
    it fetched when the slot holds no live tuple or the new tuple is
    larger than the old one: the page stays pinned once more. *)
Theorem UpdateTuple_leaks_pin s t rid p :
  sizeof_Row <= PAGE_SIZE -> hpages s !! page_id rid = Some p ->
  (tp_GetTuple p (slot_num rid) = None \/
   exists old, tp_GetTuple p (slot_num rid) = Some old /\ tuple_size old < tuple_size t) ->
  exists s', UpdateTuple tuple_size sizeof_Row s t rid = (s', false) /\ hpages s' = hpages s /\
    hpin_of s' (page_id rid) = hpin_of s (page_id rid) + 1.
Proof.
  intros Hsz Hp Hfail. unfold UpdateTuple. rewrite Z.gtb_ltb, (proj2 (Z.ltb_ge _ _)) by lia.
  rewrite (hfetch_some _ _ p Hp), tp_UpdateTuple_GetTuple.
  assert (Hb : hpin_of (bump s (page_id rid)) (page_id rid) = hpin_of s (page_id rid) + 1)
    by (unfold hpin_of at 1; cbn [bump hpins]; rewrite lookup_insert_eq; reflexivity).
  destruct Hfail as [-> | (old & -> & Hlt)]; [eauto|].
  rewrite (proj2 (Z.leb_gt _ _)) by lia. eauto.
Qed.

End Insert.

(** ** Checkers and witnesses *)

(** [chain] decided by walking the next pointers. *)
Fixpoint chain_pids {T} (fuel : nat) (m : gmap Z (TablePage T)) (pid : Z) : option (list Z) :=
  match fuel with
  | O => None
  | S f =>
      match m !! pid with
      | None => Some []
      | Some p =>
          if bool_decide (tp_page_id p = pid) then
            rest ← chain_pids f m (tp_next_page_id p);
            if bool_decide (pid ∈ rest) then None else Some (pid :: rest)
          else None
      end
  end.

Lemma chain_pids_sound {T} fuel (m : gmap Z (TablePage T)) pid pids :
  chain_pids fuel m pid = Some pids -> chain m pid pids.
Proof.
  revert pid pids; induction fuel as [|f IH]; intros pid pids H; [discriminate|]. cbn [chain_pids] in H.
  destruct (m !! pid) as [p|] eqn:Hp; [|injection H as <-; constructor; exact Hp].
  case_bool_decide as Hid; [|discriminate].
  destruct (chain_pids f m (tp_next_page_id p)) as [rest|] eqn:Hr; cbn in H; [|discriminate].
  case_bool_decide; [discriminate|]. injection H as <-. econstructor; eauto.
Qed.

Lemma fresh_check {T} (m : gmap Z (TablePage T)) n :
  forallb (fun pid => pid <? n) (elements (dom m)) = true -> forall pid, pid ∈ dom m -> pid < n.
Proof.
  intros Hb pid Hd. rewrite forallb_forall in Hb. apply Z.ltb_lt, Hb, list_elem_of_In, elem_of_elements, Hd.
Qed.

Section Witnesses.

(** Tuples given by their size in bytes. *)
Definition wsize (n : nat) : Z := Z.of_nat n.

(** A chain 0 -> 1 -> 2: page 0 holds a deleted tuple of 3000 bytes and
    a live one of 200, page 1 a reclaimed slot and a live tuple of 300,
    page 2 nothing. *)
Definition wp0 : TablePage nat := mkTablePage 0 INVALID_PAGE_ID 1 [Some (3000%nat, true); Some (200%nat, false)].
Definition wp1 : TablePage nat := mkTablePage 1 0 2 [None; Some (300%nat, false)].
Definition wp2 : TablePage nat := mkTablePage 2 1 INVALID_PAGE_ID [].
Definition wpages : gmap Z (TablePage nat) := <[0 := wp0]> (<[1 := wp1]> (<[2 := wp2]> ∅)).
Definition wstore : HeapStore nat := mkHeapStore wpages ∅ 3 4.
Definition wheap : TableHeap := mkTableHeap 0.

(** The same chain with nothing live on page 0. *)
Definition wp0_dead : TablePage nat := mkTablePage 0 INVALID_PAGE_ID 1 [Some (3000%nat, true)].
Definition wstore_dead : HeapStore nat := mkHeapStore (<[0 := wp0_dead]> wpages) ∅ 3 4.

(** Page 1 after a tuple of 1000 bytes went into its reclaimed slot. *)
Definition wp1' : TablePage nat := mkTablePage 1 0 2 [Some (1000%nat, false); Some (300%nat, false)].

Lemma wstore_pins x : 0 <= hpin_of wstore x.
Proof. unfold hpin_of. cbn [hpins wstore]. rewrite lookup_empty. cbn. lia. Qed.

Lemma Begin_scan_witness :
  exists s1 it, Begin wheap wstore = Some (s1, it) /\
    scan (S (length (live_rids (hpages wstore) [0; 1; 2]))) s1 it = Some (live_rids (hpages wstore) [0; 1; 2]) /\
    NoDup (live_rids (hpages wstore) [0; 1; 2]).
Proof.
  apply (Begin_scan wheap wstore wp0 [0; 1; 2]);
    [reflexivity|apply (chain_pids_sound 4); vm_compute; reflexivity|reflexivity|vm_compute; discriminate].
Defined.

Lemma Begin_misses_later_pages_witness :
  exists s1, Begin wheap wstore_dead = Some (s1, End) /\
    forall n, scan n s1 End <> Some (live_rids (hpages wstore_dead) [0; 1; 2]).
Proof.
  apply (Begin_misses_later_pages wheap wstore_dead wp0_dead [0; 1; 2]);
    [apply (chain_pids_sound 4); vm_compute; reflexivity|reflexivity|reflexivity|vm_compute; discriminate].
Defined.

Lemma InsertTuple_first_fit_witness :
  exists s', InsertTuple wsize 48 wheap wstore 1000%nat = Some (s', true, Some (mkRowId 1 0)) /\
    hpages s' = <[1 := wp1']> (hpages wstore) /\ (forall x, hpin_of s' x = hpin_of wstore x) /\
    snd (GetTuple s' (mkRowId 1 0)) = Some 1000%nat.
Proof.
  apply (InsertTuple_first_fit wsize 48 wheap wstore 1000%nat [0] 1 [2] wp1 wp1' 0);
    [vm_compute; discriminate|reflexivity|apply wstore_pins|apply (chain_pids_sound 4); vm_compute; reflexivity
    | |reflexivity|vm_compute; reflexivity].
  constructor; [|constructor]. exists wp0. split; reflexivity.
Defined.

Lemma InsertTuple_reports_lost_row_witness :
  exists s', InsertTuple wsize 48 wheap wstore 5000%nat = Some (s', true, None) /\
    hpages s' = <[hnext_page_id wstore := tp_Init (hnext_page_id wstore) 2]>
                  (<[2 := tp_SetNextPageId wp2 (hnext_page_id wstore)]> (hpages wstore)).
Proof.
  apply (InsertTuple_reports_lost_row wsize 48 wheap wstore 5000%nat [0; 1] 2 wp2);
    [intros x; unfold wsize; lia|vm_compute; discriminate|reflexivity|apply wstore_pins
    |apply fresh_check; vm_compute; reflexivity|apply (chain_pids_sound 4); vm_compute; reflexivity
    |reflexivity|reflexivity|vm_compute; reflexivity|vm_compute; lia].
Defined.

Lemma UpdateTuple_leaks_pin_witness :
  exists s', UpdateTuple wsize 48 wstore 10%nat (mkRowId 0 0) = (s', false) /\ hpages s' = hpages wstore /\
    hpin_of s' (page_id (mkRowId 0 0)) = hpin_of wstore (page_id (mkRowId 0 0)) + 1.
Proof.
  apply (UpdateTuple_leaks_pin wsize 48 wstore 10%nat (mkRowId 0 0) wp0);
    [vm_compute; discriminate|reflexivity|left; reflexivity].
Defined.

End Witnesses.

End TableHeap.
