(* ===== verification/CatalogManager.v ===== *)
(** * The catalog manager (catalog/catalog.cpp, [CatalogManager])

    [CatalogManager] keeps the registry of tables and indexes: the
    [CatalogMeta] of the meta page (two [std::map]s from ids to metadata
    pages), the next unused ids, and four [unordered_map]s: table names
    to ids, ids to [TableInfo], table names to (index names to ids), and
    ids to [IndexInfo].  Its operations reach the pages through the
    buffer pool of BufferPool.v ([FetchPage], [NewPage], [UnpinPage],
    [FlushPage]) and write the metadata with the codecs of Catalog.v
    into the frame's data ([page->GetData()]).

    Every operation returns [None] where the C++ code has undefined
    behaviour: a [nullptr] page dereferenced, a metadata object left
    uninitialised by a wrong magic number, [find(...)->second] on a
    missing key, a [memcpy] past the page.  [unordered_map::insert] keeps
    an existing key ([umap_insert]); [GetTables] lists the tables in the
    order of the [gmap], one of the orders an [unordered_map] may have.

    [TableInfo], [IndexInfo], [TableHeap::Create], [IndexInfo::Init] and
    [Schema::GetColumnIndex] are in headers that are not under src/; they
    are modelled from the spec: a table heap is created by allocating and
    initialising its first page, and an index is identified by its
    metadata.  The B+ tree an index builds is modelled by its contract,
    a unique-key index: [InsertEntry] fails exactly on a key already
    inserted (the tree itself is BPlusTree.v). *)

From Stdlib Require Import ZArith Lia List Sorting.Sorted.
From stdpp Require Import base list gmap.
From S2P Require Import Spec2Rocq Records Catalog DiskManager Replacer LRUReplacer BufferPool.
Import ListNotations.
Open Scope Z_scope.

Module CatalogManager.
Import Records Catalog DiskManager BufferPool.

(** [dberr_t], the results of the catalog's operations. *)
Inductive dberr_t :=
  | DB_SUCCESS | DB_FAILED | DB_TABLE_ALREADY_EXIST | DB_TABLE_NOT_EXIST
  | DB_INDEX_ALREADY_EXIST | DB_INDEX_NOT_FOUND | DB_COLUMN_NAME_NOT_EXIST.

#[export] Instance dberr_t_eq_dec : EqDecision dberr_t.
Proof. solve_decision. Defined.

(** The fixed logical page of the catalog meta page. *)
Definition CATALOG_META_PAGE_ID : Z := 0.

(** [TableInfo]: the table's metadata and its heap, by its first page. *)
Record TableInfo := mkTableInfo { table_meta_ : TableMetadata; table_heap_ : Z }.

(** [IndexInfo]: the index's metadata and its table. *)
Record IndexInfo := mkIndexInfo { index_meta_ : IndexMetadata; index_table_ : TableInfo }.

Record CatalogManager := mkCatalogManager {
  catalog_meta_ : CatalogMeta;
  next_table_id_ : Z;
  next_index_id_ : Z;
  table_names_ : gmap (list Z) Z;
  tables_ : gmap Z TableInfo;
  index_names_ : gmap (list Z) (gmap (list Z) Z);
  indexes_ : gmap Z IndexInfo
}.

(** [unordered_map::insert]: nothing when the key is present. *)
Definition umap_insert {K V} `{Countable K} (k : K) (v : V) (m : gmap K V) : gmap K V :=
  match m !! k with Some _ => m | None => <[k := v]> m end.

(** [std::map::erase(key)]. *)
Definition map_erase (k : Z) (m : list (Z * Z)) : list (Z * Z) :=
  List.filter (fun kv => negb (fst kv =? k)) m.

Definition set_meta (cm : CatalogManager) (m : CatalogMeta) : CatalogManager :=
  mkCatalogManager m (next_table_id_ cm) (next_index_id_ cm) (table_names_ cm) (tables_ cm)
                   (index_names_ cm) (indexes_ cm).

Definition set_tables (cm : CatalogManager) (tn : gmap (list Z) Z) (ts : gmap Z TableInfo) : CatalogManager :=
  mkCatalogManager (catalog_meta_ cm) (next_table_id_ cm) (next_index_id_ cm) tn ts
                   (index_names_ cm) (indexes_ cm).

Definition set_indexes (cm : CatalogManager) (inames : gmap (list Z) (gmap (list Z) Z)) (idx : gmap Z IndexInfo) : CatalogManager :=
  mkCatalogManager (catalog_meta_ cm) (next_table_id_ cm) (next_index_id_ cm) (table_names_ cm) (tables_ cm)
                   inames idx.

Definition set_next_ids (cm : CatalogManager) (t i : Z) : CatalogManager :=
  mkCatalogManager (catalog_meta_ cm) t i (table_names_ cm) (tables_ cm) (index_names_ cm) (indexes_ cm).

(** [index_names_] after registering index [iid] of [table_name]: a new
    inner map when the table has none, else an insert into it. *)
Definition add_index_name (inames : gmap (list Z) (gmap (list Z) Z)) (table_name index_name : list Z) (iid : Z)
  : gmap (list Z) (gmap (list Z) Z) :=
  match inames !! table_name with
  | None => umap_insert table_name {[index_name := iid]} inames
  | Some m => <[table_name := umap_insert index_name iid m]> inames
  end.

(** [Schema::GetColumnIndex]: the index of the first column of that name. *)
Fixpoint column_index (cols : list Column) (name : list Z) (i : Z) : option Z :=
  match cols with
  | [] => None
  | c :: cs => if decide (name_ c = name) then Some i else column_index cs name (i + 1)
  end.

Definition GetColumnIndex (sc : Schema) (name : list Z) : option Z := column_index (columns_ sc) name 0.

(** The loop of [CreateIndex] over [index_keys]: the key map, or [None]
    for the [DB_COLUMN_NAME_NOT_EXIST] of a missing column. *)
Fixpoint key_map_of (sc : Schema) (index_keys : list (list Z)) : option (list Z) :=
  match index_keys with
  | [] => Some []
  | k :: ks =>
      match GetColumnIndex sc k with
      | None => None
      | Some i => cons i <$> key_map_of sc ks
      end
  end.

Section Manager.
Context {R : Type} `{Replacer R}.
Variables CATALOG_METADATA_MAGIC_NUM TABLE_METADATA_MAGIC_NUM INDEX_METADATA_MAGIC_NUM : Z.
Variables SCHEMA_MAGIC_NUM COLUMN_MAGIC_NUM : Z.
(** The heap bytes that follow a name buffer the deserializers copy into. *)
Variable heap_after : list Z.
Implicit Types (bpm : BufferPoolManager R) (cm : CatalogManager).

(** [page->GetData()] of a frame, and a write into it. *)
Definition frame_data bpm (fid : Z) : option (list Z) := data_ <$> get_page bpm fid.

Definition set_frame_data bpm (fid : Z) (d : list Z) : option (BufferPoolManager R) :=
  p ← get_page bpm fid; Some (set_page bpm fid (mkPage (page_id_ p) (pin_count_ p) (is_dirty_ p) d)).

(** A [SerializeTo] at the start of the frame: past the page undefined. *)
Definition write_frame bpm (fid : Z) (bytes : list Z) : option (BufferPoolManager R) :=
  d ← frame_data bpm fid;
  if (length bytes <=? length d)%nat then set_frame_data bpm fid (write_bytes d 0 bytes) else None.

(** The header [TablePage::Init] writes (spec 3): page id, previous and
    next page ids, lsn, free space pointer and tuple count. *)
Definition table_page_header (page_id prev_page_id : Z) : list Z :=
  le_encode 4 page_id ++ le_encode 4 prev_page_id ++ le_encode 4 INVALID_PAGE_ID
  ++ le_encode 4 0 ++ le_encode 4 PAGE_SIZE ++ le_encode 4 0.

(** [TableHeap::Create] of a new table: allocate the first page,
    initialise it, and unpin it dirty; its page id. *)
Definition TableHeap_Create bpm : option (BufferPoolManager R * Z) :=
  '(bpm1, r) ← NewPage bpm;
  '(first_page_id, fid) ← r;
  bpm2 ← write_frame bpm1 fid (table_page_header first_page_id INVALID_PAGE_ID);
  '(bpm3, _) ← UnpinPage bpm2 first_page_id true;
  Some (bpm3, first_page_id).

(** [GetTable(table_name, table_info)]. *)
Definition GetTable cm (table_name : list Z) : option (dberr_t * option TableInfo) :=
  match table_names_ cm !! table_name with
  | None => Some (DB_TABLE_NOT_EXIST, None)
  | Some id => ti ← tables_ cm !! id; Some (DB_SUCCESS, Some ti)
  end.

(** [GetTable(table_id, table_info)]: [find(table_id)->second]. *)
Definition GetTableById cm (table_id : Z) : option TableInfo := tables_ cm !! table_id.

(** [GetTables]. *)
Definition GetTables cm : list TableInfo := snd <$> map_to_list (tables_ cm).

(** [CreateTable]. *)
Definition CreateTable cm bpm (table_name : list Z) (schema : Schema)
  : option (CatalogManager * BufferPoolManager R * dberr_t * option TableInfo) :=
  '(e, _) ← GetTable cm table_name;
  if decide (e = DB_SUCCESS) then Some (cm, bpm, DB_TABLE_ALREADY_EXIST, None) else
  '(bpm1, first_page_id) ← TableHeap_Create bpm;
  '(bpm2, r) ← NewPage bpm1;
  '(meta_page_id, fid) ← r;
  let id := next_table_id_ cm in
  let table_meta := mkTableMetadata id table_name first_page_id schema in
  bpm3 ← write_frame bpm2 fid (fst (TableMetadata_SerializeTo TABLE_METADATA_MAGIC_NUM SCHEMA_MAGIC_NUM
                                                               COLUMN_MAGIC_NUM table_meta));
  let info := mkTableInfo table_meta first_page_id in
  let meta := catalog_meta_ cm in
  let cm1 := set_meta cm (mkCatalogMeta (map_insert id meta_page_id (table_meta_pages_ meta))
                                        (index_meta_pages_ meta)) in
  let cm2 := set_tables cm1 (umap_insert table_name id (table_names_ cm)) (umap_insert id info (tables_ cm)) in
  Some (set_next_ids cm2 (wrap 32 (id + 1)) (next_index_id_ cm), bpm3, DB_SUCCESS, Some info).

(** [GetIndex]. *)
Definition GetIndex cm (table_name index_name : list Z) : option (dberr_t * option IndexInfo) :=
  match index_names_ cm !! table_name with
  | None => Some (DB_INDEX_NOT_FOUND, None)
  | Some m =>
      match m !! index_name with
      | None => Some (DB_INDEX_NOT_FOUND, None)
      | Some iid => ii ← indexes_ cm !! iid; Some (DB_SUCCESS, Some ii)
      end
  end.

(** [GetTableIndexes]. *)
Definition GetTableIndexes cm (table_name : list Z) : option (dberr_t * list IndexInfo) :=
  match table_names_ cm !! table_name with
  | None => Some (DB_TABLE_NOT_EXIST, [])
  | Some _ =>
      match index_names_ cm !! table_name with
      | None => Some (DB_SUCCESS, [])
      | Some m => infos ← mapM (fun '(_, iid) => indexes_ cm !! iid) (map_to_list m); Some (DB_SUCCESS, infos)
      end
  end.

(** [DropIndex]: [indexes_[index_id]] on a missing id is a [nullptr]
    dereferenced by [GetIndex()->Destroy()]. *)
Definition DropIndex cm (table_name index_name : list Z) : option (CatalogManager * dberr_t) :=
  match index_names_ cm !! table_name with
  | None => Some (cm, DB_TABLE_NOT_EXIST)
  | Some m =>
      match m !! index_name with
      | None => Some (cm, DB_INDEX_NOT_FOUND)
      | Some index_id =>
          _ ← indexes_ cm !! index_id;
          let meta := catalog_meta_ cm in
          let cm1 := set_meta cm (mkCatalogMeta (table_meta_pages_ meta) (map_erase index_id (index_meta_pages_ meta))) in
          Some (set_indexes cm1 (<[table_name := delete index_name m]> (index_names_ cm)) (delete index_id (indexes_ cm)),
                DB_SUCCESS)
      end
  end.

(** [DropTable]: the table, and every index of the table. *)
Definition DropTable cm (table_name : list Z) : option (CatalogManager * dberr_t) :=
  match table_names_ cm !! table_name with
  | None => Some (cm, DB_TABLE_NOT_EXIST)
  | Some id =>
      let meta := catalog_meta_ cm in
      let '(idx, imeta, inames) :=
        match index_names_ cm !! table_name with
        | None => (indexes_ cm, index_meta_pages_ meta, index_names_ cm)
        | Some m =>
            let ids := snd <$> map_to_list m in
            (foldr delete (indexes_ cm) ids, foldr map_erase (index_meta_pages_ meta) ids,
             delete table_name (index_names_ cm))
        end in
      let cm1 := set_meta cm (mkCatalogMeta (map_erase id (table_meta_pages_ meta)) imeta) in
      let cm2 := set_tables cm1 (delete table_name (table_names_ cm)) (delete id (tables_ cm)) in
      Some (set_indexes cm2 inames idx, DB_SUCCESS)
  end.

(** The key schema [IndexInfo::Init] builds: the table's columns at the
    key map. *)
Definition key_schema (sc : Schema) (key_map : list Z) : option (list Column) :=
  mapM (fun i => columns_ sc !! Z.to_nat i) key_map.

Inductive scan_result := ScanDone | ScanStatus (e : dberr_t) | ScanDuplicate.

Section Populate.
Context {F : Type} `{EqDecision F}.

(** The loop of [CreateIndex] over the table heap (lines 191-224): for
    each tuple, the key columns found by name in the table's schema (a
    missing one returns its status), the key fields ([GetField] out of
    range undefined), and [InsertEntry] into the new unique-key index,
    which fails on a key inserted before. *)
Fixpoint populate (sc : Schema) (ind : list Column) (seen : list (list F)) (tuples : list (list F))
  : option scan_result :=
  match tuples with
  | [] => Some ScanDone
  | t :: ts =>
      match key_map_of sc (name_ <$> ind) with
      | None => Some (ScanStatus DB_COLUMN_NAME_NOT_EXIST)
      | Some index_columns =>
          key ← mapM (fun i => t !! Z.to_nat i) index_columns;
          if decide (key ∈ seen) then Some ScanDuplicate else populate sc ind (key :: seen) ts
      end
  end.

(** [CreateIndex], over the fields of the tuples a scan of the table heap
    yields, in order. *)
Definition CreateIndex cm bpm (table_name index_name : list Z) (index_keys : list (list Z)) (tuples : list (list F))
  : option (CatalogManager * BufferPoolManager R * dberr_t * option IndexInfo) :=
  match table_names_ cm !! table_name with
  | None => Some (cm, bpm, DB_TABLE_NOT_EXIST, None)
  | Some tid =>
      '(e, _) ← GetIndex cm table_name index_name;
      if decide (e = DB_SUCCESS) then Some (cm, bpm, DB_INDEX_ALREADY_EXIST, None) else
      '(_, oti) ← GetTable cm table_name;
      table_info ← oti;
      let sc := schema_ (table_meta_ table_info) in
      match key_map_of sc index_keys with
      | None => Some (cm, bpm, DB_COLUMN_NAME_NOT_EXIST, None)
      | Some key_map =>
          let iid := next_index_id_ cm in
          '(bpm1, r) ← NewPage bpm;
          '(meta_page_id, fid) ← r;
          let im := mkIndexMetadata iid index_name tid key_map in
          d ← frame_data bpm1 fid;
          if negb (28 + length index_name + 4 * length key_map <=? length d)%nat then None else
          bpm2 ← set_frame_data bpm1 fid (fst (IndexMetadata_SerializeTo INDEX_METADATA_MAGIC_NUM d im));
          let info := mkIndexInfo im table_info in
          let meta := catalog_meta_ cm in
          let cm1 := set_indexes cm (add_index_name (index_names_ cm) table_name index_name iid)
                                    (umap_insert iid info (indexes_ cm)) in
          let cm2 := set_meta cm1 (mkCatalogMeta (table_meta_pages_ meta)
                                                 (map_insert iid meta_page_id (index_meta_pages_ meta))) in
          let cm3 := set_next_ids cm2 (next_table_id_ cm) (wrap 32 (iid + 1)) in
          ind ← key_schema sc key_map;
          res ← populate sc ind [] tuples;
          match res with
          | ScanDone => Some (cm3, bpm2, DB_SUCCESS, Some info)
          | ScanStatus e' => Some (cm3, bpm2, e', Some info)
          | ScanDuplicate => '(cm4, _) ← DropIndex cm3 table_name index_name; Some (cm4, bpm2, DB_FAILED, Some info)
          end
      end
  end.

End Populate.

(** [FlushCatalogMetaPage]. *)
Definition FlushCatalogMetaPage cm bpm : option (BufferPoolManager R * dberr_t) :=
  '(bpm1, r) ← FetchPage bpm CATALOG_META_PAGE_ID;
  fid ← r;
  bpm2 ← write_frame bpm1 fid (CatalogMeta_SerializeTo CATALOG_METADATA_MAGIC_NUM (catalog_meta_ cm));
  '(bpm3, _) ← UnpinPage bpm2 CATALOG_META_PAGE_ID true;
  '(bpm4, _) ← FlushPage bpm3 CATALOG_META_PAGE_ID;
  Some (bpm4, DB_SUCCESS).

(** [LoadTable]: the metadata page is fetched and not unpinned. *)
Definition LoadTable cm bpm (table_id page_id : Z) : option (CatalogManager * BufferPoolManager R * dberr_t) :=
  '(bpm1, r) ← FetchPage bpm page_id;
  fid ← r;
  d ← frame_data bpm1 fid;
  '(_, om) ← TableMetadata_DeserializeFrom TABLE_METADATA_MAGIC_NUM SCHEMA_MAGIC_NUM COLUMN_MAGIC_NUM d heap_after;
  meta_data ← om;
  let info := mkTableInfo meta_data (root_page_id_ meta_data) in
  Some (set_tables cm (umap_insert (table_name_ meta_data) (table_id_ meta_data) (table_names_ cm))
                      (umap_insert (table_id_ meta_data) info (tables_ cm)), bpm1, DB_SUCCESS).

(** [LoadIndex]: likewise; the table of the index must be loaded. *)
Definition LoadIndex cm bpm (index_id page_id : Z) : option (CatalogManager * BufferPoolManager R * dberr_t) :=
  '(bpm1, r) ← FetchPage bpm page_id;
  fid ← r;
  d ← frame_data bpm1 fid;
  '(_, om) ← IndexMetadata_DeserializeFrom INDEX_METADATA_MAGIC_NUM d heap_after;
  meta_data ← om;
  table_info ← GetTableById cm (im_table_id_ meta_data);
  let tname := table_name_ (table_meta_ table_info) in
  Some (set_indexes cm (add_index_name (index_names_ cm) tname (index_name_ meta_data) (index_id_ meta_data))
                       (umap_insert (index_id_ meta_data) (mkIndexInfo meta_data table_info) (indexes_ cm)),
        bpm1, DB_SUCCESS).

(** The two loops of the constructor over the meta page's maps, with
    the running maximum of lines 94 and 100: the index loop compares
    each index id with [table_max_id]. *)
Fixpoint load_tables cm bpm (tables : list (Z * Z)) (table_max_id : Z)
  : option (CatalogManager * BufferPoolManager R * Z) :=
  match tables with
  | [] => Some (cm, bpm, table_max_id)
  | (id, pid) :: ts =>
      '(cm1, bpm1, _) ← LoadTable cm bpm id pid;
      load_tables cm1 bpm1 ts (if table_max_id <? id then id else table_max_id)
  end.

Fixpoint load_indexes cm bpm (indexes : list (Z * Z)) (table_max_id index_max_id : Z)
  : option (CatalogManager * BufferPoolManager R * Z) :=
  match indexes with
  | [] => Some (cm, bpm, index_max_id)
  | (id, pid) :: rest =>
      '(cm1, bpm1, _) ← LoadIndex cm bpm id pid;
      load_indexes cm1 bpm1 rest table_max_id (if table_max_id <? id then id else table_max_id)
  end.

Definition empty_catalog (meta : CatalogMeta) : CatalogManager := mkCatalogManager meta 0 0 ∅ ∅ ∅ ∅.

(** [CatalogManager(bpm, ..., init = true)]. *)
Definition CatalogManager_init bpm : option (CatalogManager * BufferPoolManager R) :=
  let meta := mkCatalogMeta [] [] in
  '(bpm1, r) ← FetchPage bpm CATALOG_META_PAGE_ID;
  fid ← r;
  bpm2 ← write_frame bpm1 fid (CatalogMeta_SerializeTo CATALOG_METADATA_MAGIC_NUM meta);
  '(bpm3, _) ← UnpinPage bpm2 CATALOG_META_PAGE_ID true;
  Some (empty_catalog meta, bpm3).

(** [CatalogManager(bpm, ..., init = false)]: a wrong magic number gives
    a [nullptr] meta, dereferenced by the loops. *)
Definition CatalogManager_load bpm : option (CatalogManager * BufferPoolManager R) :=
  '(bpm1, r) ← FetchPage bpm CATALOG_META_PAGE_ID;
  fid ← r;
  d ← frame_data bpm1 fid;
  meta ← CatalogMeta_DeserializeFrom CATALOG_METADATA_MAGIC_NUM d;
  '(bpm2, _) ← UnpinPage bpm1 CATALOG_META_PAGE_ID false;
  '(cm1, bpm3, table_max_id) ← load_tables (empty_catalog meta) bpm2 (table_meta_pages_ meta) 0;
  let cm2 := set_next_ids cm1 (wrap 32 (table_max_id + 1)) (next_index_id_ cm1) in
  '(cm3, bpm4, index_max_id) ← load_indexes cm2 bpm3 (index_meta_pages_ meta) table_max_id 0;
  Some (set_next_ids cm3 (next_table_id_ cm3) (wrap 32 (index_max_id + 1)), bpm4).

End Manager.

(** ** Lemmas on the containers *)

Section Containers.

Lemma umap_insert_new {K V} `{Countable K} (k : K) (v : V) (m : gmap K V) :
  m !! k = None -> umap_insert k v m = <[k := v]> m.
Proof. intros Hk. unfold umap_insert. rewrite Hk. reflexivity. Qed.

Lemma umap_insert_old {K V} `{Countable K} (k : K) (v : V) (m : gmap K V) :
  is_Some (m !! k) -> umap_insert k v m = m.
Proof. intros [w Hk]. unfold umap_insert. rewrite Hk. reflexivity. Qed.

Lemma keys_map_insert k v (m : list (Z * Z)) x :
  In x (map fst (map_insert k v m)) <-> k = x \/ In x (map fst m).
Proof.
  induction m as [|[k' v'] m IH]; cbn [map_insert map fst In]; [tauto|].
  destruct (Z.ltb_spec k k'); [cbn; tauto|]. destruct (Z.eqb_spec k k') as [->|]; [cbn; tauto|].
  cbn [map fst In]. rewrite IH. tauto.
Qed.

Lemma keys_map_erase k (m : list (Z * Z)) x :
  In x (map fst (map_erase k m)) <-> x <> k /\ In x (map fst m).
Proof.
  unfold map_erase. rewrite !in_map_iff. split.
  - intros ([a b] & <- & Hin). apply filter_In in Hin as [Hin Hk]. cbn in *.
    split; [intros ->; rewrite Z.eqb_refl in Hk; discriminate|]. exists (a, b). auto.
  - intros [Hx ([a b] & <- & Hin)]. exists (a, b). split; [reflexivity|]. apply filter_In.
    split; [exact Hin|]. cbn in *. rewrite (proj2 (Z.eqb_neq _ _) Hx). reflexivity.
Qed.

Lemma sorted_map_insert k v (m : list (Z * Z)) :
  StronglySorted key_lt m -> StronglySorted key_lt (map_insert k v m).
Proof.
  induction 1 as [|[k' v'] m Hs IH Hall]; cbn [map_insert]; [repeat constructor|].
  destruct (Z.ltb_spec k k') as [Hlt|Hge].
  - constructor; [constructor; assumption|]. constructor; [exact Hlt|].
    eapply Forall_impl; [exact Hall|]. unfold key_lt. cbn. lia.
  - destruct (Z.eqb_spec k k'); [constructor; assumption|]. constructor; [exact IH|].
    apply Forall_forall. intros [a b] Hin. apply list_elem_of_In in Hin.
    assert (Ha : In a (map fst (map_insert k v m))) by (apply in_map_iff; exists (a, b); auto).
    apply keys_map_insert in Ha as [->|Ha]; unfold key_lt; cbn; [lia|].
    apply in_map_iff in Ha as ([a' b'] & Ea & Hin'). cbn in Ea. subst a'.
    rewrite Forall_forall in Hall. apply list_elem_of_In in Hin'. exact (Hall _ Hin').
Qed.

Lemma sorted_map_erase k (m : list (Z * Z)) :
  StronglySorted key_lt m -> StronglySorted key_lt (map_erase k m).
Proof.
  induction 1 as [|a m Hs IH Hall]; [constructor|]. unfold map_erase in *. cbn [List.filter].
  destruct (negb (fst a =? k)); [|exact IH]. constructor; [exact IH|].
  apply Forall_forall. intros b Hb. apply list_elem_of_In, filter_In in Hb as [Hb _].
  rewrite Forall_forall in Hall. apply Hall, list_elem_of_In, Hb.
Qed.

Lemma lookup_foldr_delete {V} (ids : list Z) (m : gmap Z V) k :
  foldr delete m ids !! k = if decide (k ∈ ids) then None else m !! k.
Proof.
  induction ids as [|i ids IH]; cbn [foldr]; [reflexivity|]. rewrite lookup_delete, IH.
  destruct (decide (i = k)) as [->|Hne]; [rewrite decide_True by set_solver; reflexivity|].
  destruct (decide (k ∈ ids)); [rewrite decide_True by set_solver; reflexivity|].
  rewrite decide_False by set_solver. reflexivity.
Qed.

Lemma keys_foldr_map_erase (ids : list Z) (m : list (Z * Z)) x :
  In x (map fst (foldr map_erase m ids)) <-> (x ∉ ids) /\ In x (map fst m).
Proof.
  induction ids as [|i ids IH]; cbn [foldr]; [split; [intros H; split; [set_solver|exact H]|tauto]|].
  rewrite keys_map_erase, IH. rewrite elem_of_cons. tauto.
Qed.

Lemma sorted_foldr_map_erase (ids : list Z) (m : list (Z * Z)) :
  StronglySorted key_lt m -> StronglySorted key_lt (foldr map_erase m ids).
Proof. intros Hs. induction ids as [|i ids IH]; [exact Hs|]. apply sorted_map_erase, IH. Qed.

Lemma map_erase_insert_fresh k v (m : list (Z * Z)) :
  ~ In k (map fst m) -> map_erase k (map_insert k v m) = m.
Proof.
  induction m as [|[k' v'] m IH]; intros Hk; cbn [map_insert]; [unfold map_erase; cbn; rewrite Z.eqb_refl; reflexivity|].
  cbn [map fst In] in Hk. rewrite (proj2 (Z.eqb_neq k k')) by (intros ->; auto).
  unfold map_erase in *. destruct (k <? k'); cbn [List.filter fst]; rewrite ?Z.eqb_refl, (proj2 (Z.eqb_neq k' k)) by (intros ->; auto);
    cbn [negb]; f_equal; [apply filter_all_true|rewrite IH; auto].
  apply Forall_forall. intros [a b] Hin. apply list_elem_of_In in Hin. cbn.
  rewrite (proj2 (Z.eqb_neq a k)); [reflexivity|]. intros ->. apply Hk. right. apply in_map_iff. exists (k, b). auto.
Qed.

End Containers.


(** ** The registry invariant *)

(** What the registry keeps consistent: names and ids of tables agree
    both ways; the meta page's maps have the ids of the registered
    tables and indexes as keys, in order; every index name points to a
    registered index of that name whose table has that name, and every
    registered index is named; ids are below the next ones. *)
Record catalog_ok (cm : CatalogManager) : Prop := {
  ok_table_names : forall name id, table_names_ cm !! name = Some id ->
    exists ti, tables_ cm !! id = Some ti /\ table_name_ (table_meta_ ti) = name /\ table_id_ (table_meta_ ti) = id;
  ok_tables : forall id ti, tables_ cm !! id = Some ti -> table_names_ cm !! table_name_ (table_meta_ ti) = Some id;
  ok_table_pages : forall id, In id (map fst (table_meta_pages_ (catalog_meta_ cm))) <-> is_Some (tables_ cm !! id);
  ok_table_ids : forall id, is_Some (tables_ cm !! id) -> 0 <= id < next_table_id_ cm;
  ok_index_names : forall t m iname iid, index_names_ cm !! t = Some m -> m !! iname = Some iid ->
    exists ii, indexes_ cm !! iid = Some ii /\ index_name_ (index_meta_ ii) = iname /\
               table_names_ cm !! t = Some (im_table_id_ (index_meta_ ii));
  ok_indexes : forall iid ii, indexes_ cm !! iid = Some ii ->
    exists t m, index_names_ cm !! t = Some m /\ m !! index_name_ (index_meta_ ii) = Some iid;
  ok_index_pages : forall iid, In iid (map fst (index_meta_pages_ (catalog_meta_ cm))) <-> is_Some (indexes_ cm !! iid);
  ok_index_ids : forall iid, is_Some (indexes_ cm !! iid) -> 0 <= iid < next_index_id_ cm;
  ok_next : 0 <= next_table_id_ cm /\ 0 <= next_index_id_ cm;
  ok_sorted : StronglySorted key_lt (table_meta_pages_ (catalog_meta_ cm)) /\
              StronglySorted key_lt (index_meta_pages_ (catalog_meta_ cm))
}.

Section Invariant.
Implicit Types (cm : CatalogManager).

Lemma catalog_ok_empty : catalog_ok (empty_catalog (mkCatalogMeta [] [])).
Proof.
  constructor; cbn; try (intros *; rewrite ?lookup_empty; intros H; try discriminate H; inversion H; discriminate).
  - intros id. split; [intros []|intros [? H]; discriminate].
  - intros id. split; [intros []|intros [? H]; discriminate].
  - lia.
  - split; constructor.
Qed.

(** Two names of one table id are one name. *)
Lemma table_names_inj cm t1 t2 id :
  catalog_ok cm -> table_names_ cm !! t1 = Some id -> table_names_ cm !! t2 = Some id -> t1 = t2.
Proof.
  intros Hok H1 H2. destruct (ok_table_names cm Hok _ _ H1) as (ti & Ht & <- & _).
  destruct (ok_table_names cm Hok _ _ H2) as (ti' & Ht' & <- & _). congruence.
Qed.

(** An index id is named once. *)
Lemma index_ref_unique cm t1 m1 n1 t2 m2 n2 iid :
  catalog_ok cm -> index_names_ cm !! t1 = Some m1 -> m1 !! n1 = Some iid ->
  index_names_ cm !! t2 = Some m2 -> m2 !! n2 = Some iid -> t1 = t2 /\ n1 = n2.
Proof.
  intros Hok H1 H1' H2 H2'.
  destruct (ok_index_names cm Hok _ _ _ _ H1 H1') as (ii & Hi & <- & Ht1).
  destruct (ok_index_names cm Hok _ _ _ _ H2 H2') as (ii' & Hi' & <- & Ht2).
  rewrite Hi in Hi'. injection Hi' as <-. split; [|reflexivity].
  exact (table_names_inj cm t1 t2 _ Hok Ht1 Ht2).
Qed.

(** [DropIndex] keeps the invariant. *)
Lemma DropIndex_ok cm t n cm' e : catalog_ok cm -> DropIndex cm t n = Some (cm', e) -> catalog_ok cm'.
Proof.
  intros Hok Hd. unfold DropIndex in Hd.
  destruct (index_names_ cm !! t) as [m|] eqn:Ht; [|injection Hd as <- _; exact Hok].
  destruct (m !! n) as [iid|] eqn:Hn; [|injection Hd as <- _; exact Hok].
  destruct (indexes_ cm !! iid) as [ii0|] eqn:Hi; [|discriminate]. cbn [mbind option_bind] in Hd. injection Hd as <- _.
  constructor; cbn [set_indexes set_meta catalog_meta_ table_names_ tables_ index_names_ indexes_
                    next_table_id_ next_index_id_ table_meta_pages_ index_meta_pages_].
  - exact (ok_table_names cm Hok).
  - exact (ok_tables cm Hok).
  - exact (ok_table_pages cm Hok).
  - exact (ok_table_ids cm Hok).
  - intros t' m' n' iid' Ht' Hn'. apply lookup_insert_Some in Ht' as [[<- <-]|[Hne Ht']].
    + apply lookup_delete_Some in Hn' as [Hne' Hn'].
      destruct (ok_index_names cm Hok _ _ _ _ Ht Hn') as (ii & Hii & Hname & Htab).
      exists ii. rewrite lookup_delete_ne; [auto|]. intros <-.
      destruct (index_ref_unique cm t m n t m n' iid Hok Ht Hn Ht Hn'). contradiction.
    + destruct (ok_index_names cm Hok _ _ _ _ Ht' Hn') as (ii & Hii & Hname & Htab).
      exists ii. rewrite lookup_delete_ne; [auto|]. intros <-.
      destruct (index_ref_unique cm t m n t' m' n' iid Hok Ht Hn Ht' Hn'). contradiction.
  - intros iid' ii' Hii'. apply lookup_delete_Some in Hii' as [Hne Hii'].
    destruct (ok_indexes cm Hok _ _ Hii') as (t' & m' & Ht' & Hn').
    destruct (decide (t' = t)) as [->|Htne].
    + exists t, (delete n m). rewrite lookup_insert_eq. split; [reflexivity|].
      rewrite Ht in Ht'. injection Ht' as <-. rewrite lookup_delete_ne; [exact Hn'|].
      intros Heq. rewrite Heq, Hn' in Hn. congruence.
    + exists t', m'. rewrite lookup_insert_ne by congruence. auto.
  - intros iid'. rewrite keys_map_erase, lookup_delete_is_Some, (ok_index_pages cm Hok).
    split; intros [? ?]; split; auto.
  - intros iid' [x Hx]. apply lookup_delete_Some in Hx as [_ Hx]. apply (ok_index_ids cm Hok). eauto.
  - exact (ok_next cm Hok).
  - destruct (ok_sorted cm Hok). split; [assumption|]. apply sorted_map_erase. assumption.
Qed.

Lemma elem_of_ids (m : gmap (list Z) Z) iid : iid ∈ snd <$> map_to_list m <-> exists n, m !! n = Some iid.
Proof.
  rewrite list_elem_of_fmap. split.
  - intros ([n x] & -> & Hin). apply elem_of_map_to_list in Hin. eauto.
  - intros [n Hn]. exists (n, iid). split; [reflexivity|]. apply elem_of_map_to_list, Hn.
Qed.

(** The table part of [DropTable]: the table's name, id and meta page
    entry go. *)
Lemma DropTable_tables_ok cm t id :
  catalog_ok cm -> table_names_ cm !! t = Some id ->
  (forall name id', delete t (table_names_ cm) !! name = Some id' ->
     exists ti, delete id (tables_ cm) !! id' = Some ti /\ table_name_ (table_meta_ ti) = name /\ table_id_ (table_meta_ ti) = id') /\
  (forall id' ti, delete id (tables_ cm) !! id' = Some ti -> delete t (table_names_ cm) !! table_name_ (table_meta_ ti) = Some id') /\
  (forall id', In id' (map fst (map_erase id (table_meta_pages_ (catalog_meta_ cm)))) <-> is_Some (delete id (tables_ cm) !! id')) /\
  (forall id', is_Some (delete id (tables_ cm) !! id') -> 0 <= id' < next_table_id_ cm).
Proof.
  intros Hok Ht. split; [|split; [|split]].
  - intros name id' Hn. apply lookup_delete_Some in Hn as [Hne Hn].
    destruct (ok_table_names cm Hok _ _ Hn) as (ti & Hti & Hname & Hid). exists ti.
    rewrite lookup_delete_ne; [auto|]. intros <-. apply Hne, (table_names_inj cm t name id Hok Ht Hn).
  - intros id' ti Hti. apply lookup_delete_Some in Hti as [Hne Hti].
    pose proof (ok_tables cm Hok _ _ Hti) as Hn. rewrite lookup_delete_ne; [exact Hn|].
    intros Heq. rewrite <- Heq, Ht in Hn. congruence.
  - intros id'. rewrite keys_map_erase, lookup_delete_is_Some, (ok_table_pages cm Hok).
    split; intros [? ?]; split; auto.
  - intros id' [x Hx]. apply lookup_delete_Some in Hx as [_ Hx]. apply (ok_table_ids cm Hok). eauto.
Qed.

(** [DropTable] keeps the invariant. *)
Lemma DropTable_ok cm t cm' e : catalog_ok cm -> DropTable cm t = Some (cm', e) -> catalog_ok cm'.
Proof.
  intros Hok Hd. unfold DropTable in Hd.
  destruct (table_names_ cm !! t) as [id|] eqn:Ht; [|injection Hd as <- _; exact Hok].
  destruct (DropTable_tables_ok cm t id Hok Ht) as (T1 & T2 & T3 & T4).
  destruct (ok_sorted cm Hok) as [S1 S2].
  destruct (index_names_ cm !! t) as [m|] eqn:Hm; injection Hd as <- _.
  - constructor; cbn [set_indexes set_tables set_meta catalog_meta_ table_names_ tables_ index_names_ indexes_
                      next_table_id_ next_index_id_ table_meta_pages_ index_meta_pages_]; try assumption.
    + intros t' m' n' iid' Ht' Hn'. apply lookup_delete_Some in Ht' as [Hne Ht'].
      destruct (ok_index_names cm Hok _ _ _ _ Ht' Hn') as (ii & Hii & Hname & Htab).
      assert (Hnot : iid' ∉ snd <$> map_to_list m).
      { intros [n Hn]%elem_of_ids. destruct (index_ref_unique cm t m n t' m' n' iid' Hok Hm Hn Ht' Hn'). auto. }
      exists ii. rewrite lookup_foldr_delete, decide_False by exact Hnot. rewrite lookup_delete_ne by auto. auto.
    + intros iid' ii' Hii'. rewrite lookup_foldr_delete in Hii'. destruct (decide _) as [|Hnot]; [discriminate|].
      destruct (ok_indexes cm Hok _ _ Hii') as (t' & m' & Ht' & Hn'). exists t', m'.
      rewrite lookup_delete_ne; [auto|]. intros <-. rewrite Hm in Ht'. injection Ht' as <-.
      apply Hnot, elem_of_ids. eauto.
    + intros iid'. rewrite keys_foldr_map_erase, lookup_foldr_delete, (ok_index_pages cm Hok).
      destruct (decide _); [split; [intros [? _]; contradiction|intros [? ?]; discriminate]|tauto].
    + intros iid' Hx. rewrite lookup_foldr_delete in Hx. destruct (decide _); [destruct Hx; discriminate|].
      apply (ok_index_ids cm Hok), Hx.
    + exact (ok_next cm Hok).
    + split; [apply sorted_map_erase, S1|apply sorted_foldr_map_erase, S2].
  - constructor; cbn [set_indexes set_tables set_meta catalog_meta_ table_names_ tables_ index_names_ indexes_
                      next_table_id_ next_index_id_ table_meta_pages_ index_meta_pages_]; try assumption.
    + intros t' m' n' iid' Ht' Hn'. destruct (ok_index_names cm Hok _ _ _ _ Ht' Hn') as (ii & Hii & Hname & Htab).
      exists ii. rewrite lookup_delete_ne by congruence. auto.
    + exact (ok_indexes cm Hok).
    + exact (ok_index_pages cm Hok).
    + exact (ok_index_ids cm Hok).
    + exact (ok_next cm Hok).
    + split; [apply sorted_map_erase, S1|exact S2].
Qed.

(** The registry after [CreateTable] registers table [ti] under [name]
    with its metadata on page [meta_page_id]. *)
Definition table_added cm (name : list Z) (ti : TableInfo) (meta_page_id : Z) : CatalogManager :=
  let id := next_table_id_ cm in
  mkCatalogManager
    (mkCatalogMeta (map_insert id meta_page_id (table_meta_pages_ (catalog_meta_ cm))) (index_meta_pages_ (catalog_meta_ cm)))
    (wrap 32 (id + 1)) (next_index_id_ cm) (<[name := id]> (table_names_ cm)) (<[id := ti]> (tables_ cm))
    (index_names_ cm) (indexes_ cm).

(** Registering a new table keeps the invariant while ids stay below
    2^32 - 1. *)
Lemma table_added_ok cm name ti mp :
  catalog_ok cm -> table_names_ cm !! name = None -> next_table_id_ cm + 1 < 2 ^ 32 ->
  table_name_ (table_meta_ ti) = name -> table_id_ (table_meta_ ti) = next_table_id_ cm ->
  catalog_ok (table_added cm name ti mp).
Proof.
  intros Hok Hn Hlt Hname Hid. destruct (ok_next cm Hok) as [Hn0 Hi0].
  assert (Hfresh : tables_ cm !! next_table_id_ cm = None).
  { destruct (tables_ cm !! next_table_id_ cm) eqn:E; [|reflexivity].
    pose proof (ok_table_ids cm Hok _ ltac:(rewrite E; eauto)). lia. }
  unfold table_added. constructor; cbn [catalog_meta_ table_names_ tables_ index_names_ indexes_
                                        next_table_id_ next_index_id_ table_meta_pages_ index_meta_pages_].
  - intros name' id' H. apply lookup_insert_Some in H as [[<- <-]|[Hne H]].
    + exists ti. rewrite lookup_insert_eq. auto.
    + destruct (ok_table_names cm Hok _ _ H) as (ti' & Hti' & ? & ?). exists ti'.
      rewrite lookup_insert_ne; [auto|]. intros Heq. rewrite <- Heq in Hti'. congruence.
  - intros id' ti' H. apply lookup_insert_Some in H as [[<- <-]|[Hne H]].
    + rewrite Hname. apply lookup_insert_eq.
    + rewrite lookup_insert_ne; [apply (ok_tables cm Hok _ _ H)|].
      intros Heq. pose proof (ok_tables cm Hok _ _ H) as E. rewrite <- Heq, Hn in E. discriminate.
  - intros id'. rewrite keys_map_insert, lookup_insert_is_Some', (ok_table_pages cm Hok). reflexivity.
  - intros id' H. rewrite wrap_small by lia. apply lookup_insert_is_Some' in H as [<-|H]; [lia|].
    pose proof (ok_table_ids cm Hok _ H). lia.
  - intros t m n iid Ht Hm. destruct (ok_index_names cm Hok _ _ _ _ Ht Hm) as (ii & Hii & Hnm & Htab).
    exists ii. rewrite lookup_insert_ne by congruence. auto.
  - exact (ok_indexes cm Hok).
  - exact (ok_index_pages cm Hok).
  - exact (ok_index_ids cm Hok).
  - rewrite wrap_small by lia. lia.
  - destruct (ok_sorted cm Hok). split; [apply sorted_map_insert|]; assumption.
Qed.

(** The registry after [CreateIndex] registers index [info] as [iname]
    of table [tname] with its metadata on page [meta_page_id]. *)
Definition index_added cm (tname iname : list Z) (info : IndexInfo) (meta_page_id : Z) : CatalogManager :=
  let iid := next_index_id_ cm in
  mkCatalogManager
    (mkCatalogMeta (table_meta_pages_ (catalog_meta_ cm)) (map_insert iid meta_page_id (index_meta_pages_ (catalog_meta_ cm))))
    (next_table_id_ cm) (wrap 32 (iid + 1)) (table_names_ cm) (tables_ cm)
    (add_index_name (index_names_ cm) tname iname iid) (<[iid := info]> (indexes_ cm)).

Lemma lookup_add_index_name inames t n iid t' :
  (forall m, inames !! t = Some m -> m !! n = None) ->
  add_index_name inames t n iid !! t' =
    if decide (t = t') then Some (<[n := iid]> (from_option id ∅ (inames !! t))) else inames !! t'.
Proof.
  intros Habs. unfold add_index_name. destruct (inames !! t) as [m|] eqn:E; cbn [from_option id].
  - rewrite umap_insert_new by auto. apply lookup_insert.
  - rewrite umap_insert_new by exact E. rewrite insert_empty. apply lookup_insert.
Qed.

(** Registering a new index of a registered table keeps the invariant
    while ids stay below 2^32 - 1. *)
Lemma index_added_ok cm tname iname tid info mp :
  catalog_ok cm -> table_names_ cm !! tname = Some tid ->
  (forall m, index_names_ cm !! tname = Some m -> m !! iname = None) -> next_index_id_ cm + 1 < 2 ^ 32 ->
  index_id_ (index_meta_ info) = next_index_id_ cm -> index_name_ (index_meta_ info) = iname ->
  im_table_id_ (index_meta_ info) = tid ->
  catalog_ok (index_added cm tname iname info mp).
Proof.
  intros Hok Ht Habs Hlt Hid Hname Htid. destruct (ok_next cm Hok) as [Hn0 Hi0].
  assert (Hold : forall iid', is_Some (indexes_ cm !! iid') -> iid' <> next_index_id_ cm)
    by (intros iid' Hs; pose proof (ok_index_ids cm Hok _ Hs); lia).
  unfold index_added. constructor; cbn [catalog_meta_ table_names_ tables_ index_names_ indexes_
                                        next_table_id_ next_index_id_ table_meta_pages_ index_meta_pages_].
  - exact (ok_table_names cm Hok).
  - exact (ok_tables cm Hok).
  - exact (ok_table_pages cm Hok).
  - exact (ok_table_ids cm Hok).
  - intros t' m' n' iid' Ht' Hn'. rewrite lookup_add_index_name in Ht' by exact Habs.
    destruct (decide (tname = t')) as [<-|Hne].
    + injection Ht' as <-. apply lookup_insert_Some in Hn' as [[<- <-]|[Hne' Hn']].
      * exists info. rewrite lookup_insert_eq, Htid. auto.
      * destruct (index_names_ cm !! tname) as [m0|] eqn:Hm0; cbn in Hn'; [|rewrite lookup_empty in Hn'; discriminate].
        destruct (ok_index_names cm Hok _ _ _ _ Hm0 Hn') as (ii & Hii & ? & ?).
        exists ii. rewrite lookup_insert_ne by (apply not_eq_sym, Hold; eauto). auto.
    + destruct (ok_index_names cm Hok _ _ _ _ Ht' Hn') as (ii & Hii & ? & ?).
      exists ii. rewrite lookup_insert_ne by (apply not_eq_sym, Hold; eauto). auto.
  - intros iid' ii' Hii'. apply lookup_insert_Some in Hii' as [[<- <-]|[Hne Hii']].
    + exists tname, (<[iname := next_index_id_ cm]> (from_option id ∅ (index_names_ cm !! tname))).
      rewrite lookup_add_index_name, decide_True, Hname, lookup_insert_eq by auto. auto.
    + destruct (ok_indexes cm Hok _ _ Hii') as (t' & m' & Ht' & Hn').
      destruct (decide (tname = t')) as [<-|Htne].
      * exists tname, (<[iname := next_index_id_ cm]> m'). rewrite lookup_add_index_name, decide_True, Ht' by auto.
        split; [reflexivity|]. rewrite lookup_insert_ne; [exact Hn'|].
        intros Heq. rewrite <- Heq, (Habs m' Ht') in Hn'. discriminate.
      * exists t', m'. rewrite lookup_add_index_name, decide_False by auto. auto.
  - intros iid'. rewrite keys_map_insert, lookup_insert_is_Some', (ok_index_pages cm Hok). reflexivity.
  - intros iid' H. rewrite wrap_small by lia. apply lookup_insert_is_Some' in H as [<-|H]; [lia|].
    pose proof (ok_index_ids cm Hok _ H). lia.
  - rewrite wrap_small by lia. lia.
  - destruct (ok_sorted cm Hok). split; [|apply sorted_map_insert]; assumption.
Qed.

End Invariant.


(** Peel the first [x ← m; f] of hypothesis [H]: case on [m], the
    [None] case being contradictory. *)
Ltac peel H E :=
  cbn [mbind option_bind] in H;
  lazymatch type of H with
  | @mbind _ _ _ _ _ ?m = Some _ => destruct m eqn:E; [|discriminate H]; cbn [mbind option_bind] in H
  end.

Section Cases.
Context {R : Type} `{Replacer R}.
Implicit Types (bpm : BufferPoolManager R) (cm : CatalogManager).

Lemma GetTable_ok cm name :
  catalog_ok cm -> GetTable cm name =
    match table_names_ cm !! name with
    | None => Some (DB_TABLE_NOT_EXIST, None)
    | Some id => (fun ti => (DB_SUCCESS, Some ti)) <$> tables_ cm !! id
    end /\ (is_Some (table_names_ cm !! name) -> exists ti, GetTable cm name = Some (DB_SUCCESS, Some ti)).
Proof.
  intros Hok. unfold GetTable. destruct (table_names_ cm !! name) as [id|] eqn:Hn; [|split; [reflexivity|intros [? ?]; discriminate]].
  destruct (ok_table_names cm Hok _ _ Hn) as (ti & Hti & _). rewrite Hti. split; [reflexivity|eauto].
Qed.

(** What [CreateTable] does to the registry: nothing for a name in use,
    else it registers the new table under the next id. *)
(** A [SerializeTo] at the start of a frame keeps the frame's page id,
    pin count and dirty flag. *)
Lemma write_frame_page bpm bpm' f bytes p :
  write_frame bpm f bytes = Some bpm' -> get_page bpm f = Some p ->
  get_page bpm' f = Some (mkPage (page_id_ p) (pin_count_ p) (is_dirty_ p) (write_bytes (data_ p) 0 bytes)).
Proof.
  intros Hw Hp. unfold write_frame, frame_data in Hw. rewrite Hp in Hw. cbn [fmap option_fmap option_map mbind option_bind] in Hw.
  destruct (_ <=? _)%nat; [|discriminate]. unfold set_frame_data in Hw. rewrite Hp in Hw. injection Hw as <-.
  exact (get_page_set_page_some _ _ _ _ Hp).
Qed.

Lemma CreateTable_cases TM SM CM cm bpm name sc cm' bpm' e oi :
  catalog_ok cm -> CreateTable TM SM CM cm bpm name sc = Some (cm', bpm', e, oi) ->
  (e = DB_TABLE_ALREADY_EXIST /\ cm' = cm /\ bpm' = bpm /\ oi = None /\ is_Some (table_names_ cm !! name)) \/
  (e = DB_SUCCESS /\ table_names_ cm !! name = None /\
   exists fp mp, oi = Some (mkTableInfo (mkTableMetadata (next_table_id_ cm) name fp sc) fp) /\
     cm' = table_added cm name (mkTableInfo (mkTableMetadata (next_table_id_ cm) name fp sc) fp) mp /\
     exists f, get_page bpm' f = Some (mkPage mp 0 false (write_bytes (zero_page PAGE_SIZE) 0
                 (fst (TableMetadata_SerializeTo TM SM CM (mkTableMetadata (next_table_id_ cm) name fp sc)))))).
Proof.
  intros Hok Hc. unfold CreateTable in Hc. destruct (GetTable_ok cm name Hok) as [HG _]. rewrite HG in Hc.
  destruct (table_names_ cm !! name) as [id|] eqn:Hn.
  - destruct (ok_table_names cm Hok _ _ Hn) as (ti & Hti & _). rewrite Hti in Hc. cbn in Hc.
    injection Hc as <- <- <- <-. left. eauto 6.
  - cbn [mbind option_bind] in Hc. rewrite decide_False in Hc by discriminate.
    peel Hc E1. destruct p as [bpm1 fp]. peel Hc E2. destruct p as [bpm2 r]. peel Hc E3. destruct p as [mp fid].
    peel Hc E4. injection Hc as <- <- <- <-. right. split; [reflexivity|]. split; [reflexivity|].
    exists fp, mp. split; [reflexivity|]. split; [|exists fid; exact (write_frame_page _ _ _ _ _ E4 (NewPage_frame _ _ _ _ E2))].
    assert (Hfresh : tables_ cm !! next_table_id_ cm = None).
    { destruct (tables_ cm !! next_table_id_ cm) eqn:E; [|reflexivity].
      pose proof (ok_table_ids cm Hok _ ltac:(rewrite E; eauto)). lia. }
    cbn [set_next_ids set_tables set_meta catalog_meta_ table_names_ tables_ index_names_ indexes_ next_table_id_ next_index_id_].
    rewrite !umap_insert_new by assumption. reflexivity.
Qed.

Lemma GetIndex_cases cm t n :
  catalog_ok cm ->
  (GetIndex cm t n = Some (DB_INDEX_NOT_FOUND, None) /\ forall m, index_names_ cm !! t = Some m -> m !! n = None) \/
  exists ii, GetIndex cm t n = Some (DB_SUCCESS, Some ii).
Proof.
  intros Hok. unfold GetIndex. destruct (index_names_ cm !! t) as [m|] eqn:Hm; [|left; split; [reflexivity|discriminate]].
  destruct (m !! n) as [iid|] eqn:Hn; [|left; split; [reflexivity|intros m' [= <-]; exact Hn]].
  destruct (ok_index_names cm Hok _ _ _ _ Hm Hn) as (ii & Hii & _). rewrite Hii. right. eauto.
Qed.

(** [CreateTable] keeps the invariant while table ids stay below
    2^32 - 1. *)
Lemma CreateTable_ok TM SM CM cm bpm name sc cm' bpm' e oi :
  catalog_ok cm -> next_table_id_ cm + 1 < 2 ^ 32 ->
  CreateTable TM SM CM cm bpm name sc = Some (cm', bpm', e, oi) -> catalog_ok cm'.
Proof.
  intros Hok Hlt Hc. destruct (CreateTable_cases TM SM CM cm bpm name sc cm' bpm' e oi Hok Hc)
    as [(_ & -> & _)|(_ & Hn & fp & mp & _ & -> & _)]; [exact Hok|].
  apply table_added_ok; auto.
Qed.

Lemma populate_status {F} `{EqDecision F} sc ind (seen tuples : list (list F)) e :
  populate sc ind seen tuples = Some (ScanStatus e) -> e = DB_COLUMN_NAME_NOT_EXIST.
Proof.
  revert seen. induction tuples as [|t ts IH]; intros seen Hp; cbn [populate] in Hp; [discriminate|].
  destruct (key_map_of _ _); [|congruence]. peel Hp E. destruct (decide _); [discriminate|]. exact (IH _ Hp).
Qed.

(** What [CreateIndex] does to the registry: nothing on its early
    errors; otherwise it registers the new index under the next id and,
    when the scan meets a duplicate key, drops it again. *)
Lemma CreateIndex_cases {F} `{EqDecision F} IM cm bpm tname iname keys (tuples : list (list F)) cm' bpm' e oi :
  catalog_ok cm -> CreateIndex IM cm bpm tname iname keys tuples = Some (cm', bpm', e, oi) ->
  (cm' = cm /\ e <> DB_SUCCESS /\ e <> DB_FAILED) \/
  exists tid info mp, table_names_ cm !! tname = Some tid /\
    (forall m, index_names_ cm !! tname = Some m -> m !! iname = None) /\
    index_id_ (index_meta_ info) = next_index_id_ cm /\ index_name_ (index_meta_ info) = iname /\
    im_table_id_ (index_meta_ info) = tid /\
    ((e <> DB_FAILED /\ cm' = index_added cm tname iname info mp) \/
     (e = DB_FAILED /\ exists x, DropIndex (index_added cm tname iname info mp) tname iname = Some (cm', x))).
Proof.
  intros Hok Hc. unfold CreateIndex in Hc.
  destruct (table_names_ cm !! tname) as [tid|] eqn:Ht; [|injection Hc as <- _ <- _; left; split_and!; congruence].
  destruct (GetIndex_cases cm tname iname Hok) as [[HG Habs]|[ii HG]]; rewrite HG in Hc; cbn [mbind option_bind] in Hc;
    [rewrite decide_False in Hc by discriminate
    |rewrite decide_True in Hc by reflexivity; injection Hc as <- _ <- _; left; split_and!; congruence].
  destruct (ok_table_names cm Hok _ _ Ht) as (ti & Hti & _).
  unfold GetTable in Hc. rewrite Ht, Hti in Hc. cbn [mbind option_bind] in Hc.
  destruct (key_map_of _ keys) as [key_map|]; [|injection Hc as <- _ <- _; left; split_and!; congruence].
  peel Hc E1. destruct p as [bpm1 r]. peel Hc E2. destruct p as [mp fid]. peel Hc E3.
  destruct (_ <=? _)%nat; cbn [negb] in Hc; [|discriminate]. peel Hc E4. peel Hc E5. peel Hc E6.
  assert (Hfresh : indexes_ cm !! next_index_id_ cm = None).
  { destruct (indexes_ cm !! next_index_id_ cm) eqn:E; [|reflexivity].
    pose proof (ok_index_ids cm Hok _ ltac:(rewrite E; eauto)). lia. }
  set (info := mkIndexInfo (mkIndexMetadata (next_index_id_ cm) iname tid key_map) ti) in Hc.
  replace (set_next_ids _ _ _) with (index_added cm tname iname info mp) in Hc
    by (cbn; rewrite umap_insert_new by exact Hfresh; reflexivity).
  right. exists tid, info, mp. split_and!; try reflexivity; try assumption.
  destruct s as [| e'|].
  - injection Hc as <- _ <- _. left. split; [discriminate|reflexivity].
  - injection Hc as <- _ <- _. left. rewrite (populate_status _ _ _ _ _ E6). split; [discriminate|reflexivity].
  - peel Hc E7. destruct p as [cm4 x]. injection Hc as <- _ <- _. right. eauto.
Qed.

(** [CreateIndex] keeps the invariant while index ids stay below
    2^32 - 1, its rollback by [DropIndex] included. *)
Lemma CreateIndex_ok {F} `{EqDecision F} IM cm bpm tname iname keys (tuples : list (list F)) cm' bpm' e oi :
  catalog_ok cm -> next_index_id_ cm + 1 < 2 ^ 32 ->
  CreateIndex IM cm bpm tname iname keys tuples = Some (cm', bpm', e, oi) -> catalog_ok cm'.
Proof.
  intros Hok Hlt Hc.
  destruct (CreateIndex_cases IM cm bpm tname iname keys tuples cm' bpm' e oi Hok Hc)
    as [(-> & _)|(tid & info & mp & Ht & Habs & Hid & Hname & Htid & [(_ & ->)|(_ & x & Hd)])]; [exact Hok| |].
  - apply (index_added_ok cm tname iname tid); auto.
  - exact (DropIndex_ok _ _ _ _ _ (index_added_ok cm tname iname tid info mp Hok Ht Habs Hlt Hid Hname Htid) Hd).
Qed.


(** C22: [CreateTable] on every branch: a name in use gives
    [DB_TABLE_ALREADY_EXIST] and changes nothing; a new name gives
    [DB_SUCCESS] and a table with the next id, the first page of its new
    heap as root and the given schema, which [GetTable] then finds under
    that name, recorded in the meta page's map, with the next id
    advanced; every other name finds what it found before. *)
Theorem CreateTable_spec TM SM CM cm (bpm : BufferPoolManager R) name sc cm' bpm' e oi :
  catalog_ok cm -> CreateTable TM SM CM cm bpm name sc = Some (cm', bpm', e, oi) ->
  match table_names_ cm !! name with
  | Some _ => e = DB_TABLE_ALREADY_EXIST /\ cm' = cm /\ bpm' = bpm /\ oi = None
  | None => e = DB_SUCCESS /\ exists info, oi = Some info /\
      GetTable cm' name = Some (DB_SUCCESS, Some info) /\
      table_meta_ info = mkTableMetadata (next_table_id_ cm) name (table_heap_ info) sc /\
      In (next_table_id_ cm) (map fst (table_meta_pages_ (catalog_meta_ cm'))) /\
      next_table_id_ cm' = wrap 32 (next_table_id_ cm + 1) /\
      forall n, n <> name -> GetTable cm' n = GetTable cm n
  end.
Proof.
  intros Hok Hc. destruct (CreateTable_cases TM SM CM cm bpm name sc cm' bpm' e oi Hok Hc)
    as [(-> & -> & -> & -> & [id Hn])|(-> & Hn & fp & mp & -> & -> & _)]; rewrite Hn; [auto|].
  assert (Hfresh : tables_ cm !! next_table_id_ cm = None).
  { destruct (tables_ cm !! next_table_id_ cm) eqn:E; [|reflexivity].
    pose proof (ok_table_ids cm Hok _ ltac:(rewrite E; eauto)). lia. }
  split; [reflexivity|]. eexists. split; [reflexivity|]. unfold GetTable, table_added. cbn.
  rewrite !lookup_insert_eq. split; [reflexivity|]. split; [reflexivity|].
  split; [apply keys_map_insert; left; reflexivity|]. split; [reflexivity|].
  intros n Hne. rewrite lookup_insert_ne by congruence. destruct (table_names_ cm !! n) as [id'|] eqn:Hn'; [|reflexivity].
  rewrite lookup_insert_ne; [reflexivity|]. intros Heq. destruct (ok_table_names cm Hok _ _ Hn') as (ti & Hti & _).
  rewrite <- Heq, Hfresh in Hti. discriminate.
Qed.


(** C23: When [CreateIndex] meets two tuples with the same key it returns
    [DB_FAILED] after dropping the index: the index name is no longer
    found, the registered indexes and the meta page's index map are those
    before the call, but the index id has been used up. *)
Theorem CreateIndex_rollback {F} `{EqDecision F} IM cm (bpm : BufferPoolManager R) tname iname keys
    (tuples : list (list F)) cm' bpm' oi :
  catalog_ok cm -> CreateIndex IM cm bpm tname iname keys tuples = Some (cm', bpm', DB_FAILED, oi) ->
  GetIndex cm' tname iname = Some (DB_INDEX_NOT_FOUND, None) /\ indexes_ cm' = indexes_ cm /\
  index_meta_pages_ (catalog_meta_ cm') = index_meta_pages_ (catalog_meta_ cm) /\
  table_names_ cm' = table_names_ cm /\ tables_ cm' = tables_ cm /\
  next_index_id_ cm' = wrap 32 (next_index_id_ cm + 1).
Proof.
  intros Hok Hc.
  destruct (CreateIndex_cases IM cm bpm tname iname keys tuples cm' bpm' DB_FAILED oi Hok Hc)
    as [(_ & _ & []) |(tid & info & mp & Ht & Habs & Hid & Hname & Htid & [([] & _)|(_ & x & Hd)])]; [reflexivity|reflexivity|].
  assert (Hfresh : indexes_ cm !! next_index_id_ cm = None).
  { destruct (indexes_ cm !! next_index_id_ cm) eqn:E; [|reflexivity].
    pose proof (ok_index_ids cm Hok _ ltac:(rewrite E; eauto)). lia. }
  assert (Hkey : ~ In (next_index_id_ cm) (map fst (index_meta_pages_ (catalog_meta_ cm)))).
  { rewrite (ok_index_pages cm Hok), Hfresh. intros [? ?]; discriminate. }
  unfold DropIndex, index_added in Hd. cbn [index_names_ indexes_ catalog_meta_ index_meta_pages_ table_meta_pages_] in Hd.
  rewrite lookup_add_index_name, decide_True, lookup_insert_eq in Hd by auto. cbn [mbind option_bind] in Hd.
  rewrite lookup_insert_eq in Hd. cbn [mbind option_bind] in Hd. injection Hd as <- _.
  cbn. rewrite (delete_insert_id (indexes_ cm)) by exact Hfresh. rewrite map_erase_insert_fresh by exact Hkey.
  split_and!; try reflexivity. unfold GetIndex. cbn. rewrite lookup_insert_eq, lookup_delete_eq. reflexivity.
Qed.

(** C24: [CreateTable] never marks the table's metadata page dirty nor
    unpins it.  After a successful [CreateTable] the catalog maps the new
    table to its metadata page [mp], and the frame of [mp] holds the
    serialized metadata with its dirty flag clear (and the pin count
    [NewPage] left): an eviction writes nothing back, and
    [FlushCatalogMetaPage] flushes page 0 only, so the metadata reaches
    the disk only if some other write covers it. *)
Theorem CreateTable_metadata_not_durable TM SM CM cm (bpm : BufferPoolManager R) name sc cm' bpm' info :
  catalog_ok cm -> CreateTable TM SM CM cm bpm name sc = Some (cm', bpm', DB_SUCCESS, Some info) ->
  exists mp f, cm' = table_added cm name info mp /\
    get_page bpm' f = Some (mkPage mp 0 false
      (write_bytes (zero_page PAGE_SIZE) 0 (fst (TableMetadata_SerializeTo TM SM CM (table_meta_ info))))).
Proof.
  intros Hok Hc. destruct (CreateTable_cases TM SM CM cm bpm name sc cm' bpm' DB_SUCCESS (Some info) Hok Hc)
    as [(? & _)|(_ & _ & fp & mp & [= ->] & -> & f & Hf)]; [discriminate|].
  exists mp, f. split; [reflexivity|exact Hf].
Qed.

End Cases.

(** ** The registry as a transition system *)

Section Steps.
Context {R : Type} `{Replacer R} {F : Type} `{EqDecision F}.
Variables TABLE_METADATA_MAGIC_NUM INDEX_METADATA_MAGIC_NUM SCHEMA_MAGIC_NUM COLUMN_MAGIC_NUM : Z.

(** One call of an operation that changes the registry, on any pool,
    that returns; the ids it hands out stay below 2^32 - 1. *)
Inductive catalog_step : CatalogManager -> CatalogManager -> Prop :=
  | step_CreateTable cm (bpm : BufferPoolManager R) name sc cm' bpm' e oi :
      next_table_id_ cm + 1 < 2 ^ 32 ->
      CreateTable TABLE_METADATA_MAGIC_NUM SCHEMA_MAGIC_NUM COLUMN_MAGIC_NUM cm bpm name sc = Some (cm', bpm', e, oi) ->
      catalog_step cm cm'
  | step_CreateIndex cm (bpm : BufferPoolManager R) tname iname keys (tuples : list (list F)) cm' bpm' e oi :
      next_index_id_ cm + 1 < 2 ^ 32 ->
      CreateIndex INDEX_METADATA_MAGIC_NUM cm bpm tname iname keys tuples = Some (cm', bpm', e, oi) ->
      catalog_step cm cm'
  | step_DropTable cm t cm' e : DropTable cm t = Some (cm', e) -> catalog_step cm cm'
  | step_DropIndex cm t n cm' e : DropIndex cm t n = Some (cm', e) -> catalog_step cm cm'.

Lemma catalog_step_ok cm cm' : catalog_step cm cm' -> catalog_ok cm -> catalog_ok cm'.
Proof.
  intros Hs Hok. destruct Hs as [cm bpm ? ? ? ? ? ? Hlt Hc|cm bpm ? ? ? ? ? ? ? ? Hlt Hc|cm ? ? ? Hd|cm ? ? ? ? Hd].
  - exact (CreateTable_ok _ _ _ _ _ _ _ _ _ _ _ Hok Hlt Hc).
  - exact (CreateIndex_ok _ _ _ _ _ _ _ _ _ _ _ Hok Hlt Hc).
  - exact (DropTable_ok _ _ _ _ Hok Hd).
  - exact (DropIndex_ok _ _ _ _ _ Hok Hd).
Qed.

Lemma CatalogManager_init_empty CMM (bpm : BufferPoolManager R) cm0 bpm0 :
  CatalogManager_init CMM bpm = Some (cm0, bpm0) -> cm0 = empty_catalog (mkCatalogMeta [] []).
Proof.
  intros Hi. unfold CatalogManager_init in Hi. peel Hi E1. destruct p as [bpm1 r]. peel Hi E2. peel Hi E3. peel Hi E4.
  destruct p. injection Hi as <- _. reflexivity.
Qed.

(** C21: The registry invariant: from the catalog the constructor builds
    on a new database, every sequence of [CreateTable], [CreateIndex]
    (its rollback included), [DropTable] and [DropIndex] calls keeps
    table names and ids in agreement both ways, the meta page's two maps
    keyed by exactly the registered ids in increasing order, every index
    name pointing to a registered index of that name of a registered
    table, and every id below the next one handed out, while fewer than
    2^32 - 1 ids have been handed out. *)
Theorem catalog_invariant CATALOG_METADATA_MAGIC_NUM (bpm : BufferPoolManager R) cm0 bpm0 cm :
  CatalogManager_init CATALOG_METADATA_MAGIC_NUM bpm = Some (cm0, bpm0) ->
  rtc catalog_step cm0 cm -> catalog_ok cm.
Proof.
  intros Hi Hr. pose proof catalog_ok_empty as H0. rewrite <- (CatalogManager_init_empty _ _ _ _ Hi) in H0.
  clear Hi. induction Hr as [|x y z Hs _ IH]; [exact H0|]. exact (IH (catalog_step_ok x y Hs H0)).
Qed.

End Steps.

(** ** Opening an existing database *)

Section Load.
Context {R : Type} `{Replacer R}.
Variables TM IM SM CM : Z.
Variable heap_after : list Z.
Implicit Types (bpm : BufferPoolManager R) (cm : CatalogManager).

Lemma running_max (m id : Z) : (if m <? id then id else m) = Z.max m id.
Proof. destruct (Z.ltb_spec m id); lia. Qed.

Lemma LoadTable_keeps cm bpm id pid cm' bpm' e :
  LoadTable TM SM CM heap_after cm bpm id pid = Some (cm', bpm', e) ->
  catalog_meta_ cm' = catalog_meta_ cm /\ next_table_id_ cm' = next_table_id_ cm /\ next_index_id_ cm' = next_index_id_ cm.
Proof.
  intros Hl. unfold LoadTable in Hl. peel Hl E1. destruct p. peel Hl E2. peel Hl E3. peel Hl E4. destruct p. peel Hl E5.
  injection Hl as <- _ _. auto.
Qed.

Lemma LoadIndex_keeps cm bpm id pid cm' bpm' e :
  LoadIndex IM heap_after cm bpm id pid = Some (cm', bpm', e) ->
  catalog_meta_ cm' = catalog_meta_ cm /\ next_table_id_ cm' = next_table_id_ cm /\ next_index_id_ cm' = next_index_id_ cm.
Proof.
  intros Hl. unfold LoadIndex in Hl. peel Hl E1. destruct p. peel Hl E2. peel Hl E3. peel Hl E4. destruct p. peel Hl E5.
  peel Hl E6. injection Hl as <- _ _. auto.
Qed.

(** The table loop leaves the meta and the ids and computes the
    largest table id. *)
Lemma load_tables_spec ps : forall cm bpm tmax cm' bpm' r,
  load_tables TM SM CM heap_after cm bpm ps tmax = Some (cm', bpm', r) ->
  catalog_meta_ cm' = catalog_meta_ cm /\ next_index_id_ cm' = next_index_id_ cm /\
  r = fold_left Z.max (map fst ps) tmax.
Proof.
  induction ps as [|[id pid] ps IH]; intros cm bpm tmax cm' bpm' r Hl; cbn [load_tables] in Hl.
  - injection Hl as <- _ <-. auto.
  - peel Hl E. destruct p as [[cm1 bpm1] e]. destruct (LoadTable_keeps _ _ _ _ _ _ _ E) as (M1 & _ & I1).
    destruct (IH _ _ _ _ _ _ Hl) as (M2 & I2 & ->). rewrite running_max. cbn [map fold_left fst]. split_and!; congruence.
Qed.

(** The index loop leaves the meta and the ids; what it computes is the
    larger of the largest table id and the last index id, not the
    largest index id. *)
Lemma load_indexes_spec ps : forall cm bpm tmax imax cm' bpm' r,
  load_indexes IM heap_after cm bpm ps tmax imax = Some (cm', bpm', r) ->
  catalog_meta_ cm' = catalog_meta_ cm /\ next_table_id_ cm' = next_table_id_ cm /\
  r = match ps with [] => imax | _ => Z.max tmax (List.last (map fst ps) 0) end.
Proof.
  induction ps as [|[id pid] ps IH]; intros cm bpm tmax imax cm' bpm' r Hl; cbn [load_indexes] in Hl.
  - injection Hl as <- _ <-. auto.
  - peel Hl E. destruct p as [[cm1 bpm1] e]. destruct (LoadIndex_keeps _ _ _ _ _ _ _ E) as (M1 & T1 & _).
    destruct (IH _ _ _ _ _ _ _ Hl) as (M2 & T2 & ->). split; [congruence|]. split; [congruence|].
    rewrite running_max. destruct ps as [|[id' pid'] ps]; reflexivity.
Qed.

(** The last key of a sorted map is its largest. *)
Lemma sorted_last_ge y (l : list (Z * Z)) :
  StronglySorted key_lt (y :: l) -> fst y <= List.last (map fst (y :: l)) 0.
Proof.
  revert y. induction l as [|z l IH]; intros y Hs; [cbn; lia|].
  apply StronglySorted_inv in Hs as [Hs Hall]. inversion Hall as [|? ? Hlt _]; subst. unfold key_lt in Hlt.
  specialize (IH z Hs). change (List.last (map fst (y :: z :: l)) 0) with (List.last (map fst (z :: l)) 0). lia.
Qed.

Lemma sorted_last_max t x (l : list (Z * Z)) :
  StronglySorted key_lt (x :: l) -> Z.max t (List.last (map fst (x :: l)) 0) = fold_left Z.max (map fst (x :: l)) t.
Proof.
  revert t x. induction l as [|y l IH]; intros t x Hs; [reflexivity|].
  pose proof (sorted_last_ge y l (proj1 (StronglySorted_inv Hs))) as Hge.
  apply StronglySorted_inv in Hs as [Hs Hall]. inversion Hall as [|? ? Hlt _]; subst. unfold key_lt in Hlt.
  change (fold_left Z.max (map fst (x :: y :: l)) t) with (fold_left Z.max (map fst (y :: l)) (Z.max t (fst x))).
  rewrite <- IH by exact Hs. change (List.last (map fst (x :: y :: l)) 0) with (List.last (map fst (y :: l)) 0). lia.
Qed.

(** The ids [CatalogManager(..., init = false)] hands out next: one
    past the largest table id for tables; for indexes one past the larger
    of the largest table id and the largest index id (line 100 compares
    each index id with [table_max_id]), so new index ids are fresh but
    skip ahead to the table ids; with no tables or no indexes the next id
    is 1, not 0. *)
Theorem CatalogManager_load_next_ids CMM bpm cm bpm' :
  CatalogManager_load CMM TM IM SM CM heap_after bpm = Some (cm, bpm') ->
  StronglySorted key_lt (index_meta_pages_ (catalog_meta_ cm)) ->
  let tmax := fold_left Z.max (map fst (table_meta_pages_ (catalog_meta_ cm))) 0 in
  next_table_id_ cm = wrap 32 (tmax + 1) /\
  next_index_id_ cm = wrap 32 (fold_left Z.max (map fst (index_meta_pages_ (catalog_meta_ cm)))
                                 (match index_meta_pages_ (catalog_meta_ cm) with [] => 0 | _ => tmax end) + 1).
Proof.
  intros Hl Hs. cbv zeta. unfold CatalogManager_load in Hl. peel Hl E1. destruct p as [bpm1 r]. peel Hl E2. peel Hl E3.
  peel Hl E4. peel Hl E5. destruct p. peel Hl E6. destruct p as [[cm1 bpm3] tm]. peel Hl E7. destruct p as [[cm3 bpm4] im].
  injection Hl as <- _. cbn [set_next_ids catalog_meta_ next_table_id_ next_index_id_] in *.
  destruct (load_tables_spec _ _ _ _ _ _ _ E6) as (M1 & _ & ->).
  destruct (load_indexes_spec _ _ _ _ _ _ _ _ E7) as (M3 & T3 & ->).
  cbn [set_next_ids catalog_meta_ next_table_id_] in M3, T3. rewrite M3, M1 in *. cbn [empty_catalog catalog_meta_] in *.
  split; [rewrite T3; reflexivity|]. f_equal. f_equal.
  destruct (index_meta_pages_ c) as [|[i0 p0] ks] eqn:Ei; [reflexivity|].
  apply sorted_last_max, Hs.
Qed.

End Load.

(** ** Runs on a pool of twelve frames *)

Section Witnesses.
#[local] Existing Instances LRUReplacer.lru_replacer.

(** A new database: pages 0 (catalog meta) and 1 (index roots)
    allocated. *)
Definition wpool : BufferPoolManager LRUReplacer.LRUReplacer :=
  match NewPage_n 2 (lru_pool 12) with Some (b, _) => b | None => lru_pool 12 end.
Definition wsch : Schema := mkSchema [wcol_id; wcol_name].
Definition wcm0 : CatalogManager := empty_catalog (mkCatalogMeta [] []).
Definition wbpm0 : BufferPoolManager LRUReplacer.LRUReplacer :=
  match CatalogManager_init wcatalog_magic wpool with Some (_, b) => b | None => wpool end.

Definition wcreate := CreateTable wtable_magic wschema_magic wcolumn_magic wcm0 wbpm0 [116] wsch.
Definition wcm1 : CatalogManager := match wcreate with Some (c, _, _, _) => c | None => wcm0 end.
Definition wbpm1 : BufferPoolManager LRUReplacer.LRUReplacer := match wcreate with Some (_, b, _, _) => b | None => wbpm0 end.
Definition woi1 : option TableInfo := match wcreate with Some (_, _, _, o) => o | None => None end.

(** An index on column [id] of a table whose two rows share the key 1. *)
Definition wdup := CreateIndex windex_magic wcm1 wbpm1 [116] [105] [[105; 100]] [[1; 2]; [1; 4]].
Definition wcm2 : CatalogManager := match wdup with Some (c, _, _, _) => c | None => wcm1 end.
Definition wbpm2 : BufferPoolManager LRUReplacer.LRUReplacer := match wdup with Some (_, b, _, _) => b | None => wbpm1 end.
Definition woi2 : option IndexInfo := match wdup with Some (_, _, _, o) => o | None => None end.

Lemma wcm1_ok : catalog_ok wcm1.
Proof.
  apply (CreateTable_ok wtable_magic wschema_magic wcolumn_magic wcm0 wbpm0 [116] wsch wcm1 wbpm1 DB_SUCCESS woi1
           catalog_ok_empty ltac:(vm_compute; reflexivity) ltac:(vm_compute; reflexivity)).
Qed.

Lemma catalog_invariant_witness : catalog_ok wcm2.
Proof.
  apply (catalog_invariant (F := Z) wtable_magic windex_magic wschema_magic wcolumn_magic wcatalog_magic wpool wcm0 wbpm0);
    [vm_compute; reflexivity|].
  eapply rtc_l; [apply (step_CreateTable _ _ _ _ wcm0 wbpm0 [116] wsch wcm1 wbpm1 DB_SUCCESS woi1);
                 vm_compute; reflexivity|].
  eapply rtc_l; [apply (step_CreateIndex _ _ _ _ wcm1 wbpm1 [116] [105] [[105; 100]] [[1; 2]; [1; 4]] wcm2 wbpm2 DB_FAILED woi2);
                 vm_compute; reflexivity|].
  apply rtc_refl.
Defined.

Lemma CreateTable_spec_witness :
  match table_names_ wcm0 !! [116] with
  | Some _ => DB_SUCCESS = DB_TABLE_ALREADY_EXIST /\ wcm1 = wcm0 /\ wbpm1 = wbpm0 /\ woi1 = None
  | None => DB_SUCCESS = DB_SUCCESS /\ exists info, woi1 = Some info /\
      GetTable wcm1 [116] = Some (DB_SUCCESS, Some info) /\
      table_meta_ info = mkTableMetadata (next_table_id_ wcm0) [116] (table_heap_ info) wsch /\
      In (next_table_id_ wcm0) (map fst (table_meta_pages_ (catalog_meta_ wcm1))) /\
      next_table_id_ wcm1 = wrap 32 (next_table_id_ wcm0 + 1) /\
      forall n, n <> [116] -> GetTable wcm1 n = GetTable wcm0 n
  end.
Proof. apply (CreateTable_spec wtable_magic wschema_magic wcolumn_magic wcm0 wbpm0 [116] wsch wcm1 wbpm1 DB_SUCCESS woi1);
         [exact catalog_ok_empty|vm_compute; reflexivity]. Defined.

Lemma CreateIndex_rollback_witness :
  GetIndex wcm2 [116] [105] = Some (DB_INDEX_NOT_FOUND, None) /\ indexes_ wcm2 = indexes_ wcm1 /\
  index_meta_pages_ (catalog_meta_ wcm2) = index_meta_pages_ (catalog_meta_ wcm1) /\
  table_names_ wcm2 = table_names_ wcm1 /\ tables_ wcm2 = tables_ wcm1 /\
  next_index_id_ wcm2 = wrap 32 (next_index_id_ wcm1 + 1).
Proof.
  apply (CreateIndex_rollback windex_magic wcm1 wbpm1 [116] [105] [[105; 100]] [[1; 2]; [1; 4]] wcm2 wbpm2 woi2 wcm1_ok).
  vm_compute. reflexivity.
Defined.

(** Three tables, one index on the first, the meta page flushed; then the
    database opened again over the same pool. *)
Definition wthree : option (CatalogManager * BufferPoolManager LRUReplacer.LRUReplacer) :=
  '(c2, b2, _, _) ← CreateTable wtable_magic wschema_magic wcolumn_magic wcm0 wbpm0 [116] wsch;
  '(c3, b3, _, _) ← CreateTable wtable_magic wschema_magic wcolumn_magic c2 b2 [117] wsch;
  '(c4, b4, _, _) ← CreateTable wtable_magic wschema_magic wcolumn_magic c3 b3 [118] wsch;
  '(c5, b5, _, _) ← CreateIndex windex_magic c4 b4 [116] [105] [[105; 100]] [[1; 2]];
  '(b6, _) ← FlushCatalogMetaPage wcatalog_magic c5 b5;
  Some (c5, b6).
Definition wflushed : BufferPoolManager LRUReplacer.LRUReplacer :=
  match wthree with Some (_, b) => b | None => wbpm0 end.
Definition wreopen := CatalogManager_load wcatalog_magic wtable_magic windex_magic wschema_magic wcolumn_magic [0] wflushed.
Definition wcm_open : CatalogManager := match wreopen with Some (c, _) => c | None => wcm0 end.
Definition wbpm_open : BufferPoolManager LRUReplacer.LRUReplacer := match wreopen with Some (_, b) => b | None => wbpm0 end.

Lemma CatalogManager_load_next_ids_witness :
  next_table_id_ wcm_open = wrap 32 (fold_left Z.max (map fst (table_meta_pages_ (catalog_meta_ wcm_open))) 0 + 1) /\
  next_index_id_ wcm_open =
    wrap 32 (fold_left Z.max (map fst (index_meta_pages_ (catalog_meta_ wcm_open)))
               (match index_meta_pages_ (catalog_meta_ wcm_open) with [] => 0
                | _ => fold_left Z.max (map fst (table_meta_pages_ (catalog_meta_ wcm_open))) 0 end) + 1).
Proof.
  apply (CatalogManager_load_next_ids wtable_magic windex_magic wschema_magic wcolumn_magic [0] wcatalog_magic
           wflushed wcm_open wbpm_open); [vm_compute; reflexivity|].
  exact (proj1 (map_okb_sound (index_meta_pages_ (catalog_meta_ wcm_open)) ltac:(vm_compute; reflexivity))).
Defined.

(** On that database, reopened, the next index id is 3 though the
    only index has id 0; and the metadata pages of the three tables stay
    pinned after the reopen, since [LoadTable] never unpins them. *)
Example reopen_ids_and_pins :
  map fst (index_meta_pages_ (catalog_meta_ wcm_open)) = [0] /\ next_index_id_ wcm_open = 3 /\
  next_table_id_ wcm_open = 3 /\
  (fun pid => page_table_ wbpm_open !! pid ≫= fun f => pin_count_ <$> get_page wbpm_open f) <$>
    map snd (table_meta_pages_ (catalog_meta_ wcm_open)) = [Some 1; Some 1; Some 1].
Proof. vm_compute. repeat split. Qed.

(** [CreateTable] on the new database, then [FlushCatalogMetaPage]. *)
Definition wflush1 : BufferPoolManager LRUReplacer.LRUReplacer :=
  match FlushCatalogMetaPage wcatalog_magic wcm1 wbpm1 with Some (b, _) => b | None => wbpm1 end.
Definition wmeta_page : Z := from_option id 0 (List.head (map snd (table_meta_pages_ (catalog_meta_ wcm1)))).

Definition winfo1 : TableInfo := default (mkTableInfo (mkTableMetadata 0 [] 0 wsch) 0) woi1.

Lemma CreateTable_metadata_not_durable_witness :
  exists mp f, wcm1 = table_added wcm0 [116] winfo1 mp /\
    get_page wbpm1 f = Some (mkPage mp 0 false
      (write_bytes (zero_page PAGE_SIZE) 0 (fst (TableMetadata_SerializeTo wtable_magic wschema_magic wcolumn_magic (table_meta_ winfo1))))).
Proof.
  apply (CreateTable_metadata_not_durable wtable_magic wschema_magic wcolumn_magic wcm0 wbpm0 [116] wsch wcm1 wbpm1 winfo1);
    [exact catalog_ok_empty | vm_compute; reflexivity].
Defined.

(** The run [CreateTable_metadata_not_durable] describes, then a
    flush and a reopen: the metadata page [CreateTable] writes is never
    marked dirty nor flushed: after [FlushCatalogMetaPage] the disk holds the catalog
    meta page, which maps the new table to its metadata page, but that
    page is still zeros on disk and its frame is clean; a reopen over
    the running pool finds the table, but a reopen over the disk alone
    (a new pool, as after a crash) reads the zero page as table metadata
    and has undefined behaviour. *)
Example CreateTable_metadata_lost_on_reopen :
  FlushCatalogMetaPage wcatalog_magic wcm1 wbpm1 = Some (wflush1, DB_SUCCESS) /\
  CatalogMeta_DeserializeFrom wcatalog_magic (DiskManager.content (disk_manager_ wflush1) CATALOG_META_PAGE_ID)
    = Some (catalog_meta_ wcm1) /\
  table_meta_pages_ (catalog_meta_ wcm1) = [(0, wmeta_page)] /\
  DiskManager.content (disk_manager_ wflush1) wmeta_page = zero_page PAGE_SIZE /\
  (page_table_ wflush1 !! wmeta_page ≫= fun f => is_dirty_ <$> get_page wflush1 f) = Some false /\
  is_Some (CatalogManager_load wcatalog_magic wtable_magic windex_magic wschema_magic wcolumn_magic [0] wflush1) /\
  CatalogManager_load wcatalog_magic wtable_magic windex_magic wschema_magic wcolumn_magic [0]
    (lru_pool_on 12 (disk_manager_ wflush1)) = None.
Proof. split_and!; try (vm_compute; reflexivity). vm_compute. eauto. Qed.

End Witnesses.

End CatalogManager.
