(* ===== verification/ExecuteContext.v ===== *)
(** * The result printer of the executor (include/executor/execute_engine.h)

    [struct ExecuteContext] carries a statement's counters, its error and
    the layout of the table it prints: [SetHeader] records the column
    names and their widths, [PrepareRow] widens the columns for a row,
    [PrintHeader], [PrintRow] and [PrintTableDivider] print.  The record
    below keeps the fields the executor reads; stdout is [out_], the
    characters printed so far, and every [printf]/[putchar] appends to it.
    The transaction and the timer ([txn_], [start_time_]) are not
    modelled.  A vector index out of range ([columnLengths_[id]]) is
    undefined behaviour, [None]. *)

From Stdlib Require Import ZArith Lia List String Ascii.
From stdpp Require Import base list.
From S2P Require Import Spec2Rocq CatalogManager.
Import ListNotations.
Open Scope Z_scope.

Module ExecuteContext.
Import CatalogManager.

Record ExecuteContext := mkExecuteContext {
  flag_quit_ : bool;
  running : bool;
  numAffectedRows : Z;
  numSelectedRows : Z;
  header_ : list (list ascii);
  columnLengths_ : list Z;
  err_ : dberr_t;
  disablePrint_ : bool;
  out_ : list ascii
}.

Definition chars (s : string) : list ascii := list_ascii_of_string s.

(** [printf]/[putchar]: the characters appended to stdout. *)
Definition emit (ctx : ExecuteContext) (s : list ascii) : ExecuteContext :=
  mkExecuteContext (flag_quit_ ctx) (running ctx) (numAffectedRows ctx) (numSelectedRows ctx) (header_ ctx)
    (columnLengths_ ctx) (err_ ctx) (disablePrint_ ctx) (out_ ctx ++ s).

Definition set_layout (ctx : ExecuteContext) (h : list (list ascii)) (cl : list Z) : ExecuteContext :=
  mkExecuteContext (flag_quit_ ctx) (running ctx) (numAffectedRows ctx) (numSelectedRows ctx) h cl
    (err_ ctx) (disablePrint_ ctx) (out_ ctx).

Definition set_counts (ctx : ExecuteContext) (run : bool) (aff sel : Z) : ExecuteContext :=
  mkExecuteContext (flag_quit_ ctx) run aff sel (header_ ctx) (columnLengths_ ctx) (err_ ctx) (disablePrint_ ctx)
    (out_ ctx).

Definition set_err (ctx : ExecuteContext) (e : dberr_t) : ExecuteContext :=
  mkExecuteContext (flag_quit_ ctx) (running ctx) (numAffectedRows ctx) (numSelectedRows ctx) (header_ ctx)
    (columnLengths_ ctx) e (disablePrint_ ctx) (out_ ctx).

Definition AddAffectedRows (ctx : ExecuteContext) (num : Z) : ExecuteContext :=
  set_counts ctx (running ctx) (numAffectedRows ctx + num) (numSelectedRows ctx).

Definition AddNumSelectedRows (ctx : ExecuteContext) (num : Z) : ExecuteContext :=
  set_counts ctx (running ctx) (numAffectedRows ctx) (numSelectedRows ctx + num).

(** [StartRunning] (the clock reading is not modelled) and [StopTimer]. *)
Definition StartRunning (ctx : ExecuteContext) : ExecuteContext := set_counts ctx true 0 0.

Definition StopTimer (ctx : ExecuteContext) : ExecuteContext :=
  set_counts ctx false (numAffectedRows ctx) (numSelectedRows ctx).

(** The text of [PrintDivider(len)]. *)
Definition divider_text (len : Z) : list ascii :=
  ["+"%char] ++ repeat "-"%char (Z.to_nat (len + 2)) ++ chars "+" ++ ["010"%char].

Definition PrintDivider (ctx : ExecuteContext) (len : Z) : ExecuteContext :=
  if disablePrint_ ctx then ctx else emit ctx (divider_text len).

(** [PrintString(str, maxlen)]. *)
Definition PrintString (ctx : ExecuteContext) (str : list ascii) (maxlen : Z) : ExecuteContext :=
  if disablePrint_ ctx then ctx
  else emit ctx (chars "| " ++ str ++ repeat " "%char (Z.to_nat (maxlen - Z.of_nat (length str)))
                   ++ chars " |" ++ ["010"%char]).

(** The text of [PrintTableDivider]: a [+], then per column [len + 2]
    dashes and a [+], then a newline. *)
Definition table_divider_text (cl : list Z) : list ascii :=
  ["+"%char] ++ concat (map (fun len => repeat "-"%char (Z.to_nat (len + 2)) ++ ["+"%char]) cl) ++ ["010"%char].

Definition PrintTableDivider (ctx : ExecuteContext) : ExecuteContext :=
  if disablePrint_ ctx then ctx else emit ctx (table_divider_text (columnLengths_ ctx)).

(** The text of [PrintField(str, id)]: the field padded to
    [columnLengths_[id]]. *)
Definition field_text (cl : list Z) (str : list ascii) (id : nat) : option (list ascii) :=
  len ← cl !! id;
  Some ([" "%char] ++ str ++ repeat " "%char (Z.to_nat (len - Z.of_nat (length str))) ++ chars " |").

(** The fields of a line from position [i]: [PrintField(row[i], i)] for
    each. *)
Fixpoint fields_text (cl : list Z) (row : list (list ascii)) (i : nat) : option (list ascii) :=
  match row with
  | [] => Some []
  | str :: rest => t ← field_text cl str i; ts ← fields_text cl rest (S i); Some (t ++ ts)
  end.

(** [SetHeader(header)]. *)
Definition SetHeader (ctx : ExecuteContext) (header : list (list ascii)) : ExecuteContext :=
  if disablePrint_ ctx then ctx else set_layout ctx header (map (fun s => Z.of_nat (length s)) header).

(** The loop of [PrepareRow] from position [i]. *)
Fixpoint widen (cl : list Z) (row : list (list ascii)) (i : nat) : option (list Z) :=
  match row with
  | [] => Some cl
  | str :: rest =>
      len ← cl !! i;
      widen (if Z.of_nat (length str) >? len then <[i := Z.of_nat (length str)]> cl else cl) rest (S i)
  end.

Definition PrepareRow (ctx : ExecuteContext) (row : list (list ascii)) : option ExecuteContext :=
  if disablePrint_ ctx then Some ctx
  else cl ← widen (columnLengths_ ctx) row 0; Some (set_layout ctx (header_ ctx) cl).

Definition PrintHeader (ctx : ExecuteContext) : option ExecuteContext :=
  if disablePrint_ ctx then Some ctx
  else if decide (header_ ctx = []) then Some ctx
  else t ← fields_text (columnLengths_ ctx) (header_ ctx) 0;
       let d := table_divider_text (columnLengths_ ctx) in
       Some (emit ctx (d ++ ["|"%char] ++ t ++ ["010"%char] ++ d)).

Definition PrintRow (ctx : ExecuteContext) (row : list (list ascii)) : option ExecuteContext :=
  if disablePrint_ ctx then Some ctx
  else if decide (row = []) then Some ctx
  else t ← fields_text (columnLengths_ ctx) row 0; Some (emit ctx (["|"%char] ++ t ++ ["010"%char])).

(** [%d]: the decimal digits of a non-negative number, most significant
    first; [fuel] bounds the number of digits. *)
Fixpoint dec_digits (fuel : nat) (n : Z) : list ascii :=
  match fuel with
  | O => []
  | S f => (if n <? 10 then [] else dec_digits f (n / 10)) ++ [ascii_of_nat (48 + Z.to_nat (n mod 10))]
  end.

(** A number has at most [log2 n + 1] decimal digits. *)
Definition show_Z (n : Z) : list ascii :=
  (if n <? 0 then ["-"%char] else []) ++ dec_digits (S (Z.to_nat (Z.log2 (Z.abs n)))) (Z.abs n).

Definition PrintResult (ctx : ExecuteContext) (err : dberr_t) (affected : bool) : ExecuteContext :=
  if disablePrint_ ctx then ctx
  else if decide (err = DB_SUCCESS) then
    if affected then emit ctx (chars "OK, " ++ show_Z (numAffectedRows ctx) ++ chars " rows affected." ++ ["010"%char])
    else emit ctx (show_Z (numSelectedRows ctx) ++ chars " rows in total." ++ ["010"%char])
  else emit ctx (chars "Failed." ++ ["010"%char]).

(** ** Layout: every printed line of a table has the same width *)

(** A row fits a layout when it has one string per column, each no
    longer than the column's width. *)
Definition fits (cl : list Z) (row : list (list ascii)) : Prop :=
  Forall2 (fun s len => Z.of_nat (length s) <= len) row cl.

(** The width of a line of the layout after its leading [+] or [|]. *)
Definition width (cl : list Z) : nat := sum_list (map (fun len => Z.to_nat len + 3)%nat cl).

(** The lines a text consists of, each ended by a newline. *)
Definition lines_of (ls : list (list ascii)) : list ascii := concat (map (fun l => l ++ ["010"%char]) ls).

Section Layout.
Implicit Types (cl : list Z) (row : list (list ascii)).

Lemma fits_mono cl cl' row : fits cl row -> Forall2 Z.le cl cl' -> fits cl' row.
Proof.
  unfold fits. intros Hf Hle. revert cl' Hle.
  induction Hf; intros cl' Hle; inversion Hle; subst; constructor; [lia | auto].
Qed.

Lemma fits_nonneg cl row : fits cl row -> Forall (Z.le 0) cl.
Proof. unfold fits. induction 1; constructor; [lia | auto]. Qed.

Lemma emit_app ctx s t : emit (emit ctx s) t = emit ctx (s ++ t).
Proof. unfold emit. cbn. by rewrite app_assoc. Qed.

Lemma width_cons len cl : width (len :: cl) = (Z.to_nat len + 3 + width cl)%nat.
Proof. reflexivity. Qed.

Lemma table_divider_line cl :
  Forall (Z.le 0) cl -> exists l, table_divider_text cl = l ++ ["010"%char] /\ length l = S (width cl).
Proof.
  intros Hnn. exists (["+"%char] ++ concat (map (fun len => repeat "-"%char (Z.to_nat (len + 2)) ++ ["+"%char]) cl)).
  split; [unfold table_divider_text; by rewrite <- !app_assoc|].
  cbn [length app]. f_equal. induction Hnn as [|len cl Hl Hnn IH]; [reflexivity|].
  cbn [map concat]. rewrite length_app, IH, width_cons, length_app, repeat_length. cbn [length]. lia.
Qed.

Lemma field_text_fit cl s i len :
  cl !! i = Some len -> Z.of_nat (length s) <= len ->
  exists t, field_text cl s i = Some t /\ length t = (Z.to_nat len + 3)%nat.
Proof.
  intros Hi Hs. unfold field_text. rewrite Hi. cbn [mbind option_bind].
  eexists; split; [reflexivity|]. rewrite !length_app, repeat_length. cbn [length chars list_ascii_of_string]. lia.
Qed.

Lemma fields_text_fit cl row i :
  fits (drop i cl) row -> exists t, fields_text cl row i = Some t /\ length t = width (drop i cl).
Proof.
  revert i. induction row as [|s row IH]; intros i Hf.
  - apply Forall2_nil_inv_l in Hf. exists []. rewrite Hf. split; reflexivity.
  - destruct (Forall2_cons_inv_l _ _ _ _ Hf) as (len & tl & Hs & Hrest & Heq2).
    assert (Hi : cl !! i = Some len).
    { by rewrite <- (Nat.add_0_r i), <- lookup_drop, Heq2. }
    destruct (field_text_fit cl s i len Hi Hs) as (t & Ht & Hlt).
    assert (Htl : drop (S i) cl = tl).
    { rewrite (drop_S cl len i Hi) in Heq2. congruence. }
    destruct (IH (S i)) as (ts & Hts & Hlts); [by rewrite Htl|].
    exists (t ++ ts). cbn [fields_text]. rewrite Ht, Hts. split; [reflexivity|].
    rewrite (drop_S cl len i Hi), width_cons, length_app, Hlt, Hlts. lia.
Qed.

(** [PrintRow] of a fitting row prints one line of the layout's width. *)
Lemma PrintRow_line ctx row :
  disablePrint_ ctx = false -> row <> [] -> fits (columnLengths_ ctx) row ->
  exists l, PrintRow ctx row = Some (emit ctx (lines_of [l])) /\ length l = S (width (columnLengths_ ctx)).
Proof.
  intros Hp Hne Hf. destruct (fields_text_fit (columnLengths_ ctx) row 0) as (t & Ht & Hl); [done|].
  exists (["|"%char] ++ t). unfold PrintRow. rewrite Hp, decide_False by done. rewrite Ht. cbn [mbind option_bind].
  split; [unfold lines_of; cbn; by rewrite app_nil_r|]. cbn [length app]. by rewrite Hl.
Qed.

(** [PrintHeader] of a fitting header prints three lines of the
    layout's width: a divider, the names and a divider. *)
Lemma PrintHeader_lines ctx :
  disablePrint_ ctx = false -> header_ ctx <> [] -> fits (columnLengths_ ctx) (header_ ctx) ->
  exists ls, PrintHeader ctx = Some (emit ctx (lines_of ls)) /\ length ls = 3%nat /\
             Forall (fun l => length l = S (width (columnLengths_ ctx))) ls.
Proof.
  intros Hp Hne Hf. destruct (fields_text_fit (columnLengths_ ctx) (header_ ctx) 0) as (t & Ht & Hl); [done|].
  destruct (table_divider_line (columnLengths_ ctx)) as (d & Hd & Hdl); [by eapply fits_nonneg|].
  exists [d; ["|"%char] ++ t; d]. unfold PrintHeader. rewrite Hp, decide_False by done. rewrite Ht.
  cbn [mbind option_bind]. rewrite Hd. split; [|split; [reflexivity|]].
  - unfold lines_of. cbn. by rewrite !app_nil_r, <- !app_assoc.
  - repeat constructor; cbn [length app]; rewrite ?Hl; done.
Qed.

Lemma PrintTableDivider_line ctx :
  disablePrint_ ctx = false -> Forall (Z.le 0) (columnLengths_ ctx) ->
  exists l, PrintTableDivider ctx = emit ctx (lines_of [l]) /\ length l = S (width (columnLengths_ ctx)).
Proof.
  intros Hp Hnn. destruct (table_divider_line _ Hnn) as (d & Hd & Hdl). exists d.
  unfold PrintTableDivider, lines_of. rewrite Hp, Hd. cbn. by rewrite app_nil_r.
Qed.

Lemma Forall2_le_refl cl : Forall2 Z.le cl cl.
Proof. induction cl; constructor; [lia | done]. Qed.

Lemma widen_le cl i len v : cl !! i = Some len -> len <= v -> Forall2 Z.le cl (<[i := v]> cl).
Proof.
  intros Hi Hv. apply Forall2_lookup. intros j. destruct (decide (i = j)) as [<-|Hne].
  - rewrite Hi, list_lookup_insert_eq by (eapply lookup_lt_Some; eauto). by constructor.
  - rewrite list_lookup_insert_ne by done. destruct (cl !! j); constructor; lia.
Qed.

Lemma widen_fit cl row i :
  (i + length row)%nat = length cl ->
  exists cl', widen cl row i = Some cl' /\ Forall2 Z.le cl cl' /\ fits (drop i cl') row.
Proof.
  revert cl i. induction row as [|s row IH]; intros cl i Hlen.
  - exists cl. split; [reflexivity|]. split; [apply Forall2_le_refl|]. cbn in Hlen.
    unfold fits. rewrite drop_ge by lia. constructor.
  - cbn [length] in Hlen. destruct (lookup_lt_is_Some_2 cl i) as [len Hi]; [lia|].
    set (cl1 := if Z.of_nat (length s) >? len then <[i := Z.of_nat (length s)]> cl else cl).
    assert (Hle1 : Forall2 Z.le cl cl1).
    { unfold cl1. destruct (Z.of_nat (length s) >? len) eqn:E.
      - apply (widen_le cl i len); [done|]. apply Z.gtb_lt in E. lia.
      - apply Forall2_le_refl. }
    assert (Hl1 : length cl1 = length cl) by (unfold cl1; destruct (_ >? _); rewrite ?length_insert; done).
    destruct (IH cl1 (S i)) as (cl' & Hw & Hle & Hf); [lia|].
    exists cl'. cbn [widen]. rewrite Hi. cbn [mbind option_bind]. fold cl1. rewrite Hw.
    split; [reflexivity|]. split; [eapply (Forall2_trans Z.le Z.le); eauto; intros; lia|].
    destruct (lookup_lt_is_Some_2 cl' i) as [len' Hi']; [apply Forall2_length in Hle; lia|].
    rewrite (drop_S cl' len' i Hi'). constructor; [|done].
    assert (Hc1 : exists len1, cl1 !! i = Some len1 /\ Z.of_nat (length s) <= len1).
    { unfold cl1. destruct (Z.of_nat (length s) >? len) eqn:E.
      - exists (Z.of_nat (length s)). rewrite list_lookup_insert_eq by (eapply lookup_lt_Some; eauto). split; [done|lia].
      - exists len. rewrite Z.gtb_ltb, Z.ltb_ge in E. split; [done|lia]. }
    destruct Hc1 as (len1 & Hc1 & Hs1). pose proof (Forall2_lookup_lr _ _ _ i len1 len' Hle Hc1 Hi'). lia.
Qed.

(** [PrepareRow] of a row with one string per column widens the layout
    so that the row fits. *)
Lemma PrepareRow_fit ctx row :
  disablePrint_ ctx = false -> length row = length (columnLengths_ ctx) ->
  exists cl', PrepareRow ctx row = Some (set_layout ctx (header_ ctx) cl') /\
              Forall2 Z.le (columnLengths_ ctx) cl' /\ fits cl' row.
Proof.
  intros Hp Hl. destruct (widen_fit (columnLengths_ ctx) row 0) as (cl' & Hw & Hle & Hf); [done|].
  exists cl'. unfold PrepareRow. rewrite Hp, Hw. done.
Qed.

Lemma SetHeader_fit ctx header :
  disablePrint_ ctx = false ->
  SetHeader ctx header = set_layout ctx header (map (fun s => Z.of_nat (length s)) header) /\
  fits (map (fun s => Z.of_nat (length s)) header) header.
Proof.
  intros Hp. unfold SetHeader. rewrite Hp. split; [done|].
  unfold fits. induction header; constructor; auto with lia.
Qed.

End Layout.

End ExecuteContext.
