(* ===== verification/Executor.v ===== *)
(** * The WHERE clause in the executor (executor/execute_engine.cpp)

    The executor walks the syntax tree the parser builds (parser/
    syntax_tree.h, not under src/): a node has a type, a C string value
    and two links, [child_] to its first child and [next_] to its next
    sibling.  [SyntaxNode] below is that tree, the links as [option]s
    ([None] for [nullptr]).  A WHERE clause is a tree of connector nodes
    ("and", "or") over compare nodes whose first child names a column and
    whose second child is a literal.

    [EvaluateWhere] decides whether a row satisfies the clause;
    [EvaluateIndex] computes, for each column, how the clause constrains
    it (bit 1: an equality, bit 2: a range, bit 4: unusable) and the
    constant of the last equality; [ChooseIndex] picks the first index
    whose key columns the clause fixes by equality, with the key to look
    up.  All three write errors into [ExecuteContext::err_], threaded
    here as a [dberr_t].  [None] is undefined behaviour: a [nullptr]
    dereferenced, a vector index out of range, or an exception of
    [std::stoi]/[std::stof] that nothing catches.  The two operands of
    the bitwise [&] and [|] of [EvaluateWhere] are both evaluated, in an
    order C++ leaves unspecified; the model evaluates the left one first.

    Fields (record/field.h, types.cpp, not under src/) are used through
    [FieldCodec] (RowFormat.v) and the class [FieldOps] below: the
    constructors the executor calls and the six comparisons, as the
    [bool]s the executor receives. *)

From Stdlib Require Import ZArith Lia List String Ascii.
From stdpp Require Import base list.
From S2P Require Import Spec2Rocq Records RowFormat Catalog CatalogManager ExecuteContext.
Import ListNotations.
Open Scope Z_scope.

Module Executor.
Import Records RowFormat Catalog CatalogManager ExecuteContext.

(** The node types of syntax_tree.h the executor reads. *)
Inductive SyntaxNodeType :=
  | kNodeUnknown | kNodeQuit | kNodeExecFile | kNodeIdentifier | kNodeNumber | kNodeString | kNodeNull
  | kNodeCreateDB | kNodeDropDB | kNodeShowDB | kNodeUseDB | kNodeShowTables | kNodeCreateTable
  | kNodeDropTable | kNodeShowIndexes | kNodeInsert | kNodeDelete | kNodeUpdate | kNodeSelect
  | kNodeConditions | kNodeConnector | kNodeCompareOperator | kNodeColumnType | kNodeColumnDefinition
  | kNodeColumnDefinitionList | kNodeColumnList | kNodeColumnValues | kNodeUpdateValues | kNodeUpdateValue
  | kNodeAllColumns | kNodeCreateIndex | kNodeDropIndex | kNodeIndexType
  | kNodeTrxBegin | kNodeTrxCommit | kNodeTrxRollback.

#[export] Instance SyntaxNodeType_eq_dec : EqDecision SyntaxNodeType.
Proof. solve_decision. Defined.

(** [struct SyntaxNode {type_, val_, child_, next_}]. *)
Inductive SyntaxNode := mkSyntaxNode {
  type_ : SyntaxNodeType;
  val_ : string;
  child_ : option SyntaxNode;
  next_ : option SyntaxNode
}.

(** The bytes of a C string, as [std::string(val_)] gives them. *)
Definition bytes_of_string (s : string) : list Z := map (fun a => Z.of_nat (nat_of_ascii a)) (list_ascii_of_string s).

(** Induction on a syntax tree whose hypotheses cover a node's child,
    the child's next sibling and the node's own next sibling: the
    connectors read [child_] and [child_->next_]. *)
Definition on_some (P : SyntaxNode -> Prop) (o : option SyntaxNode) : Prop :=
  match o with Some m => P m | None => True end.

Definition SyntaxNode_ind2 (P : SyntaxNode -> Prop)
  (H : forall t v c nx, on_some P c -> on_some (fun m => on_some P (next_ m)) c -> on_some P nx ->
       P (mkSyntaxNode t v c nx)) : forall n, P n :=
  fix go n :=
    match n return P n with
    | mkSyntaxNode t v c nx =>
        H t v c nx
          (match c return on_some P c with Some m => go m | None => I end)
          (match c return on_some (fun m => on_some P (next_ m)) c with
           | Some (mkSyntaxNode _ _ _ nx') => match nx' return on_some P nx' with Some m => go m | None => I end
           | None => I
           end)
          (match nx return on_some P nx with Some m => go m | None => I end)
    end.

(** ** [std::stoi] *)

(** [isspace] in the C locale. *)
Definition isspace (c : ascii) : bool :=
  let n := nat_of_ascii c in (n =? 32)%nat || ((9 <=? n)%nat && (n <=? 13)%nat).

Definition isdigit (c : ascii) : bool := let n := nat_of_ascii c in (48 <=? n)%nat && (n <=? 57)%nat.

Fixpoint skip_spaces (s : string) : string :=
  match s with
  | String c r => if isspace c then skip_spaces r else s
  | EmptyString => s
  end.

(** The leading digits: their value and their number. *)
Fixpoint read_digits (s : string) (acc : Z) (n : nat) : Z * nat :=
  match s with
  | String c r => if isdigit c then read_digits r (10 * acc + Z.of_nat (nat_of_ascii c - 48)) (S n) else (acc, n)
  | EmptyString => (acc, n)
  end.

(** [std::stoi]: [strtol] on the leading blanks, sign and digits;
    [std::invalid_argument] without digits and [std::out_of_range]
    outside [int], exceptions nothing catches ([None]). *)
Definition stoi (s : string) : option Z :=
  let s1 := skip_spaces s in
  let '(neg, s2) := match s1 with
                    | String c r => if Ascii.eqb c "-"%char then (true, r)
                                    else if Ascii.eqb c "+"%char then (false, r) else (false, s1)
                    | EmptyString => (false, s1)
                    end in
  let '(v, n) := read_digits s2 0 0 in
  let v' := if neg then - v else v in
  if (n =? 0)%nat then None
  else if (- 2 ^ 31 <=? v') && (v' <? 2 ^ 31) then Some v' else None.

(** ** Fields *)

(** The comparisons of the executor's WHERE clause. *)
Inductive CompareOp := OpEq | OpNe | OpLt | OpLe | OpGt | OpGe.

(** What the executor uses of [Field] beyond [FieldCodec]: the null field
    of a type [Field(type)], the constructors from a literal ([std::stof]
    may throw: [None]), the comparisons and [GetString]. *)
Class FieldOps (Field : Type) := {
  Field_null : TypeId -> Field;
  Field_int : Z -> Field;
  Field_float : string -> option Field;
  Field_char : list Z -> Field;
  field_compare : CompareOp -> Field -> Field -> bool;
  Field_GetString : Field -> list ascii
}.

(** [strcmp(val_, op) == 0] for the six comparison operators. *)
Definition compare_op (v : string) : option CompareOp :=
  if String.eqb v "=" then Some OpEq
  else if String.eqb v "<>" then Some OpNe
  else if String.eqb v "<" then Some OpLt
  else if String.eqb v "<=" then Some OpLe
  else if String.eqb v ">" then Some OpGt
  else if String.eqb v ">=" then Some OpGe
  else None.

Section Where.
Context {Field : Type} `{FieldCodec Field} `{FieldOps Field}.
Variable schema : Schema.

(** The column a compare node names: [schema->GetColumnIndex(leftName)]. *)
Definition column_of (left : SyntaxNode) : option Z := GetColumnIndex schema (bytes_of_string (val_ left)).

Definition column_type (col : Z) : option TypeId := Records.type_ <$> columns_ schema !! Z.to_nat col.

(** The switch on the column's type that builds the right-hand field:
    [inl DB_FAILED] for a literal of the wrong kind or an unsupported
    type. *)
Definition make_literal (type : TypeId) (right : SyntaxNode) : option (dberr_t + Field) :=
  match type with
  | kTypeInt => if decide (type_ right = kNodeNumber) then inr <$> (Field_int <$> stoi (val_ right)) else Some (inl DB_FAILED)
  | kTypeFloat => if decide (type_ right = kNodeNumber) then inr <$> Field_float (val_ right) else Some (inl DB_FAILED)
  | kTypeChar => if decide (type_ right = kNodeString) then Some (inr (Field_char (bytes_of_string (val_ right))))
                 else Some (inl DB_FAILED)
  | kTypeInvalid => Some (inl DB_FAILED)
  end.

(** A compare node of [EvaluateWhere] (lines 1382-1445). *)
Definition compare_row (op : string) (left : SyntaxNode) (rn : option SyntaxNode) (row : Row Field) (err : dberr_t)
  : option (bool * dberr_t) :=
  match column_of left with
  | None => Some (false, DB_COLUMN_NAME_NOT_EXIST)
  | Some col =>
      left_field ← fields_ row !! Z.to_nat col;
      rnode ← rn;
      if decide (type_ rnode = kNodeNull) then
        if String.eqb op "is" then Some (field_is_null left_field, err)
        else if String.eqb op "not" then Some (negb (field_is_null left_field), err)
        else Some (false, DB_FAILED)
      else
        type ← column_type col;
        lit ← make_literal type rnode;
        match lit with
        | inl e => Some (false, e)
        | inr right_field =>
            match compare_op op with
            | Some c => Some (field_compare c left_field right_field, err)
            | None => Some (false, DB_FAILED)
            end
        end
  end.

(** [EvaluateWhere] on a node; [EvaluateWhere(nullptr)] is [true]. *)
Fixpoint EvaluateWhere_node (n : SyntaxNode) (row : Row Field) (err : dberr_t) : option (bool * dberr_t) :=
  match n with
  | mkSyntaxNode kNodeConnector v c _ =>
      if String.eqb v "and" || String.eqb v "or" then
        match c with
        | None => None
        | Some (mkSyntaxNode _ _ _ nx as cn) =>
            '(b1, e1) ← EvaluateWhere_node cn row err;
            '(b2, e2) ← match nx with None => Some (true, e1) | Some nn => EvaluateWhere_node nn row e1 end;
            Some (if String.eqb v "and" then b1 && b2 else b1 || b2, e2)
        end
      else Some (false, DB_FAILED)
  | mkSyntaxNode kNodeCompareOperator v c _ =>
      match c with
      | None => None
      | Some (mkSyntaxNode _ _ _ rn as left) => compare_row v left rn row err
      end
  | _ => Some (false, err)
  end.

Definition EvaluateWhere (w : option SyntaxNode) (row : Row Field) (err : dberr_t) : option (bool * dberr_t) :=
  match w with None => Some (true, err) | Some n => EvaluateWhere_node n row err end.

(** ** [EvaluateIndex] *)

(** [statusColumns[col] |= bit]. *)
Definition or_status (status : list Z) (col : Z) (bit : Z) : option (list Z) :=
  s ← status !! Z.to_nat col; Some (<[Z.to_nat col := Z.lor s bit]> status).

Definition IndexState : Type := list Z * list Field * dberr_t.

(** A compare node of [EvaluateIndex] (lines 1306-1361). *)
Definition compare_index (op : string) (left : SyntaxNode) (rn : option SyntaxNode) (st : IndexState)
  : option IndexState :=
  let '(status, conds, err) := st in
  match column_of left with
  | None => Some (status, conds, DB_COLUMN_NAME_NOT_EXIST)
  | Some col =>
      if String.eqb op "=" then
        status' ← or_status status col 1;
        rnode ← rn;
        type ← column_type col;
        lit ← make_literal type rnode;
        match lit with
        | inl e => Some (status', conds, e)
        | inr f => _ ← conds !! Z.to_nat col; Some (status', <[Z.to_nat col := f]> conds, err)
        end
      else if String.eqb op "is" || String.eqb op "not" || String.eqb op "<>" then
        status' ← or_status status col 4; Some (status', conds, err)
      else if String.eqb op "<" || String.eqb op "<=" || String.eqb op ">" || String.eqb op ">=" then
        status' ← or_status status col 2; Some (status', conds, err)
      else
        status' ← or_status status col 4; Some (status', conds, DB_FAILED)
  end.

Fixpoint EvaluateIndex_node (n : SyntaxNode) (st : IndexState) : option IndexState :=
  match n with
  | mkSyntaxNode kNodeConnector v c _ =>
      if String.eqb v "and" then
        match c with
        | None => None
        | Some (mkSyntaxNode _ _ _ nx as cn) =>
            st1 ← EvaluateIndex_node cn st;
            match nx with None => Some st1 | Some nn => EvaluateIndex_node nn st1 end
        end
      else if String.eqb v "or" then
        let '(status, conds, err) := st in Some ((fun s => Z.lor s 4) <$> status, conds, err)
      else Some st
  | mkSyntaxNode kNodeCompareOperator v c _ =>
      match c with
      | None => None
      | Some (mkSyntaxNode _ _ _ rn as left) => compare_index v left rn st
      end
  | _ => Some st
  end.

Definition EvaluateIndex (w : option SyntaxNode) (st : IndexState) : option IndexState :=
  match w with None => Some st | Some n => EvaluateIndex_node n st end.

(** ** [ChooseIndex] *)

(** The key columns of an index: the columns of [IndexInfo]'s key
    schema, found again by name ([ind] stays 0 for a name not found). *)
Definition index_key_columns (ii : IndexInfo) : option (list Z) :=
  cols ← key_schema (schema_ (table_meta_ (index_table_ ii))) (key_map_ (index_meta_ ii));
  Some (map (fun c : Column => default 0 (GetColumnIndex schema (name_ c))) cols).

(** The loop of [ChooseIndex] over an index's key columns: 1 when it
    can look up by equality, 2 by range, 0 not at all, -1 when no
    column is constrained. *)
Fixpoint index_status (status : list Z) (cols : list Z) (res : Z) : option Z :=
  match cols with
  | [] => Some res
  | ind :: cs =>
      s ← status !! Z.to_nat ind;
      if negb (Z.land s 4 =? 0) then Some 0
      else if negb (Z.land s 1 =? 0) then
        if negb (res =? 2) && negb (res =? 0) then index_status status cs 1
        else if res =? 2 then Some 0 else index_status status cs res
      else if negb (Z.land s 2 =? 0) then
        if negb (res =? 2) && negb (res =? 0) then index_status status cs 2
        else if res =? 2 then Some 0 else index_status status cs res
      else index_status status cs res
  end.

(** The first index of status 1, with the key [conditions] gives it. *)
Fixpoint first_usable (iis : list IndexInfo) (sts : list Z) (conds : list Field) : option (option (IndexInfo * list Field)) :=
  match iis, sts with
  | ii :: iis', s :: sts' =>
      if s =? 1 then
        cols ← index_key_columns ii;
        key ← mapM (fun ind => conds !! Z.to_nat ind) cols;
        Some (Some (ii, key))
      else first_usable iis' sts' conds
  | _, _ => Some None
  end.

(** [ChooseIndex(schema, indexes, where_node, context, pindex, keyRow)]:
    the index and key it chooses, or [None] for [false]. *)
Definition ChooseIndex (indexes : list IndexInfo) (where_node : option SyntaxNode) (err : dberr_t)
  : option (option (IndexInfo * list Field) * dberr_t) :=
  match where_node with
  | None => Some (None, err)
  | Some wn =>
      let status0 := replicate (length (columns_ schema)) 0 in
      let conds0 := (fun c => Field_null (Records.type_ c)) <$> columns_ schema in
      '(status, conds, err') ← EvaluateIndex (child_ wn) (status0, conds0, err);
      sts ← mapM (fun ii => cols ← index_key_columns ii; res ← index_status status cols (-1);
                            Some (if res =? -1 then 0 else res)) indexes;
      r ← first_usable indexes sts conds;
      Some (r, err')
  end.

End Where.

(** [peel] naming the value bound. *)
Ltac peel_as H x E :=
  cbn [mbind option_bind] in H;
  lazymatch type of H with
  | @mbind _ _ _ _ _ ?m = Some _ => destruct m as [x|] eqn:E; [|discriminate H]; cbn [mbind option_bind] in H
  end.

(** ** Well-typed WHERE clauses *)

Section Typing.
Context {Field : Type} `{FieldCodec Field} `{FieldOps Field}.
Variable schema : Schema.

(** A literal the type switch accepts for a column of type [ty]. *)
Definition lit_ok (ty : TypeId) (r : SyntaxNode) : bool :=
  match ty with
  | kTypeInt => bool_decide (type_ r = kNodeNumber) && bool_decide (is_Some (stoi (val_ r)))
  | kTypeFloat => bool_decide (type_ r = kNodeNumber) && bool_decide (is_Some (Field_float (val_ r)))
  | kTypeChar => bool_decide (type_ r = kNodeString)
  | kTypeInvalid => false
  end.

(** A well-typed clause: connectors "and"/"or" with their operands,
    compares of a column of the schema with a literal of its type by one
    of the six operators, or with [null] by "is"/"not". *)
Fixpoint wt_node (n : SyntaxNode) : bool :=
  match n with
  | mkSyntaxNode kNodeConnector v (Some (mkSyntaxNode _ _ _ nx as cn)) _ =>
      (String.eqb v "and" || String.eqb v "or") && wt_node cn &&
      match nx with None => true | Some nn => wt_node nn end
  | mkSyntaxNode kNodeCompareOperator v (Some (mkSyntaxNode _ _ _ (Some r) as left)) _ =>
      match column_of schema left with
      | None => false
      | Some col =>
          if decide (type_ r = kNodeNull) then String.eqb v "is" || String.eqb v "not"
          else bool_decide (is_Some (compare_op v)) &&
               match column_type schema col with Some ty => lit_ok ty r | None => false end
      end
  | _ => false
  end.

End Typing.

Section WhereProofs.
Context {Field : Type} `{FieldCodec Field} `{FieldOps Field}.
Variable schema : Schema.

(** The equations of the connector cases, with the operands left
    folded. *)
Lemma EvaluateWhere_connector v cn nx row err :
  EvaluateWhere_node schema (mkSyntaxNode kNodeConnector v (Some cn) nx) row err =
  if String.eqb v "and" || String.eqb v "or" then
    '(b1, e1) ← EvaluateWhere_node schema cn row err;
    '(b2, e2) ← match next_ cn with None => Some (true, e1) | Some nn => EvaluateWhere_node schema nn row e1 end;
    Some (if String.eqb v "and" then b1 && b2 else b1 || b2, e2)
  else Some (false, DB_FAILED).
Proof. destruct cn. reflexivity. Qed.

Lemma EvaluateIndex_connector v cn nx st :
  EvaluateIndex_node schema (mkSyntaxNode kNodeConnector v (Some cn) nx) st =
  if String.eqb v "and" then
    st1 ← EvaluateIndex_node schema cn st;
    match next_ cn with None => Some st1 | Some nn => EvaluateIndex_node schema nn st1 end
  else if String.eqb v "or" then
    let '(status, conds, err) := st in Some ((fun s => Z.lor s 4) <$> status, conds, err)
  else Some st.
Proof. destruct cn. reflexivity. Qed.

Lemma column_index_range cols name i j : column_index cols name i = Some j -> i <= j < i + Z.of_nat (length cols).
Proof.
  revert i. induction cols as [|c cols IH]; intros i; cbn [column_index]; [discriminate|].
  case_decide; [intros [= <-]; cbn [length]; lia|]. intros Hj. specialize (IH _ Hj). cbn [length]. lia.
Qed.

Lemma column_of_range left col :
  column_of schema left = Some col -> 0 <= col /\ (Z.to_nat col < length (columns_ schema))%nat.
Proof. unfold column_of, GetColumnIndex. intros Hc. apply column_index_range in Hc. lia. Qed.

Lemma make_literal_inl ty r e : make_literal ty r = Some (inl e) -> e = DB_FAILED.
Proof.
  destruct ty; cbn [make_literal]; repeat case_decide; try (intros [= <-]; reflexivity);
    try (destruct (stoi _)); try (destruct (Field_float _)); cbn; congruence.
Qed.

Lemma make_literal_null ty r : type_ r = kNodeNull -> exists e, make_literal ty r = Some (inl e).
Proof. intros Hn. destruct ty; cbn [make_literal]; rewrite ?Hn; repeat case_decide; try congruence; eauto. Qed.

Lemma make_literal_lit_ok ty r : lit_ok ty r = true -> exists f, make_literal ty r = Some (inr f).
Proof.
  destruct ty; cbn [lit_ok make_literal]; intros Hok; repeat rewrite andb_true_iff in Hok;
    rewrite ?bool_decide_eq_true in Hok; try discriminate.
  - destruct Hok as [Ht [z Hz]]. rewrite decide_True by done. rewrite Hz. eauto.
  - destruct Hok as [Ht [f Hf]]. rewrite decide_True by done. rewrite Hf. eauto.
  - rewrite decide_True by done. eauto.
Qed.

(** Evaluation of a well-typed clause, the step the claim below and the
    executor's loops share. *)
Lemma EvaluateWhere_total n row err :
  wt_node schema n = true -> length (fields_ row) = length (columns_ schema) ->
  exists b, EvaluateWhere_node schema n row err = Some (b, err).
Proof.
  intros Hwt Hlen. revert err Hwt. induction n as [t v c nx IHc IHcn _] using SyntaxNode_ind2; intros err Hwt.
  destruct t; try discriminate; destruct c as [[t' v' c' nx']|]; try discriminate.
  - cbn [wt_node] in Hwt. apply andb_true_iff in Hwt as [[Hv Hl]%andb_true_iff Hr].
    cbn [on_some next_] in IHc, IHcn. rewrite EvaluateWhere_connector, Hv. cbn [next_].
    destruct (IHc err Hl) as [b1 E1]. rewrite E1. cbn [mbind option_bind].
    destruct nx' as [nn|]; [destruct (IHcn err Hr) as [b2 E2]; rewrite E2|]; cbn; eauto.
  - destruct nx' as [r|]; [|cbn [wt_node] in Hwt; discriminate].
    cbn [wt_node] in Hwt. cbn [EvaluateWhere_node]. unfold compare_row.
    destruct (column_of schema _) as [col|] eqn:Ecol; [|discriminate].
    destruct (column_of_range _ _ Ecol) as [_ Hcol].
    destruct (lookup_lt_is_Some_2 (fields_ row) (Z.to_nat col)) as [lf Hlf]; [lia|]. rewrite Hlf.
    cbn [mbind option_bind]. case_decide.
    + apply orb_true_iff in Hwt as [->| Hnot]; [eauto|]. rewrite Hnot. destruct (String.eqb v "is"); eauto.
    + apply andb_true_iff in Hwt as [Hop Hty]. apply bool_decide_eq_true in Hop as [op Hop].
      destruct (column_type schema col) as [ty|] eqn:Ety; [|discriminate].
      destruct (make_literal_lit_ok ty r Hty) as [f Hf]. cbn [mbind option_bind]. rewrite Hf, Hop. eauto.
Qed.

(** C25: Type soundness of [EvaluateWhere]: on a row with one field per
    column, a well-typed clause evaluates, without undefined behaviour,
    and leaves [context->err_] as it was. *)
Theorem EvaluateWhere_wt n row err :
  wt_node schema n = true -> length (fields_ row) = length (columns_ schema) ->
  exists b, EvaluateWhere_node schema n row err = Some (b, err).
Proof. exact (EvaluateWhere_total n row err). Qed.

(** *** The index analysis *)

Lemma land_lor_self s b : b = 1 \/ b = 4 -> Z.land (Z.lor s b) b <> 0.
Proof.
  intros Hb. rewrite Z.land_lor_distr_l, Z.land_diag. intros [_ Hz]%Z.lor_eq_0_iff. destruct Hb; subst; discriminate.
Qed.

Lemma land_lor_2 s b : b = 1 \/ b = 4 -> Z.land (Z.lor s 2) b = Z.land s b.
Proof. intros [-> | ->]; rewrite Z.land_lor_distr_l; cbn [Z.land]; apply Z.lor_0_r. Qed.

Lemma or_status_Some status col bit status' :
  or_status status col bit = Some status' ->
  exists s, status !! Z.to_nat col = Some s /\ status' = <[Z.to_nat col := Z.lor s bit]> status.
Proof. unfold or_status. destruct (status !! _) as [s|]; [intros [= <-]; eauto | discriminate]. Qed.

(** The constants of [conditions] agree with [row] on every column the
    analysis marks as fixed by an equality (bit 1) and usable (no bit 4). *)
Definition agrees (status : list Z) (conds : list Field) (row : Row Field) : Prop :=
  forall col s, status !! col = Some s -> Z.land s 4 = 0 -> Z.land s 1 <> 0 ->
    exists f c, fields_ row !! col = Some f /\ conds !! col = Some c /\ field_compare OpEq f c = true.

(** Marking a column leaves the others; a mark that adds no equality
    keeps the agreement. *)
Lemma agrees_mark status conds row i s s' :
  agrees status conds row -> status !! i = Some s ->
  (Z.land s' 4 = 0 -> Z.land s' 1 <> 0 -> Z.land s 4 = 0 /\ Z.land s 1 <> 0) ->
  agrees (<[i := s']> status) conds row.
Proof.
  intros Ha Hi Hs col t Ht H4 H1. destruct (decide (i = col)) as [<-|Hne].
  - rewrite list_lookup_insert_eq in Ht by (eapply lookup_lt_Some; eauto). injection Ht as <-.
    destruct (Hs H4 H1). eauto.
  - rewrite list_lookup_insert_ne in Ht by done. eauto.
Qed.

Lemma agrees_eq status conds row i s f c c0 :
  agrees status conds row -> status !! i = Some s -> fields_ row !! i = Some f -> conds !! i = Some c0 ->
  field_compare OpEq f c = true -> agrees (<[i := Z.lor s 1]> status) (<[i := c]> conds) row.
Proof.
  intros Ha Hi Hf Hc Hcmp col t Ht H4 H1. destruct (decide (i = col)) as [<-|Hne].
  - exists f, c. rewrite list_lookup_insert_eq by (eapply lookup_lt_Some; eauto). done.
  - rewrite list_lookup_insert_ne in Ht by done. rewrite list_lookup_insert_ne by done. eauto.
Qed.

Lemma agrees_or status conds row : agrees ((fun s => Z.lor s 4) <$> status) conds row.
Proof.
  intros col t Ht H4 _. rewrite list_lookup_fmap in Ht. destruct (status !! col) as [s|]; [|discriminate].
  injection Ht as <-. exfalso. by apply (land_lor_self s 4); [right|].
Qed.

Lemma agrees_init n conds row : agrees (replicate n 0) conds row.
Proof. intros col s Hs _ H1. apply lookup_replicate in Hs as [-> _]. done. Qed.

(** [EvaluateIndex] only ever sets [err_] to a failure. *)
Lemma compare_index_err v left rn status conds err st' :
  compare_index schema v left rn (status, conds, err) = Some st' -> st'.2 = DB_SUCCESS -> err = DB_SUCCESS.
Proof.
  unfold compare_index. destruct (column_of schema left) as [col|]; [|intros [= <-]; discriminate].
  intros Hc Hs. destruct (String.eqb v "=").
  - peel_as Hc s1 E1. peel_as Hc r E2. peel_as Hc ty E3. peel_as Hc lit E4. destruct lit as [e|f].
    + injection Hc as <-. apply make_literal_inl in E4. cbn in Hs. congruence.
    + peel_as Hc c0 E5. by injection Hc as <-.
  - repeat (destruct (_ || _)); peel_as Hc s1 E1; injection Hc as <-; cbn in Hs; congruence.
Qed.

Lemma EvaluateIndex_err n : forall status conds err st',
  EvaluateIndex_node schema n (status, conds, err) = Some st' -> st'.2 = DB_SUCCESS -> err = DB_SUCCESS.
Proof.
  induction n as [t v c nx IHc IHcn _] using SyntaxNode_ind2; intros status conds err st' He Hs.
  destruct t; try (injection He as <-; exact Hs); destruct c as [cn|]; cbn [on_some] in IHc, IHcn;
    [| cbn in He; repeat destruct (String.eqb _ _); try discriminate; injection He as <-; exact Hs | |discriminate].
  - rewrite EvaluateIndex_connector in He.
    destruct (String.eqb v "and"); [|destruct (String.eqb v "or"); injection He as <-; exact Hs].
    peel_as He st1 E1. destruct st1 as [[s1 c1] e1]. destruct cn as [t' v' c' nx']. cbn [next_] in He, IHcn.
    apply (IHc _ _ _ _ E1). destruct nx' as [nn|]; [|by injection He as <-].
    by apply (IHcn _ _ _ _ He).
  - destruct cn as [t' v' c' rn]. by apply (compare_index_err _ _ _ _ _ _ _ He).
Qed.

Lemma compare_agrees v left rn status conds err status' conds' row e e' :
  compare_index schema v left rn (status, conds, err) = Some (status', conds', DB_SUCCESS) ->
  compare_row schema v left rn row e = Some (true, e') ->
  agrees status conds row -> agrees status' conds' row.
Proof.
  unfold compare_index. destruct (column_of schema left) as [col|] eqn:Ecol; [|intros [= _ _ ?]; discriminate].
  intros Hc Hw Ha. destruct (String.eqb v "=") eqn:Eeq.
  - peel_as Hc s1 E1. peel_as Hc r E2. peel_as Hc ty E3. peel_as Hc lit E4. destruct lit as [e0|f].
    + injection Hc as _ _ He0. apply make_literal_inl in E4. congruence.
    + peel_as Hc c0 E5. injection Hc as <- <- _.
      destruct (or_status_Some _ _ _ _ E1) as (s & Hs & ->).
      unfold compare_row in Hw. rewrite Ecol in Hw. peel_as Hw lf E6. cbn [mbind option_bind] in Hw.
      case_decide as Hnull.
      * destruct (make_literal_null ty r Hnull) as [e1 He1]. congruence.
      * rewrite E3 in Hw. cbn [mbind option_bind] in Hw. rewrite E4 in Hw.
        apply String.eqb_eq in Eeq. subst v. cbn in Hw. injection Hw as Hcmp _.
        eapply agrees_eq; eauto.
  - destruct (String.eqb v "is" || String.eqb v "not" || String.eqb v "<>").
    + peel_as Hc s1 E1. injection Hc as <- <- _. destruct (or_status_Some _ _ _ _ E1) as (s & Hs & ->).
      eapply agrees_mark; eauto. intros H4. exfalso. by apply (land_lor_self s 4); [right|].
    + destruct (String.eqb v "<" || String.eqb v "<=" || String.eqb v ">" || String.eqb v ">=").
      * peel_as Hc s1 E1. injection Hc as <- <- _. destruct (or_status_Some _ _ _ _ E1) as (s & Hs & ->).
        eapply agrees_mark; eauto. rewrite !land_lor_2 by auto. auto.
      * peel_as Hc s1 E1. discriminate.
Qed.

Lemma EvaluateIndex_agrees n : forall status conds err status' conds' row e e',
  EvaluateIndex_node schema n (status, conds, err) = Some (status', conds', DB_SUCCESS) ->
  EvaluateWhere_node schema n row e = Some (true, e') ->
  agrees status conds row -> agrees status' conds' row.
Proof.
  induction n as [t v c nx IHc IHcn _] using SyntaxNode_ind2;
    intros status conds err status' conds' row e e' He Hw Ha.
  destruct t; try (injection He as <- <- _; exact Ha); destruct c as [cn|]; cbn [on_some] in IHc, IHcn;
    [| cbn in He; repeat destruct (String.eqb _ _); try discriminate; injection He as <- <- _; first [exact Ha | apply agrees_or]
     | | discriminate].
  - rewrite EvaluateIndex_connector in He. rewrite EvaluateWhere_connector in Hw.
    destruct (String.eqb v "and") eqn:Ea; cbn [orb] in Hw.
    + peel_as He st1 E1. destruct st1 as [[s1 c1] e1]. peel_as Hw r1 W1. destruct r1 as [b1 e1'].
      peel_as Hw r2 W2. destruct r2 as [b2 e2]. injection Hw as Hb _. apply andb_true_iff in Hb as [-> ->].
      destruct cn as [t' v' c' nx']. cbn [next_] in *.
      destruct nx' as [nn|].
      * pose proof (EvaluateIndex_err _ _ _ _ _ He eq_refl) as ->. eapply IHcn; eauto.
      * injection He as <- <- ->. eauto.
    + destruct (String.eqb v "or"); injection He as <- <- _; [apply agrees_or | exact Ha].
  - destruct cn as [t' v' c' rn]. cbn [EvaluateIndex_node EvaluateWhere_node] in He, Hw.
    eapply compare_agrees; eauto.
Qed.

(** C26: Soundness of [EvaluateIndex]: starting from [statusColumns] all
    0 and no error, if the analysis ends without error then every row
    the clause accepts agrees, on each column it marks as fixed by an
    equality (bit 1) and usable (no bit 4), with the constant it records
    in [conditions]: the key [ChooseIndex] builds from those constants
    finds the accepted rows. *)
Theorem EvaluateIndex_sound w k conds0 status conds row e e' :
  EvaluateIndex schema w (replicate k 0, conds0, DB_SUCCESS) = Some (status, conds, DB_SUCCESS) ->
  EvaluateWhere schema w row e = Some (true, e') ->
  forall col s, status !! col = Some s -> Z.land s 1 <> 0 -> Z.land s 4 = 0 ->
  exists f c, fields_ row !! col = Some f /\ conds !! col = Some c /\ field_compare OpEq f c = true.
Proof.
  intros Hi Hw col s Hs H1 H4. destruct w as [n|].
  - exact (EvaluateIndex_agrees n _ _ _ _ _ _ _ _ Hi Hw (agrees_init _ _ _) col s Hs H4 H1).
  - injection Hi as <- <-. exact (agrees_init _ _ _ col s Hs H4 H1).
Qed.

(** *** [ChooseIndex]'s loop over the key columns *)

(** A key column the analysis leaves usable: no bit 4, and no range
    (bit 2) without an equality (bit 1). *)
Definition key_usable (status : list Z) (ind : Z) : Prop :=
  exists s, status !! Z.to_nat ind = Some s /\ Z.land s 4 = 0 /\ (Z.land s 1 = 0 -> Z.land s 2 = 0).

(** A key column fixed by an equality. *)
Definition key_fixed (status : list Z) (ind : Z) : Prop :=
  exists s, status !! Z.to_nat ind = Some s /\ Z.land s 1 <> 0.

Lemma index_status_two status cols : index_status status cols 2 <> Some 1.
Proof.
  induction cols as [|ind cs IH]; cbn [index_status]; [discriminate|].
  destruct (status !! Z.to_nat ind) as [s|]; cbn [mbind option_bind]; [|discriminate].
  repeat (destruct (negb (Z.land s _ =? 0)); cbn; try discriminate). exact IH.
Qed.

Lemma index_status_one_gen status cols r : r = -1 \/ r = 1 ->
  index_status status cols r = Some 1 <->
  Forall (key_usable status) cols /\ (r = 1 \/ Exists (key_fixed status) cols).
Proof.
  revert r. induction cols as [|ind cs IH]; intros r Hr; cbn [index_status].
  - split; [intros [= ->]; auto | intros [_ [->|Hex]]; [done | inversion Hex]].
  - rewrite Forall_cons, Exists_cons. unfold key_usable at 1, key_fixed at 1.
    assert (Hneg : negb (r =? 2) && negb (r =? 0) = true) by (destruct Hr; subst; reflexivity).
    destruct (status !! Z.to_nat ind) as [s|] eqn:Es; cbn [mbind option_bind].
    2: { split; [discriminate | intros [[(s' & Hs' & _) _] _]; congruence]. }
    assert (Hs : forall P : Z -> Prop, (exists s', Some s = Some s' /\ P s') <-> P s)
      by (intros P; split; [intros (s' & [= <-] & ?); done | eauto]).
    rewrite !Hs. clear Hs.
    destruct (Z.land s 4 =? 0) eqn:E4; zbool; cbn [negb]; [|split; [discriminate | intros [[[] _] _]; lia]].
    destruct (Z.land s 1 =? 0) eqn:E1; zbool; cbn [negb]; [destruct (Z.land s 2 =? 0) eqn:E2; zbool; cbn [negb]|].
    + rewrite IH by done. split.
      * intros [Ha Hx]. split; [split; [split; [done | intros; done] | done]|]. destruct Hx; auto.
      * intros [[_ Ha] [->|[Hf|Hx]]]; auto. done.
    + rewrite Hneg. split; [intros Hc; by apply index_status_two in Hc | intros [[[_ Hb] _] _]; exfalso; auto].
    + rewrite Hneg. rewrite IH by auto. split.
      * intros [Ha _]. split; [split; [split; [done | done] | done] | auto].
      * intros [[_ Ha] _]. auto.
Qed.

(** C27: The index [ChooseIndex] chooses: an index gets status 1 exactly
    when none of its key columns is unusable and AT LEAST ONE of them is
    fixed by an equality.  Nothing requires the other key columns to be
    fixed: their part of [keyRow] is the null [Field(type)] that
    [conditions] starts with. *)
Theorem index_status_one status cols :
  index_status status cols (-1) = Some 1 <->
  Forall (key_usable status) cols /\ Exists (key_fixed status) cols.
Proof.
  rewrite index_status_one_gen by auto. split; intros [Ha Hx]; split; auto. destruct Hx as [Hx|]; [lia | done].
Qed.

End WhereProofs.

(** ** Witnesses *)

(** A sample field type: null fields of a type, integers, floats kept as
    their literal, and chars. *)
Inductive sfield := SNull (t : TypeId) | SInt (z : Z) | SFloat (lit : list Z) | SChar (s : list Z).

#[export] Instance sfield_eq_dec : EqDecision sfield.
Proof. solve_decision. Defined.

#[export] Instance sfield_codec : FieldCodec sfield := {|
  field_is_null f := match f with SNull _ => true | _ => false end;
  field_type f := match f with SNull t => t | SInt _ => kTypeInt | SFloat _ => kTypeFloat | SChar _ => kTypeChar end;
  field_SerializeTo f := match f with SInt z => le_encode 4 z | SChar s => s | _ => [] end;
  field_GetSerializedSize f := match f with SInt _ => 4 | SChar s => Z.of_nat (length s) | _ => 0 end;
  field_DeserializeFrom _ _ _ := None
|}.

Definition sfield_compare (op : CompareOp) (a b : sfield) : bool :=
  match a, b with
  | SInt x, SInt y =>
      match op with
      | OpEq => x =? y | OpNe => negb (x =? y) | OpLt => x <? y | OpLe => x <=? y | OpGt => y <? x | OpGe => y <=? x
      end
  | SChar x, SChar y => match op with OpEq => bool_decide (x = y) | OpNe => negb (bool_decide (x = y)) | _ => false end
  | _, _ => false
  end.

#[export] Instance sfield_ops : FieldOps sfield := {|
  Field_null := SNull;
  Field_int := SInt;
  Field_float s := Some (SFloat (bytes_of_string s));
  Field_char := SChar;
  field_compare := sfield_compare;
  Field_GetString f := match f with
                       | SInt z => show_Z z
                       | SChar s => map (fun z => ascii_of_nat (Z.to_nat z)) s
                       | SFloat s => map (fun z => ascii_of_nat (Z.to_nat z)) s
                       | SNull _ => chars "null"
                       end
|}.

Section Witnesses.

Definition wcol (name : Z) (i : Z) : Column := mkColumn [name] kTypeInt 4 i true false.
(** [t(a int, b int)]. *)
Definition wschema : Schema := mkSchema [wcol 97 0; wcol 98 1].

Definition wnum (lit : string) : SyntaxNode := mkSyntaxNode kNodeNumber lit None None.
Definition wid (name : string) (right : SyntaxNode) : SyntaxNode := mkSyntaxNode kNodeIdentifier name None (Some right).
(** [col op lit], with its next sibling. *)
Definition wcmp (op col lit : string) (nx : option SyntaxNode) : SyntaxNode :=
  mkSyntaxNode kNodeCompareOperator op (Some (wid col (wnum lit))) nx.

(** [a = 1 and b = 6], and [b = 6]. *)
Definition wand : SyntaxNode := mkSyntaxNode kNodeConnector "and" (Some (wcmp "=" "a" "1" (Some (wcmp "=" "b" "6" None)))) None.
Definition wb6 : SyntaxNode := wcmp "=" "b" "6" None.
Definition wrow : Row sfield := mkRow (mkRowId 0 0) [SInt 1; SInt 6].
Definition wconds0 : list sfield := [SNull kTypeInt; SNull kTypeInt].

Lemma EvaluateWhere_wt_witness :
  wt_node wschema wand = true /\ length (fields_ wrow) = length (columns_ wschema) /\
  exists b, EvaluateWhere_node wschema wand wrow DB_SUCCESS = Some (b, DB_SUCCESS).
Proof.
  split; [reflexivity|]. split; [reflexivity|].
  apply (EvaluateWhere_wt wschema wand wrow DB_SUCCESS); reflexivity.
Defined.

Lemma EvaluateIndex_sound_witness :
  EvaluateIndex wschema (Some wand) (replicate 2 0, wconds0, DB_SUCCESS) = Some ([1; 1], [SInt 1; SInt 6], DB_SUCCESS) /\
  EvaluateWhere wschema (Some wand) wrow DB_SUCCESS = Some (true, DB_SUCCESS) /\
  exists f c, fields_ wrow !! 0%nat = Some f /\ [SInt 1; SInt 6] !! 0%nat = Some c /\ field_compare OpEq f c = true.
Proof.
  split; [reflexivity|]. split; [reflexivity|].
  refine (EvaluateIndex_sound wschema (Some wand) 2 wconds0 [1; 1] [SInt 1; SInt 6] wrow DB_SUCCESS DB_SUCCESS
            _ _ 0%nat 1 _ _ _); [reflexivity | reflexivity | reflexivity | cbv; discriminate | reflexivity].
Defined.

(** An index on [(a, b)] of [t]. *)
Definition wtable : TableInfo := mkTableInfo (mkTableMetadata 0 [116] 1 wschema) 1.
Definition windex_ab : IndexInfo := mkIndexInfo (mkIndexMetadata 0 [105] 0 [0; 1]) wtable.

(** [ChooseIndex] on [b = 6] chooses the index on [(a, b)], whose
    first key column the clause does not constrain, and looks it up with
    the key [(null, 6)]: the null [Field] [conditions] starts with stands
    for [a]. *)
Example ChooseIndex_partial_key :
  ChooseIndex wschema [windex_ab] (Some (mkSyntaxNode kNodeConditions "" (Some wb6) None)) DB_SUCCESS =
  Some (Some (windex_ab, [SNull kTypeInt; SInt 6]), DB_SUCCESS).
Proof. vm_compute. reflexivity. Qed.


(** [a = 1.5] on the integer column [a]: [std::stoi] reads the literal
    "1.5" as 1, so the row with [a = 1] satisfies the clause. *)
Example EvaluateWhere_truncates_literal :
  stoi "1.5" = Some 1 /\ EvaluateWhere_node wschema (wcmp "=" "a" "1.5" None) wrow DB_SUCCESS = Some (true, DB_SUCCESS).
Proof. vm_compute. auto. Qed.

End Witnesses.

End Executor.
