(* ===== verification/ExecuteSelect.v ===== *)
(** * [ExecuteEngine::ExecuteSelect] (executor/execute_engine.cpp)

    A SELECT finds its table and its indexes in the catalog of the
    current database, resolves the selected columns, lets [ChooseIndex]
    pick an index, and prints a table: on the scan path it iterates over
    the table heap twice (once to widen the columns, once to print the
    rows the WHERE clause accepts); on the index path it looks up the
    key in the index and prints.

    The engine's state is [dbs_] and [current_db_]; of a
    [DBStorageEngine] the select reads the catalog manager (modelled in
    CatalogManager.v), the table heap and the index.  Those two are used
    through the class [TableStorage]: the rows an iteration of the heap
    visits, [GetTuple], and the index's [ScanKey]. *)

From Stdlib Require Import ZArith Lia List String Ascii.
From stdpp Require Import base list gmap strings.
From S2P Require Import Spec2Rocq Records RowFormat Catalog CatalogManager ExecuteContext Executor.
Import ListNotations.
Open Scope Z_scope.

Module ExecuteSelect.
Import Records RowFormat Catalog CatalogManager ExecuteContext Executor.

(** What the select uses of a table heap and an index: the rows from
    [Begin] to [End], [GetTuple] ([None] when it returns false, leaving
    the row empty) and [ScanKey]'s result. *)
Class TableStorage (Field : Type) := {
  table_rows : TableInfo -> list (Row Field);
  GetTuple : TableInfo -> RowId -> option (Row Field);
  ScanKey : IndexInfo -> list Field -> list RowId
}.

(** The engine: the open databases by name ([nullptr] is [None]) and the
    current one. *)
Record ExecuteEngine := mkExecuteEngine {
  dbs_ : gmap string (option CatalogManager);
  current_db_ : string
}.

(** [dbs_[name]]: [operator[]] inserts a [nullptr] for a missing name. *)
Definition dbs_at (eng : ExecuteEngine) (name : string) : ExecuteEngine * option CatalogManager :=
  match dbs_ eng !! name with
  | Some d => (eng, d)
  | None => (mkExecuteEngine (<[name := None]> (dbs_ eng)) (current_db_ eng), None)
  end.

Section Select.
Context {Field : Type} `{FieldCodec Field} `{FieldOps Field} `{TableStorage Field}.

(** The loop over a [kNodeColumnList]: the index of each named column. *)
Fixpoint column_list (schema : Schema) (n : SyntaxNode) : dberr_t + list Z :=
  match n with
  | mkSyntaxNode _ v _ nx =>
      match GetColumnIndex schema (bytes_of_string v) with
      | None => inl DB_COLUMN_NAME_NOT_EXIST
      | Some i =>
          match nx with
          | None => inr [i]
          | Some m => match column_list schema m with inl e => inl e | inr rest => inr (i :: rest) end
          end
      end
  end.

(** [selectIdx]: all columns, or the listed ones. *)
Definition select_columns (schema : Schema) (select_node : SyntaxNode) : dberr_t + list Z :=
  match type_ select_node with
  | kNodeAllColumns => inr (seqZ 0 (Z.of_nat (length (columns_ schema))))
  | kNodeColumnList => match child_ select_node with None => inr [] | Some c => column_list schema c end
  | _ => inl DB_FAILED
  end.

(** [GetColumn(col)->GetName()] as printed. *)
Definition column_name (schema : Schema) (col : Z) : option (list ascii) :=
  c ← columns_ schema !! Z.to_nat col; Some (map (fun z => ascii_of_nat (Z.to_nat z)) (name_ c)).

(** [GetField(selectIdx[i])->GetString()] for each selected column. *)
Definition row_text (idx : list Z) (row : Row Field) : option (list (list ascii)) :=
  mapM (fun i => Field_GetString <$> fields_ row !! Z.to_nat i) idx.

(** [if (where_node != nullptr) EvaluateWhere(where_node->child_, ...)]
    with its write to [context->err_]. *)
Definition where_step (schema : Schema) (w : option SyntaxNode) (row : Row Field) (ctx : ExecuteContext)
  : option (bool * ExecuteContext) :=
  match w with
  | None => Some (true, ctx)
  | Some wn => '(b, e) ← EvaluateWhere schema (child_ wn) row (err_ ctx); Some (b, set_err ctx e)
  end.

(** The first loop of the scan path: [PrepareRow] for each accepted row. *)
Fixpoint prepare_loop (schema : Schema) (w : option SyntaxNode) (idx : list Z) (rows : list (Row Field))
  (ctx : ExecuteContext) : option ExecuteContext :=
  match rows with
  | [] => Some ctx
  | r :: rs =>
      '(b, ctx1) ← where_step schema w r ctx;
      if (b : bool) then t ← row_text idx r; ctx2 ← PrepareRow ctx1 t; prepare_loop schema w idx rs ctx2
      else prepare_loop schema w idx rs ctx1
  end.

(** The second loop: [err_] reset before each evaluation, an error
    returned at once, each accepted row counted and printed.  The
    [dberr_t] is the error returned, [DB_SUCCESS] when the loop ends. *)
Fixpoint print_loop (schema : Schema) (w : option SyntaxNode) (idx : list Z) (rows : list (Row Field))
  (ctx : ExecuteContext) : option (ExecuteContext * dberr_t) :=
  match rows with
  | [] => Some (ctx, DB_SUCCESS)
  | r :: rs =>
      '(b, ctx1) ← match w with
                   | None => Some (true, ctx)
                   | Some _ => where_step schema w r (set_err ctx DB_SUCCESS)
                   end;
      if decide (err_ ctx1 <> DB_SUCCESS /\ w <> None) then Some (ctx1, err_ ctx1)
      else if (b : bool) then t ← row_text idx r; ctx2 ← PrintRow (AddNumSelectedRows ctx1 1) t; print_loop schema w idx rs ctx2
      else print_loop schema w idx rs ctx1
  end.

(** The loop of the index path over [ScanKey]'s row ids: [prow] ends as
    the text of the last accepted row. *)
Fixpoint index_loop (schema : Schema) (w : option SyntaxNode) (idx : list Z) (ti : TableInfo) (rids : list RowId)
  (ctx : ExecuteContext) (prow : list (list ascii)) : option (ExecuteContext * list (list ascii)) :=
  match rids with
  | [] => Some (ctx, prow)
  | rid :: rs =>
      let row := default (mkRow rid []) (GetTuple ti rid) in
      '(b, ctx1) ← where_step schema w row ctx;
      if (b : bool) then t ← row_text idx row; ctx2 ← PrepareRow ctx1 t; index_loop schema w idx ti rs ctx2 t
      else index_loop schema w idx ti rs ctx1 prow
  end.

(** The scan path: widen, print the header, print the accepted rows,
    print the closing divider. *)
Definition scan_path (schema : Schema) (where_node : option SyntaxNode) (idx : list Z) (ti : TableInfo)
  (ctx : ExecuteContext) : option (ExecuteContext * dberr_t) :=
  let rows := table_rows ti in
  ctx ← prepare_loop schema where_node idx rows ctx;
  ctx ← PrintHeader ctx;
  '(ctx, e) ← print_loop schema where_node idx rows ctx;
  if decide (e <> DB_SUCCESS) then Some (ctx, e) else Some (PrintTableDivider ctx, DB_SUCCESS).

(** The index path: [ScanKey], then the rows, then at most one printed. *)
Definition index_path (schema : Schema) (where_node : option SyntaxNode) (idx : list Z) (ti : TableInfo)
  (pindex : IndexInfo) (keyRow : list Field) (ctx : ExecuteContext) : option (ExecuteContext * dberr_t) :=
  '(ctx, prow) ← index_loop schema where_node idx ti (ScanKey pindex keyRow) ctx [];
  ctx ← PrintHeader ctx;
  ctx ← (if (0 <? length prow)%nat then PrintRow (AddNumSelectedRows ctx 1) prow else Some ctx);
  Some (PrintTableDivider ctx, DB_SUCCESS).

Definition ExecuteSelect (eng : ExecuteEngine) (ast : SyntaxNode) (ctx : ExecuteContext)
  : option (ExecuteEngine * ExecuteContext * dberr_t) :=
  if String.eqb (current_db_ eng) "" then Some (eng, ctx, DB_FAILED) else
  let '(eng, db) := dbs_at eng (current_db_ eng) in
  match db with
  | None => Some (eng, ctx, DB_FAILED)
  | Some cm =>
      select_node ← child_ ast;
      from_node ← next_ select_node;
      let where_node := next_ from_node in
      let table_name := bytes_of_string (val_ from_node) in
      '(status, oti) ← GetTable cm table_name;
      if decide (status <> DB_SUCCESS) then Some (eng, ctx, status) else
      ti ← oti;
      '(status, indexes) ← GetTableIndexes cm table_name;
      if decide (status <> DB_SUCCESS) then Some (eng, ctx, status) else
      let schema := schema_ (table_meta_ ti) in
      match select_columns schema select_node with
      | inl e => Some (eng, ctx, e)
      | inr idx =>
          let ctx := set_err ctx DB_SUCCESS in
          '(choice, err) ← ChooseIndex schema indexes where_node (err_ ctx);
          let ctx := set_err ctx err in
          if decide (err <> DB_SUCCESS) then Some (eng, ctx, err) else
          columns ← mapM (column_name schema) idx;
          let ctx := SetHeader ctx columns in
          '(ctx, e) ← match choice with
                      | None => scan_path schema where_node idx ti ctx
                      | Some (pindex, keyRow) => index_path schema where_node idx ti pindex keyRow ctx
                      end;
          Some (eng, ctx, e)
      end
  end.

End Select.

(** ** The scan path *)

Section ScanProofs.
Context {Field : Type} `{FieldCodec Field} `{FieldOps Field} `{TableStorage Field}.
Variable schema : Schema.

(** A row with one field per column of the schema. *)
Definition row_fits_schema (r : Row Field) : Prop := length (fields_ r) = length (columns_ schema).

(** A WHERE node (the [kNodeConditions] or [nullptr]) whose clause is
    well typed. *)
Definition where_wt (w : option SyntaxNode) : Prop :=
  match w ≫= child_ with None => True | Some n => wt_node schema n = true end.

(** The rows the clause accepts, as [EvaluateWhere] decides them with no
    error pending. *)
Definition accepts (w : option SyntaxNode) (r : Row Field) : bool :=
  match w with
  | None => true
  | Some wn => match EvaluateWhere schema (child_ wn) r DB_SUCCESS with Some (b, _) => b | None => false end
  end.

(** Selected column indexes within the schema. *)
Definition idx_ok (idx : list Z) : Prop := Forall (fun i => 0 <= i /\ (Z.to_nat i < length (columns_ schema))%nat) idx.

(** What a stretch of printing did: appended [ls] to stdout, counted
    them, and kept the layout. *)
Definition printed (ctx ctx' : ExecuteContext) (ls : list (list ascii)) : Prop :=
  out_ ctx' = out_ ctx ++ lines_of ls /\ numSelectedRows ctx' = numSelectedRows ctx + Z.of_nat (length ls) /\
  columnLengths_ ctx' = columnLengths_ ctx /\ header_ ctx' = header_ ctx /\ disablePrint_ ctx' = disablePrint_ ctx.

Lemma lines_of_app ls1 ls2 : lines_of (ls1 ++ ls2) = lines_of ls1 ++ lines_of ls2.
Proof. unfold lines_of. by rewrite fmap_app, concat_app. Qed.

Lemma printed_trans c1 c2 c3 ls1 ls2 : printed c1 c2 ls1 -> printed c2 c3 ls2 -> printed c1 c3 (ls1 ++ ls2).
Proof.
  intros (O1 & N1 & L1 & Hh1 & D1) (O2 & N2 & L2 & Hh2 & D2). repeat split; try congruence.
  - by rewrite O2, O1, lines_of_app, app_assoc.
  - rewrite N2, N1, length_app. lia.
Qed.

Lemma set_err_id ctx : set_err ctx (err_ ctx) = ctx.
Proof. by destruct ctx. Qed.

Lemma where_step_wt w r ctx :
  where_wt w -> row_fits_schema r -> err_ ctx = DB_SUCCESS -> where_step schema w r ctx = Some (accepts w r, ctx).
Proof.
  unfold where_wt, accepts, where_step. intros Hw Hr He. destruct w as [wn|]; [|done]. cbn in Hw.
  destruct (child_ wn) as [n|]; cbn [EvaluateWhere]; [|cbn; by rewrite set_err_id].
  destruct (EvaluateWhere_total schema n r (err_ ctx) Hw Hr) as [b Hb]. rewrite Hb, <- He, Hb. cbn.
  by rewrite set_err_id.
Qed.

Lemma row_text_fit idx r :
  idx_ok idx -> row_fits_schema r -> exists t, row_text idx r = Some t /\ length t = length idx.
Proof.
  intros Hidx Hr. apply mapM_total. eapply Forall_impl; [exact Hidx|]. intros i Hi. cbv beta in Hi.
  destruct (lookup_lt_is_Some_2 (fields_ r) (Z.to_nat i)) as [f Hf]; [unfold row_fits_schema in Hr; lia|].
  rewrite Hf. eauto.
Qed.

(** The rows the index path reads for the row ids of [ScanKey]. *)
Definition rows_of (ti : TableInfo) (rids : list RowId) : list (Row Field) :=
  (fun rid => default (mkRow rid []) (GetTuple ti rid)) <$> rids.

(** The text [prow] holds after the index loop: that of the last
    accepted row. *)
Fixpoint last_text (w : option SyntaxNode) (idx : list Z) (rows : list (Row Field)) (prow : list (list ascii))
  : list (list ascii) :=
  match rows with
  | [] => prow
  | r :: rs => last_text w idx rs (if accepts w r then default [] (row_text idx r) else prow)
  end.

Lemma PrepareRow_err ctx t ctx' : PrepareRow ctx t = Some ctx' -> err_ ctx' = err_ ctx.
Proof.
  unfold PrepareRow. destruct (disablePrint_ ctx); [by intros [= <-]|].
  destruct (widen _ _ _); cbn; [by intros [= <-] | discriminate].
Qed.

Section Loops.
Variable w : option SyntaxNode.
Variable idx : list Z.
Hypothesis Hwt : where_wt w.
Hypothesis Hidx : idx_ok idx.

(** The first loop widens the columns to fit every accepted row. *)
Lemma prepare_loop_fit rows ctx :
  disablePrint_ ctx = false -> err_ ctx = DB_SUCCESS -> length (columnLengths_ ctx) = length idx ->
  Forall row_fits_schema rows ->
  exists cl', prepare_loop schema w idx rows ctx = Some (set_layout ctx (header_ ctx) cl') /\
    Forall2 Z.le (columnLengths_ ctx) cl' /\
    Forall (fun r => accepts w r = true -> exists t, row_text idx r = Some t /\ fits cl' t) rows.
Proof.
  intros Hp He Hl Hrows. revert ctx Hp He Hl. induction Hrows as [|r rows Hr Hrows IH]; intros ctx Hp He Hl.
  - exists (columnLengths_ ctx). split; [by destruct ctx|]. split; [apply Forall2_le_refl | constructor].
  - cbn [prepare_loop]. rewrite (where_step_wt w r ctx Hwt Hr He). cbn [mbind option_bind].
    destruct (accepts w r) eqn:Ea.
    + destruct (row_text_fit idx r Hidx Hr) as (t & Ht & Hlt). rewrite Ht. cbn [mbind option_bind].
      destruct (PrepareRow_fit ctx t Hp (eq_trans Hlt (eq_sym Hl))) as (cl1 & Hpr & Hle1 & Hf1).
      rewrite Hpr. cbn [mbind option_bind].
      destruct (IH (set_layout ctx (header_ ctx) cl1)) as (cl' & Hpl & Hle & Hall); try done.
      { cbn. apply Forall2_length in Hle1. congruence. }
      exists cl'. rewrite Hpl. split; [by destruct ctx|]. cbn [columnLengths_ set_layout] in Hle.
      split; [eapply (Forall2_trans Z.le Z.le); eauto; intros; lia|].
      constructor; [|done]. intros _. exists t. split; [done | by eapply fits_mono].
    + destruct (IH ctx) as (cl' & Hpl & Hle & Hall); try done.
      exists cl'. split; [done|]. split; [done|]. constructor; [congruence | done].
Qed.

(** The second loop prints one line of the layout's width per accepted
    row and counts it. *)
Lemma print_loop_lines rows ctx :
  disablePrint_ ctx = false -> idx <> [] -> Forall row_fits_schema rows ->
  Forall (fun r => accepts w r = true -> exists t, row_text idx r = Some t /\ fits (columnLengths_ ctx) t) rows ->
  exists ctx' ls, print_loop schema w idx rows ctx = Some (ctx', DB_SUCCESS) /\ printed ctx ctx' ls /\
    length ls = length (List.filter (accepts w) rows) /\
    Forall (fun l => length l = S (width (columnLengths_ ctx))) ls.
Proof.
  intros Hp Hne Hrows. revert ctx Hp. induction Hrows as [|r rows Hr Hrows IH]; intros ctx Hp Hfit.
  - exists ctx, []. split; [done|]. split; [|done]. repeat split; cbn; rewrite ?app_nil_r; first [reflexivity | lia].
  - apply Forall_cons in Hfit as [Hfr Hfit]. cbn [print_loop List.filter].
    assert (Hstep : exists ctx1, (match w with None => Some (true, ctx) | Some _ => where_step schema w r (set_err ctx DB_SUCCESS) end)
                    = Some (accepts w r, ctx1) /\ printed ctx ctx1 [] /\ (err_ ctx1 = DB_SUCCESS \/ w = None)).
    { destruct w as [wn|].
      - exists (set_err ctx DB_SUCCESS). rewrite where_step_wt by done.
        split; [done|]. split; [repeat split; cbn; rewrite ?app_nil_r; first [reflexivity | lia]|]. by left.
      - exists ctx. split; [done|]. split; [repeat split; cbn; rewrite ?app_nil_r; first [reflexivity | lia]|]. by right. }
    destruct Hstep as (ctx1 & Hs & Hpr1 & Herr). rewrite Hs. cbn [mbind option_bind].
    rewrite decide_False by (intros [He Hw]; destruct Herr; contradiction).
    destruct Hpr1 as (O1 & N1 & L1 & Hh1 & D1).
    destruct (accepts w r) eqn:Ea.
    + destruct (Hfr eq_refl) as (t & Ht & Hft). rewrite Ht. cbn [mbind option_bind].
      assert (Htne : t <> []).
      { intros ->. apply Forall2_length in Hft. destruct (row_text_fit idx r Hidx Hr) as (t' & Ht' & Hl').
        rewrite Ht in Ht'. injection Ht' as <-. destruct idx; [done | discriminate]. }
      destruct (PrintRow_line (AddNumSelectedRows ctx1 1) t) as (l & Hl & Hll); [cbn; congruence | done | cbn; congruence|].
      rewrite Hl. cbn [mbind option_bind].
      destruct (IH (emit (AddNumSelectedRows ctx1 1) (lines_of [l]))) as (ctx' & ls & Hpl & Hpr & Hlen & Hw).
      { cbn. congruence. }
      { cbn. rewrite L1. done. }
      exists ctx', (l :: ls). rewrite Hpl. split; [done|].
      split; [|split; [cbn; by rewrite Hlen|]].
      * change (l :: ls) with ([l] ++ ls). eapply printed_trans; [|exact Hpr].
        repeat split; cbn; try congruence; [rewrite O1; cbn; by rewrite !app_nil_r | rewrite N1; cbn; lia].
      * cbn [columnLengths_ emit AddNumSelectedRows set_counts] in Hw, Hll. rewrite L1 in Hw, Hll.
        constructor; [exact Hll | exact Hw].
    + destruct (IH ctx1) as (ctx' & ls & Hpl & Hpr & Hlen & Hw); [congruence | by rewrite L1|].
      exists ctx', ls. rewrite Hpl. split; [done|]. split; [|split; [done | by rewrite <- L1]].
      change ls with ([] ++ ls). eapply printed_trans; [|exact Hpr]. repeat split; congruence.
Qed.

(** The index loop widens like the scan's first loop, and keeps the
    text of the last accepted row. *)
Lemma index_loop_prepare ti rids : forall ctx prow,
  Forall row_fits_schema (rows_of ti rids) -> err_ ctx = DB_SUCCESS ->
  index_loop schema w idx ti rids ctx prow =
    (fun c => (c, last_text w idx (rows_of ti rids) prow)) <$> prepare_loop schema w idx (rows_of ti rids) ctx.
Proof.
  induction rids as [|rid rids IH]; intros ctx prow Hrows He; [done|].
  unfold rows_of in *. cbn [fmap list_fmap] in *. apply Forall_cons in Hrows as [Hr Hrows].
  cbn [index_loop prepare_loop last_text]. rewrite (where_step_wt w _ ctx Hwt Hr He). cbn [mbind option_bind].
  destruct (accepts w _); [|by apply IH].
  destruct (row_text_fit idx _ Hidx Hr) as (t & Ht & _). rewrite Ht. cbn [mbind option_bind default].
  destruct (PrepareRow ctx t) as [ctx2|] eqn:Hp; [|done]. cbn [mbind option_bind].
  apply IH; [exact Hrows|]. by rewrite (PrepareRow_err _ _ _ Hp).
Qed.

Lemma last_text_spec rows : forall prow, Forall row_fits_schema rows ->
  (existsb (accepts w) rows = false /\ last_text w idx rows prow = prow) \/
  (exists r t, r ∈ rows /\ accepts w r = true /\ row_text idx r = Some t /\ last_text w idx rows prow = t).
Proof.
  induction rows as [|r rows IH]; intros prow Hrows; [by left|]. apply Forall_cons in Hrows as [Hr Hrows].
  cbn [last_text existsb]. destruct (accepts w r) eqn:Ea.
  - destruct (row_text_fit idx r Hidx Hr) as (t & Ht & _). rewrite Ht. cbn [default orb]. right.
    destruct (IH t Hrows) as [[_ E] | (r' & t' & Hin & Ha & Ht' & E)].
    + exists r, t. split_and!; [by left|done|done|exact E].
    + exists r', t'. split_and!; [by right|done|done|done].
  - cbn [orb]. destruct (IH prow Hrows) as [[Hx E] | (r' & t' & Hin & Ha & Ht' & E)].
    + by left.
    + right. exists r', t'. split_and!; [by right|done|done|done].
Qed.

End Loops.

Lemma column_list_ok n idx : column_list schema n = inr idx -> idx_ok idx.
Proof.
  revert idx. induction n as [t v c nx _ _ IHnx] using SyntaxNode_ind2; intros idx. cbn [column_list].
  destruct (GetColumnIndex schema (bytes_of_string v)) as [i|] eqn:Ei; [|discriminate].
  unfold GetColumnIndex in Ei. apply column_index_range in Ei.
  destruct nx as [m|].
  - cbn [on_some] in IHnx. destruct (column_list schema m) as [e|rest] eqn:Em; [discriminate|].
    intros [= <-]. constructor; [lia | by apply IHnx].
  - intros [= <-]. constructor; [lia | constructor].
Qed.

Lemma select_columns_ok sn idx : select_columns schema sn = inr idx -> idx_ok idx.
Proof.
  unfold select_columns. destruct (type_ sn); try discriminate.
  - destruct (child_ sn) as [c|]; [apply column_list_ok | intros [= <-]; constructor].
  - intros [= <-]. apply Forall_seqZ. intros i Hi. lia.
Qed.

Lemma column_names_ok idx :
  idx_ok idx -> exists columns, mapM (column_name schema) idx = Some columns /\ length columns = length idx.
Proof.
  intros Hidx. apply mapM_total. eapply Forall_impl; [exact Hidx|]. intros i Hi. cbv beta in Hi.
  unfold column_name. destruct (lookup_lt_is_Some_2 (columns_ schema) (Z.to_nat i)) as [c Hc]; [lia|].
  rewrite Hc. by eexists.
Qed.

(** The table the scan path prints: a divider, the header, a divider,
    one line per accepted row and a divider, all of one width. *)
Lemma scan_path_table w idx ti ctx columns :
  where_wt w -> idx_ok idx -> idx <> [] -> length columns = length idx ->
  Forall row_fits_schema (table_rows ti) -> disablePrint_ ctx = false -> err_ ctx = DB_SUCCESS ->
  exists ctx' ls, scan_path schema w idx ti (SetHeader ctx columns) = Some (ctx', DB_SUCCESS) /\
    out_ ctx' = out_ ctx ++ lines_of ls /\
    numSelectedRows ctx' = numSelectedRows ctx + Z.of_nat (length (List.filter (accepts w) (table_rows ti))) /\
    length ls = (4 + length (List.filter (accepts w) (table_rows ti)))%nat /\
    exists W, Forall (fun l => length l = W) ls.
Proof.
  intros Hwt Hidx Hne Hlc Hrows Hp He.
  destruct (SetHeader_fit ctx columns Hp) as [Hset Hfh]. rewrite Hset.
  set (c1 := set_layout ctx columns (map (fun s => Z.of_nat (length s)) columns)).
  destruct (prepare_loop_fit w idx Hwt Hidx (table_rows ti) c1) as (cl' & Hpl & Hle & Hfit); try done.
  { cbn. by rewrite length_map. }
  assert (Hcols : columns <> []) by (intros ->; destruct idx; [done | discriminate]).
  destruct (PrintHeader_lines (set_layout c1 (header_ c1) cl')) as (lh & Hh & Hlh & Hwh); try done.
  { cbn. eapply fits_mono; eauto. }
  destruct (print_loop_lines w idx Hwt Hidx (table_rows ti) (emit (set_layout c1 (header_ c1) cl') (lines_of lh)))
    as (c4 & lr & Hp4 & Hpr & Hlr & Hwr); try done.
  destruct Hpr as (O & N & L & Hh4 & D).
  destruct (PrintTableDivider_line c4) as (ld & Hd & Hld); [by rewrite D | |].
  { rewrite L. cbn. eapply fits_nonneg. eapply fits_mono; eauto. }
  exists (emit c4 (lines_of [ld])), (lh ++ lr ++ [ld]).
  unfold scan_path. cbv zeta. rewrite Hpl. cbn [mbind option_bind]. rewrite Hh. cbn [mbind option_bind].
  rewrite Hp4. cbn [mbind option_bind]. rewrite decide_False by (intros Hc; by apply Hc). rewrite Hd.
  split; [done|]. split; [|split; [|split]].
  - cbn [out_ emit]. rewrite O, !lines_of_app. unfold lines_of. cbn. by rewrite ?app_nil_r, !app_assoc.
  - cbn [numSelectedRows emit]. rewrite N, Hlr. done.
  - rewrite !length_app, Hlh, Hlr. cbn. lia.
  - exists (S (width cl')). rewrite L in Hld. cbn in Hwr, Hwh, Hld.
    apply Forall_app; split; [exact Hwh|]. apply Forall_app; split; [exact Hwr | by constructor].
Qed.

(** The table the index path prints: a divider, the header, a divider,
    at most one row and a divider; one row exactly when the clause
    accepts some row the index returned. *)
Lemma index_path_table w idx ti pindex keyRow ctx columns :
  let rows := rows_of ti (ScanKey pindex keyRow) in
  let n := if existsb (accepts w) rows then 1%nat else 0%nat in
  where_wt w -> idx_ok idx -> idx <> [] -> length columns = length idx ->
  Forall row_fits_schema rows -> disablePrint_ ctx = false -> err_ ctx = DB_SUCCESS ->
  exists ctx' ls, index_path schema w idx ti pindex keyRow (SetHeader ctx columns) = Some (ctx', DB_SUCCESS) /\
    out_ ctx' = out_ ctx ++ lines_of ls /\ numSelectedRows ctx' = numSelectedRows ctx + Z.of_nat n /\
    length ls = (4 + n)%nat.
Proof.
  intros rows n Hwt Hidx Hne Hlc Hrows Hp He.
  destruct (SetHeader_fit ctx columns Hp) as [Hset Hfh]. rewrite Hset.
  set (c1 := set_layout ctx columns (map (fun s => Z.of_nat (length s)) columns)).
  destruct (prepare_loop_fit w idx Hwt Hidx rows c1) as (cl' & Hpl & Hle & Hfit); try done.
  { cbn. by rewrite length_map. }
  assert (Hcols : columns <> []) by (intros ->; destruct idx; [done | discriminate]).
  destruct (PrintHeader_lines (set_layout c1 (header_ c1) cl')) as (lh & Hh & Hlh & _); try done.
  { cbn. eapply fits_mono; eauto. }
  set (c3 := emit (set_layout c1 (header_ c1) cl') (lines_of lh)).
  assert (Hnn : Forall (Z.le 0) (columnLengths_ c3)) by (cbn; eapply fits_nonneg; eapply fits_mono; eauto).
  unfold index_path. rewrite (index_loop_prepare w idx Hwt Hidx ti _ c1 [] Hrows He). fold rows. rewrite Hpl.
  cbn [fmap option_fmap option_map mbind option_bind].
  rewrite Hh. cbn [mbind option_bind]. fold c3.
  destruct (last_text_spec w idx Hidx rows [] Hrows) as [[Hx ->] | (r & t & Hin & Ha & Ht & ->)].
  - destruct (PrintTableDivider_line c3) as (ld & Hd & _); [done|done|].
    exists (PrintTableDivider c3), (lh ++ [ld]). cbn -[lines_of]. rewrite Hd. unfold n. rewrite Hx.
    split; [done|]. unfold c3, c1. cbn [out_ emit set_layout numSelectedRows].
    split; [by rewrite lines_of_app, app_assoc|]. split; [lia|]. rewrite length_app, Hlh. done.
  - rewrite Forall_forall in Hfit. destruct (Hfit r Hin Ha) as (t' & Ht' & Hft). rewrite Ht in Ht'. injection Ht' as <-.
    destruct (row_text_fit idx r Hidx (proj1 (Forall_forall _ _) Hrows r Hin)) as (t' & Ht' & Hlt).
    rewrite Ht in Ht'. injection Ht' as <-.
    assert (Htne : t <> []) by (intros ->; destruct idx; [done | discriminate]).
    rewrite (proj2 (Nat.ltb_lt 0 (length t))) by (destruct t; [done|cbn; lia]).
    destruct (PrintRow_line (AddNumSelectedRows c3 1) t) as (l & Hl & _); [done|done|exact Hft|].
    rewrite Hl. cbn [mbind option_bind].
    destruct (PrintTableDivider_line (emit (AddNumSelectedRows c3 1) (lines_of [l]))) as (ld & Hd & _); [done|done|].
    assert (Hx : existsb (accepts w) rows = true) by (apply existsb_exists; exists r; split; [by apply list_elem_of_In|done]).
    exists (PrintTableDivider (emit (AddNumSelectedRows c3 1) (lines_of [l]))), (lh ++ [l] ++ [ld]).
    rewrite Hd. unfold n. rewrite Hx. split; [done|]. unfold c3, c1.
    cbn [out_ emit set_layout numSelectedRows AddNumSelectedRows set_counts].
    split; [by rewrite !lines_of_app, !app_assoc|]. split; [lia|]. rewrite !length_app, Hlh. done.
Qed.

(** C28: The scan path of [ExecuteSelect].  When the current database's
    catalog has the table, the selected columns exist, [ChooseIndex]
    picks no index, the WHERE clause is well typed and every row of the
    heap has one field per column, the select succeeds, leaves the
    engine as it was, counts exactly the rows the clause accepts, and
    prints a table of that many rows plus four lines (three around the
    header, one at the end), every line of the same width. *)
Theorem ExecuteSelect_scan eng ast ctx cm select_node from_node ti indexes idx :
  current_db_ eng <> ""%string -> dbs_ eng !! current_db_ eng = Some (Some cm) ->
  child_ ast = Some select_node -> next_ select_node = Some from_node ->
  GetTable cm (bytes_of_string (val_ from_node)) = Some (DB_SUCCESS, Some ti) ->
  GetTableIndexes cm (bytes_of_string (val_ from_node)) = Some (DB_SUCCESS, indexes) ->
  schema_ (table_meta_ ti) = schema ->
  select_columns schema select_node = inr idx -> idx <> [] ->
  ChooseIndex schema indexes (next_ from_node) DB_SUCCESS = Some (None, DB_SUCCESS) ->
  where_wt (next_ from_node) -> Forall row_fits_schema (table_rows ti) -> disablePrint_ ctx = false ->
  exists ctx' ls, ExecuteSelect eng ast ctx = Some (eng, ctx', DB_SUCCESS) /\
    out_ ctx' = out_ ctx ++ lines_of ls /\
    numSelectedRows ctx' =
      numSelectedRows ctx + Z.of_nat (length (List.filter (accepts (next_ from_node)) (table_rows ti))) /\
    length ls = (4 + length (List.filter (accepts (next_ from_node)) (table_rows ti)))%nat /\
    exists W, Forall (fun l => length l = W) ls.
Proof.
  intros Hdb Hcm Hsel Hfrom Htab Hind Hsch Hcols Hne Hch Hwt Hrows Hp.
  pose proof (select_columns_ok _ _ Hcols) as Hidx.
  destruct (column_names_ok idx Hidx) as (columns & Hcn & Hlc).
  destruct (scan_path_table (next_ from_node) idx ti (set_err (set_err ctx DB_SUCCESS) DB_SUCCESS) columns)
    as (ctx' & ls & Hs & Hrest); try done.
  exists ctx', ls. split; [|exact Hrest].
  unfold ExecuteSelect. rewrite (proj2 (String.eqb_neq _ _) Hdb). unfold dbs_at. rewrite Hcm.
  rewrite Hsel. cbn [mbind option_bind]. rewrite Hfrom. cbn [mbind option_bind]. cbv zeta.
  rewrite Htab. cbn [mbind option_bind]. rewrite decide_False by (intros Hc; by apply Hc).
  rewrite Hind. cbn [mbind option_bind]. rewrite decide_False by (intros Hc; by apply Hc).
  rewrite Hsch, Hcols. cbn [err_ set_err]. rewrite Hch. cbn [mbind option_bind].
  rewrite decide_False by (intros Hc; by apply Hc). rewrite Hcn. cbn [mbind option_bind]. by rewrite Hs.
Qed.

(** C29: The index path of [ExecuteSelect] prints and counts at most
    one row.  Under the hypotheses of the scan path ([ExecuteSelect_scan])
    but with [ChooseIndex] picking an index, where every row the index
    returns has one field per column, the select succeeds and counts one
    row when the clause accepts any of them and none otherwise, however
    many it accepts; the table it prints has one row line at most (the
    last accepted row's, [prow]). *)
Theorem ExecuteSelect_index_prints_last_row eng ast ctx cm select_node from_node ti indexes idx pindex keyRow :
  let rows := rows_of ti (ScanKey pindex keyRow) in
  let n := if existsb (accepts (next_ from_node)) rows then 1%nat else 0%nat in
  current_db_ eng <> ""%string -> dbs_ eng !! current_db_ eng = Some (Some cm) ->
  child_ ast = Some select_node -> next_ select_node = Some from_node ->
  GetTable cm (bytes_of_string (val_ from_node)) = Some (DB_SUCCESS, Some ti) ->
  GetTableIndexes cm (bytes_of_string (val_ from_node)) = Some (DB_SUCCESS, indexes) ->
  schema_ (table_meta_ ti) = schema ->
  select_columns schema select_node = inr idx -> idx <> [] ->
  ChooseIndex schema indexes (next_ from_node) DB_SUCCESS = Some (Some (pindex, keyRow), DB_SUCCESS) ->
  where_wt (next_ from_node) -> Forall row_fits_schema rows -> disablePrint_ ctx = false ->
  exists ctx' ls, ExecuteSelect eng ast ctx = Some (eng, ctx', DB_SUCCESS) /\
    out_ ctx' = out_ ctx ++ lines_of ls /\ numSelectedRows ctx' = numSelectedRows ctx + Z.of_nat n /\
    length ls = (4 + n)%nat.
Proof.
  intros rows n Hdb Hcm Hsel Hfrom Htab Hind Hsch Hcols Hne Hch Hwt Hrows Hp.
  pose proof (select_columns_ok _ _ Hcols) as Hidx.
  destruct (column_names_ok idx Hidx) as (columns & Hcn & Hlc).
  destruct (index_path_table (next_ from_node) idx ti pindex keyRow (set_err (set_err ctx DB_SUCCESS) DB_SUCCESS) columns)
    as (ctx' & ls & Hs & Hrest); try done.
  exists ctx', ls. split; [|exact Hrest].
  unfold ExecuteSelect. rewrite (proj2 (String.eqb_neq _ _) Hdb). unfold dbs_at. rewrite Hcm.
  rewrite Hsel. cbn [mbind option_bind]. rewrite Hfrom. cbn [mbind option_bind]. cbv zeta.
  rewrite Htab. cbn [mbind option_bind]. rewrite decide_False by (intros Hc; by apply Hc).
  rewrite Hind. cbn [mbind option_bind]. rewrite decide_False by (intros Hc; by apply Hc).
  rewrite Hsch, Hcols. cbn [err_ set_err]. rewrite Hch. cbn [mbind option_bind].
  rewrite decide_False by (intros Hc; by apply Hc). rewrite Hcn. cbn [mbind option_bind]. by rewrite Hs.
Qed.

End ScanProofs.

(** ** Witnesses *)

Section Witnesses.

(** Rows [(1, 5), (1, 6), (2, 7)] of [t(a int, b int)]. *)
Definition wrows : list (Row sfield) :=
  [mkRow (mkRowId 1 0) [SInt 1; SInt 5]; mkRow (mkRowId 1 1) [SInt 1; SInt 6]; mkRow (mkRowId 1 2) [SInt 2; SInt 7]].

(** The key of a row in an index. *)
Definition key_of (ii : IndexInfo) (r : Row sfield) : option (list sfield) :=
  mapM (fun i => fields_ r !! Z.to_nat i) (key_map_ (index_meta_ ii)).

(** The heap holds [wrows]; [ScanKey] returns the rows whose key is the
    one looked up. *)
#[local] Instance wstorage : TableStorage sfield := {|
  table_rows _ := wrows;
  GetTuple _ rid := List.find (fun r => (page_id (rid_ r) =? page_id rid) && (slot_num (rid_ r) =? slot_num rid)) wrows;
  ScanKey ii key := rid_ <$> List.filter (fun r => bool_decide (key_of ii r = Some key)) wrows
|}.

Definition windex_a : IndexInfo := mkIndexInfo (mkIndexMetadata 0 [105] 0 [0]) wtable.

(** The catalog of database "db": table [t] with the given indexes. *)
Definition wcatalog (iis : list IndexInfo) : CatalogManager :=
  mkCatalogManager (mkCatalogMeta [] []) 1 (Z.of_nat (length iis)) {[ [116] := 0 ]} {[ 0 := wtable ]}
    (if decide (iis = []) then ∅ else {[ [116] := list_to_map (zip (map (fun k => [105 + Z.of_nat k]) (seq 0 (length iis))) (map Z.of_nat (seq 0 (length iis)))) ]})
    (list_to_map (zip (map Z.of_nat (seq 0 (length iis))) iis)).

Definition wengine (iis : list IndexInfo) : ExecuteEngine := mkExecuteEngine {[ "db"%string := Some (wcatalog iis) ]} "db".

Definition wctx : ExecuteContext := mkExecuteContext false true 0 0 [] [] DB_SUCCESS false [].

(** [select * from t where <cond>]. *)
Definition wwhere (cond : SyntaxNode) : option SyntaxNode := Some (mkSyntaxNode kNodeConditions "" (Some cond) None).
Definition wfrom (cond : SyntaxNode) : SyntaxNode := mkSyntaxNode kNodeIdentifier "t" None (wwhere cond).
Definition wall (cond : SyntaxNode) : SyntaxNode := mkSyntaxNode kNodeAllColumns "" None (Some (wfrom cond)).
Definition wselect (cond : SyntaxNode) : SyntaxNode := mkSyntaxNode kNodeSelect "" (Some (wall cond)) None.

Definition wa1 : SyntaxNode := wcmp "=" "a" "1" None.

Lemma ExecuteSelect_scan_witness :
  exists ctx' ls, ExecuteSelect (wengine []) (wselect wa1) wctx = Some (wengine [], ctx', DB_SUCCESS) /\
    out_ ctx' = out_ wctx ++ lines_of ls /\
    numSelectedRows ctx' = numSelectedRows wctx + Z.of_nat (length (List.filter (accepts wschema (wwhere wa1)) wrows)) /\
    length ls = (4 + length (List.filter (accepts wschema (wwhere wa1)) wrows))%nat /\
    exists W, Forall (fun l => length l = W) ls.
Proof.
  refine (ExecuteSelect_scan wschema (wengine []) (wselect wa1) wctx (wcatalog []) (wall wa1) (wfrom wa1) wtable [] [0; 1]
            _ _ _ _ _ _ _ _ _ _ _ _ _);
    [discriminate | reflexivity | reflexivity | reflexivity | reflexivity | reflexivity | reflexivity
    | reflexivity | discriminate | reflexivity | vm_compute; reflexivity | repeat constructor | reflexivity].
Defined.

(** With an index on [a], [select * from t where a = 1] takes the index
    path: the clause accepts two rows of [t], the index returns both,
    and the select counts one ("1 rows in total" where the scan path
    says 2). *)
Lemma ExecuteSelect_index_prints_last_row_witness :
  length (List.filter (accepts wschema (wwhere wa1)) wrows) = 2%nat /\
  exists ctx' ls, ExecuteSelect (wengine [windex_a]) (wselect wa1) wctx = Some (wengine [windex_a], ctx', DB_SUCCESS) /\
    out_ ctx' = out_ wctx ++ lines_of ls /\
    numSelectedRows ctx' = numSelectedRows wctx +
      Z.of_nat (if existsb (accepts wschema (wwhere wa1)) (rows_of wtable (ScanKey windex_a [SInt 1])) then 1%nat else 0%nat) /\
    length ls = (4 + if existsb (accepts wschema (wwhere wa1)) (rows_of wtable (ScanKey windex_a [SInt 1])) then 1%nat else 0%nat)%nat.
Proof.
  split; [vm_compute; reflexivity|].
  refine (ExecuteSelect_index_prints_last_row wschema (wengine [windex_a]) (wselect wa1) wctx (wcatalog [windex_a])
            (wall wa1) (wfrom wa1) wtable [windex_a] [0; 1] windex_a [SInt 1]
            _ _ _ _ _ _ _ _ _ _ _ _ _);
    [discriminate | reflexivity | reflexivity | reflexivity | reflexivity | reflexivity | reflexivity
    | reflexivity | discriminate | vm_compute; reflexivity | vm_compute; reflexivity
    | vm_compute; repeat constructor | reflexivity].
Defined.

(** With an index on [(a, b)], [select * from t where b = 6] takes
    the index path with the key [(null, 6)], which no row has: the
    select succeeds and selects nothing, though the row [(1, 6)]
    satisfies the clause. *)
Example ExecuteSelect_partial_key_misses_rows :
  length (List.filter (accepts wschema (wwhere wb6)) wrows) = 1%nat /\
  match ExecuteSelect (wengine [windex_ab]) (wselect wb6) wctx with
  | Some (_, ctx', e) => e = DB_SUCCESS /\ numSelectedRows ctx' = 0
  | None => False
  end.
Proof. vm_compute. auto. Qed.


(** [select * from t where c = 1 or a = 1], [c] not a column of [t]:
    [EvaluateIndex] does not look inside "or", so [ChooseIndex] reports
    no error; the first scan loop ignores the error [EvaluateWhere]
    sets; the second prints the header and then returns
    [DB_COLUMN_NAME_NOT_EXIST] at the first row. *)
Example ExecuteSelect_or_error_after_header :
  match ExecuteSelect (wengine []) (wselect (mkSyntaxNode kNodeConnector "or" (Some (wcmp "=" "c" "1" (Some wa1))) None)) wctx with
  | Some (_, ctx', e) => e = DB_COLUMN_NAME_NOT_EXIST /\ numSelectedRows ctx' = 0 /\ (length (out_ ctx') > 0)%nat
  | None => False
  end.
Proof. vm_compute. repeat split; lia. Qed.

End Witnesses.

End ExecuteSelect.
