(* ===== verification/ExecuteDML.v ===== *)
(** * INSERT, DELETE and UPDATE (executor/execute_engine.cpp)

    [ExecuteInsert] parses the values against the table's schema,
    inserts the row into the table heap, then inserts its key into each
    index of the table, undoing the heap insertion when an index rejects
    the key.  [ExecuteDelete] and [ExecuteUpdate] find the rows (scan or
    index path, as SELECT does), and remove, or replace, each row and
    its index entries.

    The heaps and the indexes are used through the class [Storage]: a
    state [S] with the table heap operations ([InsertTuple],
    [MarkDelete], [ApplyDelete], [UpdateTuple], [GetTuple], the rows an
    iteration visits), keyed by the heap's first page, and the index
    operations ([InsertEntry], [RemoveEntry], [ScanKey], [Destroy]) with
    the entries an index holds, keyed by the index id.  [StorageLaws]
    states what the executor relies on: the heap adds and removes rows,
    a unique index adds an entry or rejects it and changes nothing; the
    rows an iteration visits ([st_rows]) are the live tuples
    ([st_tuples]) or none.  The theorems are proved against the laws;
    [RefStore] at the end is an instance of them on lists, and
    [HeapStorage.TStore] one on the table heap model. *)

From Stdlib Require Import ZArith Lia List String Ascii.
From stdpp Require Import base list gmap strings.
From S2P Require Import Spec2Rocq Records RowFormat Catalog TablePage CatalogManager ExecuteContext Executor ExecuteSelect.
Import ListNotations.
Open Scope Z_scope.

Module ExecuteDML.
Import Records RowFormat Catalog CatalogManager ExecuteContext Executor ExecuteSelect.

#[export] Instance RowId_eq_dec : EqDecision RowId.
Proof. solve_decision. Defined.

Class Storage (Field S : Type) := {
  st_rows : S -> Z -> list (Row Field);
  st_tuples : S -> Z -> list (Row Field);
  st_ok : S -> Z -> Prop;
  st_InsertTuple : S -> Z -> list Field -> S * option RowId;
  st_MarkDelete : S -> Z -> RowId -> S * bool;
  st_ApplyDelete : S -> Z -> RowId -> S;
  st_UpdateTuple : S -> Z -> list Field -> RowId -> S * bool;
  st_GetTuple : S -> Z -> RowId -> option (Row Field);
  st_entries : S -> Z -> list (list Field * RowId);
  st_InsertEntry : S -> Z -> list Field -> RowId -> S * dberr_t;
  st_RemoveEntry : S -> Z -> list Field -> RowId -> S * dberr_t;
  st_ScanKey : S -> Z -> list Field -> list RowId;
  st_Destroy : S -> Z -> S * dberr_t
}.

(** An index operation leaves every heap as it was: what an iteration
    visits, the live tuples and the heap's well-formedness. *)
Definition heaps_same {Field S} `{Storage Field S} (s s' : S) : Prop :=
  forall h, st_rows s' h = st_rows s h /\ st_tuples s' h = st_tuples s h /\ (st_ok s h -> st_ok s' h).

(** A row whose tuple fits an empty table page with its slot. *)
Definition tuple_fits {Field} `{FieldCodec Field} (fs : list Field) : Prop :=
  Row_GetSerializedSize (mkRow (mkRowId INVALID_PAGE_ID 0) fs) + TablePage.SIZE_SLOT
    <= PAGE_SIZE - TablePage.SIZE_TABLE_PAGE_HEADER.

(** What the heap and a unique index promise the executor.  [st_rows] is
    what an iteration from [Begin()] visits, [st_tuples] the live
    tuples the heap holds: they agree, or the iteration visits nothing
    (the first page has no live tuple, see [Begin_misses_later_pages]).
    The heap laws hold of a well-formed heap ([st_ok]) and keep it so. *)
Class StorageLaws (Field S : Type) `{EqDecision Field} `{FieldCodec Field} `{Storage Field S} := {
  rows_view s h : st_ok s h -> st_rows s h = st_tuples s h \/ st_rows s h = [];
  tuples_NoDup s h : st_ok s h -> NoDup (rid_ <$> st_tuples s h);
  InsertTuple_tuples s h fs s' rid :
    st_ok s h -> tuple_fits fs -> st_InsertTuple s h fs = (s', Some rid) ->
    st_tuples s' h ≡ₚ mkRow rid fs :: st_tuples s h /\ st_ok s' h /\ (forall i, st_entries s' i = st_entries s i);
  InsertTuple_fail s h fs s' :
    st_ok s h -> st_InsertTuple s h fs = (s', None) -> st_tuples s' h = st_tuples s h /\ st_ok s' h;
  InsertEntry_ok s i k rid s' :
    st_InsertEntry s i k rid = (s', DB_SUCCESS) ->
    st_entries s' i = (k, rid) :: st_entries s i /\ (forall j, j <> i -> st_entries s' j = st_entries s j) /\
    heaps_same s s';
  InsertEntry_fresh s i k rid :
    k ∉ (st_entries s i).*1 -> (st_InsertEntry s i k rid).2 = DB_SUCCESS;
  InsertEntry_dup s i k rid :
    k ∈ (st_entries s i).*1 -> (st_InsertEntry s i k rid).2 <> DB_SUCCESS;
  InsertEntry_fail s i k rid s' e :
    st_InsertEntry s i k rid = (s', e) -> e <> DB_SUCCESS -> s' = s;
  MarkDelete_tuples s h rid s' b :
    st_ok s h -> st_MarkDelete s h rid = (s', b) ->
    st_tuples s' h = filter (fun r => rid_ r <> rid) (st_tuples s h) /\ st_ok s' h /\
    (forall i, st_entries s' i = st_entries s i);
  ApplyDelete_tuples s h rid :
    st_ok s h ->
    st_tuples (st_ApplyDelete s h rid) h = filter (fun r => rid_ r <> rid) (st_tuples s h) /\
    st_ok (st_ApplyDelete s h rid) h /\ (forall i, st_entries (st_ApplyDelete s h rid) i = st_entries s i);
  RemoveEntry_entries s i k rid s' e :
    st_RemoveEntry s i k rid = (s', e) ->
    st_entries s' i = filter (fun en => en.1 <> k) (st_entries s i) /\
    (forall j, j <> i -> st_entries s' j = st_entries s j) /\ heaps_same s s';
  UpdateTuple_rows s h fs rid s' b :
    st_UpdateTuple s h fs rid = (s', b) ->
    st_rows s' h = (if b then (fun r => if decide (rid_ r = rid) then mkRow rid fs else r) <$> st_rows s h
                    else st_rows s h) /\
    (forall h', h' <> h -> st_rows s' h' = st_rows s h') /\ (forall i, st_entries s' i = st_entries s i);
  UpdateTuple_fits s h fs r :
    NoDup (rid_ <$> st_rows s h) -> r ∈ st_rows s h -> Row_GetSerializedSize (mkRow (rid_ r) fs) <= Row_GetSerializedSize r ->
    (st_UpdateTuple s h fs (rid_ r)).2 = true;
  UpdateTuple_grows s h fs r :
    NoDup (rid_ <$> st_rows s h) -> r ∈ st_rows s h -> Row_GetSerializedSize r < Row_GetSerializedSize (mkRow (rid_ r) fs) ->
    (st_UpdateTuple s h fs (rid_ r)).2 = false;
  Destroy_entries s i s' e :
    st_Destroy s i = (s', e) ->
    st_entries s' i = [] /\ (forall j, j <> i -> st_entries s' j = st_entries s j) /\ heaps_same s s'
}.

Section Insert.
Context {Field S : Type} `{FieldCodec Field} `{FieldOps Field} `{Storage Field S}.

(** The heap and the index id of the catalog's objects. *)
Definition heap_of (ti : TableInfo) : Z := table_heap_ ti.
Definition index_of (ii : IndexInfo) : Z := index_id_ (index_meta_ ii).

(** One value of [ExecuteInsert]'s loop (lines 641-672): [null] for a
    nullable column, a literal of the column's type, a CHAR literal of
    exactly the column's length. *)
Definition value_field (c : Column) (vn : SyntaxNode) : option (dberr_t + Field) :=
  let type := Records.type_ c in
  if decide (type_ vn = kNodeNull) then Some (if nullable_ c then inr (Field_null type) else inl DB_FAILED)
  else match type with
  | kTypeInt => if decide (type_ vn = kNodeNumber) then inr <$> (Field_int <$> stoi (val_ vn)) else Some (inl DB_FAILED)
  | kTypeFloat => if decide (type_ vn = kNodeNumber) then inr <$> Field_float (val_ vn) else Some (inl DB_FAILED)
  | kTypeChar =>
      if decide (type_ vn = kNodeString) then
        if decide (Z.of_nat (String.length (val_ vn)) = len_ c) then Some (inr (Field_char (bytes_of_string (val_ vn))))
        else Some (inl DB_FAILED)
      else Some (inl DB_FAILED)
  | kTypeInvalid => Some (inl DB_FAILED)
  end.

(** The loop over the columns and the value nodes, and the check that no
    value is left over. *)
Fixpoint insert_values (cols : list Column) (vn : option SyntaxNode) : option (dberr_t + list Field) :=
  match cols with
  | [] => Some (match vn with None => inr [] | Some _ => inl DB_FAILED end)
  | c :: cs =>
      match vn with
      | None => Some (inl DB_FAILED)
      | Some n =>
          r ← value_field c n;
          match r with
          | inl e => Some (inl e)
          | inr f => rest ← insert_values cs (next_ n);
                     Some (match rest with inl e => inl e | inr fs => inr (f :: fs) end)
          end
      end
  end.

(** [indexColumns]: the table columns of the index's key schema, by name. *)
Definition index_columns (schema : Schema) (ii : IndexInfo) : option (dberr_t + list Z) :=
  cols ← key_schema (schema_ (table_meta_ (index_table_ ii))) (key_map_ (index_meta_ ii));
  Some (match mapM (fun c : Column => GetColumnIndex schema (name_ c)) cols with
        | Some cols_ix => inr cols_ix
        | None => inl DB_COLUMN_NAME_NOT_EXIST
        end).

(** [key.push_back(columns[indexColumns[i]])]. *)
Definition key_fields (fs : list Field) (ix : list Z) : option (list Field) := mapM (fun i => fs !! Z.to_nat i) ix.

(** The loop inserting the key into each index; on a rejected key the
    row is deleted from the heap and the status returned. *)
Fixpoint insert_entries (s : S) (h : Z) (schema : Schema) (fs : list Field) (rid : RowId) (iis : list IndexInfo)
  : option (S * dberr_t) :=
  match iis with
  | [] => Some (s, DB_SUCCESS)
  | ii :: rest =>
      r ← index_columns schema ii;
      match r with
      | inl e => Some (s, e)
      | inr ix =>
          key ← key_fields fs ix;
          let '(s1, status) := st_InsertEntry s (index_of ii) key rid in
          if decide (status = DB_SUCCESS) then insert_entries s1 h schema fs rid rest
          else let '(s2, _) := st_MarkDelete s1 h rid in Some (st_ApplyDelete s2 h rid, status)
      end
  end.

Definition ExecuteInsert (eng : ExecuteEngine) (s : S) (ast : SyntaxNode) (ctx : ExecuteContext)
  : option (ExecuteEngine * S * ExecuteContext * dberr_t) :=
  if String.eqb (current_db_ eng) "" then Some (eng, s, ctx, DB_FAILED) else
  let '(eng, db) := dbs_at eng (current_db_ eng) in
  match db with
  | None => Some (eng, s, ctx, DB_FAILED)
  | Some cm =>
      insert_node ← child_ ast;
      values_node ← next_ insert_node;
      let table_name := bytes_of_string (val_ insert_node) in
      '(status, oti) ← GetTable cm table_name;
      if decide (status <> DB_SUCCESS) then Some (eng, s, ctx, status) else
      ti ← oti;
      let schema := schema_ (table_meta_ ti) in
      vals ← insert_values (columns_ schema) (child_ values_node);
      match vals with
      | inl e => Some (eng, s, ctx, e)
      | inr fs =>
          '(_, indexes) ← GetTableIndexes cm table_name;
          match st_InsertTuple s (heap_of ti) fs with
          | (s1, None) => Some (eng, s1, ctx, DB_FAILED)
          | (s1, Some rid) =>
              '(s2, e) ← insert_entries s1 (heap_of ti) schema fs rid indexes;
              if decide (e = DB_SUCCESS) then Some (eng, s2, AddAffectedRows ctx 1, DB_SUCCESS)
              else Some (eng, s2, ctx, e)
          end
      end
  end.

End Insert.

Section Delete.
Context {Field S : Type} `{FieldCodec Field} `{FieldOps Field} `{Storage Field S}.

(** The loop removing a deleted row's key from each index; the status of
    [RemoveEntry] is only logged, a key column not found returns. *)
Fixpoint remove_entries (s : S) (schema : Schema) (fs : list Field) (rid : RowId) (iis : list IndexInfo)
  : option (S * dberr_t) :=
  match iis with
  | [] => Some (s, DB_SUCCESS)
  | ii :: rest =>
      r ← index_columns schema ii;
      match r with
      | inl e => Some (s, e)
      | inr ix =>
          key ← key_fields fs ix;
          let '(s1, _) := st_RemoveEntry s (index_of ii) key rid in
          remove_entries s1 schema fs rid rest
      end
  end.

(** One deleted row: [MarkDelete], the index entries, [ApplyDelete]. *)
Definition delete_row (s : S) (h : Z) (schema : Schema) (r : Row Field) (iis : list IndexInfo) (with_entries : bool)
  : option (S * dberr_t) :=
  let '(s1, _) := st_MarkDelete s h (rid_ r) in
  '(s2, e) ← (if with_entries then remove_entries s1 schema (fields_ r) (rid_ r) iis else Some (s1, DB_SUCCESS));
  if decide (e <> DB_SUCCESS) then Some (s2, e) else Some (st_ApplyDelete s2 h (rid_ r), DB_SUCCESS).

(** The scan path's loop over the rows of the heap (the iteration's
    rows, read when it starts), deleting those the clause accepts; the
    index entries are removed only when there is a WHERE clause. *)
Fixpoint delete_scan (s : S) (h : Z) (schema : Schema) (w : option SyntaxNode) (iis : list IndexInfo)
  (rows : list (Row Field)) (ctx : ExecuteContext) : option (S * ExecuteContext * dberr_t) :=
  match rows with
  | [] => Some (s, ctx, DB_SUCCESS)
  | r :: rs =>
      '(b, ctx1) ← where_step schema w r ctx;
      if (b : bool) then
        '(s1, e) ← delete_row s h schema r iis (bool_decide (w <> None));
        if decide (e <> DB_SUCCESS) then Some (s1, ctx1, e)
        else delete_scan s1 h schema w iis rs (AddAffectedRows ctx1 1)
      else delete_scan s h schema w iis rs ctx1
  end.

(** Without a WHERE clause every index is destroyed after the loop. *)
Fixpoint destroy_indexes (s : S) (iis : list IndexInfo) : S * dberr_t :=
  match iis with
  | [] => (s, DB_SUCCESS)
  | ii :: rest => let '(s1, e) := st_Destroy s (index_of ii) in
                  if decide (e <> DB_SUCCESS) then (s1, e) else destroy_indexes s1 rest
  end.

(** The index path's loop over [ScanKey]'s row ids. *)
Fixpoint delete_index_loop (s : S) (h : Z) (schema : Schema) (w : option SyntaxNode) (iis : list IndexInfo)
  (rids : list RowId) (ctx : ExecuteContext) : option (S * ExecuteContext * dberr_t) :=
  match rids with
  | [] => Some (s, ctx, DB_SUCCESS)
  | rid :: rs =>
      let row := default (mkRow rid []) (st_GetTuple s h rid) in
      '(b, ctx1) ← where_step schema w row ctx;
      if (b : bool) then
        '(s1, e) ← delete_row s h schema (mkRow rid (fields_ row)) iis true;
        if decide (e <> DB_SUCCESS) then Some (s1, ctx1, e)
        else delete_index_loop s1 h schema w iis rs (AddAffectedRows ctx1 1)
      else delete_index_loop s h schema w iis rs ctx1
  end.

Definition ExecuteDelete (eng : ExecuteEngine) (s : S) (ast : SyntaxNode) (ctx : ExecuteContext)
  : option (ExecuteEngine * S * ExecuteContext * dberr_t) :=
  if String.eqb (current_db_ eng) "" then Some (eng, s, ctx, DB_FAILED) else
  let '(eng, db) := dbs_at eng (current_db_ eng) in
  match db with
  | None => Some (eng, s, ctx, DB_FAILED)
  | Some cm =>
      delete_node ← child_ ast;
      let where_node := next_ delete_node in
      let table_name := bytes_of_string (val_ delete_node) in
      '(status, oti) ← GetTable cm table_name;
      if decide (status <> DB_SUCCESS) then Some (eng, s, ctx, status) else
      ti ← oti;
      '(status, indexes) ← GetTableIndexes cm table_name;
      if decide (status <> DB_SUCCESS) then Some (eng, s, ctx, status) else
      let schema := schema_ (table_meta_ ti) in
      let ctx := set_err ctx DB_SUCCESS in
      '(choice, err) ← ChooseIndex schema indexes where_node (err_ ctx);
      let ctx := set_err ctx err in
      if decide (err <> DB_SUCCESS) then Some (eng, s, ctx, err) else
      match choice with
      | None =>
          '(s1, ctx1, e) ← delete_scan s (heap_of ti) schema where_node indexes (st_rows s (heap_of ti)) ctx;
          if decide (e <> DB_SUCCESS) then Some (eng, s1, ctx1, e) else
          match where_node with
          | None => let '(s2, e2) := destroy_indexes s1 indexes in Some (eng, s2, ctx1, e2)
          | Some _ => Some (eng, s1, ctx1, DB_SUCCESS)
          end
      | Some (pindex, keyRow) =>
          '(s1, ctx1, e) ← delete_index_loop s (heap_of ti) schema where_node indexes
                             (st_ScanKey s (index_of pindex) keyRow) ctx;
          Some (eng, s1, ctx1, e)
      end
  end.

End Delete.

Section InsertProofs.
Context {Field S : Type} `{FieldOps Field} `{StorageLaws Field S}.

(** The entry a row has in an index with key columns [ix]. *)
Definition entry_of (ix : list Z) (r : Row Field) : option (list Field * RowId) :=
  k ← key_fields (fields_ r) ix; Some (k, rid_ r).

(** An index agrees with a list of rows: its entries are, up to order,
    the key and row id of each row. *)
Definition index_agrees (s : S) (ti : TableInfo) (ii : IndexInfo) (rows : list (Row Field)) : Prop :=
  exists ix, index_columns (schema_ (table_meta_ ti)) ii = Some (inr ix) /\
    st_entries s (index_of ii) ≡ₚ omap (entry_of ix) rows.

(** The index agrees with the rows an iteration of the heap visits. *)
Definition index_ok (s : S) (ti : TableInfo) (ii : IndexInfo) : Prop :=
  index_agrees s ti ii (st_rows s (heap_of ti)).

(** The index agrees with the live tuples of the heap. *)
Definition heap_index_ok (s : S) (ti : TableInfo) (ii : IndexInfo) : Prop :=
  index_agrees s ti ii (st_tuples s (heap_of ti)).

Lemma heaps_same_refl s : heaps_same s s.
Proof. intros h. auto. Qed.

Lemma heaps_same_trans s1 s2 s3 : heaps_same s1 s2 -> heaps_same s2 s3 -> heaps_same s1 s3.
Proof. intros A B h. destruct (A h) as (A1 & A2 & A3), (B h) as (B1 & B2 & B3). rewrite B1, B2. auto. Qed.

Lemma index_columns_inl schema ii e : index_columns schema ii = Some (inl e) -> e = DB_COLUMN_NAME_NOT_EXIST.
Proof.
  unfold index_columns. destruct (key_schema _ _); cbn; [|discriminate].
  destruct (mapM _ _); congruence.
Qed.

Lemma value_field_inl c vn e : value_field c vn = Some (inl e) -> e = DB_FAILED.
Proof.
  unfold value_field. case_decide; [destruct (nullable_ c); congruence|].
  destruct (Records.type_ c); repeat case_decide; try congruence;
    try (destruct (stoi _)); try (destruct (Field_float _)); cbn; congruence.
Qed.

Lemma insert_values_inl cols vn e : insert_values cols vn = Some (inl e) -> e = DB_FAILED.
Proof.
  revert vn. induction cols as [|c cs IH]; intros [n|]; cbn [insert_values]; try congruence.
  destruct (value_field c n) as [[e'|f]|] eqn:Ev; cbn [mbind option_bind]; [|..|discriminate].
  - intros [= <-]. by apply (value_field_inl c n).
  - destruct (insert_values cs (next_ n)) as [[e'|fs]|] eqn:Er; cbn; [|congruence|discriminate].
    intros [= <-]. by apply (IH (next_ n)).
Qed.

(** The index loop of [ExecuteInsert], when it succeeds, adds the row's
    key to each index and changes nothing else. *)
Lemma insert_entries_ok s h schema fs rid iis s' :
  NoDup (index_of <$> iis) -> insert_entries s h schema fs rid iis = Some (s', DB_SUCCESS) ->
  heaps_same s s' /\
  (forall ii, ii ∈ iis -> exists ix k, index_columns schema ii = Some (inr ix) /\ key_fields fs ix = Some k /\
                          st_entries s' (index_of ii) = (k, rid) :: st_entries s (index_of ii)) /\
  (forall j, j ∉ index_of <$> iis -> st_entries s' j = st_entries s j).
Proof.
  revert s. induction iis as [|ii rest IH]; intros s Hnd Hins.
  - injection Hins as <-. split; [apply heaps_same_refl|]. split; [intros ii Hii; inversion Hii | done].
  - cbn [fmap list_fmap] in Hnd. apply NoDup_cons in Hnd as [Hnin Hnd]. cbn [insert_entries] in Hins.
    peel_as Hins r E1. destruct r as [e|ix].
    { injection Hins as _ He. apply index_columns_inl in E1. congruence. }
    peel_as Hins k E2. destruct (st_InsertEntry s (index_of ii) k rid) as [s1 st] eqn:E3.
    case_decide as Hst; [subst st|].
    2: { destruct (st_MarkDelete s1 h rid). injection Hins as _ ->. done. }
    destruct (InsertEntry_ok _ _ _ _ _ E3) as (Hi & Hj & Hr).
    destruct (IH s1 Hnd Hins) as (Rr & Ri & Rj). split; [|split].
    + exact (heaps_same_trans _ _ _ Hr Rr).
    + intros ii' [->|Hin]%elem_of_cons.
      * exists ix, k. split; [done|]. split; [done|]. by rewrite Rj, Hi.
      * destruct (Ri ii' Hin) as (ix' & k' & A & B & C). exists ix', k'. split; [done|]. split; [done|].
        rewrite C, Hj; [done|]. intros Heq. apply Hnin. rewrite <- Heq. by apply list_elem_of_fmap_2.
    + intros j Hj'. rewrite Rj by (intros Hc; apply Hj'; cbn [fmap list_fmap]; apply elem_of_cons; by right).
      apply Hj. intros ->. apply Hj'. cbn [fmap list_fmap]. apply elem_of_cons. by left.
Qed.

(** The rollback of a rejected key: [MarkDelete] and [ApplyDelete] take
    the row out of the live tuples and leave the indexes alone. *)
Lemma rollback_tuples s h rid s1 b :
  st_ok s h -> st_MarkDelete s h rid = (s1, b) ->
  st_tuples (st_ApplyDelete s1 h rid) h = filter (fun r => rid_ r <> rid) (st_tuples s h) /\
  st_ok (st_ApplyDelete s1 h rid) h /\ (forall i, st_entries (st_ApplyDelete s1 h rid) i = st_entries s i).
Proof.
  intros Hok Hm. destruct (MarkDelete_tuples _ _ _ _ _ Hok Hm) as (M1 & M2 & M3).
  destruct (ApplyDelete_tuples s1 h rid M2) as (A1 & A2 & A3).
  rewrite A1, M1, list_filter_filter_l by tauto. split; [done|split; [exact A2|intros i; by rewrite A3, M3]].
Qed.

(** The index loop, when an index rejects the key: the row is taken out
    of the heap again and the status is not [DB_SUCCESS]. *)
Lemma insert_entries_fails s h schema fs rid iis s' e :
  st_ok s h -> Forall (fun ii => exists ix, index_columns schema ii = Some (inr ix)) iis ->
  insert_entries s h schema fs rid iis = Some (s', e) -> e <> DB_SUCCESS ->
  st_tuples s' h = filter (fun r => rid_ r <> rid) (st_tuples s h) /\ st_ok s' h.
Proof.
  revert s. induction iis as [|ii rest IH]; intros s Hok Hcols Hins He; cbn [insert_entries] in Hins.
  { injection Hins as _ <-. congruence. }
  apply Forall_cons in Hcols as [(ix & Hix) Hcols]. rewrite Hix in Hins. cbn [mbind option_bind] in Hins.
  peel_as Hins k E2. destruct (st_InsertEntry s (index_of ii) k rid) as [s1 st] eqn:E3. case_decide as Hst.
  - subst st. destruct (InsertEntry_ok _ _ _ _ _ E3) as (_ & _ & Hr). destruct (Hr h) as (_ & T1 & O1).
    rewrite <- T1. exact (IH s1 (O1 Hok) Hcols Hins He).
  - rewrite (InsertEntry_fail _ _ _ _ _ _ E3 Hst) in *. destruct (st_MarkDelete s h rid) as [s2 b] eqn:Em.
    injection Hins as <- _. destruct (rollback_tuples s h rid s2 b Hok Em) as (R1 & R2 & _). auto.
Qed.

(** The index loop reaches a rejecting index when one of the table's
    indexes already holds the row's key. *)
Lemma insert_entries_reject s h schema fs rid iis ii ix k :
  NoDup (index_of <$> iis) -> ii ∈ iis ->
  Forall (fun ij => exists ix, index_columns schema ij = Some (inr ix) /\ is_Some (key_fields fs ix)) iis ->
  index_columns schema ii = Some (inr ix) -> key_fields fs ix = Some k -> k ∈ (st_entries s (index_of ii)).*1 ->
  exists s' e, insert_entries s h schema fs rid iis = Some (s', e) /\ e <> DB_SUCCESS.
Proof.
  revert s. induction iis as [|ij rest IH]; intros s Hnd Hii Hcols Hix Hk Hin; [inversion Hii|].
  cbn [fmap list_fmap] in Hnd. apply NoDup_cons in Hnd as [Hnin Hnd].
  apply Forall_cons in Hcols as [(ixj & Hixj & [kj Hkj]) Hcols]. cbn [insert_entries]. rewrite Hixj.
  cbn [mbind option_bind]. rewrite Hkj. cbn [mbind option_bind]. destruct (st_InsertEntry s (index_of ij) kj rid) as [s1 st] eqn:E3. case_decide as Hst.
  - subst st. apply elem_of_cons in Hii as [->|Hii].
    + pose proof (InsertEntry_dup s (index_of ij) kj rid) as Hd. rewrite E3 in Hd. cbn in Hd.
      rewrite Hix in Hixj. injection Hixj as <-. rewrite Hk in Hkj. injection Hkj as <-. tauto.
    + destruct (InsertEntry_ok _ _ _ _ _ E3) as (_ & Hj & _). apply (IH s1 Hnd Hii Hcols Hix Hk).
      rewrite Hj; [exact Hin|]. intros Heq. apply Hnin. rewrite <- Heq. by apply list_elem_of_fmap_2.
  - destruct (st_MarkDelete s1 h rid). eauto.
Qed.

(** C30: [ExecuteInsert] keeps every index of the table in agreement with
    the heap.  On a well-formed heap, for a row whose tuple fits a
    page, a successful INSERT adds exactly the row of the parsed values
    to the heap's live tuples, keeps the heap well formed, keeps each
    index that agreed with the live tuples in agreement with them, and
    counts one affected row. *)
Theorem ExecuteInsert_indexes_ok eng s ast ctx cm insert_node values_node ti indexes eng' s' ctx' :
  dbs_ eng !! current_db_ eng = Some (Some cm) ->
  child_ ast = Some insert_node -> next_ insert_node = Some values_node ->
  GetTable cm (bytes_of_string (val_ insert_node)) = Some (DB_SUCCESS, Some ti) ->
  GetTableIndexes cm (bytes_of_string (val_ insert_node)) = Some (DB_SUCCESS, indexes) ->
  st_ok s (heap_of ti) ->
  (forall fs, insert_values (columns_ (schema_ (table_meta_ ti))) (child_ values_node) = Some (inr fs) -> tuple_fits fs) ->
  NoDup (index_of <$> indexes) -> Forall (heap_index_ok s ti) indexes ->
  ExecuteInsert eng s ast ctx = Some (eng', s', ctx', DB_SUCCESS) ->
  (exists rid fs, insert_values (columns_ (schema_ (table_meta_ ti))) (child_ values_node) = Some (inr fs) /\
     st_tuples s' (heap_of ti) ≡ₚ mkRow rid fs :: st_tuples s (heap_of ti)) /\
  st_ok s' (heap_of ti) /\ Forall (heap_index_ok s' ti) indexes /\ numAffectedRows ctx' = numAffectedRows ctx + 1.
Proof.
  intros Hcm Hin Hval Htab Hind Hst Hfit Hnd Hok Hrun. unfold ExecuteInsert in Hrun.
  destruct (String.eqb _ _); [congruence|]. unfold dbs_at in Hrun. rewrite Hcm in Hrun.
  rewrite Hin in Hrun. cbn [mbind option_bind] in Hrun. rewrite Hval in Hrun. cbn [mbind option_bind] in Hrun.
  cbv zeta in Hrun. rewrite Htab in Hrun.
  cbn [mbind option_bind] in Hrun. rewrite decide_False in Hrun by (intros Hc; by apply Hc).
  cbn [mbind option_bind] in Hrun.
  destruct (insert_values _ _) as [[e|fs]|] eqn:Ev; cbn [mbind option_bind] in Hrun; [|  |discriminate].
  { apply insert_values_inl in Ev. congruence. }
  rewrite Hind in Hrun. cbn [mbind option_bind] in Hrun.
  destruct (st_InsertTuple s (heap_of ti) fs) as [s1 [rid|]] eqn:Et; [|congruence].
  peel_as Hrun r E. destruct r as [s2 e]. case_decide as He; [|congruence]. subst e.
  injection Hrun as <- <- <-.
  destruct (InsertTuple_tuples _ _ _ _ _ Hst (Hfit fs eq_refl) Et) as (Hrows & Hst1 & Hent).
  destruct (insert_entries_ok _ _ _ _ _ _ _ Hnd E) as (Rr & Ri & _). destruct (Rr (heap_of ti)) as (_ & R2 & R3).
  split; [exists rid, fs; split; [done | by rewrite R2]|]. split; [exact (R3 Hst1)|]. split; [|cbn; lia].
  apply Forall_forall. intros ii Hii. rewrite Forall_forall in Hok. destruct (Hok ii Hii) as (ix & Hix & Hperm).
  destruct (Ri ii Hii) as (ix' & k & Hix' & Hk & Hent'). rewrite Hix in Hix'. injection Hix' as <-.
  exists ix. split; [done|]. rewrite Hent', Hent, R2, Hrows, Hperm. cbn. unfold entry_of at 2. cbn. by rewrite Hk.
Qed.

End InsertProofs.

(** ** A storage on lists, and the select's view of a storage *)

(** The rows of each heap in iteration order, the entries of each index,
    and the next slot to hand out. *)
Record RefStore (Field : Type) := mkRefStore {
  rs_heaps : gmap Z (list (Row Field));
  rs_indexes : gmap Z (list (list Field * RowId));
  rs_next : Z
}.
Arguments mkRefStore {Field}.
Arguments rs_heaps {Field}.
Arguments rs_indexes {Field}.
Arguments rs_next {Field}.

Section RefStore.
Context {Field : Type} `{EqDecision Field} `{FieldCodec Field}.
Implicit Types (s : RefStore Field).

Definition rs_rows s h : list (Row Field) := default [] (rs_heaps s !! h).
Definition rs_entries s i : list (list Field * RowId) := default [] (rs_indexes s !! i).
Definition rs_set_heap s h rows : RefStore Field := mkRefStore (<[h := rows]> (rs_heaps s)) (rs_indexes s) (rs_next s).
Definition rs_set_index s i es : RefStore Field := mkRefStore (rs_heaps s) (<[i := es]> (rs_indexes s)) (rs_next s).
Definition has_rid (rid : RowId) (r : Row Field) : bool := bool_decide (rid_ r = rid).
Definition has_key (k : list Field) (e : list Field * RowId) : bool := bool_decide (e.1 = k).

Lemma NoDup_fmap_same {A B} (f : A -> B) (l : list A) x y :
  NoDup (f <$> l) -> x ∈ l -> y ∈ l -> f x = f y -> x = y.
Proof.
  intros Hnd [i Hi]%list_elem_of_lookup [j Hj]%list_elem_of_lookup Hf.
  assert (i = j) as ->; [|congruence].
  eapply NoDup_lookup; [exact Hnd| rewrite list_lookup_fmap, Hi; reflexivity | rewrite list_lookup_fmap, Hj; cbn; by rewrite Hf].
Qed.

#[export] Instance RefStore_storage : Storage Field (RefStore Field) := {|
  st_rows := rs_rows;
  st_tuples := rs_rows;
  st_ok s h := NoDup (rid_ <$> rs_rows s h) /\ Forall (fun r => slot_num (rid_ r) < rs_next s) (rs_rows s h);
  st_InsertTuple s h fs :=
    let rid := mkRowId h (rs_next s) in
    (mkRefStore (<[h := rs_rows s h ++ [mkRow rid fs]]> (rs_heaps s)) (rs_indexes s) (rs_next s + 1), Some rid);
  st_MarkDelete s h rid := (rs_set_heap s h (filter (fun r => rid_ r <> rid) (rs_rows s h)), existsb (has_rid rid) (rs_rows s h));
  st_ApplyDelete s h rid := rs_set_heap s h (filter (fun r => rid_ r <> rid) (rs_rows s h));
  st_UpdateTuple s h fs rid :=
    match find (has_rid rid) (rs_rows s h) with
    | Some old =>
        if Row_GetSerializedSize (mkRow rid fs) <=? Row_GetSerializedSize old
        then (rs_set_heap s h ((fun r => if decide (rid_ r = rid) then mkRow rid fs else r) <$> rs_rows s h), true)
        else (s, false)
    | None => (s, false)
    end;
  st_GetTuple s h rid := find (has_rid rid) (rs_rows s h);
  st_entries := rs_entries;
  st_InsertEntry s i k rid :=
    if existsb (has_key k) (rs_entries s i) then (s, DB_FAILED) else (rs_set_index s i ((k, rid) :: rs_entries s i), DB_SUCCESS);
  st_RemoveEntry s i k rid := (rs_set_index s i (filter (fun en => en.1 <> k) (rs_entries s i)), DB_SUCCESS);
  st_ScanKey s i k := snd <$> filter (fun en => en.1 = k) (rs_entries s i);
  st_Destroy s i := (rs_set_index s i [], DB_SUCCESS)
|}.

Lemma rs_rows_set_heap s h h' rows : rs_rows (rs_set_heap s h rows) h' = if decide (h' = h) then rows else rs_rows s h'.
Proof. unfold rs_rows, rs_set_heap. cbn [rs_heaps]. case_decide; subst; [by rewrite lookup_insert_eq | by rewrite lookup_insert_ne]. Qed.

Lemma rs_entries_set_index s i j es : rs_entries (rs_set_index s i es) j = if decide (j = i) then es else rs_entries s j.
Proof. unfold rs_entries, rs_set_index. cbn [rs_indexes]. case_decide; subst; [by rewrite lookup_insert_eq | by rewrite lookup_insert_ne]. Qed.

Lemma rs_heaps_same_index s i es : heaps_same s (rs_set_index s i es).
Proof. intros h. unfold rs_set_index. cbn [st_rows st_tuples st_ok RefStore_storage]. unfold rs_rows. auto. Qed.

(** The index laws of [RefStore]: only the index [i] changes. *)
Lemma rs_index_update s i es : st_entries (rs_set_index s i es) i = es /\
  (forall j, j <> i -> st_entries (rs_set_index s i es) j = st_entries s j) /\ heaps_same s (rs_set_index s i es).
Proof.
  cbn [st_entries RefStore_storage]. rewrite rs_entries_set_index, decide_True by done.
  split; [done|split; [intros j Hj; by rewrite rs_entries_set_index, decide_False|apply rs_heaps_same_index]].
Qed.

(** Dropping rows keeps the row ids distinct and below [rs_next]. *)
Lemma rs_ok_filter s h (P : Row Field -> Prop) `{forall r, Decision (P r)} :
  st_ok s h -> st_ok (rs_set_heap s h (filter P (rs_rows s h))) h.
Proof.
  cbn [st_ok RefStore_storage]. rewrite rs_rows_set_heap, decide_True by done. intros [Hnd Hlt]. split.
  - eapply sublist_NoDup; [exact Hnd|]. apply fmap_sublist, sublist_filter.
  - apply Forall_forall. intros r [_ Hr]%list_elem_of_filter. rewrite Forall_forall in Hlt. exact (Hlt r Hr).
Qed.

#[export] Instance RefStore_laws : StorageLaws Field (RefStore Field).
Proof.
  split; cbn [st_rows st_tuples st_ok st_entries st_InsertTuple st_MarkDelete st_ApplyDelete st_UpdateTuple
              st_InsertEntry st_RemoveEntry st_Destroy RefStore_storage].
  - intros s h _. by left.
  - intros s h [Hnd _]. exact Hnd.
  - intros s h fs s' rid [Hnd Hlt] _ [= <- <-].
    assert (E : rs_rows (mkRefStore (<[h := rs_rows s h ++ [mkRow (mkRowId h (rs_next s)) fs]]> (rs_heaps s))
                           (rs_indexes s) (rs_next s + 1)) h = rs_rows s h ++ [mkRow (mkRowId h (rs_next s)) fs])
      by (unfold rs_rows at 1; cbn [rs_heaps]; by rewrite lookup_insert_eq).
    rewrite E. cbn [rs_next]. split; [by rewrite Permutation_app_comm|]. split; [|done]. split.
    + rewrite fmap_app. apply NoDup_app. split; [exact Hnd|]. split; [|cbn; apply NoDup_singleton].
      intros x Hx [<-|[]]%list_elem_of_In%in_inv. apply list_elem_of_fmap in Hx as [r [Hr Hin]].
      rewrite Forall_forall in Hlt. specialize (Hlt r Hin). rewrite <- Hr in Hlt. cbn in Hlt. lia.
    + apply Forall_app. split; [eapply Forall_impl; [exact Hlt|]; intros r; cbn; lia|]. repeat constructor. cbn. lia.
  - intros s h fs s' _ [=].
  - intros s i k rid s'. destruct (existsb _ _); [discriminate|]. intros [= <-]. destruct (rs_index_update s i ((k, rid) :: rs_entries s i)) as (A & B & C).
    split; [exact A|split; [exact B|exact C]].
  - intros s i k rid Hk. destruct (existsb (has_key k) (rs_entries s i)) eqn:Ex; [|done].
    exfalso. apply existsb_exists in Ex as [e [He Hke]]. unfold has_key in Hke. apply bool_decide_eq_true in Hke.
    apply Hk. rewrite <- Hke. apply list_elem_of_fmap_2, list_elem_of_In, He.
  - intros s i k rid Hk. destruct (existsb (has_key k) (rs_entries s i)) eqn:Ex; [cbn; discriminate|].
    exfalso. apply list_elem_of_fmap in Hk as [[k' r] [-> Hin]]. assert (Hf := existsb_exists (has_key k') (rs_entries s i)).
    change ((k', r).1) with k' in Ex. rewrite Ex in Hf. discriminate (proj2 Hf ltac:( exists (k', r); split; [apply list_elem_of_In, Hin|by apply bool_decide_eq_true])).
  - intros s i k rid s' e. destruct (existsb _ _); intros [= <- <-]; done.
  - intros s h rid s' b Hok [= <- _]. rewrite rs_rows_set_heap, decide_True by done. split; [done|split; [|done]].
    pose proof (rs_ok_filter s h (fun r => rid_ r <> rid) Hok) as Hf. cbn [st_ok RefStore_storage] in Hf.
    rewrite rs_rows_set_heap, decide_True in Hf by done. exact Hf.
  - intros s h rid Hok. rewrite rs_rows_set_heap, decide_True by done. split; [done|split; [|done]].
    pose proof (rs_ok_filter s h (fun r => rid_ r <> rid) Hok) as Hf. cbn [st_ok RefStore_storage] in Hf.
    rewrite rs_rows_set_heap, decide_True in Hf by done. exact Hf.
  - intros s i k rid s' e [= <- _]. destruct (rs_index_update s i (filter (fun en => en.1 <> k) (rs_entries s i))) as (A & B & C).
    split; [exact A|split; [exact B|exact C]].
  - intros s h fs rid s' b.
    destruct (find _ _) as [old|]; [destruct (_ <=? _)|]; intros [= <- <-]; [|done|done].
    rewrite rs_rows_set_heap, decide_True by done. split; [done|].
    split; [intros h' Hh; by rewrite rs_rows_set_heap, decide_False | done].
  - intros s h fs r Hnd Hr Hsz.
    destruct (find (has_rid (rid_ r)) (rs_rows s h)) as [old|] eqn:Ef.
    + apply find_some in Ef as [Hold Hid]. unfold has_rid in Hid. apply bool_decide_eq_true in Hid.
      rewrite (NoDup_fmap_same rid_ _ old r Hnd (proj2 (list_elem_of_In _ _) Hold) Hr Hid). cbv beta iota. by rewrite (proj2 (Z.leb_le _ _) Hsz).
    + exfalso. eapply find_none in Ef; [|apply list_elem_of_In, Hr]. unfold has_rid in Ef. by rewrite bool_decide_true in Ef.
  - intros s h fs r Hnd Hr Hsz.
    destruct (find (has_rid (rid_ r)) (rs_rows s h)) as [old|] eqn:Ef; [|done].
    apply find_some in Ef as [Hold Hid]. unfold has_rid in Hid. apply bool_decide_eq_true in Hid.
    rewrite (NoDup_fmap_same rid_ _ old r Hnd (proj2 (list_elem_of_In _ _) Hold) Hr Hid). cbv beta iota.
    by rewrite (proj2 (Z.leb_gt _ _) Hsz).
  - intros s i s' e [= <- _]. exact (rs_index_update s i []).
Qed.

End RefStore.

(** The heap and index reads of a storage, as SELECT uses them. *)
Definition storage_view {Field S : Type} `{Storage Field S} (s : S) : TableStorage Field := {|
  table_rows t := st_rows s (heap_of t);
  GetTuple t rid := st_GetTuple s (heap_of t) rid;
  ScanKey ii k := st_ScanKey s (index_of ii) k
|}.

(** ** Witnesses *)

Section Witnesses.

Definition windex_b : IndexInfo := mkIndexInfo (mkIndexMetadata 1 [106] 0 [1]) wtable.
Definition wrid0 : RowId := mkRowId 1 0.

(** [t] holds [(1, 5)]; its indexes on [a] and on [b] hold its keys. *)
Definition wstore : RefStore sfield :=
  mkRefStore {[ 1 := [mkRow wrid0 [SInt 1; SInt 5]] ]} {[ 0 := [([SInt 1], wrid0)]; 1 := [([SInt 5], wrid0)] ]} 1.

(** [insert into t values (a, b)]. *)
Definition wvalues (a b : string) : SyntaxNode :=
  mkSyntaxNode kNodeColumnValues "" (Some (mkSyntaxNode kNodeNumber a None (Some (wnum b)))) None.
Definition winto (a b : string) : SyntaxNode := mkSyntaxNode kNodeIdentifier "t" None (Some (wvalues a b)).
Definition winsert (a b : string) : SyntaxNode := mkSyntaxNode kNodeInsert "" (Some (winto a b)) None.

(** The run [ExecuteInsert_stale_entry] describes: the indexes of [t]
    are visited [b] first, [insert into t values (1, 6)] adds [6] to the
    index on [b], is rejected by the index on [a] (1 is there), and
    deletes the row from the heap, but not the entry [6]; a later
    [select * from t where b = 6] looks the row up through that entry,
    finds no tuple and reads a field of the empty row: undefined
    behaviour. *)
Example ExecuteInsert_stale_select :
  match ExecuteInsert (wengine [windex_a; windex_b]) wstore (winsert "1" "6") wctx with
  | Some (eng', s', _, e) =>
      e = DB_FAILED /\ st_rows s' 1 = st_rows wstore 1 /\ ([SInt 6], mkRowId 1 1) ∈ st_entries s' 1 /\
      @ExecuteSelect sfield _ _ (storage_view s') eng' (wselect (wcmp "=" "b" "6" None)) wctx = None
  | None => False
  end.
Proof. vm_compute. split; [reflexivity|]. split; [reflexivity|]. split; [by left | reflexivity]. Qed.

End Witnesses.

Section DeleteProofs.
Context {Field S : Type} `{FieldOps Field} `{StorageLaws Field S}.

(** A unique index holds each key once. *)
Definition keys_unique (s : S) (ii : IndexInfo) : Prop := NoDup ((st_entries s (index_of ii)).*1).

Definition index_good (s : S) (ti : TableInfo) (ii : IndexInfo) : Prop := index_ok s ti ii /\ keys_unique s ii.

Lemma filter_Forall_id {A} (P : A -> Prop) `{forall x, Decision (P x)} (l : list A) :
  Forall P l -> filter P l = l.
Proof. induction 1; [done|]. rewrite filter_cons_True by done. by f_equal. Qed.

Lemma NoDup_keys_filter {A B} (P : A * B -> Prop) `{forall x, Decision (P x)} (l : list (A * B)) :
  NoDup (l.*1) -> NoDup ((filter P l).*1).
Proof.
  intros Hnd. eapply sublist_NoDup; [exact Hnd|].
  induction l as [|x l IH]; [done|]. cbn [fmap list_fmap] in Hnd |- *. apply NoDup_cons in Hnd as [_ Hnd].
  rewrite filter_cons. case_decide; cbn [fmap list_fmap]; [apply sublist_skip | apply sublist_cons]; auto.
Qed.

(** Removing the element [x] of a list without duplicates by a filter on
    a property only [x] has. *)
Lemma filter_remove_unique {A K} `{EqDecision K} (g : A -> K) (P Q : list A) (x : A) :
  NoDup (g <$> P ++ x :: Q) -> filter (fun y => g y <> g x) (P ++ x :: Q) = P ++ Q.
Proof.
  rewrite fmap_app, NoDup_app. cbn [fmap list_fmap]. intros (_ & Hnin & Hnd). apply NoDup_cons in Hnd as [HQ _].
  rewrite filter_app, filter_cons_False by tauto. rewrite !filter_Forall_id; [done| |].
  - apply Forall_forall. intros y Hy Heq. apply HQ. rewrite <- Heq. by apply list_elem_of_fmap_2.
  - apply Forall_forall. intros y Hy Heq. apply (Hnin (g y)); [by apply list_elem_of_fmap_2|]. rewrite Heq. by left.
Qed.

Lemma index_columns_valid schema ii ix :
  index_columns schema ii = Some (inr ix) -> Forall (fun i => 0 <= i /\ (Z.to_nat i < length (columns_ schema))%nat) ix.
Proof.
  unfold index_columns. destruct (key_schema _ _) as [cols|]; cbn; [|discriminate].
  destruct (mapM _ cols) as [ix'|] eqn:Em; [intros [= <-]|discriminate].
  apply mapM_Some_1 in Em. induction Em as [|c i cs ixs Hc _ IH]; constructor; [|done].
  unfold GetColumnIndex in Hc. apply column_index_range in Hc. lia.
Qed.

Lemma entry_of_fit schema ii ix (r : Row Field) :
  index_columns schema ii = Some (inr ix) -> row_fits_schema schema r -> exists k, entry_of ix r = Some (k, rid_ r).
Proof.
  intros Hix Hr. destruct (mapM_total (fun i => fields_ r !! Z.to_nat i) ix) as (k & Hk & _).
  - eapply Forall_impl; [exact (index_columns_valid _ _ _ Hix)|]. intros i Hi. cbv beta in Hi.
    apply lookup_lt_is_Some_2. unfold row_fits_schema in Hr. lia.
  - exists k. unfold entry_of, key_fields. by rewrite Hk.
Qed.

(** The columns of each index resolve, as they do for an index that
    agrees with some rows. *)
Definition index_cols (schema : Schema) (iis : list IndexInfo) : Prop :=
  Forall (fun ii => exists ix, index_columns schema ii = Some (inr ix)) iis.

Lemma agrees_cols s ti iis (rows : IndexInfo -> list (Row Field)) :
  Forall (fun ii => index_agrees s ti ii (rows ii)) iis -> index_cols (schema_ (table_meta_ ti)) iis.
Proof. intros Hf. eapply Forall_impl; [exact Hf|]. intros ii (ix & Hix & _). eauto. Qed.

(** Removing a row from every index. *)
Lemma remove_entries_spec schema iis s (r : Row Field) :
  NoDup (index_of <$> iis) -> row_fits_schema schema r -> index_cols schema iis ->
  exists s', remove_entries s schema (fields_ r) (rid_ r) iis = Some (s', DB_SUCCESS) /\ heaps_same s s' /\
    (forall ii, ii ∈ iis -> exists ix k, index_columns schema ii = Some (inr ix) /\
       entry_of ix r = Some (k, rid_ r) /\
       st_entries s' (index_of ii) = filter (fun en => en.1 <> k) (st_entries s (index_of ii))) /\
    (forall j, j ∉ index_of <$> iis -> st_entries s' j = st_entries s j).
Proof.
  intros Hnd Hr. revert s. induction iis as [|ii rest IH]; intros s Hcols.
  - exists s. split; [done|]. split; [apply heaps_same_refl|]. split; [intros ii Hii; inversion Hii | done].
  - cbn [fmap list_fmap] in Hnd. apply NoDup_cons in Hnd as [Hnin Hnd'].
    apply Forall_cons in Hcols as [(ix & Hix) Hcols].
    destruct (entry_of_fit _ _ _ r Hix Hr) as [k Hk].
    assert (Hkf : key_fields (fields_ r) ix = Some k)
      by (unfold entry_of in Hk; destruct (key_fields _ _); cbn in Hk; congruence).
    destruct (st_RemoveEntry s (index_of ii) k (rid_ r)) as [s1 e] eqn:Er.
    destruct (RemoveEntry_entries _ _ _ _ _ _ Er) as (Ei & Ej & Eh).
    destruct (IH Hnd' s1 Hcols) as (s' & Hrun & Rh & Ri & Rj).
    exists s'. cbn [remove_entries]. rewrite Hix. cbn [mbind option_bind]. rewrite Hkf. cbn [mbind option_bind].
    rewrite Er. split; [done|]. split; [exact (heaps_same_trans _ _ _ Eh Rh)|]. split.
    + intros ii' [->|Hin]%elem_of_cons.
      * exists ix, k. split; [done|]. split; [done|]. rewrite Rj, Ei; [done|].
        intros Hc. apply Hnin. exact Hc.
      * destruct (Ri ii' Hin) as (ix' & k' & A & B & C). exists ix', k'. split; [done|]. split; [done|].
        rewrite C, Ej; [done|]. intros Heq. apply Hnin. rewrite <- Heq. by apply list_elem_of_fmap_2.
    + intros j Hj'. rewrite Rj by (intros Hc; apply Hj'; cbn [fmap list_fmap]; apply elem_of_cons; by right).
      apply Ej. intros ->. apply Hj'. cbn [fmap list_fmap]. apply elem_of_cons. by left.
Qed.

Lemma filter_omap_remove ix (P Q : list (Row Field)) r k :
  entry_of ix r = Some (k, rid_ r) -> NoDup ((omap (entry_of ix) (P ++ r :: Q)).*1) ->
  filter (fun en => en.1 <> k) (omap (entry_of ix) (P ++ r :: Q)) = omap (entry_of ix) (P ++ Q).
Proof.
  intros Hr. rewrite !omap_app. cbn [omap list_omap]. rewrite Hr. intros Hnd.
  change k with ((k, rid_ r).1). by rewrite (filter_remove_unique fst _ _ (k, rid_ r) Hnd).
Qed.

(** An index that agrees with the heap's live tuples and holds each key
    once. *)
Definition heap_index_good (s : S) (ti : TableInfo) (ii : IndexInfo) : Prop := heap_index_ok s ti ii /\ keys_unique s ii.

(** Deleting one row of the heap: the live tuples lose it, the indexes
    lose its entry and stay good. *)
Lemma delete_row_spec ti iis s P r Q :
  NoDup (index_of <$> iis) -> st_ok s (heap_of ti) -> st_tuples s (heap_of ti) = P ++ r :: Q ->
  NoDup (rid_ <$> P ++ r :: Q) ->
  row_fits_schema (schema_ (table_meta_ ti)) r -> Forall (heap_index_good s ti) iis ->
  exists s', delete_row s (heap_of ti) (schema_ (table_meta_ ti)) r iis true = Some (s', DB_SUCCESS) /\
    st_tuples s' (heap_of ti) = P ++ Q /\ st_ok s' (heap_of ti) /\ Forall (heap_index_good s' ti) iis.
Proof.
  intros Hnd Hst Hrows Hrid Hr Hgood. unfold delete_row.
  destruct (st_MarkDelete s (heap_of ti) (rid_ r)) as [s1 b] eqn:Em.
  destruct (MarkDelete_tuples _ _ _ _ _ Hst Em) as (M1 & M2 & M3).
  assert (Hcols : index_cols (schema_ (table_meta_ ti)) iis)
    by (apply (agrees_cols s ti iis (fun _ => st_tuples s (heap_of ti))); eapply Forall_impl; [exact Hgood|]; intros ii []; done).
  destruct (remove_entries_spec _ iis s1 r Hnd Hr Hcols) as (s2 & Hrun & Hsame & Ri & _).
  destruct (Hsame (heap_of ti)) as (_ & T2 & O2).
  rewrite Hrun. cbn [mbind option_bind]. rewrite decide_False by (intros Hc; by apply Hc).
  destruct (ApplyDelete_tuples s2 (heap_of ti) (rid_ r) (O2 M2)) as (A1 & A2 & A3).
  assert (Htup : st_tuples (st_ApplyDelete s2 (heap_of ti) (rid_ r)) (heap_of ti) = P ++ Q).
  { rewrite A1, T2, M1, list_filter_filter_l by tauto. rewrite Hrows. exact (filter_remove_unique rid_ P Q r Hrid). }
  eexists. split; [reflexivity|]. split; [exact Htup|]. split; [exact A2|].
  apply Forall_forall. intros ii Hii. rewrite Forall_forall in Hgood. destruct (Hgood ii Hii) as [(ix & Hix & Hp) Hu].
  destruct (Ri ii Hii) as (ix' & k & Hix' & Hk & He). rewrite Hix in Hix'. injection Hix' as <-.
  unfold keys_unique in Hu. rewrite Hp, Hrows in Hu.
  assert (Hent : st_entries (st_ApplyDelete s2 (heap_of ti) (rid_ r)) (index_of ii) ≡ₚ omap (entry_of ix) (P ++ Q)).
  { rewrite A3, He, M3, Hp, Hrows. by rewrite (filter_omap_remove ix P Q r k Hk Hu). }
  split.
  + exists ix. split; [done|]. by rewrite Hent, Htup.
  + unfold keys_unique. rewrite Hent. rewrite <- (filter_omap_remove ix P Q r k Hk Hu). by apply NoDup_keys_filter.
Qed.

(** The scan loop of DELETE, from the row [P] has left: it keeps the rows
    the clause rejects, deletes (with their index entries) those it
    accepts, and counts them. *)
Lemma delete_scan_spec ti iis wn rest : forall P s ctx,
  let schema := schema_ (table_meta_ ti) in
  NoDup (index_of <$> iis) -> where_wt schema (Some wn) -> st_ok s (heap_of ti) ->
  st_tuples s (heap_of ti) = P ++ rest -> NoDup (rid_ <$> P ++ rest) -> Forall (row_fits_schema schema) rest ->
  Forall (heap_index_good s ti) iis -> err_ ctx = DB_SUCCESS ->
  exists s' ctx', delete_scan s (heap_of ti) schema (Some wn) iis rest ctx = Some (s', ctx', DB_SUCCESS) /\
    st_tuples s' (heap_of ti) = P ++ List.filter (fun r => negb (accepts schema (Some wn) r)) rest /\
    st_ok s' (heap_of ti) /\ Forall (heap_index_good s' ti) iis /\ err_ ctx' = DB_SUCCESS /\
    numAffectedRows ctx' = numAffectedRows ctx + Z.of_nat (length (List.filter (accepts schema (Some wn)) rest)).
Proof.
  induction rest as [|r rest IH]; intros P s ctx schema Hnd Hwt Hst Hrows Hrid Hfit Hgood He; subst schema.
  { exists s, ctx. rewrite app_nil_r in *. repeat split; auto. cbn. lia. }
  apply Forall_cons in Hfit as [Hr Hfit]. cbn [delete_scan]. rewrite (where_step_wt _ _ _ _ Hwt Hr He).
  cbn [mbind option_bind]. cbn [List.filter]. destruct (accepts (schema_ (table_meta_ ti)) (Some wn) r); cbn [negb].
  - rewrite bool_decide_true by done.
    destruct (delete_row_spec ti iis s P r rest Hnd Hst Hrows Hrid Hr Hgood) as (s1 & Hd & Hrows1 & Hst1 & Hgood1).
    rewrite Hd. cbn [mbind option_bind]. rewrite decide_False by (intros Hc; by apply Hc).
    assert (Hrid1 : NoDup (rid_ <$> P ++ rest)).
    { eapply sublist_NoDup; [exact Hrid|]. apply fmap_sublist, sublist_app; [done|]. by apply sublist_cons. }
    destruct (IH P s1 (AddAffectedRows ctx 1) Hnd Hwt Hst1 Hrows1 Hrid1 Hfit Hgood1 He)
      as (s' & ctx' & Hl & R1 & R2 & R3 & R4 & R5).
    exists s', ctx'. repeat split; auto. rewrite R5. cbn [AddAffectedRows set_counts numAffectedRows length]. lia.
  - replace (P ++ r :: rest) with ((P ++ [r]) ++ rest) in Hrows, Hrid by by rewrite <- app_assoc.
    destruct (IH (P ++ [r]) s ctx Hnd Hwt Hst Hrows Hrid Hfit Hgood He) as (s' & ctx' & Hl & R1 & R2 & R3 & R4 & R5).
    exists s', ctx'. repeat split; auto. by rewrite R1, <- app_assoc.
Qed.

(** C31: Functional correctness of [ExecuteDelete] on its scan path.  When
    the table exists, the WHERE clause is well typed and no index
    serves it, the heap is well formed and its iteration visits its
    live tuples (its first page holds one, or it holds none), and the
    indexes agree with the heap and hold each key once, the statement
    succeeds.  The heap then keeps exactly the tuples the clause
    rejects and stays well formed, every index still agrees with it and
    holds each key once, and the affected-row count grows by the number
    of tuples the clause accepts. *)
Theorem ExecuteDelete_scan (eng : ExecuteEngine) (s : S) ast ctx cm delete_node wn ti iis :
  current_db_ eng <> ""%string -> dbs_ eng !! current_db_ eng = Some (Some cm) ->
  child_ ast = Some delete_node -> next_ delete_node = Some wn ->
  GetTable cm (bytes_of_string (val_ delete_node)) = Some (DB_SUCCESS, Some ti) ->
  GetTableIndexes cm (bytes_of_string (val_ delete_node)) = Some (DB_SUCCESS, iis) ->
  ChooseIndex (schema_ (table_meta_ ti)) iis (Some wn) DB_SUCCESS = Some (None, DB_SUCCESS) ->
  where_wt (schema_ (table_meta_ ti)) (Some wn) ->
  st_ok s (heap_of ti) -> st_rows s (heap_of ti) = st_tuples s (heap_of ti) ->
  Forall (row_fits_schema (schema_ (table_meta_ ti))) (st_tuples s (heap_of ti)) ->
  NoDup (index_of <$> iis) -> Forall (heap_index_good s ti) iis ->
  exists s' ctx', ExecuteDelete eng s ast ctx = Some (eng, s', ctx', DB_SUCCESS) /\
    st_tuples s' (heap_of ti) = List.filter (fun r => negb (accepts (schema_ (table_meta_ ti)) (Some wn) r))
                                  (st_tuples s (heap_of ti)) /\
    st_ok s' (heap_of ti) /\ Forall (heap_index_good s' ti) iis /\
    numAffectedRows ctx' = numAffectedRows ctx +
      Z.of_nat (length (List.filter (accepts (schema_ (table_meta_ ti)) (Some wn)) (st_tuples s (heap_of ti)))).
Proof.
  intros Hdb Hcm Hdel Hw Htab Hind Hch Hwt Hst Hview Hfit Hnd Hgood.
  destruct (delete_scan_spec ti iis wn (st_tuples s (heap_of ti)) [] s (set_err (set_err ctx DB_SUCCESS) DB_SUCCESS)
              Hnd Hwt Hst eq_refl (tuples_NoDup s _ Hst) Hfit Hgood eq_refl) as (s' & ctx' & Hl & R1 & R2 & R3 & _ & R5).
  exists s', ctx'. split; [|done].
  unfold ExecuteDelete. rewrite (proj2 (String.eqb_neq _ _) Hdb). unfold dbs_at. rewrite Hcm.
  rewrite Hdel. cbn [mbind option_bind]. rewrite Hw. cbv zeta.
  rewrite Htab. cbn [mbind option_bind]. rewrite decide_False by (intros Hc; by apply Hc).
  rewrite Hind. cbn [mbind option_bind]. rewrite decide_False by (intros Hc; by apply Hc).
  cbn [err_ set_err]. rewrite Hch. cbn [mbind option_bind].
  rewrite decide_False by (intros Hc; by apply Hc). rewrite Hview, Hl. cbn [mbind option_bind].
  by rewrite decide_False by (intros Hc; by apply Hc).
Qed.

(** Taking a fresh row out again leaves the rows it was added to. *)
Lemma filter_fresh (L T : list (Row Field)) rid fs :
  NoDup (rid_ <$> L) -> L ≡ₚ mkRow rid fs :: T -> filter (fun r => rid_ r <> rid) L ≡ₚ T.
Proof.
  intros Hnd HL. rewrite HL in Hnd |- *. rewrite filter_cons_False by (cbn; tauto).
  cbn [fmap list_fmap rid_] in Hnd. apply NoDup_cons in Hnd as [Hnin _].
  rewrite filter_Forall_id; [done|]. apply Forall_forall. intros r Hr Heq. apply Hnin. rewrite <- Heq.
  by apply list_elem_of_fmap_2.
Qed.

(** The index loop when the earlier indexes take the key and index [ii]
    rejects it: the row leaves the heap again, and each earlier index
    keeps the entry made for it. *)
Lemma insert_entries_stale s h schema fs rid pre ii post ix k :
  st_ok s h -> NoDup (index_of <$> pre ++ [ii]) ->
  Forall (fun ij => exists ix k, index_columns schema ij = Some (inr ix) /\ key_fields fs ix = Some k /\
                     k ∉ (st_entries s (index_of ij)).*1) pre ->
  index_columns schema ii = Some (inr ix) -> key_fields fs ix = Some k -> k ∈ (st_entries s (index_of ii)).*1 ->
  exists s' e, insert_entries s h schema fs rid (pre ++ ii :: post) = Some (s', e) /\ e <> DB_SUCCESS /\
    st_tuples s' h = filter (fun r => rid_ r <> rid) (st_tuples s h) /\ st_ok s' h /\
    Forall (fun ij => exists k', (k', rid) ∈ st_entries s' (index_of ij)) pre /\
    (forall j, j ∉ index_of <$> pre ++ [ii] -> st_entries s' j = st_entries s j).
Proof.
  revert s. induction pre as [|ij pre IH]; intros s Hst Hnd Hpre Hix Hk Hin; cbn [app insert_entries].
  - rewrite Hix. cbn [mbind option_bind]. rewrite Hk. cbn [mbind option_bind].
    destruct (st_InsertEntry s (index_of ii) k rid) as [s1 st] eqn:E.
    pose proof (InsertEntry_dup s (index_of ii) k rid Hin) as Hd. rewrite E in Hd. cbn in Hd.
    rewrite (InsertEntry_fail _ _ _ _ _ _ E Hd), decide_False by exact Hd.
    destruct (st_MarkDelete s h rid) as [s2 b] eqn:Em. destruct (rollback_tuples s h rid s2 b Hst Em) as (R1 & R2 & R3).
    eexists _, st. split; [reflexivity|]. split; [exact Hd|]. split; [exact R1|]. split; [exact R2|].
    split; [constructor|]. intros j _. apply R3.
  - cbn [fmap list_fmap app] in Hnd. apply NoDup_cons in Hnd as [Hnin Hnd].
    apply Forall_cons in Hpre as [(ixj & kj & Hixj & Hkj & Hfr) Hpre].
    rewrite Hixj. cbn [mbind option_bind]. rewrite Hkj. cbn [mbind option_bind].
    destruct (st_InsertEntry s (index_of ij) kj rid) as [s1 st] eqn:E.
    pose proof (InsertEntry_fresh s (index_of ij) kj rid Hfr) as Hs. rewrite E in Hs. cbn in Hs. subst st.
    rewrite decide_True by done.
    destruct (InsertEntry_ok _ _ _ _ _ E) as (Ei & Ej & Hsame). destruct (Hsame h) as (_ & T1 & O1).
    assert (Hne : forall j, j ∈ index_of <$> pre ++ [ii] -> j <> index_of ij) by (intros j Hj ->; exact (Hnin Hj)).
    assert (Hmem : forall ij', ij' ∈ pre ++ [ii] -> index_of ij' <> index_of ij)
      by (intros ij' Hij'; apply Hne, list_elem_of_fmap_2, Hij').
    destruct (IH s1 (O1 Hst) Hnd) as (s' & e & Hrun & He & R1 & R2 & R3 & R4).
    + apply Forall_forall. intros ij' Hij'. rewrite Forall_forall in Hpre. destruct (Hpre ij' Hij') as (ix' & k' & A & B & C).
      exists ix', k'. rewrite Ej by (apply Hmem; apply elem_of_app; by left). auto.
    + exact Hix.
    + exact Hk.
    + rewrite Ej by (apply Hmem; apply elem_of_app; right; by left). exact Hin.
    + exists s', e. split; [exact Hrun|]. split; [exact He|]. split; [by rewrite R1, T1|]. split; [exact R2|]. split.
      * constructor; [|exact R3]. exists kj. rewrite R4 by exact Hnin. rewrite Ei. by left.
      * intros j Hj. rewrite R4, Ej; [done| |].
        -- intros ->. apply Hj. cbn [fmap list_fmap app]. by left.
        -- intros Hc. apply Hj. cbn [fmap list_fmap app]. by right.
Qed.

(** C32: A rejected key leaves the entries already made.  When the
    indexes of the table before [ii] take the row's key and [ii] already
    holds its key, [ExecuteInsert] fails and takes the row out of the
    heap again (the live tuples are those before the statement), but
    every index before [ii] keeps an entry pointing to the deleted row:
    a later lookup through that entry finds no tuple. *)
Theorem ExecuteInsert_stale_entry eng s ast ctx cm insert_node values_node ti pre ii post fs s1 rid ix k
    eng' s' ctx' e :
  current_db_ eng <> ""%string -> dbs_ eng !! current_db_ eng = Some (Some cm) ->
  child_ ast = Some insert_node -> next_ insert_node = Some values_node ->
  GetTable cm (bytes_of_string (val_ insert_node)) = Some (DB_SUCCESS, Some ti) ->
  GetTableIndexes cm (bytes_of_string (val_ insert_node)) = Some (DB_SUCCESS, pre ++ ii :: post) ->
  insert_values (columns_ (schema_ (table_meta_ ti))) (child_ values_node) = Some (inr fs) ->
  st_ok s (heap_of ti) -> tuple_fits fs -> st_InsertTuple s (heap_of ti) fs = (s1, Some rid) ->
  NoDup (index_of <$> pre ++ [ii]) ->
  Forall (fun ij => exists ix k, index_columns (schema_ (table_meta_ ti)) ij = Some (inr ix) /\
                     key_fields fs ix = Some k /\ k ∉ (st_entries s (index_of ij)).*1) pre ->
  index_columns (schema_ (table_meta_ ti)) ii = Some (inr ix) -> key_fields fs ix = Some k ->
  k ∈ (st_entries s (index_of ii)).*1 ->
  ExecuteInsert eng s ast ctx = Some (eng', s', ctx', e) ->
  e <> DB_SUCCESS /\ st_tuples s' (heap_of ti) ≡ₚ st_tuples s (heap_of ti) /\
  rid ∉ rid_ <$> st_tuples s' (heap_of ti) /\
  Forall (fun ij => exists k', (k', rid) ∈ st_entries s' (index_of ij)) pre.
Proof.
  intros Hdb Hcm Hin Hval Htab Hind Hv Hst Hfit Et Hnd Hpre Hix Hk Hkin Hrun.
  destruct (InsertTuple_tuples _ _ _ _ _ Hst Hfit Et) as (Hrows & Hst1 & Hent).
  destruct (insert_entries_stale s1 (heap_of ti) (schema_ (table_meta_ ti)) fs rid pre ii post ix k Hst1 Hnd)
    as (s2 & e2 & Hl & He & R1 & _ & R3 & _);
    [rewrite Forall_forall in Hpre |- *; intros ij Hij; rewrite Hent; exact (Hpre ij Hij)|exact Hix|exact Hk|by rewrite Hent|].
  unfold ExecuteInsert in Hrun.
  rewrite (proj2 (String.eqb_neq _ _) Hdb) in Hrun. unfold dbs_at in Hrun. rewrite Hcm in Hrun.
  rewrite Hin in Hrun. cbn [mbind option_bind] in Hrun. rewrite Hval in Hrun. cbn [mbind option_bind] in Hrun.
  cbv zeta in Hrun. rewrite Htab in Hrun.
  cbn [mbind option_bind] in Hrun. rewrite decide_False in Hrun by (intros Hc; by apply Hc).
  cbn [mbind option_bind] in Hrun. rewrite Hv in Hrun. cbn [mbind option_bind] in Hrun.
  rewrite Hind in Hrun. cbn [mbind option_bind] in Hrun. rewrite Et in Hrun. rewrite Hl in Hrun. cbn [mbind option_bind] in Hrun.
  rewrite decide_False in Hrun by exact He. injection Hrun as <- <- <- <-.
  split; [exact He|]. split; [rewrite R1; exact (filter_fresh _ _ rid fs (tuples_NoDup s1 _ Hst1) Hrows)|].
  split; [|exact R3]. rewrite R1. intros (r & Hr & [Hne _]%list_elem_of_filter)%list_elem_of_fmap. exact (Hne (eq_sym Hr)).
Qed.

Lemma insert_values_length cols vn fs : insert_values cols vn = Some (inr fs) -> length fs = length cols.
Proof.
  revert vn fs. induction cols as [|c cs IH]; intros [n|] fs; cbn [insert_values]; try congruence.
  { by intros [= <-]. }
  destruct (value_field c n) as [[e'|f]|]; cbn [mbind option_bind]; [congruence| |discriminate].
  destruct (insert_values cs (next_ n)) as [[e'|fs']|] eqn:Er; cbn; [congruence| |discriminate].
  intros [= <-]. cbn. by rewrite (IH _ _ Er).
Qed.

(** A row of the table's width has a key for each index. *)
Lemma key_fields_total schema ii ix (fs : list Field) :
  index_columns schema ii = Some (inr ix) -> length fs = length (columns_ schema) -> is_Some (key_fields fs ix).
Proof.
  intros Hix Hlen. destruct (mapM_total (fun i => fs !! Z.to_nat i) ix) as (k & Hk & _);
    [|unfold key_fields; rewrite Hk; by eexists].
  eapply Forall_impl; [exact (index_columns_valid _ _ _ Hix)|]. intros i Hi. cbv beta in Hi. apply lookup_lt_is_Some_2. lia.
Qed.

(** An index on the empty key that agrees with a heap holding a row
    holds the empty key. *)
Lemma empty_key_held s ti ii :
  heap_index_ok s ti ii -> index_columns (schema_ (table_meta_ ti)) ii = Some (inr []) -> st_tuples s (heap_of ti) <> [] ->
  [] ∈ (st_entries s (index_of ii)).*1.
Proof.
  intros (ix & Hix & Hp) Hix' Hne. rewrite Hix' in Hix. injection Hix as <-.
  destruct (st_tuples s (heap_of ti)) as [|r rs] eqn:Et; [congruence|].
  apply (list_elem_of_fmap_2 fst _ ([], rid_ r)). rewrite Hp. cbn. by left.
Qed.

(** C37: An index on the empty key admits one row.  Every row has the
    empty key in such an index, so once the table holds a row and the
    index agrees with it, [ExecuteInsert] into the table never succeeds:
    the statement fails, the heap's live tuples are those before it and
    no row is counted.  [ExecuteCreateTable] creates such an index,
    [_<table>_primkey], for every table declared without a primary
    key. *)
Theorem ExecuteInsert_empty_key_rejects eng s ast ctx cm insert_node values_node ti indexes ii eng' s' ctx' e :
  current_db_ eng <> ""%string -> dbs_ eng !! current_db_ eng = Some (Some cm) ->
  child_ ast = Some insert_node -> next_ insert_node = Some values_node ->
  GetTable cm (bytes_of_string (val_ insert_node)) = Some (DB_SUCCESS, Some ti) ->
  GetTableIndexes cm (bytes_of_string (val_ insert_node)) = Some (DB_SUCCESS, indexes) ->
  ii ∈ indexes -> NoDup (index_of <$> indexes) -> index_cols (schema_ (table_meta_ ti)) indexes ->
  index_columns (schema_ (table_meta_ ti)) ii = Some (inr []) -> heap_index_ok s ti ii ->
  st_tuples s (heap_of ti) <> [] -> st_ok s (heap_of ti) ->
  (forall fs, insert_values (columns_ (schema_ (table_meta_ ti))) (child_ values_node) = Some (inr fs) -> tuple_fits fs) ->
  ExecuteInsert eng s ast ctx = Some (eng', s', ctx', e) ->
  e <> DB_SUCCESS /\ st_tuples s' (heap_of ti) ≡ₚ st_tuples s (heap_of ti) /\ numAffectedRows ctx' = numAffectedRows ctx.
Proof.
  intros Hdb Hcm Hin Hval Htab Hind Hii Hnd Hcols Hix Hok Hne Hst Hfit Hrun.
  unfold ExecuteInsert in Hrun. rewrite (proj2 (String.eqb_neq _ _) Hdb) in Hrun. unfold dbs_at in Hrun. rewrite Hcm in Hrun.
  rewrite Hin in Hrun. cbn [mbind option_bind] in Hrun. rewrite Hval in Hrun. cbn [mbind option_bind] in Hrun.
  cbv zeta in Hrun. rewrite Htab in Hrun.
  cbn [mbind option_bind] in Hrun. rewrite decide_False in Hrun by (intros Hc; by apply Hc).
  cbn [mbind option_bind] in Hrun.
  destruct (insert_values _ _) as [[e0|fs]|] eqn:Ev; cbn [mbind option_bind] in Hrun; [| |discriminate].
  { injection Hrun as <- <- <- <-. apply insert_values_inl in Ev. subst e0. split; [discriminate|]. done. }
  rewrite Hind in Hrun. cbn [mbind option_bind] in Hrun.
  destruct (st_InsertTuple s (heap_of ti) fs) as [s1 [rid|]] eqn:Et.
  2: { injection Hrun as <- <- <- <-. destruct (InsertTuple_fail _ _ _ _ Hst Et) as [T _]. rewrite T. split; [discriminate|done]. }
  destruct (InsertTuple_tuples _ _ _ _ _ Hst (Hfit fs eq_refl) Et) as (Hrows & Hst1 & Hent).
  assert (Hkeys : Forall (fun ij => exists ix, index_columns (schema_ (table_meta_ ti)) ij = Some (inr ix) /\
                                   is_Some (key_fields fs ix)) indexes).
  { eapply Forall_impl; [exact Hcols|]. intros ij (ix & Hixj). exists ix. split; [exact Hixj|].
    exact (key_fields_total _ _ _ fs Hixj (insert_values_length _ _ _ Ev)). }
  destruct (insert_entries_reject s1 (heap_of ti) (schema_ (table_meta_ ti)) fs rid indexes ii [] []
              Hnd Hii Hkeys Hix eq_refl) as (s2 & e2 & Hl & He).
  { rewrite Hent. exact (empty_key_held s ti ii Hok Hix Hne). }
  destruct (insert_entries_fails _ _ _ _ _ _ _ _ Hst1 Hcols Hl He) as [T2 _].
  rewrite Hl in Hrun. cbn [mbind option_bind] in Hrun. rewrite decide_False in Hrun by exact He.
  injection Hrun as <- <- <- <-. split; [exact He|]. split; [|done].
  rewrite T2. exact (filter_fresh _ _ rid fs (tuples_NoDup s1 _ Hst1) Hrows).
Qed.

End DeleteProofs.

Section DeleteWitnesses.

(** [t] holds [(1, 5), (1, 6), (2, 7)], indexed on [b] only. *)
Definition wdstore : RefStore sfield :=
  mkRefStore {[ 1 := wrows ]}
    {[ 1 := [([SInt 5], mkRowId 1 0); ([SInt 6], mkRowId 1 1); ([SInt 7], mkRowId 1 2)] ]} 3.

(** [delete from t where <cond>]. *)
Definition wdelete (cond : SyntaxNode) : SyntaxNode := mkSyntaxNode kNodeDelete "" (Some (wfrom cond)) None.
Definition wconds (cond : SyntaxNode) : SyntaxNode := mkSyntaxNode kNodeConditions "" (Some cond) None.

(** [insert into t values (1, 6)] on [wstore]. *)
Definition wstale := ExecuteInsert (wengine [windex_a; windex_b]) wstore (winsert "1" "6") wctx.
Definition wstale_store : RefStore sfield := match wstale with Some (_, s', _, _) => s' | None => wstore end.
Definition wstale_err : dberr_t := match wstale with Some (_, _, _, e) => e | None => DB_SUCCESS end.

Lemma ExecuteInsert_stale_entry_witness :
  wstale_err <> DB_SUCCESS /\ st_tuples wstale_store (heap_of wtable) ≡ₚ st_tuples wstore (heap_of wtable) /\
  mkRowId 1 1 ∉ rid_ <$> st_tuples wstale_store (heap_of wtable) /\
  Forall (fun ij => exists k', (k', mkRowId 1 1) ∈ st_entries wstale_store (index_of ij)) [windex_b].
Proof.
  refine (ExecuteInsert_stale_entry (wengine [windex_a; windex_b]) wstore (winsert "1" "6") wctx
            (wcatalog [windex_a; windex_b]) (winto "1" "6") (wvalues "1" "6") wtable [windex_b] windex_a []
            [SInt 1; SInt 6] (fst (st_InsertTuple wstore (heap_of wtable) [SInt 1; SInt 6])) (mkRowId 1 1) [0] [SInt 1]
            (wengine [windex_a; windex_b]) wstale_store wctx wstale_err _ _ _ _ _ _ _ _ _ _ _ _ _ _ _ _);
    [discriminate | reflexivity | reflexivity | reflexivity | reflexivity | vm_compute; reflexivity | vm_compute; reflexivity
    | apply (bool_decide_unpack _); vm_compute; reflexivity | vm_compute; discriminate | vm_compute; reflexivity
    | apply (bool_decide_unpack _); vm_compute; reflexivity | | vm_compute; reflexivity | vm_compute; reflexivity
    | apply (bool_decide_unpack _); vm_compute; reflexivity | vm_compute; reflexivity].
  constructor; [|constructor]. exists [1], [SInt 6]. split; [vm_compute; reflexivity|]. split; [vm_compute; reflexivity|].
  apply (bool_decide_unpack _); vm_compute; reflexivity.
Defined.

(** [t] with one row [(1, 5)] and an index [e] on the empty key. *)
Definition windex_e : IndexInfo := mkIndexInfo (mkIndexMetadata 2 [101] 0 []) wtable.
Definition wstore_e : RefStore sfield :=
  mkRefStore {[ 1 := [mkRow wrid0 [SInt 1; SInt 5]] ]} {[ 2 := [([], wrid0)] ]} 1.
Definition wempty := ExecuteInsert (wengine [windex_e]) wstore_e (winsert "2" "6") wctx.
Definition wempty_store : RefStore sfield := match wempty with Some (_, s', _, _) => s' | None => wstore_e end.
Definition wempty_ctx : ExecuteContext := match wempty with Some (_, _, c, _) => c | None => wctx end.
Definition wempty_err : dberr_t := match wempty with Some (_, _, _, e) => e | None => DB_SUCCESS end.

(** [insert into t values (2, 6)] is rejected although no key column
    holds 2 or 6. *)
Lemma ExecuteInsert_empty_key_rejects_witness :
  wempty_err <> DB_SUCCESS /\ st_tuples wempty_store (heap_of wtable) ≡ₚ st_tuples wstore_e (heap_of wtable) /\
  numAffectedRows wempty_ctx = numAffectedRows wctx.
Proof.
  refine (ExecuteInsert_empty_key_rejects (wengine [windex_e]) wstore_e (winsert "2" "6") wctx (wcatalog [windex_e])
            (winto "2" "6") (wvalues "2" "6") wtable [windex_e] windex_e (wengine [windex_e]) wempty_store wempty_ctx
            wempty_err _ _ _ _ _ _ _ _ _ _ _ _ _ _ _);
    [discriminate | reflexivity | reflexivity | reflexivity | vm_compute; reflexivity | vm_compute; reflexivity
    | by left | apply (bool_decide_unpack _); vm_compute; reflexivity | repeat constructor; exists []; vm_compute; reflexivity
    | vm_compute; reflexivity | exists []; split; vm_compute; reflexivity | vm_compute; discriminate
    | apply (bool_decide_unpack _); vm_compute; reflexivity
    | intros fs Hv; vm_compute in Hv; injection Hv as <-; vm_compute; discriminate | vm_compute; reflexivity].
Defined.

End DeleteWitnesses.

End ExecuteDML.
