(* ===== verification/HeapStorage.v ===== *)
(** * The executor's storage over the table heap (storage/table_heap.cpp)

    [ExecuteDML] states what INSERT, DELETE and UPDATE need of the heap
    and the indexes as the class [Storage] and its laws [StorageLaws].
    This file builds the storage the program has: each table's heap is
    the [TableHeap] model (its pages, pins and page allocation) and each
    operation is the [TableHeap] method the executor calls; an index is
    the unique-index contract (a list of entries per index id).  The
    rows an iteration visits are those of the loop
    [for (it = Begin(); it != End(); ++it)] with [*it]; the live tuples
    are those of the page chain from the first page.  The laws are
    proved of this storage, for a well-formed heap: the first page is
    present, the chain of pages from it ends, every next-page link is
    INVALID_PAGE_ID or names a page, every page sits under its own id,
    the next page id is above every page, and no pin count is negative.
    [InsertTuple_spec] is the refinement of TableHeap::InsertTuple the
    insert law rests on; the witnesses run INSERT and DELETE on it.  The size of a tuple is the row's
    [GetSerializedSize], and [sizeof(Row)] is a parameter no larger than
    a page. *)

From Stdlib Require Import ZArith Lia List.
From stdpp Require Import base list gmap strings.
From S2P Require Import Spec2Rocq Records RowFormat Catalog TablePage TableHeap CatalogManager ExecuteContext Executor ExecuteSelect ExecuteDML.
Import ListNotations.
Open Scope Z_scope.

Module HeapStorage.
Import RowFormat TablePage TableHeap CatalogManager ExecuteContext ExecuteDML.

(** ** The rows of a page *)

Section PageRows.
Context {Field : Type}.
Implicit Types (sl : list (option (list Field * bool))) (p : TablePage (list Field)).

(** The live tuples of the slots from slot [i] on, as rows of page [pid]. *)
Fixpoint slot_rows (pid : Z) sl (i : nat) : list (Row Field) :=
  match sl with
  | [] => []
  | Some (t, false) :: r => mkRow (mkRowId pid (Z.of_nat i)) t :: slot_rows pid r (S i)
  | _ :: r => slot_rows pid r (S i)
  end.

Definition page_rows (pid : Z) p : list (Row Field) := slot_rows pid (tp_slots p) 0.

(** What [GetTuple] reads from a slot. *)
Definition slot_get (o : option (option (list Field * bool))) : option (list Field) :=
  match o with Some (Some (t, false)) => Some t | _ => None end.

Lemma tp_GetTuple_nat p (j : nat) : tp_GetTuple p (Z.of_nat j) = slot_get (tp_slots p !! j).
Proof.
  unfold tp_GetTuple, tp_slot. rewrite (proj2 (Z.leb_le _ _)) by lia. rewrite Nat2Z.id.
  destruct (tp_slots p !! j) as [[[? []]|]|]; reflexivity.
Qed.

Lemma slot_rows_elem pid sl : forall i r, r ∈ slot_rows pid sl i ->
  exists j t, rid_ r = mkRowId pid (Z.of_nat j) /\ (i <= j)%nat /\ sl !! (j - i)%nat = Some (Some (t, false)) /\
              fields_ r = t.
Proof.
  induction sl as [|[[t []]|] sl IH]; intros i r Hr; cbn [slot_rows] in Hr; [inversion Hr| | |].
  - destruct (IH (S i) r Hr) as (j & t' & A & B & C & D). exists j, t'. split; [done|]. split; [lia|].
    replace (j - i)%nat with (S (j - S i)) by lia. done.
  - apply elem_of_cons in Hr as [->|Hr].
    + exists i, t. rewrite Nat.sub_diag. done.
    + destruct (IH (S i) r Hr) as (j & t' & A & B & C & D). exists j, t'. split; [done|]. split; [lia|].
      replace (j - i)%nat with (S (j - S i)) by lia. done.
  - destruct (IH (S i) r Hr) as (j & t' & A & B & C & D). exists j, t'. split; [done|]. split; [lia|].
    replace (j - i)%nat with (S (j - S i)) by lia. done.
Qed.

(** The rows' ids are those of the live slots. *)
Lemma slot_rows_rids pid sl : forall i,
  rid_ <$> slot_rows pid sl i = map (fun j => mkRowId pid (Z.of_nat j)) (live_from sl i).
Proof. induction sl as [|[[t []]|] sl IH]; intros i; cbn; rewrite ?IH; reflexivity. Qed.

(** Reading each live slot through [GetTuple] gives the rows. *)
Lemma slot_rows_read pid sl : forall i (L : nat -> option (option (list Field * bool))),
  (forall k, L (i + k)%nat = sl !! k) ->
  omap (fun j => mkRow (mkRowId pid (Z.of_nat j)) <$> slot_get (L j)) (live_from sl i) = slot_rows pid sl i.
Proof.
  induction sl as [|x sl IH]; intros i L HL; [reflexivity|].
  assert (HL' : forall k, L (S i + k)%nat = sl !! k) by (intros k; replace (S i + k)%nat with (i + S k)%nat by lia; exact (HL (S k))).
  specialize (HL 0%nat). rewrite Nat.add_0_r in HL. cbn in HL.
  destruct x as [[t []]|]; cbn [live_from live slot_rows]; [exact (IH _ _ HL')| |exact (IH _ _ HL')].
  cbn [omap list_omap]. rewrite HL. cbn. f_equal. exact (IH _ _ HL').
Qed.

Lemma slot_rows_other pid sl i (X : RowId) :
  Forall (fun j => X <> mkRowId pid (Z.of_nat j)) (live_from sl i) ->
  filter (fun r => rid_ r <> X) (slot_rows pid sl i) = slot_rows pid sl i.
Proof.
  intros Hf. apply filter_Forall_id, Forall_forall. intros r Hr Heq.
  assert (Hin : rid_ r ∈ rid_ <$> slot_rows pid sl i) by (by apply list_elem_of_fmap_2).
  rewrite slot_rows_rids in Hin. apply list_elem_of_In, in_map_iff in Hin as (j & Hj & Hjin).
  rewrite Forall_forall in Hf. apply (Hf j (proj2 (list_elem_of_In _ _) Hjin)). by rewrite Hj, Heq.
Qed.

Lemma fmap_Forall_id {A} (g : A -> A) (l : list A) : Forall (fun x => g x = x) l -> g <$> l = l.
Proof. induction 1; [done|]. cbn. by f_equal. Qed.

(** A slot that no longer holds a live tuple drops its row. *)
Lemma slot_rows_kill pid sl x : forall i k, live x = false ->
  slot_rows pid (<[k := x]> sl) i = filter (fun r => rid_ r <> mkRowId pid (Z.of_nat (i + k))) (slot_rows pid sl i).
Proof.
  induction sl as [|y sl IH]; intros i k Hx; [reflexivity|].
  assert (Hrest : forall i', (i < i')%nat ->
            filter (fun r => rid_ r <> mkRowId pid (Z.of_nat i)) (slot_rows pid sl i') = slot_rows pid sl i').
  { intros i' Hi'. apply slot_rows_other. eapply Forall_impl; [apply live_from_ge|]. intros j Hj [= E]. cbv beta in Hj. lia. }
  destruct k as [|k]; cbn [insert list_insert].
  - rewrite Nat.add_0_r. destruct x as [[t []]|]; cbn in Hx; try discriminate;
      (destruct y as [[t' []]|]; cbn [slot_rows]; [ |rewrite filter_cons_False by (cbn; tauto)| ];
       symmetry; apply Hrest; lia).
  - destruct y as [[t' []]|]; cbn [slot_rows]; rewrite IH by exact Hx; replace (i + S k)%nat with (S i + k)%nat by lia;
      [reflexivity| |reflexivity].
    rewrite filter_cons_True; [reflexivity|]. cbn. intros [= E]. lia.
Qed.

(** A live tuple replaced by another. *)
Lemma slot_rows_update pid sl t t' : forall i k, sl !! k = Some (Some (t, false)) ->
  slot_rows pid (<[k := Some (t', false)]> sl) i =
  (fun r => if decide (rid_ r = mkRowId pid (Z.of_nat (i + k))) then mkRow (mkRowId pid (Z.of_nat (i + k))) t' else r)
    <$> slot_rows pid sl i.
Proof.
  induction sl as [|y sl IH]; intros i k Hk; [discriminate|].
  destruct k as [|k]; cbn [insert list_insert].
  - injection Hk as ->. rewrite Nat.add_0_r. cbn [slot_rows fmap list_fmap rid_]. rewrite decide_True by done.
    f_equal. symmetry. apply fmap_Forall_id, Forall_forall. intros r Hr.
    destruct (slot_rows_elem _ _ _ _ Hr) as (j & _ & Hj & Hle & _). rewrite decide_False; [done|].
    rewrite Hj. intros [= E]. lia.
  - cbn in Hk. replace (i + S k)%nat with (S i + k)%nat by lia.
    destruct y as [[t0 []]|]; cbn [slot_rows fmap list_fmap]; rewrite IH by exact Hk; [reflexivity| |reflexivity].
    cbn [rid_]. rewrite decide_False; [reflexivity|]. intros [= E]. lia.
Qed.

(** A tuple put into a free slot. *)
Lemma slot_rows_fill pid sl t : forall i k, sl !! k = Some None ->
  slot_rows pid (<[k := Some (t, false)]> sl) i ≡ₚ mkRow (mkRowId pid (Z.of_nat (i + k))) t :: slot_rows pid sl i.
Proof.
  induction sl as [|y sl IH]; intros i k Hk; [discriminate|].
  destruct k as [|k]; cbn [insert list_insert].
  - injection Hk as ->. rewrite Nat.add_0_r. reflexivity.
  - cbn in Hk. replace (i + S k)%nat with (S i + k)%nat by lia.
    destruct y as [[t0 []]|]; cbn [slot_rows]; rewrite IH by exact Hk; [reflexivity| |reflexivity].
    apply Permutation_swap.
Qed.

(** A tuple put into a new slot at the end. *)
Lemma slot_rows_app pid sl t : forall i,
  slot_rows pid (sl ++ [Some (t, false)]) i = slot_rows pid sl i ++ [mkRow (mkRowId pid (Z.of_nat (i + length sl))) t].
Proof.
  induction sl as [|y sl IH]; intros i; cbn [app slot_rows length]; [by rewrite Nat.add_0_r|].
  replace (i + S (length sl))%nat with (S i + length sl)%nat by lia.
  destruct y as [[t0 []]|]; cbn [slot_rows]; rewrite IH; reflexivity.
Qed.

(** A slot whose liveness does not change keeps the live slots. *)
Lemma live_from_same sl x y : forall i k, sl !! k = Some y -> live x = live y -> live_from (<[k := x]> sl) i = live_from sl i.
Proof.
  induction sl as [|z sl IH]; intros i k Hk Hxy; [discriminate|].
  destruct k as [|k].
  - injection Hk as ->. change (<[0%nat := x]> (y :: sl)) with (x :: sl). cbn [live_from]. by rewrite Hxy.
  - cbn in Hk. change (<[S k := x]> (z :: sl)) with (z :: <[k := x]> sl). cbn [live_from].
    by rewrite (IH (S i) k Hk Hxy).
Qed.

Lemma live_from_elem sl : forall i j, j ∈ live_from sl i -> (i <= j)%nat /\ exists t, sl !! (j - i)%nat = Some (Some (t, false)).
Proof.
  induction sl as [|[[t []]|] sl IH]; intros i j Hj; cbn [live_from live] in Hj; [inversion Hj| | |].
  - destruct (IH (S i) j Hj) as [Hle [t' Ht]]. split; [lia|]. exists t'. replace (j - i)%nat with (S (j - S i)) by lia. done.
  - apply elem_of_cons in Hj as [->|Hj].
    + split; [lia|]. exists t. by rewrite Nat.sub_diag.
    + destruct (IH (S i) j Hj) as [Hle [t' Ht]]. split; [lia|]. exists t'. replace (j - i)%nat with (S (j - S i)) by lia. done.
  - destruct (IH (S i) j Hj) as [Hle [t' Ht]]. split; [lia|]. exists t'. replace (j - i)%nat with (S (j - S i)) by lia. done.
Qed.

(** A slot [GetTuple] finds nothing in has no row. *)
Lemma page_rows_not_live pid p slot :
  tp_GetTuple p slot = None -> filter (fun r => rid_ r <> mkRowId pid slot) (page_rows pid p) = page_rows pid p.
Proof.
  intros Hg. apply slot_rows_other, Forall_forall. intros j Hj [= E].
  destruct (live_from_elem _ 0 j Hj) as [_ [t Ht]]. rewrite Nat.sub_0_r in Ht.
  rewrite E, tp_GetTuple_nat, Ht in Hg. discriminate.
Qed.

Lemma page_rows_set_dead pid p slot x :
  0 <= slot -> live x = false ->
  page_rows pid (tp_set_slot p slot x) = filter (fun r => rid_ r <> mkRowId pid slot) (page_rows pid p).
Proof.
  intros Hs Hx. unfold page_rows, tp_set_slot. cbn [tp_slots set_slots]. rewrite slot_rows_kill by exact Hx.
  by rewrite Nat.add_0_l, Z2Nat.id.
Qed.

Lemma tp_slot_GetTuple p slot t :
  tp_slot p slot = Some (Some (t, false)) -> tp_GetTuple p slot = Some t.
Proof. unfold tp_GetTuple. by intros ->. Qed.

Lemma tp_slot_nonneg p slot o : tp_slot p slot = Some o -> 0 <= slot /\ tp_slots p !! Z.to_nat slot = Some o.
Proof. unfold tp_slot. destruct (Z.leb_spec 0 slot); [auto|discriminate]. Qed.

(** [MarkDelete] and [ApplyDelete] take the slot's row out of the page. *)
Lemma page_rows_MarkDelete pid p slot :
  page_rows pid (fst (tp_MarkDelete p slot)) = filter (fun r => rid_ r <> mkRowId pid slot) (page_rows pid p).
Proof.
  unfold tp_MarkDelete. destruct (tp_slot p slot) as [[[t []]|]|] eqn:E; cbn [fst];
    try (symmetry; apply page_rows_not_live; unfold tp_GetTuple; rewrite E; reflexivity).
  apply page_rows_set_dead; [exact (proj1 (tp_slot_nonneg _ _ _ E))|reflexivity].
Qed.

Lemma page_rows_ApplyDelete pid p slot :
  page_rows pid (tp_ApplyDelete p slot) = filter (fun r => rid_ r <> mkRowId pid slot) (page_rows pid p).
Proof.
  unfold tp_ApplyDelete. destruct (tp_slot p slot) as [[[t b]|]|] eqn:E;
    try (symmetry; apply page_rows_not_live; unfold tp_GetTuple; rewrite E; reflexivity).
  apply page_rows_set_dead; [exact (proj1 (tp_slot_nonneg _ _ _ E))|reflexivity].
Qed.

Lemma tp_MarkDelete_header p slot :
  tp_page_id (fst (tp_MarkDelete p slot)) = tp_page_id p /\ tp_next_page_id (fst (tp_MarkDelete p slot)) = tp_next_page_id p.
Proof. unfold tp_MarkDelete. destruct (tp_slot p slot) as [[[t []]|]|]; done. Qed.

Lemma tp_ApplyDelete_header p slot :
  tp_page_id (tp_ApplyDelete p slot) = tp_page_id p /\ tp_next_page_id (tp_ApplyDelete p slot) = tp_next_page_id p.
Proof. unfold tp_ApplyDelete. destruct (tp_slot p slot) as [[[t b]|]|]; done. Qed.

Section Sized.
Variable tuple_size : list Field -> Z.

(** [InsertTuple] adds the tuple's row to the page. *)
Lemma page_rows_InsertTuple pid p t p' slot :
  tp_InsertTuple tuple_size p t = Some (p', slot) ->
  page_rows pid p' ≡ₚ mkRow (mkRowId pid slot) t :: page_rows pid p.
Proof.
  unfold tp_InsertTuple. destruct (_ <=? _); [|discriminate].
  destruct (first_free (tp_slots p) 0) as [k|] eqn:Ef; intros [= <- <-]; unfold page_rows; cbn [tp_slots set_slots].
  - apply first_free_spec in Ef as [_ Hk]. rewrite Nat.sub_0_r in Hk. exact (slot_rows_fill pid _ t 0 k Hk).
  - rewrite slot_rows_app. cbn [Nat.add]. symmetry. apply Permutation_cons_append.
Qed.

(** [UpdateTuple] replaces the slot's row and keeps the live slots. *)
Lemma page_rows_UpdateTuple pid p t slot p' :
  tp_UpdateTuple tuple_size p t slot = Some p' ->
  page_rows pid p' =
    (fun r => if decide (rid_ r = mkRowId pid slot) then mkRow (mkRowId pid slot) t else r) <$> page_rows pid p /\
  live_slots p' = live_slots p /\ length (tp_slots p') = length (tp_slots p) /\
  tp_page_id p' = tp_page_id p /\ tp_next_page_id p' = tp_next_page_id p.
Proof.
  unfold tp_UpdateTuple. destruct (tp_slot p slot) as [[[old []]|]|] eqn:E; try discriminate.
  destruct (_ <=? _); [|discriminate]. intros [= <-]. apply tp_slot_nonneg in E as [Hs Hk].
  unfold page_rows, live_slots, tp_set_slot. cbn [tp_slots set_slots tp_page_id tp_next_page_id].
  rewrite (slot_rows_update pid _ old t 0 _ Hk), Nat.add_0_l, Z2Nat.id by exact Hs.
  split; [reflexivity|]. split; [exact (live_from_same _ (Some (t, false)) _ 0 _ Hk eq_refl)|]. split; [|done].
  apply length_insert.
Qed.

End Sized.

End PageRows.

(** ** The rows of a page chain *)

Section HeapRows.
Context {Field : Type}.
Implicit Types (m : gmap Z (TablePage (list Field))) (pids : list Z).

Definition rows_at m (pid : Z) : list (Row Field) :=
  match m !! pid with Some p => page_rows pid p | None => [] end.

(** The live tuples of the pages [pids], in chain and slot order. *)
Definition heap_rows m pids : list (Row Field) := concat (map (rows_at m) pids).

Lemma heap_rows_cons m pid pids : heap_rows m (pid :: pids) = rows_at m pid ++ heap_rows m pids.
Proof. reflexivity. Qed.

Lemma heap_rows_app m pids1 pids2 : heap_rows m (pids1 ++ pids2) = heap_rows m pids1 ++ heap_rows m pids2.
Proof. unfold heap_rows. by rewrite map_app, concat_app. Qed.

Lemma heap_rows_ext m m' pids : (forall x, x ∈ pids -> rows_at m' x = rows_at m x) -> heap_rows m' pids = heap_rows m pids.
Proof.
  induction pids as [|x pids IH]; intros Hx; [done|]. rewrite !heap_rows_cons, Hx, IH by set_solver. done.
Qed.

(** A page whose rows are filtered, the rows of the other pages all
    passing the filter. *)
Lemma heap_rows_filter m pid p p' (P : Row Field -> Prop) `{forall r, Decision (P r)} pids :
  m !! pid = Some p -> page_rows pid p' = filter P (page_rows pid p) ->
  (forall x, x <> pid -> Forall P (rows_at m x)) ->
  heap_rows (<[pid := p']> m) pids = filter P (heap_rows m pids).
Proof.
  intros Hp Hp' Hall. induction pids as [|x pids IH]; [done|]. rewrite !heap_rows_cons, filter_app, IH. f_equal.
  unfold rows_at at 1. destruct (decide (x = pid)) as [->|Hne].
  - rewrite lookup_insert_eq, Hp'. unfold rows_at. by rewrite Hp.
  - rewrite lookup_insert_ne by congruence. symmetry. apply filter_Forall_id, (Hall x Hne).
Qed.

(** A page whose rows are mapped, the rows of the other pages fixed by
    the map. *)
Lemma heap_rows_fmap m pid p p' (g : Row Field -> Row Field) pids :
  m !! pid = Some p -> page_rows pid p' = g <$> page_rows pid p ->
  (forall x, x <> pid -> Forall (fun r => g r = r) (rows_at m x)) ->
  heap_rows (<[pid := p']> m) pids = g <$> heap_rows m pids.
Proof.
  intros Hp Hp' Hall. induction pids as [|x pids IH]; [done|]. rewrite !heap_rows_cons, fmap_app, IH. f_equal.
  unfold rows_at at 1. destruct (decide (x = pid)) as [->|Hne].
  - rewrite lookup_insert_eq, Hp'. unfold rows_at. by rewrite Hp.
  - rewrite lookup_insert_ne by congruence. symmetry. apply fmap_Forall_id, (Hall x Hne).
Qed.

Lemma heap_rows_notin m q pq pids : q ∉ pids -> heap_rows (<[q := pq]> m) pids = heap_rows m pids.
Proof.
  intros Hq. apply heap_rows_ext. intros x Hx. unfold rows_at. rewrite lookup_insert_ne; [done|]. intros ->. exact (Hq Hx).
Qed.

(** A page of the chain that gains a row. *)
Lemma heap_rows_perm m q pq pq' r pids :
  m !! q = Some pq -> page_rows q pq' ≡ₚ r :: page_rows q pq -> q ∈ pids -> NoDup pids ->
  heap_rows (<[q := pq']> m) pids ≡ₚ r :: heap_rows m pids.
Proof.
  intros Hq Hr. induction pids as [|y pids IH]; intros Hin Hnd; [inversion Hin|].
  apply NoDup_cons in Hnd as [Hy Hnd]. rewrite !heap_rows_cons. unfold rows_at.
  destruct (decide (y = q)) as [->|Hne].
  - rewrite lookup_insert_eq, Hq, heap_rows_notin by exact Hy. by rewrite Hr.
  - apply elem_of_cons in Hin as [->|Hin]; [congruence|]. rewrite lookup_insert_ne by congruence.
    rewrite (IH Hin Hnd). symmetry. apply Permutation_middle.
Qed.

(** The rows of a page are rows of that page. *)
Lemma rows_at_rids m x r : r ∈ rows_at m x -> page_id (rid_ r) = x.
Proof.
  unfold rows_at. destruct (m !! x) as [p|]; [|intros Hr; inversion Hr].
  intros (j & _ & -> & _)%slot_rows_elem. reflexivity.
Qed.

Lemma heap_rows_rids m pids r : r ∈ heap_rows m pids -> page_id (rid_ r) ∈ pids.
Proof.
  unfold heap_rows. intros (l & Hl & Hr)%list_elem_of_In%in_concat.
  apply in_map_iff in Hl as (x & <- & Hx). apply list_elem_of_In in Hr, Hx. by rewrite (rows_at_rids m x r Hr).
Qed.

(** ** Chains *)

Lemma chain_det m pid pids pids' : chain m pid pids -> chain m pid pids' -> pids = pids'.
Proof.
  intros Hc. revert pids'. induction Hc as [pid Hn|pid p pids Hp Hid Hnot Hch IH]; intros pids' Hc'.
  - inversion Hc'; congruence.
  - inversion Hc' as [? Hn|? p' pids'' Hp' _ _ Hch']; subst; [congruence|]. rewrite Hp in Hp'. injection Hp' as <-.
    by rewrite (IH _ Hch').
Qed.

Lemma chain_pids_complete m pid pids : chain m pid pids -> forall fuel, (length pids < fuel)%nat -> chain_pids fuel m pid = Some pids.
Proof.
  induction 1 as [pid Hn|pid p pids Hp Hid Hnot Hch IH]; intros [|fuel] Hf; cbn in Hf; try lia; cbn [chain_pids].
  - by rewrite Hn.
  - rewrite Hp, bool_decide_true by exact Hid. rewrite (IH fuel) by lia. cbn. by rewrite bool_decide_false.
Qed.

(** A page rewritten under its own id and with its next page kept. *)
Lemma chain_update m h pids pid p p' :
  chain m h pids -> m !! pid = Some p -> tp_page_id p' = tp_page_id p -> tp_next_page_id p' = tp_next_page_id p ->
  chain (<[pid := p']> m) h pids.
Proof.
  intros Hc Hp Hid Hnext. induction Hc as [x Hn|x q qs Hq Hqid Hnot Hch IH].
  - constructor. rewrite lookup_insert_ne; [exact Hn|]. intros ->. congruence.
  - destruct (decide (x = pid)) as [->|Hne].
    + rewrite Hp in Hq. injection Hq as <-. econstructor; [apply lookup_insert_eq|congruence|exact Hnot|by rewrite Hnext].
    + econstructor; [rewrite lookup_insert_ne by congruence; exact Hq|exact Hqid|exact Hnot|exact IH].
Qed.

Lemma chain_inv m h x rest :
  chain m h (x :: rest) -> h = x /\ exists p, m !! x = Some p /\ tp_page_id p = x /\ x ∉ rest /\ chain m (tp_next_page_id p) rest.
Proof. inversion 1; subst; eauto 6. Qed.

(** A new page linked after the last page of a chain. *)
Lemma chain_extend m h l pl n pn : forall pre,
  chain m h (pre ++ [l]) -> m !! l = Some pl -> m !! n = None -> tp_page_id pn = n ->
  <[n := pn]> (<[l := tp_SetNextPageId pl n]> m) !! tp_next_page_id pn = None ->
  chain (<[n := pn]> (<[l := tp_SetNextPageId pl n]> m)) h (pre ++ [l; n]).
Proof.
  intros pre. revert h. induction pre as [|x pre IH]; intros h Hc Hl Hn Hid Hend; cbn [app] in *.
  - apply chain_inv in Hc as (-> & q & Hq & Hqid & _ & Hch). rewrite Hl in Hq. injection Hq as <-.
    assert (l <> n) by congruence.
    econstructor; [rewrite lookup_insert_ne, lookup_insert_eq by done; reflexivity|exact Hqid|set_solver|].
    cbn [tp_next_page_id tp_SetNextPageId]. econstructor; [apply lookup_insert_eq|exact Hid|set_solver|].
    by constructor.
  - apply chain_inv in Hc as (-> & q & Hq & Hqid & Hnot & Hch).
    assert (x <> n) by congruence. assert (x <> l) by (intros ->; apply Hnot; set_solver).
    econstructor; [rewrite !lookup_insert_ne by done; exact Hq|exact Hqid| |exact (IH _ Hch Hl Hn Hid Hend)].
    rewrite elem_of_app in Hnot |- *. set_solver.
Qed.

End HeapRows.

(** ** Reading and scanning a heap *)

Section Scanning.
Context {Field : Type}.
Implicit Types (m : gmap Z (TablePage (list Field))) (hs : HeapStore (list Field)).

(** [*it]: the row [GetTuple] reads at a [RowId]. *)
Definition read_row hs (rid : RowId) : option (Row Field) := mkRow rid <$> snd (GetTuple hs rid).

Lemma omap_ext_in {A B} (f g : A -> option B) (l : list A) : (forall x, x ∈ l -> f x = g x) -> omap f l = omap g l.
Proof. intros H. apply list_omap_ext, Forall_Forall2_diag, Forall_forall. exact H. Qed.

Lemma omap_map_comp {A B C} (f : B -> option C) (g : A -> B) (l : list A) : omap f (map g l) = omap (fun x => f (g x)) l.
Proof. induction l as [|x l IH]; cbn; [done|]. destruct (f (g x)); cbn; by rewrite IH. Qed.

Lemma read_page hs pid p : hpages hs !! pid = Some p -> omap (read_row hs) (page_rids pid p) = page_rows pid p.
Proof.
  intros Hp. unfold page_rids, page_rows, live_slots. rewrite omap_map_comp.
  rewrite <- (slot_rows_read pid (tp_slots p) 0 (fun j => tp_slots p !! j)) by reflexivity.
  apply omap_ext_in. intros j _. unfold read_row, GetTuple. cbn [page_id slot_num]. rewrite (hfetch_some _ _ p Hp).
  cbn [snd]. by rewrite tp_GetTuple_nat.
Qed.

(** Reading the [RowId]s of the live tuples gives the live tuples. *)
Lemma read_live_rids hs pids : omap (read_row hs) (live_rids (hpages hs) pids) = heap_rows (hpages hs) pids.
Proof.
  induction pids as [|x pids IH]; [done|]. unfold live_rids in *. cbn [map concat]. rewrite omap_app, IH, heap_rows_cons.
  f_equal. unfold rows_at. destruct (hpages hs !! x) eqn:Hx; [by apply read_page|done].
Qed.

(** A scan from [Begin()] over a chain whose first page has a live tuple
    visits every live tuple, with fuel enough. *)
Lemma Begin_scan_n h (s : HeapStore (list Field)) p pids :
  hpages s !! INVALID_PAGE_ID = None -> chain (hpages s) h pids -> hpages s !! h = Some p -> live_slots p <> [] ->
  exists s1 it, Begin (mkTableHeap h) s = Some (s1, it) /\ hpages s1 = hpages s /\
    forall n, (length (live_rids (hpages s) pids) < n)%nat -> scan n s1 it = Some (live_rids (hpages s) pids).
Proof.
  intros Hinv Hc Hp Hl. destruct (chain_head _ _ _ p Hc Hp) as (pids' & -> & Hid & Hch).
  destruct (live_slots p) as [|j l2] eqn:El; [congruence|].
  eexists _, _. split; [rewrite (Begin_some (mkTableHeap h) s p Hp), El; reflexivity|]. split; [rewrite hpages_hunpin; reflexivity|].
  intros n Hn. apply (scan_cursor (hpages s)); [exact Hinv|rewrite hpages_hunpin; reflexivity| |exact Hn].
  exists h, p, [], j, l2, pids'. rewrite Hid. rewrite (live_rids_cons _ _ p _ Hp), (page_rids_cons _ p j l2 El). auto 7.
Qed.

(** The live tuples of a store: the scan's fuel. *)
Definition live_count m : nat :=
  sum_list_with (fun pid => match m !! pid with Some p => length (live_slots p) | None => 0%nat end) (elements (dom m)).

Lemma sum_list_with_perm {A} (f : A -> nat) (l l' : list A) : l ≡ₚ l' -> sum_list_with f l = sum_list_with f l'.
Proof. induction 1; cbn; lia. Qed.

Lemma sum_list_with_ext {A} (f g : A -> nat) (l : list A) : (forall x, f x = g x) -> sum_list_with f l = sum_list_with g l.
Proof. intros H. induction l as [|x l IH]; cbn; [done|]. by rewrite H, IH. Qed.

Lemma length_live_rids m pids :
  length (live_rids m pids) = sum_list_with (fun pid => match m !! pid with Some p => length (live_slots p) | None => 0%nat end) pids.
Proof.
  induction pids as [|x pids IH]; [done|]. unfold live_rids in *. cbn [map concat sum_list_with].
  rewrite length_app, IH. destruct (m !! x); [unfold page_rids; rewrite length_map|]; reflexivity.
Qed.

Lemma live_rids_bound m h pids : chain m h pids -> (length (live_rids m pids) <= live_count m)%nat.
Proof.
  intros Hc. destruct (chain_in_dom _ _ _ Hc) as [Hnd Hsub]. rewrite length_live_rids. unfold live_count.
  destruct (submseteq_Permutation pids (elements (dom m))) as [k Hk].
  { apply NoDup_submseteq; [exact Hnd|]. intros x Hx. apply elem_of_elements, Hsub, elem_of_list_to_set, Hx. }
  rewrite (sum_list_with_perm _ _ _ Hk), sum_list_with_app. lia.
Qed.

(** Two stores whose pages agree on their ids, next pages and live
    slots: an iteration cannot tell them apart. *)
Definition same_shape m m' : Prop :=
  forall pid, match m !! pid, m' !! pid with
              | Some p, Some p' => tp_page_id p = tp_page_id p' /\ tp_next_page_id p = tp_next_page_id p' /\
                                   live_slots p = live_slots p'
              | None, None => True
              | _, _ => False
              end.

Lemma same_shape_refl m : same_shape m m.
Proof. intros pid. destruct (m !! pid); auto. Qed.

Lemma same_shape_dom m m' : same_shape m m' -> dom m = dom m'.
Proof.
  intros Hs. apply leibniz_equiv. intros x. rewrite !elem_of_dom. specialize (Hs x).
  destruct (m !! x), (m' !! x); try contradiction; split; intros [? ?]; eauto; discriminate.
Qed.

Lemma same_shape_live_count m m' : same_shape m m' -> live_count m = live_count m'.
Proof.
  intros Hs. unfold live_count. rewrite (same_shape_dom m m' Hs). apply sum_list_with_ext. intros x.
  specialize (Hs x). destruct (m !! x), (m' !! x); try contradiction; [|done]. destruct Hs as (_ & _ & ->). done.
Qed.

Lemma GetNextTupleRid_slots (p : TablePage (list Field)) slot :
  tp_GetNextTupleRid p slot = Z.of_nat <$> head (List.filter (fun x => (S (Z.to_nat slot) <=? x)%nat) (live_slots p)).
Proof. unfold tp_GetNextTupleRid. rewrite first_live_head, <- (Nat.add_0_l (S (Z.to_nat slot))), live_from_drop. reflexivity. Qed.

Lemma walk_pages fuel : forall hs pid hs1 it, walk fuel hs pid = Some (hs1, it) -> hpages hs1 = hpages hs.
Proof.
  induction fuel as [|f IH]; intros hs pid hs1 it Hw; [discriminate|]. cbn [walk] in Hw. unfold hfetch in Hw.
  destruct (hpages hs !! pid) as [p|]; cbn [mbind option_bind] in Hw; [|by injection Hw as <-].
  destruct (tp_GetFirstTupleRid p); [injection Hw as <- _; rewrite hpages_hunpin; reflexivity|].
  rewrite (IH _ _ _ _ Hw). rewrite hpages_hunpin; reflexivity.
Qed.

Lemma walk_snd fuel : forall hs hs' pid, same_shape (hpages hs) (hpages hs') ->
  snd <$> walk fuel hs pid = snd <$> walk fuel hs' pid.
Proof.
  induction fuel as [|f IH]; intros hs hs' pid Hs; [done|]. cbn [walk]. unfold hfetch.
  pose proof (Hs pid) as Hp. destruct (hpages hs !! pid) as [p|], (hpages hs' !! pid) as [p'|]; try contradiction;
    cbn [mbind option_bind]; [|done].
  destruct Hp as (Hid & Hn & Hl). rewrite !GetFirstTupleRid_live, Hl. destruct (head (live_slots p')); cbn.
  - by rewrite Hid.
  - rewrite Hn. apply IH. rewrite !hpages_hunpin. exact Hs.
Qed.

Lemma iter_next_pages hs it hs1 it' : iter_next hs it = Some (hs1, it') -> hpages hs1 = hpages hs.
Proof.
  unfold iter_next, hfetch. destruct (hpages hs !! page_id it) as [p|]; cbn [mbind option_bind]; [|by intros [= <- _]].
  destruct (tp_GetNextTupleRid p _); [intros [= <- _]; rewrite hpages_hunpin; reflexivity|].
  intros Hw. rewrite (walk_pages _ _ _ _ _ Hw). rewrite hpages_hunpin; reflexivity.
Qed.

Lemma iter_next_snd hs hs' it : same_shape (hpages hs) (hpages hs') -> snd <$> iter_next hs it = snd <$> iter_next hs' it.
Proof.
  intros Hs. unfold iter_next, hfetch.
  pose proof (Hs (page_id it)) as Hp. destruct (hpages hs !! page_id it) as [p|], (hpages hs' !! page_id it) as [p'|];
    try contradiction; cbn [mbind option_bind]; [|done].
  destruct Hp as (Hid & Hn & Hl). rewrite !GetNextTupleRid_slots, Hl.
  destruct (head _) as [j|]; [cbn; by rewrite Hid|]. cbn [fmap option_fmap option_map]. rewrite Hn.
  unfold hfuel. cbn [hpages]. rewrite <- !size_dom, (same_shape_dom _ _ Hs). apply walk_snd. rewrite !hpages_hunpin. exact Hs.
Qed.

Lemma scan_shape n : forall hs hs' it, same_shape (hpages hs) (hpages hs') -> scan n hs it = scan n hs' it.
Proof.
  induction n as [|n IH]; intros hs hs' it Hs; [done|]. cbn [scan]. destruct (rid_eqb it End); [done|].
  pose proof (iter_next_snd hs hs' it Hs) as Hi.
  destruct (iter_next hs it) as [[hs1 i1]|] eqn:E1, (iter_next hs' it) as [[hs1' i1']|] eqn:E2; cbn in Hi; try discriminate;
    [|done]. injection Hi as <-. cbn [mbind option_bind]. rewrite (IH hs1 hs1').
  - done.
  - rewrite (iter_next_pages _ _ _ _ E1), (iter_next_pages _ _ _ _ E2). exact Hs.
Qed.

Lemma Begin_pages th hs hs1 it : Begin th hs = Some (hs1, it) -> hpages hs1 = hpages hs.
Proof.
  unfold Begin, hfetch. destruct (hpages hs !! first_page_id_ th); cbn [mbind option_bind]; [|discriminate].
  intros [= <- _]. rewrite hpages_hunpin; reflexivity.
Qed.

Lemma Begin_snd th hs hs' : same_shape (hpages hs) (hpages hs') -> snd <$> Begin th hs = snd <$> Begin th hs'.
Proof.
  intros Hs. unfold Begin, hfetch. pose proof (Hs (first_page_id_ th)) as Hp.
  destruct (hpages hs !! _) as [p|], (hpages hs' !! _) as [p'|]; try contradiction; cbn [mbind option_bind]; [|done].
  destruct Hp as (Hid & _ & Hl). rewrite !GetFirstTupleRid_live, Hl, Hid. reflexivity.
Qed.

(** The [RowId]s the loop [for (it = Begin(); it != End(); ++it)] visits,
    with one step per live tuple of the store and one more. *)
Definition scan_rids (h : Z) hs : option (list RowId) :=
  '(hs1, it) ← Begin (mkTableHeap h) hs; scan (S (live_count (hpages hs1))) hs1 it.

Lemma scan_rids_shape h hs hs' : same_shape (hpages hs) (hpages hs') -> scan_rids h hs = scan_rids h hs'.
Proof.
  intros Hs. unfold scan_rids. pose proof (Begin_snd (mkTableHeap h) hs hs' Hs) as Hb.
  destruct (Begin _ hs) as [[hs1 i1]|] eqn:E1, (Begin _ hs') as [[hs1' i1']|] eqn:E2; cbn in Hb; try discriminate; [|done].
  injection Hb as <-. cbn [mbind option_bind].
  rewrite (Begin_pages _ _ _ _ E1), (Begin_pages _ _ _ _ E2), (same_shape_live_count _ _ Hs).
  apply scan_shape. rewrite (Begin_pages _ _ _ _ E1), (Begin_pages _ _ _ _ E2). exact Hs.
Qed.

End Scanning.

(** ** One table heap *)

Section Heap.
Context {Field : Type}.
Implicit Types (m : gmap Z (TablePage (list Field))) (hs : HeapStore (list Field)).

(** The rows the loop [for (it = Begin(); it != End(); ++it)] reads
    through [*it]. *)
Definition heap_scan_rows (h : Z) hs : list (Row Field) :=
  match scan_rids h hs with Some rids => omap (read_row hs) rids | None => [] end.

(** The live tuples of the chain of pages from [h]. *)
Definition heap_tuples (h : Z) hs : list (Row Field) :=
  match chain_pids (hfuel hs) (hpages hs) h with Some pids => heap_rows (hpages hs) pids | None => [] end.

(** Every next-page link is [INVALID_PAGE_ID] or names a page. *)
Definition links_closed m : Prop :=
  forall pid p, m !! pid = Some p -> tp_next_page_id p = INVALID_PAGE_ID \/ is_Some (m !! tp_next_page_id p).

(** A well-formed heap, as [TableHeap::Create] makes it: its first page
    id is valid and names a page, the chain from it ends, every link is
    closed, every page is stored under its own id, a nonnegative id below
    the next id to allocate, and no pin count is negative. *)
Definition heap_wf (h : Z) hs : Prop :=
  h <> INVALID_PAGE_ID /\ (exists pids, chain (hpages hs) h pids) /\
  (forall pid p, hpages hs !! pid = Some p -> tp_page_id p = pid /\ 0 <= pid < hnext_page_id hs) /\
  (forall x, 0 <= hpin_of hs x) /\ 0 <= hnext_page_id hs /\
  is_Some (hpages hs !! h) /\ links_closed (hpages hs).

(** [heap_wf] as a check that evaluates on a concrete heap. *)
Definition heap_wfb (h : Z) hs : bool :=
  bool_decide (h <> INVALID_PAGE_ID) && bool_decide (is_Some (chain_pids (hfuel hs) (hpages hs) h)) &&
  bool_decide (map_Forall (fun pid p => tp_page_id p = pid /\ 0 <= pid < hnext_page_id hs) (hpages hs)) &&
  bool_decide (map_Forall (fun _ v => 0 <= v) (hpins hs)) && bool_decide (0 <= hnext_page_id hs) &&
  bool_decide (is_Some (hpages hs !! h)) &&
  bool_decide (map_Forall (fun _ p => tp_next_page_id p = INVALID_PAGE_ID \/ is_Some (hpages hs !! tp_next_page_id p))
                 (hpages hs)).

Lemma heap_wfb_sound h hs : heap_wfb h hs = true -> heap_wf h hs.
Proof.
  unfold heap_wfb. rewrite !andb_true_iff, !bool_decide_eq_true.
  intros ((((((Hh & [pids Hc]) & Hid) & Hpin) & Hn) & Hh0) & Hcl).
  split_and!; [done|exists pids; exact (chain_pids_sound _ _ _ _ Hc)|exact Hid| |done|done|exact Hcl].
  intros x. unfold hpin_of. destruct (hpins hs !! x) as [v|] eqn:E; cbn; [exact (Hpin x v E)|lia].
Qed.

Lemma links_closed_write m pid p p' :
  links_closed m -> m !! pid = Some p -> tp_next_page_id p' = tp_next_page_id p -> links_closed (<[pid := p']> m).
Proof.
  intros Hl Hp Hn x q. rewrite lookup_insert_is_Some'.
  destruct (decide (x = pid)) as [->|Hne]; [rewrite lookup_insert_eq; intros [= <-]; rewrite Hn; specialize (Hl _ _ Hp); tauto|].
  rewrite lookup_insert_ne by congruence. intros Hq. specialize (Hl _ _ Hq). tauto.
Qed.

Lemma heap_tuples_chain h hs pids : chain (hpages hs) h pids -> heap_tuples h hs = heap_rows (hpages hs) pids.
Proof.
  intros Hc. unfold heap_tuples. rewrite (chain_pids_complete _ _ _ Hc); [done|].
  pose proof (chain_length _ _ _ Hc). unfold hfuel. lia.
Qed.

Lemma wf_invalid h hs : heap_wf h hs -> hpages hs !! INVALID_PAGE_ID = None.
Proof.
  intros (_ & _ & Hid & _). destruct (hpages hs !! INVALID_PAGE_ID) as [p|] eqn:E; [|done].
  destruct (Hid _ _ E) as [_ Hr]. unfold INVALID_PAGE_ID in Hr. lia.
Qed.

Lemma rids_heap_rows m pids : rid_ <$> heap_rows m pids = live_rids m pids.
Proof.
  induction pids as [|x pids IH]; [done|]. rewrite heap_rows_cons, fmap_app, IH. unfold live_rids. cbn [map concat].
  f_equal. unfold rows_at. destruct (m !! x); [|done]. unfold page_rows. by rewrite slot_rows_rids.
Qed.

Lemma heap_tuples_NoDup h hs : heap_wf h hs -> NoDup (rid_ <$> heap_tuples h hs).
Proof.
  intros Hwf. destruct Hwf as (_ & [pids Hc] & _). rewrite (heap_tuples_chain _ _ _ Hc), rids_heap_rows.
  exact (live_rids_NoDup _ _ _ Hc).
Qed.

(** The iteration visits the live tuples, or nothing. *)
Lemma heap_rows_view h hs : heap_wf h hs -> heap_scan_rows h hs = heap_tuples h hs \/ heap_scan_rows h hs = [].
Proof.
  intros Hwf. pose proof (wf_invalid h hs Hwf) as Hinv. destruct Hwf as (_ & [pids Hc] & _).
  unfold heap_scan_rows, scan_rids. destruct (hpages hs !! h) as [p|] eqn:Hp.
  2: { right. unfold Begin. cbn [first_page_id_]. rewrite (hfetch_none _ _ Hp). reflexivity. }
  destruct (live_slots p) as [|j l2] eqn:El.
  - right. rewrite (Begin_some (mkTableHeap h) hs p Hp), El. reflexivity.
  - left. destruct (Begin_scan_n h hs p pids Hinv Hc Hp ltac:(by rewrite El)) as (hs1 & it & Hb & Hpg & Hs).
    rewrite Hb. cbn [mbind option_bind]. rewrite Hs by (rewrite Hpg; pose proof (live_rids_bound _ _ _ Hc); lia).
    rewrite read_live_rids. symmetry. exact (heap_tuples_chain _ _ _ Hc).
Qed.

Lemma pins_hunpin hs pid : (forall x, 0 <= hpin_of hs x) -> forall x, 0 <= hpin_of (hunpin hs pid) x.
Proof.
  intros H x. unfold hunpin. destruct (Z.ltb_spec 0 (hpin_of hs pid)); [|apply H].
  unfold hpin_of at 1. cbn [hpins]. destruct (decide (x = pid)) as [->|Hne].
  - rewrite lookup_insert_eq. cbn. lia.
  - rewrite lookup_insert_ne by done. apply H.
Qed.

Lemma pins_bump hs pid : (forall x, 0 <= hpin_of hs x) -> forall x, 0 <= hpin_of (bump hs pid) x.
Proof.
  intros H x. unfold hpin_of at 1. cbn [bump hpins]. destruct (decide (x = pid)) as [->|Hne].
  - rewrite lookup_insert_eq. cbn. specialize (H pid). lia.
  - rewrite lookup_insert_ne by done. apply H.
Qed.

(** A fetch, a write of page [pid] and its unpin. *)
Lemma write_page hs pid p p' :
  hpages hs !! pid = Some p -> 0 <= hpin_of hs pid ->
  hpages (hunpin (hput (bump hs pid) pid p') pid) = <[pid := p']> (hpages hs) /\
  hmeta (hunpin (hput (bump hs pid) pid p') pid) = hmeta hs /\
  (forall x, hpin_of (hunpin (hput (bump hs pid) pid p') pid) x = hpin_of hs x).
Proof.
  intros Hp H0. rewrite hpages_hunpin, hmeta_hunpin. split; [reflexivity|]. split; [reflexivity|].
  intros x. rewrite hpin_of_hunpin_hput. exact (hpin_of_fetch_unpin hs pid x H0).
Qed.

Lemma hmeta_next hs hs' : hmeta hs' = hmeta hs -> hnext_page_id hs' = hnext_page_id hs.
Proof. unfold hmeta. congruence. Qed.

(** Page [pid] rewritten with its header kept: the heap stays well
    formed. *)
Lemma wf_write h hs hs' pid p p' :
  heap_wf h hs -> hpages hs !! pid = Some p -> tp_page_id p' = tp_page_id p -> tp_next_page_id p' = tp_next_page_id p ->
  hpages hs' = <[pid := p']> (hpages hs) -> hmeta hs' = hmeta hs -> (forall x, hpin_of hs' x = hpin_of hs x) ->
  heap_wf h hs'.
Proof.
  intros (Hh & [pids Hc] & Hid & Hpin & Hn & Hh0 & Hcl) Hp Hpid Hnext Hpg Hnx%hmeta_next Hpn. split; [exact Hh|]. split.
  { exists pids. rewrite Hpg. exact (chain_update _ _ _ _ _ _ Hc Hp Hpid Hnext). }
  split; [|split_and!; [intros x; rewrite Hpn; apply Hpin | lia | rewrite Hpg, lookup_insert_is_Some'; by right
                        | rewrite Hpg; exact (links_closed_write _ _ _ _ Hcl Hp Hnext)]].
  intros x q. rewrite Hpg, Hnx. destruct (decide (x = pid)) as [->|Hne].
  - rewrite lookup_insert_eq. intros [= <-]. rewrite Hpid. exact (Hid _ _ Hp).
  - rewrite lookup_insert_ne by congruence. apply Hid.
Qed.

Lemma rid_eta (rid : RowId) : rid = mkRowId (page_id rid) (slot_num rid).
Proof. by destruct rid. Qed.

(** A [RowId] on a page off the chain is not a live tuple's. *)
Lemma heap_rows_off m pids (rid : RowId) :
  page_id rid ∉ pids -> filter (fun r => rid_ r <> rid) (heap_rows m pids) = heap_rows m pids.
Proof.
  intros Hn. apply filter_Forall_id, Forall_forall. intros r Hr E. apply Hn. rewrite <- E. exact (heap_rows_rids _ _ _ Hr).
Qed.

Lemma rows_at_other m (rid : RowId) x : x <> page_id rid -> Forall (fun r => rid_ r <> rid) (rows_at m x).
Proof. intros Hne. apply Forall_forall. intros r Hr E. apply Hne. rewrite <- E. exact (eq_sym (rows_at_rids m x r Hr)). Qed.

(** Rewriting the page of [rid] so that its rows lose [rid]'s: the live
    tuples lose it and the heap stays well formed. *)
Lemma heap_tuples_kill h hs hs' (rid : RowId) p p' :
  heap_wf h hs -> hpages hs !! page_id rid = Some p ->
  page_rows (page_id rid) p' = filter (fun r => rid_ r <> rid) (page_rows (page_id rid) p) ->
  tp_page_id p' = tp_page_id p -> tp_next_page_id p' = tp_next_page_id p ->
  hpages hs' = <[page_id rid := p']> (hpages hs) -> hmeta hs' = hmeta hs ->
  (forall x, hpin_of hs' x = hpin_of hs x) ->
  heap_tuples h hs' = filter (fun r => rid_ r <> rid) (heap_tuples h hs) /\ heap_wf h hs'.
Proof.
  intros Hwf Hp Hrows Hid Hnext Hpg Hnx Hpn. pose proof (wf_write h hs hs' _ p p' Hwf Hp Hid Hnext Hpg Hnx Hpn) as Hwf'.
  split; [|exact Hwf']. destruct Hwf as (_ & [pids Hc] & _).
  assert (Hc' : chain (hpages hs') h pids) by (rewrite Hpg; exact (chain_update _ _ _ _ _ _ Hc Hp Hid Hnext)).
  rewrite (heap_tuples_chain _ _ _ Hc'), (heap_tuples_chain _ _ _ Hc), Hpg.
  apply (heap_rows_filter _ _ p); [exact Hp|exact Hrows|]. intros x Hx. by apply rows_at_other.
Qed.

(** A fetch that fails leaves the live tuples, none of which is on the
    missing page. *)
Lemma heap_tuples_missing h hs (rid : RowId) :
  heap_wf h hs -> hpages hs !! page_id rid = None -> filter (fun r => rid_ r <> rid) (heap_tuples h hs) = heap_tuples h hs.
Proof.
  intros (_ & [pids Hc] & _) Hn. rewrite (heap_tuples_chain _ _ _ Hc). apply heap_rows_off.
  intros Hin. destruct (chain_in_dom _ _ _ Hc) as [_ Hsub].
  assert (page_id rid ∈ dom (hpages hs)) as Hd%elem_of_dom by (apply Hsub, elem_of_list_to_set, Hin).
  destruct Hd as [q Hq]. congruence.
Qed.

Lemma MarkDelete_spec h hs rid :
  heap_wf h hs ->
  heap_tuples h (fst (MarkDelete hs rid)) = filter (fun r => rid_ r <> rid) (heap_tuples h hs) /\
  heap_wf h (fst (MarkDelete hs rid)).
Proof.
  intros Hwf. unfold MarkDelete, hfetch. destruct (hpages hs !! page_id rid) as [p|] eqn:Hp; cbn [mbind option_bind fst].
  2: { split; [symmetry; exact (heap_tuples_missing h hs rid Hwf Hp)|exact Hwf]. }
  destruct (tp_MarkDelete_header p (slot_num rid)) as [Hid Hnext].
  pose proof Hwf as (_ & _ & Hids & Hpin & _). destruct (Hids _ _ Hp) as [Hpid _].
  rewrite Hid, Hpid. fold (bump hs (page_id rid)).
  destruct (write_page hs _ p (fst (tp_MarkDelete p (slot_num rid))) Hp (Hpin _)) as (A & B & C).
  apply (heap_tuples_kill h hs _ rid p (fst (tp_MarkDelete p (slot_num rid)))); auto. rewrite page_rows_MarkDelete. by rewrite <- rid_eta.
Qed.

Lemma ApplyDelete_spec h hs rid :
  heap_wf h hs ->
  heap_tuples h (default hs (ApplyDelete hs rid)) = filter (fun r => rid_ r <> rid) (heap_tuples h hs) /\
  heap_wf h (default hs (ApplyDelete hs rid)).
Proof.
  intros Hwf. unfold ApplyDelete, hfetch. destruct (hpages hs !! page_id rid) as [p|] eqn:Hp; cbn [mbind option_bind default].
  2: { split; [symmetry; exact (heap_tuples_missing h hs rid Hwf Hp)|exact Hwf]. }
  destruct (tp_ApplyDelete_header p (slot_num rid)) as [Hid Hnext].
  pose proof Hwf as (_ & _ & Hids & Hpin & _). destruct (Hids _ _ Hp) as [Hpid _].
  rewrite Hid, Hpid. fold (bump hs (page_id rid)).
  destruct (write_page hs _ p (tp_ApplyDelete p (slot_num rid)) Hp (Hpin _)) as (A & B & C).
  apply (heap_tuples_kill h hs _ rid p (tp_ApplyDelete p (slot_num rid))); auto. rewrite page_rows_ApplyDelete. by rewrite <- rid_eta.
Qed.

Lemma read_row_pages hs hs' x : hpages hs' = hpages hs -> read_row hs' x = read_row hs x.
Proof. intros E. unfold read_row, GetTuple, hfetch. rewrite E. by destruct (hpages hs !! page_id x). Qed.

Lemma heap_scan_rows_pages h hs hs' : hpages hs' = hpages hs -> heap_scan_rows h hs' = heap_scan_rows h hs.
Proof.
  intros E. unfold heap_scan_rows. rewrite (scan_rids_shape h hs' hs) by (rewrite E; apply same_shape_refl).
  destruct (scan_rids h hs); [|done]. apply omap_ext_in. intros x _. by apply read_row_pages.
Qed.

Lemma tp_GetTuple_set (p : TablePage (list Field)) slot slot' v :
  0 <= slot -> slot' <> slot -> tp_GetTuple (tp_set_slot p slot v) slot' = tp_GetTuple p slot'.
Proof.
  intros H0 Hne. unfold tp_GetTuple, tp_slot, tp_set_slot, set_slots. cbn [tp_slots].
  destruct (Z.leb_spec 0 slot'); [|done]. rewrite list_lookup_insert_ne by lia. done.
Qed.

(** The row [UpdateTuple] writes in place of [rid]'s. *)
Definition upd_row (rid : RowId) (fs : list Field) (r : Row Field) : Row Field :=
  if decide (rid_ r = rid) then mkRow rid fs else r.

Section Sizes.
Variable tuple_size : list Field -> Z.
Variable sizeof_Row : Z.

(** An update that writes the page replaces [rid]'s row and keeps the
    shape of the heap, so the iteration visits the same [RowId]s. *)
Lemma UpdateTuple_spec h hs fs rid :
  let '(hs', b) := UpdateTuple tuple_size sizeof_Row hs fs rid in
  heap_scan_rows h hs' = (if b then upd_row rid fs <$> heap_scan_rows h hs else heap_scan_rows h hs).
Proof.
  unfold UpdateTuple. destruct (sizeof_Row >? PAGE_SIZE); [done|].
  unfold hfetch. destruct (hpages hs !! page_id rid) as [p|] eqn:Hp; cbn [mbind option_bind]; [|done].
  fold (bump hs (page_id rid)).
  destruct (tp_GetTuple p (slot_num rid)) as [old|] eqn:Hg; [|by apply heap_scan_rows_pages].
  destruct (tp_UpdateTuple tuple_size p fs (slot_num rid)) as [p'|] eqn:Hu; [|by apply heap_scan_rows_pages].
  destruct (page_rows_UpdateTuple tuple_size (page_id rid) p fs (slot_num rid) p' Hu) as (_ & Hl & _ & Hid & Hnx).
  rewrite tp_UpdateTuple_GetTuple, Hg in Hu. destruct (tuple_size fs <=? tuple_size old); [|discriminate].
  injection Hu as <-. unfold tp_GetTuple in Hg.
  destruct (tp_slot p (slot_num rid)) as [o|] eqn:Hs; [|discriminate].
  destruct (tp_slot_nonneg _ _ _ Hs) as [Hnn Hin].
  set (hs' := hunpin _ _). assert (Hpg : hpages hs' = <[page_id rid := tp_set_slot p (slot_num rid) (Some (fs, false))]> (hpages hs))
    by (unfold hs'; rewrite hpages_hunpin; reflexivity).
  unfold heap_scan_rows. rewrite (scan_rids_shape h hs' hs).
  2: { rewrite Hpg. intros x. destruct (decide (x = page_id rid)) as [->|Hne].
       - rewrite lookup_insert_eq, Hp. auto.
       - rewrite lookup_insert_ne by congruence. destruct (hpages hs !! x); auto. }
  destruct (scan_rids h hs); [|done]. rewrite list_fmap_omap. apply omap_ext_in. intros x _.
  unfold read_row, GetTuple, hfetch. rewrite Hpg. unfold upd_row.
  destruct (decide (page_id x = page_id rid)) as [Ex|Ne].
  - rewrite Ex, lookup_insert_eq, Hp. cbn [mbind option_bind snd].
    destruct (decide (slot_num x = slot_num rid)) as [Es|Ns].
    + assert (x = rid) as -> by (rewrite (rid_eta x), (rid_eta rid); congruence).
      unfold tp_GetTuple, tp_slot, tp_set_slot, set_slots. cbn [tp_slots]. rewrite (proj2 (Z.leb_le _ _) Hnn).
      rewrite list_lookup_insert_eq by (apply lookup_lt_is_Some; eauto). cbn. rewrite Hin.
      destruct o as [[? []]|]; try discriminate. cbn. by rewrite decide_True.
    + rewrite tp_GetTuple_set by done. destruct (tp_GetTuple p (slot_num x)); cbn; [|done].
      rewrite decide_False; [done|]. cbn. intros ->. congruence.
  - rewrite lookup_insert_ne by congruence. destruct (hpages hs !! page_id x); cbn; [|done].
    destruct (tp_GetTuple _ (slot_num x)); cbn; [|done]. rewrite decide_False; [done|]. cbn. intros ->. congruence.
Qed.

(** A row the iteration reads is updated in place when the new tuple is
    no larger. *)
Lemma UpdateTuple_true h hs fs r :
  sizeof_Row <= PAGE_SIZE -> r ∈ heap_scan_rows h hs -> tuple_size fs <= tuple_size (fields_ r) ->
  (UpdateTuple tuple_size sizeof_Row hs fs (rid_ r)).2 = true.
Proof.
  intros Hsz Hr Hle. unfold heap_scan_rows in Hr. destruct (scan_rids h hs) as [rids|]; [|inversion Hr].
  apply list_elem_of_omap in Hr as (x & _ & Hx). unfold read_row, GetTuple, hfetch in Hx.
  destruct (hpages hs !! page_id x) as [p|] eqn:Hp; [|discriminate]. cbn [mbind option_bind snd] in Hx.
  destruct (tp_GetTuple p (slot_num x)) as [old|] eqn:Hg; [|discriminate]. injection Hx as <-. cbn [rid_ fields_] in *.
  unfold UpdateTuple, hfetch. rewrite Z.gtb_ltb, (proj2 (Z.ltb_ge _ _)) by lia.
  rewrite Hp. cbn [mbind option_bind]. rewrite Hg, tp_UpdateTuple_GetTuple, Hg, (proj2 (Z.leb_le _ _) Hle). reflexivity.
Qed.

(** The loop of [InsertTuple] over a chain: it writes the tuple into a
    page of the chain, or walks the whole chain and returns its last
    page, or fails on a missing page that the first id or a link names;
    the pins come back. *)
Lemma insert_loop_cases t m : forall pids fuel hs iter last,
  chain m iter pids -> hpages hs = m -> m !! INVALID_PAGE_ID = None -> (length pids < fuel)%nat ->
  (forall x, 0 <= hpin_of hs x) ->
  match insert_loop tuple_size fuel hs iter last t with
  | None => exists x, x <> INVALID_PAGE_ID /\ m !! x = None /\
              (x = iter \/ exists y p, m !! y = Some p /\ tp_next_page_id p = x)
  | Some (hs', inl rid) =>
      exists q pq pq' slot, q ∈ pids /\ m !! q = Some pq /\ tp_InsertTuple tuple_size pq t = Some (pq', slot) /\
        rid = mkRowId q slot /\ hpages hs' = <[q := pq']> m /\ hmeta hs' = hmeta hs /\
        (forall x, hpin_of hs' x = hpin_of hs x)
  | Some (hs', inr l) =>
      hpages hs' = m /\ hmeta hs' = hmeta hs /\ (forall x, hpin_of hs' x = hpin_of hs x) /\
      ((pids = [] /\ l = last /\ iter = INVALID_PAGE_ID) \/
       (exists pre pl, pids = pre ++ [l] /\ m !! l = Some pl /\ tp_next_page_id pl = INVALID_PAGE_ID))
  end.
Proof.
  intros pids fuel hs iter last Hc. revert fuel hs last.
  induction Hc as [x Hn|x p pids Hp Hid Hnot Hch IH]; intros [|f] hs last Hpg Hinv Hlen Hpin; cbn in Hlen; try lia;
    cbn [insert_loop].
  - destruct (Z.eqb_spec x INVALID_PAGE_ID) as [->|Hne]; [by eauto 10|].
    rewrite hfetch_none by (rewrite Hpg; exact Hn). cbn [mbind option_bind]. exists x. auto.
  - rewrite (proj2 (Z.eqb_neq _ _)) by (intros ->; congruence). rewrite (hfetch_some _ _ p) by (rewrite Hpg; exact Hp).
    cbn [mbind option_bind]. rewrite <- Hpg in Hp.
    destruct (tp_InsertTuple tuple_size p t) as [[pq' slot]|] eqn:Hi.
    + destruct (tp_InsertTuple_GetTuple _ _ _ _ _ Hi) as (_ & Hid' & _). rewrite Hid', Hid.
      destruct (write_page hs x p pq' Hp (Hpin x)) as (A & B & C). rewrite Hpg in A, Hp.
      exists x, p, pq', slot. split; [left|]. auto 10.
    + rewrite Hid. set (hs1 := hunpin (bump hs x) x).
      assert (Hs1 : hpages hs1 = m /\ hmeta hs1 = hmeta hs /\ forall y, hpin_of hs1 y = hpin_of hs y).
      { unfold hs1. rewrite hpages_hunpin, hmeta_hunpin. split; [exact Hpg|]. split; [reflexivity|].
        intros y. exact (hpin_of_fetch_unpin hs x y (Hpin x)). }
      destruct Hs1 as (P1 & M1 & N1).
      specialize (IH f hs1 x P1 Hinv ltac:(lia) ltac:(intros y; rewrite N1; apply Hpin)).
      destruct (insert_loop tuple_size f hs1 _ x t) as [[hs' [rid|l]]|].
      3: { destruct IH as (y & Hy & Hny & Hor). exists y. split_and!; [done|done|right].
           destruct Hor as [->|Hl]; [exists x, p; rewrite <- Hpg; auto|exact Hl]. }
      * destruct IH as (q & pq & pq'' & slot & Hq & R). exists q, pq, pq'', slot. split; [by right|].
        destruct R as (? & ? & ? & ? & Mq & Nq). rewrite <- M1. split_and!; auto. intros y. rewrite Nq. apply N1.
      * destruct IH as (Pg & Mq & Nq & Hcase). rewrite <- M1. split_and!; auto; [intros y; rewrite Nq; apply N1|].
        right. destruct Hcase as [(-> & -> & Hnx) | (pre & pl & -> & Hl & Hnl)].
        -- exists [], p. rewrite <- Hpg. auto.
        -- by exists (x :: pre), pl.
Qed.

Lemma wf_same h hs hs1 :
  heap_wf h hs -> hpages hs1 = hpages hs -> hmeta hs1 = hmeta hs -> (forall x, hpin_of hs1 x = hpin_of hs x) ->
  heap_wf h hs1 /\ heap_tuples h hs1 = heap_tuples h hs.
Proof.
  intros (Hh & Hc & Hid & Hpin & Hn & Hh0 & Hcl) Hpg Hm%hmeta_next Hpn. unfold heap_tuples, hfuel. rewrite Hpg.
  split; [|done]. split_and!; [done|by rewrite Hpg|rewrite Hpg, Hm; exact Hid|intros x; rewrite Hpn; apply Hpin|lia
                               |by rewrite Hpg|by rewrite Hpg].
Qed.

Lemma hnext_hunpin (s : HeapStore (list Field)) pid : hnext_page_id (hunpin s pid) = hnext_page_id s.
Proof. exact (hmeta_next _ _ (hmeta_hunpin s pid)). Qed.

(** C20: [InsertTuple] on a well-formed heap and a tuple that fits an empty
    page: on success it reports the [RowId] of a tuple it added, on
    failure the live tuples are unchanged, and the heap stays well
    formed. *)
Lemma InsertTuple_spec h hs t :
  heap_wf h hs ->
  match InsertTuple tuple_size sizeof_Row (mkTableHeap h) hs t with
  | None => False
  | Some (hs', true, orid) =>
      tuple_size t + SIZE_SLOT <= PAGE_SIZE - SIZE_TABLE_PAGE_HEADER ->
      heap_wf h hs' /\ exists rid, orid = Some rid /\ heap_tuples h hs' ≡ₚ mkRow rid t :: heap_tuples h hs
  | Some (hs', false, _) => heap_wf h hs' /\ heap_tuples h hs' = heap_tuples h hs
  end.
Proof.
  intros Hwf. pose proof (wf_invalid h hs Hwf) as Hinv. pose proof Hwf as (Hh & [pids Hc] & Hids & Hpin & Hn0 & Hh0 & Hcl).
  unfold InsertTuple. destruct (sizeof_Row >? PAGE_SIZE); [done|]. cbn [first_page_id_].
  pose proof (chain_length _ _ _ Hc). pose proof (chain_in_dom _ _ _ Hc) as [Hnd Hsub].
  pose proof (insert_loop_cases t (hpages hs) pids (hfuel hs) hs h INVALID_PAGE_ID Hc eq_refl Hinv
                ltac:(unfold hfuel; lia) Hpin) as L.
  destruct (insert_loop tuple_size (hfuel hs) hs h INVALID_PAGE_ID t) as [[hs1 [rid|l]]|]; cbn [mbind option_bind].
  3: { destruct L as (x & Hx & Hnx & [->|(y & p & Hy & <-)]); [destruct Hh0; congruence|].
       destruct (Hcl _ _ Hy) as [|[]]; congruence. }
  - destruct L as (q & pq & pq' & slot & Hq & Hpq & Hi & -> & Hpg & Hm & Hpn). intros _.
    destruct (tp_InsertTuple_GetTuple _ _ _ _ _ Hi) as (_ & Hid & Hnx).
    split; [exact (wf_write h hs hs1 q pq pq' Hwf Hpq Hid Hnx Hpg Hm Hpn)|]. exists (mkRowId q slot). split; [done|].
    assert (Hc1 : chain (hpages hs1) h pids) by (rewrite Hpg; exact (chain_update _ _ _ _ _ _ Hc Hpq Hid Hnx)).
    rewrite (heap_tuples_chain _ _ _ Hc1), (heap_tuples_chain _ _ _ Hc), Hpg.
    exact (heap_rows_perm _ _ pq _ _ _ Hpq (page_rows_InsertTuple tuple_size q pq t pq' slot Hi) Hq Hnd).
  - destruct L as (Hpg & Hm & Hpn & [(_ & _ & ->) | (pre & pl & -> & Hl & Hnl)]); [done|].
    unfold hnew_page. destruct (hpool_size hs1 <=? pinned_count hs1)%nat; [exact (wf_same h hs hs1 Hwf Hpg Hm Hpn)|].
    pose proof (hmeta_next _ _ Hm) as Hnx1. set (n := hnext_page_id hs1).
    destruct (Hids l pl Hl) as [Hlid Hlr].
    assert (Hnone : hpages hs !! n = None).
    { destruct (hpages hs !! n) as [q|] eqn:E; [|done]. destruct (Hids _ _ E). unfold n in *. lia. }
    rewrite (hfetch_some _ l pl) by (cbn [hpages]; rewrite lookup_insert_ne, Hpg by (unfold n; lia); exact Hl).
    destruct (tp_InsertTuple tuple_size (tp_Init n l) t) as [[pn0 slot]|] eqn:Hi0; intros Hfit;
      [|apply tp_InsertTuple_None in Hi0; rewrite tp_free_space_Init in Hi0; lia].
    assert (Hi : tp_InsertTuple tuple_size (tp_Init n l) t = Some (set_slots (tp_Init n l) [Some (t, false)], 0))
      by (unfold tp_InsertTuple; rewrite tp_free_space_Init, (proj2 (Z.leb_le _ _) Hfit); reflexivity).
    rewrite Hi in Hi0. injection Hi0 as <- <-. set (pn := set_slots (tp_Init n l) [Some (t, false)]).
    set (hs' := hunpin (hput _ n pn) n).
    assert (Hpg' : hpages hs' = <[n := pn]> (<[l := tp_SetNextPageId pl n]> (hpages hs))).
    { unfold hs'. rewrite hpages_hunpin. cbn [hpages hput]. rewrite hpages_hunpin. cbn [hpages hput bump]. rewrite Hpg, (insert_insert_ne _ l n) by (unfold n; lia).
      by rewrite insert_insert_eq. }
    assert (Hc' : chain (hpages hs') h (pre ++ [l; n])).
    { rewrite Hpg'. apply (chain_extend _ _ _ _ _ _ pre Hc Hl Hnone); [reflexivity|]. cbn.
      rewrite !lookup_insert_ne by (unfold n, INVALID_PAGE_ID in *; lia). exact Hinv. }
    assert (Hn' : hnext_page_id hs' = n + 1) by (unfold hs'; rewrite hnext_hunpin; cbn [hnext_page_id hput]; rewrite hnext_hunpin; reflexivity).
    split.
    + split_and!; [done|by exists (pre ++ [l; n])| | | | |].
      * rewrite Hn', Hpg'. intros x q. destruct (decide (x = n)) as [->|Hxn]; [rewrite lookup_insert_eq; intros [= <-]; cbn; lia|].
        rewrite lookup_insert_ne by done. destruct (decide (x = l)) as [->|Hxl].
        -- rewrite lookup_insert_eq. intros [= <-]. cbn. unfold n in *. lia.
        -- rewrite lookup_insert_ne by done. intros Hq. destruct (Hids _ _ Hq). unfold n in *. lia.
      * intros x. apply pins_hunpin. intros y. apply pins_hunpin. intros z. apply pins_bump. intros w.
        unfold hpin_of. cbn [hpins]. destruct (decide (w = n)) as [->|Hwn]; [rewrite lookup_insert_eq; cbn; lia|].
        rewrite lookup_insert_ne by done. fold (hpin_of hs1 w). rewrite Hpn. apply Hpin.
      * rewrite Hn'. unfold n in *. lia.
      * rewrite Hpg', !lookup_insert_is_Some'. by right; right.
      * rewrite Hpg'. intros x q. rewrite !lookup_insert_is_Some'.
        destruct (decide (x = n)) as [->|Hxn]; [rewrite lookup_insert_eq; intros [= <-]; by left|].
        rewrite lookup_insert_ne by done. destruct (decide (x = l)) as [->|Hxl].
        -- rewrite lookup_insert_eq. intros [= <-]. right. by left.
        -- rewrite lookup_insert_ne by done. intros Hq. destruct (Hcl _ _ Hq) as [?|?]; [by left|by right; right; right].
    + exists (mkRowId n 0). split; [done|].
      rewrite (heap_tuples_chain _ _ _ Hc'), (heap_tuples_chain _ _ _ Hc), Hpg'.
      replace (pre ++ [l; n]) with ((pre ++ [l]) ++ [n]) by (by rewrite <- app_assoc).
      rewrite heap_rows_app, (heap_rows_ext (hpages hs)).
      * cbn. unfold rows_at. rewrite lookup_insert_eq. cbn. rewrite ?app_nil_r. symmetry. apply Permutation_cons_append.
      * intros x Hx. assert (x ∈ dom (hpages hs)) as [q Hq]%elem_of_dom by (apply Hsub, elem_of_list_to_set, Hx).
        destruct (Hids _ _ Hq). unfold rows_at. rewrite lookup_insert_ne by (unfold n in *; lia).
        destruct (decide (x = l)) as [->|Hxl]; [rewrite lookup_insert_eq, Hl; reflexivity|].
        by rewrite lookup_insert_ne.
Qed.

(** A row the iteration reads is not updated by a larger tuple. *)
Lemma UpdateTuple_false h hs fs r :
  r ∈ heap_scan_rows h hs -> tuple_size (fields_ r) < tuple_size fs ->
  (UpdateTuple tuple_size sizeof_Row hs fs (rid_ r)).2 = false.
Proof.
  intros Hr Hlt. unfold heap_scan_rows in Hr. destruct (scan_rids h hs) as [rids|]; [|inversion Hr].
  apply list_elem_of_omap in Hr as (x & _ & Hx). unfold read_row, GetTuple, hfetch in Hx.
  destruct (hpages hs !! page_id x) as [p|] eqn:Hp; [|discriminate]. cbn [mbind option_bind snd] in Hx.
  destruct (tp_GetTuple p (slot_num x)) as [old|] eqn:Hg; [|discriminate]. injection Hx as <-. cbn [rid_ fields_] in *.
  unfold UpdateTuple, hfetch. destruct (sizeof_Row >? PAGE_SIZE); [done|].
  rewrite Hp. cbn [mbind option_bind]. rewrite Hg, tp_UpdateTuple_GetTuple, Hg, (proj2 (Z.leb_gt _ _) Hlt). reflexivity.
Qed.

End Sizes.

End Heap.

(** ** The executor's storage on table heaps *)

(** The heap of each table, by its first page id, and the entries of
    each index. *)
Record TStore (Field : Type) := mkTStore {
  ts_heaps : gmap Z (HeapStore (list Field));
  ts_indexes : gmap Z (list (list Field * RowId))
}.
Arguments mkTStore {Field}.
Arguments ts_heaps {Field}.
Arguments ts_indexes {Field}.

Section TStoreSec.
Context {Field : Type} `{EqDecision Field} `{FieldCodec Field}.
Implicit Types (s : TStore Field).

(** [sizeof(Row)], which [InsertTuple] and [UpdateTuple] compare with
    [PAGE_SIZE]. *)
Variable sizeof_Row : Z.

(** The bytes [SerializeTo] writes for a tuple ([Row::GetSerializedSize];
    the [RowId] is not serialized). *)
Definition tuple_size (fs : list Field) : Z := Row_GetSerializedSize (mkRow INVALID_ROWID fs).

Definition hempty : HeapStore (list Field) := mkHeapStore ∅ ∅ 0 0.
Definition ts_heap s h : HeapStore (list Field) := default hempty (ts_heaps s !! h).
Definition ts_set s h hs : TStore Field := mkTStore (<[h := hs]> (ts_heaps s)) (ts_indexes s).
Definition ts_entries s i : list (list Field * RowId) := default [] (ts_indexes s !! i).
Definition ts_set_index s i es : TStore Field := mkTStore (ts_heaps s) (<[i := es]> (ts_indexes s)).

(** [table_heap->InsertTuple(row, txn)] and the [RowId] the executor then
    reads from [row]: the page's, or the default one when the new page
    did not take the tuple. *)
Definition ts_InsertTuple s h fs : TStore Field * option RowId :=
  match InsertTuple tuple_size sizeof_Row (mkTableHeap h) (ts_heap s h) fs with
  | Some (hs', true, Some rid) => (ts_set s h hs', Some rid)
  | Some (hs', true, None) => (ts_set s h hs', Some INVALID_ROWID)
  | Some (hs', false, _) => (ts_set s h hs', None)
  | None => (s, None)
  end.

Definition ts_MarkDelete s h rid : TStore Field * bool :=
  let '(hs', b) := MarkDelete (ts_heap s h) rid in (ts_set s h hs', b).
Definition ts_ApplyDelete s h rid : TStore Field :=
  ts_set s h (default (ts_heap s h) (ApplyDelete (ts_heap s h) rid)).
Definition ts_UpdateTuple s h fs rid : TStore Field * bool :=
  let '(hs', b) := UpdateTuple tuple_size sizeof_Row (ts_heap s h) fs rid in (ts_set s h hs', b).

#[export] Instance TStore_storage : Storage Field (TStore Field) := {|
  st_rows s h := heap_scan_rows h (ts_heap s h);
  st_tuples s h := heap_tuples h (ts_heap s h);
  st_ok s h := heap_wf h (ts_heap s h);
  st_InsertTuple := ts_InsertTuple;
  st_MarkDelete := ts_MarkDelete;
  st_ApplyDelete := ts_ApplyDelete;
  st_UpdateTuple := ts_UpdateTuple;
  st_GetTuple s h rid := read_row (ts_heap s h) rid;
  st_entries := ts_entries;
  st_InsertEntry s i k rid :=
    if existsb (has_key k) (ts_entries s i) then (s, DB_FAILED) else (ts_set_index s i ((k, rid) :: ts_entries s i), DB_SUCCESS);
  st_RemoveEntry s i k rid := (ts_set_index s i (filter (fun en => en.1 <> k) (ts_entries s i)), DB_SUCCESS);
  st_ScanKey s i k := snd <$> filter (fun en => en.1 = k) (ts_entries s i);
  st_Destroy s i := (ts_set_index s i [], DB_SUCCESS)
|}.

Lemma ts_heap_set s h h' hs : ts_heap (ts_set s h hs) h' = if decide (h' = h) then hs else ts_heap s h'.
Proof. unfold ts_heap, ts_set. cbn [ts_heaps]. case_decide; subst; [by rewrite lookup_insert_eq | by rewrite lookup_insert_ne]. Qed.

Lemma ts_entries_set s h hs i : ts_entries (ts_set s h hs) i = ts_entries s i.
Proof. reflexivity. Qed.

(** The index laws: only the index [i] changes, and no heap. *)
Lemma ts_index_update s i es : st_entries (ts_set_index s i es) i = es /\
  (forall j, j <> i -> st_entries (ts_set_index s i es) j = st_entries s j) /\ heaps_same s (ts_set_index s i es).
Proof.
  cbn [st_entries TStore_storage]. unfold ts_entries, ts_set_index. cbn [ts_indexes ts_heaps]. rewrite lookup_insert_eq.
  split; [done|split; [intros j Hj; by rewrite lookup_insert_ne|]]. intros h. auto.
Qed.

Lemma tuple_size_row (r : Row Field) : Row_GetSerializedSize r = tuple_size (fields_ r).
Proof. by destruct r. Qed.

Section Laws.
Hypothesis sizeof_Row_le : sizeof_Row <= PAGE_SIZE.

#[export] Instance TStore_laws : StorageLaws Field (TStore Field).
Proof.
  split; cbn [st_rows st_tuples st_ok st_entries st_InsertTuple st_MarkDelete st_ApplyDelete st_UpdateTuple
              st_InsertEntry st_RemoveEntry st_Destroy TStore_storage].
  - intros s h. apply heap_rows_view.
  - intros s h. apply heap_tuples_NoDup.
  - intros s h fs s' rid Hok Hfit E. pose proof (InsertTuple_spec tuple_size sizeof_Row h (ts_heap s h) fs Hok) as Sp.
    unfold ts_InsertTuple in E. destruct (InsertTuple _ _ _ _ _) as [[[hs' []] [r|]]|]; try discriminate E;
      injection E as <- <-; rewrite !ts_heap_set, !decide_True by done; destruct (Sp Hfit) as (Hwf & r' & Hr & P); [|discriminate].
    injection Hr as <-. split_and!; [exact P|exact Hwf|done].
  - intros s h fs s' Hok E. pose proof (InsertTuple_spec tuple_size sizeof_Row h (ts_heap s h) fs Hok) as Sp.
    unfold ts_InsertTuple in E.
    destruct (InsertTuple _ _ _ _ _) as [[[hs' []] orid]|]; [by destruct orid| |injection E as <-; done].
    injection E as <-. rewrite ts_heap_set, decide_True by done. destruct Sp as [A B]. split; [exact B|exact A].
  - intros s i k rid s'. destruct (existsb _ _); [discriminate|]. intros [= <-]. exact (ts_index_update s i _).
  - intros s i k rid Hk. destruct (existsb (has_key k) (ts_entries s i)) eqn:Ex; [|done].
    exfalso. apply existsb_exists in Ex as [e [He Hke]]. unfold has_key in Hke. apply bool_decide_eq_true in Hke.
    apply Hk. rewrite <- Hke. apply list_elem_of_fmap_2, list_elem_of_In, He.
  - intros s i k rid Hk. destruct (existsb (has_key k) (ts_entries s i)) eqn:Ex; [cbn; discriminate|].
    exfalso. apply list_elem_of_fmap in Hk as [[k' r] [-> Hin]]. assert (Hf := existsb_exists (has_key k') (ts_entries s i)).
    change ((k', r).1) with k' in Ex. rewrite Ex in Hf.
    discriminate (proj2 Hf ltac:(exists (k', r); split; [apply list_elem_of_In, Hin|by apply bool_decide_eq_true])).
  - intros s i k rid s' e. destruct (existsb _ _); intros [= <- <-]; done.
  - intros s h rid s' b Hok E. unfold ts_MarkDelete in E. pose proof (MarkDelete_spec h (ts_heap s h) rid Hok) as Sp.
    destruct (MarkDelete _ _) as [hs' b'] eqn:Em. injection E as <- <-. rewrite ts_heap_set, decide_True by done.
    cbn [fst] in Sp. destruct Sp as [A B]. split_and!; [exact A|exact B|done].
  - intros s h rid Hok. unfold ts_ApplyDelete. rewrite ts_heap_set, decide_True by done.
    destruct (ApplyDelete_spec h (ts_heap s h) rid Hok) as [A B]. split_and!; [exact A|exact B|done].
  - intros s i k rid s' e [= <- _]. exact (ts_index_update s i _).
  - intros s h fs rid s' b E. unfold ts_UpdateTuple in E. pose proof (UpdateTuple_spec tuple_size sizeof_Row h (ts_heap s h) fs rid) as Sp.
    destruct (UpdateTuple _ _ _ _ _) as [hs' b']. injection E as <- <-. rewrite ts_heap_set, decide_True by done.
    split; [exact Sp|]. split; [intros h' Hh; by rewrite ts_heap_set, decide_False|done].
  - intros s h fs r _ Hr Hsz. unfold ts_UpdateTuple.
    pose proof (UpdateTuple_true tuple_size sizeof_Row h (ts_heap s h) fs r sizeof_Row_le Hr) as Sp.
    rewrite tuple_size_row in Hsz. destruct (UpdateTuple _ _ _ _ _) as [hs' b']. exact (Sp Hsz).
  - intros s h fs r _ Hr Hsz. unfold ts_UpdateTuple.
    pose proof (UpdateTuple_false tuple_size sizeof_Row h (ts_heap s h) fs r Hr) as Sp.
    rewrite tuple_size_row in Hsz. destruct (UpdateTuple _ _ _ _ _) as [hs' b']. exact (Sp Hsz).
  - intros s i s' e [= <- _]. exact (ts_index_update s i []).
Qed.

End Laws.
End TStoreSec.

(** ** Witnesses *)

Section Witnesses.

(** Tuples as lists of byte counts. *)
Definition wsize (fs : list nat) : Z := Z.of_nat (sum_list fs).

(** A heap of one page whose tuple of 4000 bytes leaves 64 free. *)
Definition wfull : HeapStore (list nat) :=
  mkHeapStore {[0 := mkTablePage 0 INVALID_PAGE_ID INVALID_PAGE_ID [Some ([4000%nat], false)]]} ∅ 1 4.

(** A tuple of 100 bytes goes to a new page 1 linked after page 0. *)
Lemma InsertTuple_spec_witness :
  heap_wf 0 wfull /\
  match InsertTuple wsize 48 (mkTableHeap 0) wfull [100%nat] with
  | None => False
  | Some (hs', true, orid) =>
      wsize [100%nat] + SIZE_SLOT <= PAGE_SIZE - SIZE_TABLE_PAGE_HEADER ->
      heap_wf 0 hs' /\ exists rid, orid = Some rid /\ heap_tuples 0 hs' ≡ₚ mkRow rid [100%nat] :: heap_tuples 0 wfull
  | Some (hs', false, _) => heap_wf 0 hs' /\ heap_tuples 0 hs' = heap_tuples 0 wfull
  end.
Proof.
  assert (Hwf : heap_wf 0 wfull) by (apply heap_wfb_sound; vm_compute; reflexivity).
  split; [exact Hwf | exact (InsertTuple_spec wsize 48 0 wfull [100%nat] Hwf)].
Defined.

Import Records Catalog Executor ExecuteSelect.
Local Open Scope string_scope.

#[local] Instance wts_storage : Storage sfield (TStore sfield) := TStore_storage 32.
#[local] Instance wts_laws : StorageLaws sfield (TStore sfield) := TStore_laws 32 ltac:(unfold PAGE_SIZE; lia).

(** The table [t] on a heap of one page holding [(1, 5)], and its
    indexes on [a] and on [b]. *)
Definition wtpage : TablePage (list sfield) :=
  mkTablePage 1 INVALID_PAGE_ID INVALID_PAGE_ID [Some ([SInt 1; SInt 5], false)].
Definition wtstore : TStore sfield :=
  mkTStore {[1 := mkHeapStore {[1 := wtpage]} ∅ 2 4]} {[0 := [([SInt 1], wrid0)]; 1 := [([SInt 5], wrid0)]]}.

(** [insert into t values (2, 6)] on it. *)
Definition wtins : option (ExecuteEngine * TStore sfield * ExecuteContext * dberr_t) :=
  ExecuteInsert (wengine [windex_a; windex_b]) wtstore (winsert "2" "6") wctx.
Definition wtins_eng : ExecuteEngine := match wtins with Some (e, _, _, _) => e | None => wengine [] end.
Definition wtins_store : TStore sfield := match wtins with Some (_, s', _, _) => s' | None => wtstore end.
Definition wtins_ctx : ExecuteContext := match wtins with Some (_, _, c, _) => c | None => wctx end.

Lemma ExecuteInsert_indexes_ok_witness :
  (exists rid fs, insert_values (columns_ (schema_ (table_meta_ wtable))) (child_ (wvalues "2" "6")) = Some (inr fs) /\
     st_tuples wtins_store (heap_of wtable) ≡ₚ mkRow rid fs :: st_tuples wtstore (heap_of wtable)) /\
  st_ok wtins_store (heap_of wtable) /\
  Forall (heap_index_ok wtins_store wtable) [windex_b; windex_a] /\ numAffectedRows wtins_ctx = numAffectedRows wctx + 1.
Proof.
  refine (ExecuteInsert_indexes_ok (wengine [windex_a; windex_b]) wtstore (winsert "2" "6") wctx
            (wcatalog [windex_a; windex_b]) (winto "2" "6") (wvalues "2" "6") wtable [windex_b; windex_a]
            wtins_eng wtins_store wtins_ctx
            _ _ _ _ _ _ _ _ _ _);
    [reflexivity | reflexivity | reflexivity | reflexivity | vm_compute; reflexivity
    | apply heap_wfb_sound; vm_compute; reflexivity
    | intros fs Hv; vm_compute in Hv; injection Hv as <-; vm_compute; discriminate
    | apply (bool_decide_unpack _); vm_compute; reflexivity | | vm_compute; reflexivity].
  repeat constructor; [exists [1] | exists [0]]; split; try reflexivity; vm_compute; reflexivity.
Defined.

(** [t] holds [(1, 5), (1, 6), (2, 7)] in the slots of one page, and
    is indexed on [b] only. *)
Definition wdpage : TablePage (list sfield) :=
  mkTablePage 1 INVALID_PAGE_ID INVALID_PAGE_ID (map (fun r => Some (fields_ r, false)) wrows).
Definition wdtstore : TStore sfield :=
  mkTStore {[1 := mkHeapStore {[1 := wdpage]} ∅ 2 4]}
    {[ 1 := [([SInt 5], mkRowId 1 0); ([SInt 6], mkRowId 1 1); ([SInt 7], mkRowId 1 2)] ]}.

(** [delete from t where a = 1]: the index on [b] cannot serve it, the
    scan deletes [(1, 5)] and [(1, 6)] from the page. *)
Lemma ExecuteDelete_scan_witness :
  exists s' ctx', ExecuteDelete (wengine [windex_b]) wdtstore (wdelete wa1) wctx = Some (wengine [windex_b], s', ctx', DB_SUCCESS) /\
    st_tuples s' (heap_of wtable) = List.filter (fun r => negb (accepts (schema_ (table_meta_ wtable)) (Some (wconds wa1)) r))
                                      (st_tuples wdtstore (heap_of wtable)) /\
    st_ok s' (heap_of wtable) /\ Forall (heap_index_good s' wtable) [windex_b] /\
    numAffectedRows ctx' = numAffectedRows wctx +
      Z.of_nat (length (List.filter (accepts (schema_ (table_meta_ wtable)) (Some (wconds wa1))) (st_tuples wdtstore (heap_of wtable)))).
Proof.
  refine (ExecuteDelete_scan (wengine [windex_b]) wdtstore (wdelete wa1) wctx (wcatalog [windex_b]) (wfrom wa1) (wconds wa1)
            wtable [windex_b] _ _ _ _ _ _ _ _ _ _ _ _ _);
    [discriminate | reflexivity | reflexivity | reflexivity | vm_compute; reflexivity | vm_compute; reflexivity
    | vm_compute; reflexivity | vm_compute; reflexivity | apply heap_wfb_sound; vm_compute; reflexivity
    | vm_compute; reflexivity | replace (st_tuples wdtstore (heap_of wtable)) with wrows by (vm_compute; reflexivity);
                                repeat constructor
    | apply (bool_decide_unpack _); vm_compute; reflexivity |].
  constructor; [|constructor]. split.
  - exists [1]. split; [vm_compute; reflexivity|]. vm_compute. reflexivity.
  - apply (bool_decide_unpack _); vm_compute; reflexivity.
Defined.

End Witnesses.

End HeapStorage.
