(* ===== verification/ExecuteUpdate.v ===== *)
(** * UPDATE (executor/execute_engine.cpp, [ExecuteEngine::ExecuteUpdate])

    [ExecuteUpdate] finds the rows as DELETE does (the scan path when
    [ChooseIndex] finds no index, else the rows of [ScanKey]).  For each
    row the WHERE clause accepts, it copies the row's fields
    ([newColumns]), overwrites the columns the SET items name, removes
    the row's old key from every index, replaces the tuple in the heap
    ([UpdateTuple], whose result is only logged) and inserts the new
    key into every index, where a rejected key fails an [ASSERT].

    The model works over the class [Storage] of [ExecuteDML] and reuses
    its loops ([remove_entries], [index_columns], [key_fields]).  The
    proofs show that a SET clause acts on a row as a fixed list of
    assignments ([set_items_plan]); that on its scan path UPDATE
    rewrites exactly the accepted rows and keeps every unique index in
    agreement with the heap when the updated table has no duplicate key
    ([ExecuteUpdate_scan]); and two defects: the SET clause does not
    check the length of a CHAR value, and a failed [UpdateTuple] leaves
    the index entries of the new value pointing to the old row. *)

From Stdlib Require Import ZArith Lia List String Ascii.
From stdpp Require Import base list gmap strings.
From S2P Require Import Spec2Rocq Records RowFormat Catalog CatalogManager ExecuteContext Executor ExecuteSelect ExecuteDML.
Import ListNotations.
Open Scope Z_scope.

Module ExecuteUpdate.
Import Records RowFormat Catalog CatalogManager ExecuteContext Executor ExecuteSelect ExecuteDML.

Section Update.
Context {Field S : Type} `{FieldCodec Field} `{FieldOps Field} `{Storage Field S}.

(** The value of one SET item (lines 938-969): [null] for a nullable
    column, a literal of the column's type.  Unlike INSERT, a CHAR value
    of any length is taken. *)
Definition set_value (c : Column) (vn : SyntaxNode) : option (dberr_t + Field) :=
  let type := Records.type_ c in
  if decide (type_ vn = kNodeNull) then Some (if nullable_ c then inr (Field_null type) else inl DB_FAILED)
  else match type with
  | kTypeInt => if decide (type_ vn = kNodeNumber) then inr <$> (Field_int <$> stoi (val_ vn)) else Some (inl DB_FAILED)
  | kTypeFloat => if decide (type_ vn = kNodeNumber) then inr <$> Field_float (val_ vn) else Some (inl DB_FAILED)
  | kTypeChar =>
      if decide (type_ vn = kNodeString) then Some (inr (Field_char (bytes_of_string (val_ vn))))
      else Some (inl DB_FAILED)
  | kTypeInvalid => Some (inl DB_FAILED)
  end.

(** The SET loop from one item on (lines 931-970): the column by name
    (an unknown name returns before the value node is read), then
    [newColumns[ind] = value]. *)
Fixpoint set_items (schema : Schema) (item : SyntaxNode) (cols : list Field) : option (dberr_t + list Field) :=
  match item with
  | mkSyntaxNode _ _ child nx =>
      col_node ← child;
      match GetColumnIndex schema (bytes_of_string (val_ col_node)) with
      | None => Some (inl DB_COLUMN_NAME_NOT_EXIST)
      | Some ind =>
          val_node ← next_ col_node;
          c ← columns_ schema !! Z.to_nat ind;
          r ← set_value c val_node;
          match r with
          | inl e => Some (inl e)
          | inr f =>
              let cols' := <[Z.to_nat ind := f]> cols in
              match nx with None => Some (inr cols') | Some n => set_items schema n cols' end
          end
      end
  end.

(** The loop from [set_node->child_]; an empty SET list changes nothing. *)
Definition set_loop (schema : Schema) (first : option SyntaxNode) (cols : list Field) : option (dberr_t + list Field) :=
  match first with None => Some (inr cols) | Some it => set_items schema it cols end.

(** [newColumns]: the row's fields [0 .. GetColumnCount() - 1]. *)
Definition copy_fields (schema : Schema) (r : Row Field) : option (list Field) :=
  mapM (fun i => fields_ r !! i) (seq 0 (length (columns_ schema))).

(** The loop inserting the new key into each index (lines 991-1007); a
    rejected key fails [ASSERT(false, "Update duplicate key")], which
    aborts the program: [None]. *)
Fixpoint insert_new_entries (s : S) (schema : Schema) (fs : list Field) (rid : RowId) (iis : list IndexInfo)
  : option (S * dberr_t) :=
  match iis with
  | [] => Some (s, DB_SUCCESS)
  | ii :: rest =>
      r ← index_columns schema ii;
      match r with
      | inl e => Some (s, e)
      | inr ix =>
          key ← key_fields fs ix;
          let '(s1, status) := st_InsertEntry s (index_of ii) key rid in
          if decide (status = DB_SUCCESS) then insert_new_entries s1 schema fs rid rest else None
      end
  end.

(** One accepted row (lines 926-1008, and 1024-1102 on the index path):
    the new fields, the removal of the old keys, [UpdateTuple], the
    insertion of the new keys. *)
Definition update_row (s : S) (h : Z) (schema : Schema) (set_node : SyntaxNode) (r : Row Field)
  (iis : list IndexInfo) : option (S * dberr_t) :=
  cols ← copy_fields schema r;
  nc ← set_loop schema (child_ set_node) cols;
  match nc with
  | inl e => Some (s, e)
  | inr newColumns =>
      '(s1, e) ← remove_entries s schema (fields_ r) (rid_ r) iis;
      if decide (e <> DB_SUCCESS) then Some (s1, e) else
      let '(s2, _) := st_UpdateTuple s1 h newColumns (rid_ r) in
      insert_new_entries s2 schema newColumns (rid_ r) iis
  end.

(** The scan path's loop over the rows of the heap (lines 920-1009). *)
Fixpoint update_scan (s : S) (h : Z) (schema : Schema) (set_node : SyntaxNode) (w : option SyntaxNode)
  (iis : list IndexInfo) (rows : list (Row Field)) (ctx : ExecuteContext) : option (S * ExecuteContext * dberr_t) :=
  match rows with
  | [] => Some (s, ctx, DB_SUCCESS)
  | r :: rs =>
      '(b, ctx1) ← where_step schema w r ctx;
      if (b : bool) then
        '(s1, e) ← update_row s h schema set_node r iis;
        if decide (e <> DB_SUCCESS) then Some (s1, ctx1, e)
        else update_scan s1 h schema set_node w iis rs (AddAffectedRows ctx1 1)
      else update_scan s h schema set_node w iis rs ctx1
  end.

(** The index path's loop over [ScanKey]'s row ids (lines 1016-1103). *)
Fixpoint update_index_loop (s : S) (h : Z) (schema : Schema) (set_node : SyntaxNode) (w : option SyntaxNode)
  (iis : list IndexInfo) (rids : list RowId) (ctx : ExecuteContext) : option (S * ExecuteContext * dberr_t) :=
  match rids with
  | [] => Some (s, ctx, DB_SUCCESS)
  | rid :: rs =>
      let row := default (mkRow rid []) (st_GetTuple s h rid) in
      '(b, ctx1) ← where_step schema w row ctx;
      if (b : bool) then
        '(s1, e) ← update_row s h schema set_node (mkRow rid (fields_ row)) iis;
        if decide (e <> DB_SUCCESS) then Some (s1, ctx1, e)
        else update_index_loop s1 h schema set_node w iis rs (AddAffectedRows ctx1 1)
      else update_index_loop s h schema set_node w iis rs ctx1
  end.

Definition ExecuteUpdate (eng : ExecuteEngine) (s : S) (ast : SyntaxNode) (ctx : ExecuteContext)
  : option (ExecuteEngine * S * ExecuteContext * dberr_t) :=
  if String.eqb (current_db_ eng) "" then Some (eng, s, ctx, DB_FAILED) else
  let '(eng, db) := dbs_at eng (current_db_ eng) in
  match db with
  | None => Some (eng, s, ctx, DB_FAILED)
  | Some cm =>
      update_node ← child_ ast;
      set_node ← next_ update_node;
      let where_node := next_ set_node in
      let table_name := bytes_of_string (val_ update_node) in
      '(status, oti) ← GetTable cm table_name;
      if decide (status <> DB_SUCCESS) then Some (eng, s, ctx, status) else
      ti ← oti;
      '(status, indexes) ← GetTableIndexes cm table_name;
      if decide (status <> DB_SUCCESS) then Some (eng, s, ctx, status) else
      let schema := schema_ (table_meta_ ti) in
      let ctx := set_err ctx DB_SUCCESS in
      '(choice, err) ← ChooseIndex schema indexes where_node (err_ ctx);
      let ctx := set_err ctx err in
      if decide (err <> DB_SUCCESS) then Some (eng, s, ctx, err) else
      match choice with
      | None =>
          '(s1, ctx1, e) ← update_scan s (heap_of ti) schema set_node where_node indexes (st_rows s (heap_of ti)) ctx;
          Some (eng, s1, ctx1, e)
      | Some (pindex, keyRow) =>
          '(s1, ctx1, e) ← update_index_loop s (heap_of ti) schema set_node where_node indexes
                             (st_ScanKey s (index_of pindex) keyRow) ctx;
          Some (eng, s1, ctx1, e)
      end
  end.

End Update.

(** ** A SET clause as a list of assignments *)

Section Plan.
Context {Field S : Type} `{FieldCodec Field} `{FieldOps Field} `{Storage Field S}.

(** The assignments of a SET clause, in order, or the error its loop
    returns; they do not depend on the row. *)
Fixpoint set_plan (schema : Schema) (item : SyntaxNode) : option (dberr_t + list (nat * Field)) :=
  match item with
  | mkSyntaxNode _ _ child nx =>
      col_node ← child;
      match GetColumnIndex schema (bytes_of_string (val_ col_node)) with
      | None => Some (inl DB_COLUMN_NAME_NOT_EXIST)
      | Some ind =>
          val_node ← next_ col_node;
          c ← columns_ schema !! Z.to_nat ind;
          r ← set_value c val_node;
          match r with
          | inl e => Some (inl e)
          | inr f =>
              match nx with
              | None => Some (inr [(Z.to_nat ind, f)])
              | Some n => rest ← set_plan schema n;
                          Some (match rest with inl e => inl e | inr A => inr ((Z.to_nat ind, f) :: A) end)
              end
          end
      end
  end.

Definition assign (A : list (nat * Field)) (cs : list Field) : list Field :=
  foldl (fun cs' (a : nat * Field) => <[a.1 := a.2]> cs') cs A.

(** The value the last assignment to column [i] writes. *)
Fixpoint assigned (A : list (nat * Field)) (i : nat) : option Field :=
  match A with
  | [] => None
  | (j, f) :: A' => match assigned A' i with Some g => Some g | None => if decide (i = j) then Some f else None end
  end.

Definition run_plan (r : option (dberr_t + list (nat * Field))) (cs : list Field) : option (dberr_t + list Field) :=
  (fun p => match p with inl e => inl e | inr A => inr (assign A cs) end) <$> r.

(** The SET loop applies the clause's assignments to the copied fields. *)
Lemma set_items_plan schema item cs : set_items schema item cs = run_plan (set_plan schema item) cs.
Proof.
  revert cs. induction item as [t v c nx _ _ IHnx] using SyntaxNode_ind2; intros cs. cbn [set_items set_plan].
  destruct c as [col|]; [|done]. cbn [mbind option_bind]. destruct (GetColumnIndex _ _) as [ind|]; [|done].
  cbn [mbind option_bind]. destruct (next_ col) as [vn|]; [|done]. cbn [mbind option_bind].
  destruct (columns_ schema !! Z.to_nat ind) as [col'|]; [|done]. cbn [mbind option_bind].
  destruct (set_value col' vn) as [[e|f]|]; [done| |done]. cbn [mbind option_bind].
  destruct nx as [n|]; [|done]. cbn [on_some] in IHnx. rewrite IHnx. unfold run_plan.
  destruct (set_plan schema n) as [[e|A]|]; done.
Qed.

Lemma assign_cons j f A cs : assign ((j, f) :: A) cs = assign A (<[j:=f]> cs).
Proof. reflexivity. Qed.

Lemma assign_length A cs : length (assign A cs) = length cs.
Proof. revert cs. induction A as [|[j f] A IH]; intros cs; [done|]. exact (eq_trans (IH _) (length_insert _ _ _)). Qed.

Lemma assign_lookup A cs i :
  (i < length cs)%nat -> assign A cs !! i = match assigned A i with Some f => Some f | None => cs !! i end.
Proof.
  revert cs. induction A as [|[j f] A IH]; intros cs Hi; [done|]. rewrite assign_cons. cbn [assigned].
  rewrite IH by (by rewrite length_insert).
  destruct (assigned A i); [done|]. case_decide as Hij.
  - subst. cbn. by rewrite list_lookup_insert_eq.
  - by rewrite list_lookup_insert_ne by congruence.
Qed.

(** Assigning twice is assigning once. *)
Lemma assign_idem A cs : assign A (assign A cs) = assign A cs.
Proof.
  apply list_eq. intros i. destruct (decide (i < length cs)%nat) as [Hi|Hi].
  - rewrite !assign_lookup by (rewrite ?assign_length; done). by destruct (assigned A i).
  - rewrite !lookup_ge_None_2; [done| |]; rewrite ?assign_length; lia.
Qed.

End Plan.

(** ** Keys of updated rows *)

Section Keys.
Context {Field : Type} `{FieldCodec Field}.

Lemma key_fields_pointwise (x z : list Field) ix k :
  key_fields x ix = Some k -> key_fields z ix = Some k -> Forall (fun i => x !! Z.to_nat i = z !! Z.to_nat i) ix.
Proof.
  unfold key_fields. intros Hx%mapM_Some_1 Hz%mapM_Some_1. revert k Hx Hz.
  induction ix as [|i ix IH]; intros k Hx Hz; [done|].
  inversion Hx as [|? y ? l Hxi Hxr]; subst. inversion Hz as [|? ? ? ? Hzi Hzr]; subst.
  constructor; [congruence|]. eauto.
Qed.

Lemma key_fields_ext (x z : list Field) ix :
  Forall (fun i => x !! Z.to_nat i = z !! Z.to_nat i) ix -> key_fields x ix = key_fields z ix.
Proof. unfold key_fields. induction 1 as [|i ix Hi _ IH]; [done|]. cbn. by rewrite Hi, IH. Qed.

Definition cols_valid (n : nat) (ix : list Z) : Prop := Forall (fun i => 0 <= i /\ (Z.to_nat i < n)%nat) ix.

(** The key of an updated row depends on the row only through its old
    key: a row whose key is the key [y] has after the update has, after
    the update, the same key as [y]. *)
Lemma key_assign_determined A (x y : list Field) ix k :
  length x = length y -> cols_valid (length x) ix ->
  key_fields x ix = Some k -> key_fields (assign A y) ix = Some k ->
  key_fields (assign A x) ix = key_fields (assign A y) ix.
Proof.
  intros Hl Hv Hx Hy. pose proof (key_fields_pointwise _ _ _ _ Hx Hy) as Hp.
  apply key_fields_ext.
  apply Forall_forall. intros i Hi. unfold cols_valid in Hv. rewrite Forall_forall in Hp, Hv. destruct (Hv i Hi) as [_ Hlt].
  rewrite (assign_lookup A x) by lia. rewrite (Hp i Hi), !assign_lookup by lia. by destruct (assigned A _).
Qed.

Lemma omap_entry_keys ix (l : list (Row Field)) :
  (omap (entry_of ix) l).*1 = omap (fun r => key_fields (fields_ r) ix) l.
Proof.
  induction l as [|r l IH]; [done|]. cbn [omap list_omap]. unfold entry_of at 1.
  destruct (key_fields (fields_ r) ix); cbn; by rewrite IH.
Qed.

(** [newColumns] is the row when the row has one field per column. *)
Lemma copy_fields_fit schema (r : Row Field) :
  length (fields_ r) = length (columns_ schema) -> copy_fields schema r = Some (fields_ r).
Proof.
  unfold copy_fields. intros <-. generalize (fields_ r) as fs. intros fs.
  assert (Hgen : forall pre, mapM (fun i => (pre ++ fs) !! i) (seq (length pre) (length fs)) = Some fs).
  { induction fs as [|x fs IH]; intros pre; [done|]. cbn [length seq mapM].
    rewrite lookup_app_r, Nat.sub_diag by lia. cbn [lookup list_lookup mbind option_bind].
    replace (pre ++ x :: fs) with ((pre ++ [x]) ++ fs) by by rewrite <- app_assoc.
    replace (S (length pre)) with (length (pre ++ [x])) by (rewrite length_app; cbn; lia).
    by rewrite IH. }
  exact (Hgen []).
Qed.

End Keys.

(** ** UPDATE on its scan path *)

Section UpdateProofs.
Context {Field S : Type} `{FieldOps Field} `{StorageLaws Field S}.

Definition plan_loop (schema : Schema) (first : option SyntaxNode) : option (dberr_t + list (nat * Field)) :=
  match first with None => Some (inr []) | Some it => set_plan schema it end.

Lemma set_loop_plan schema first cs : set_loop schema first cs = run_plan (plan_loop schema first) cs.
Proof. destruct first as [it|]; [apply set_items_plan | done]. Qed.

(** The row [r] after the assignments [A]. *)
Definition upd (A : list (nat * Field)) (r : Row Field) : Row Field := mkRow (rid_ r) (assign A (fields_ r)).

Definition row_key (ix : list Z) (r : Row Field) : option (list Field) := key_fields (fields_ r) ix.

Lemma fmap_id_on {A} (f : A -> A) (l : list A) : Forall (fun x => f x = x) l -> f <$> l = l.
Proof. induction 1; [done|]. cbn. by f_equal. Qed.

(** [UpdateTuple] on a heap without duplicate row ids replaces one row. *)
Lemma replace_unique (P Q : list (Row Field)) r fs :
  NoDup (rid_ <$> P ++ r :: Q) ->
  (fun x => if decide (rid_ x = rid_ r) then mkRow (rid_ r) fs else x) <$> (P ++ r :: Q) = P ++ mkRow (rid_ r) fs :: Q.
Proof.
  rewrite fmap_app, NoDup_app. cbn [fmap list_fmap]. intros (_ & Hnin & Hnd). apply NoDup_cons in Hnd as [HQ _].
  rewrite fmap_app. cbn [fmap list_fmap]. rewrite decide_True by done. rewrite !fmap_id_on; [done| |].
  - apply Forall_forall. intros y Hy. rewrite decide_False; [done|]. intros Heq. apply HQ. rewrite <- Heq.
    by apply list_elem_of_fmap_2.
  - apply Forall_forall. intros y Hy. rewrite decide_False; [done|]. intros Heq.
    apply (Hnin (rid_ y)); [by apply list_elem_of_fmap_2|]. rewrite Heq. by left.
Qed.

(** One index across the update of one row: the old key out, the new
    key in, the entries agree with the updated rows and stay unique. *)
Lemma entries_update ix (P Q : list (Row Field)) r nr es kold k' :
  es ≡ₚ omap (entry_of ix) (P ++ r :: Q) -> NoDup es.*1 -> entry_of ix r = Some (kold, rid_ r) ->
  row_key ix nr = Some k' -> rid_ nr = rid_ r -> k' ∉ omap (row_key ix) (P ++ Q) ->
  k' ∉ (filter (fun en => en.1 <> kold) es).*1 /\
  (k', rid_ r) :: filter (fun en => en.1 <> kold) es ≡ₚ omap (entry_of ix) (P ++ nr :: Q) /\
  NoDup ((k', rid_ r) :: filter (fun en => en.1 <> kold) es).*1.
Proof.
  intros Hp Hnd Hr Hk' Hrid Hfresh.
  assert (Hu : NoDup ((omap (entry_of ix) (P ++ r :: Q)).*1)) by by rewrite <- Hp.
  assert (Hf : filter (fun en => en.1 <> kold) es ≡ₚ omap (entry_of ix) (P ++ Q)).
  { rewrite Hp. by rewrite (filter_omap_remove ix P Q r kold Hr Hu). }
  assert (Hkeys : (filter (fun en => en.1 <> kold) es).*1 ≡ₚ omap (row_key ix) (P ++ Q)).
  { rewrite Hf. apply Permutation_refl' , omap_entry_keys. }
  split; [|split].
  - by rewrite Hkeys.
  - assert (Hn : entry_of ix nr = Some (k', rid_ r)) by (unfold entry_of; unfold row_key in Hk'; by rewrite Hk', Hrid).
    rewrite Hf, !omap_app. cbn [omap list_omap]. rewrite Hn. apply Permutation_middle.
  - cbn [fmap list_fmap fst]. apply NoDup_cons. split; [by rewrite Hkeys|].
    apply NoDup_keys_filter. exact Hnd.
Qed.

(** The index loop of UPDATE, when no index holds the new key yet, adds
    it to each index and changes nothing else. *)
Lemma insert_new_entries_spec s schema fs rid iis :
  NoDup (index_of <$> iis) ->
  Forall (fun ii => exists ix k, index_columns schema ii = Some (inr ix) /\ key_fields fs ix = Some k /\
                      k ∉ (st_entries s (index_of ii)).*1) iis ->
  exists s', insert_new_entries s schema fs rid iis = Some (s', DB_SUCCESS) /\
    (forall h, st_rows s' h = st_rows s h) /\
    (forall ii, ii ∈ iis -> exists ix k, index_columns schema ii = Some (inr ix) /\ key_fields fs ix = Some k /\
        st_entries s' (index_of ii) = (k, rid) :: st_entries s (index_of ii)) /\
    (forall j, j ∉ index_of <$> iis -> st_entries s' j = st_entries s j).
Proof.
  revert s. induction iis as [|ii rest IH]; intros s Hnd Hfr.
  { exists s. split; [done|]. split; [done|]. split; [intros ii Hii; inversion Hii | done]. }
  cbn [fmap list_fmap] in Hnd. apply NoDup_cons in Hnd as [Hnin Hnd].
  apply Forall_cons in Hfr as [(ix & k & Hix & Hk & Hfresh) Hfr].
  destruct (st_InsertEntry s (index_of ii) k rid) as [s1 st] eqn:E.
  pose proof (InsertEntry_fresh s (index_of ii) k rid Hfresh) as Hst. rewrite E in Hst. cbn in Hst. subst st.
  destruct (InsertEntry_ok _ _ _ _ _ E) as (Hi & Hj & Hr).
  assert (Hne : forall ii', ii' ∈ rest -> index_of ii' <> index_of ii).
  { intros ii' Hin Heq. apply Hnin. rewrite <- Heq. by apply list_elem_of_fmap_2. }
  destruct (IH s1 Hnd) as (s' & Hrun & Rr & Ri & Rj).
  { apply Forall_forall. intros ii' Hin. rewrite Forall_forall in Hfr. destruct (Hfr ii' Hin) as (ix' & k' & A & B & C).
    exists ix', k'. by rewrite Hj by auto. }
  exists s'. cbn [insert_new_entries]. rewrite Hix. cbn [mbind option_bind]. rewrite Hk. cbn [mbind option_bind].
  rewrite E, decide_True by done. split; [done|]. split; [intros h; rewrite Rr; exact (proj1 (Hr h))|]. split.
  - intros ii' [->|Hin]%elem_of_cons.
    + exists ix, k. split; [done|]. split; [done|]. by rewrite Rj, Hi.
    + destruct (Ri ii' Hin) as (ix' & k' & A & B & C). exists ix', k'. split; [done|]. split; [done|].
      by rewrite C, Hj by auto.
  - intros j Hj'. rewrite Rj by (intros Hc; apply Hj'; cbn [fmap list_fmap]; apply elem_of_cons; by right).
    apply Hj. intros ->. apply Hj'. cbn [fmap list_fmap]. apply elem_of_cons. by left.
Qed.

Lemma upd_fits schema A (r : Row Field) : row_fits_schema schema r -> row_fits_schema schema (upd A r).
Proof. unfold row_fits_schema, upd. cbn [fields_]. by rewrite assign_length. Qed.

Lemma entry_of_row_key ix (r : Row Field) k : entry_of ix r = Some (k, rid_ r) -> row_key ix r = Some k.
Proof. unfold entry_of, row_key. destruct (key_fields _ _); cbn; congruence. Qed.

(** One accepted row: when its new keys are in no other row, the old
    keys leave every index and the new ones enter it, whatever
    [UpdateTuple] answers; the heap holds the new row only when
    [UpdateTuple] succeeds. *)
Lemma update_row_core ti iis s P r Q set_node A :
  NoDup (index_of <$> iis) -> st_rows s (heap_of ti) = P ++ r :: Q -> NoDup (rid_ <$> P ++ r :: Q) ->
  row_fits_schema (schema_ (table_meta_ ti)) r -> Forall (index_good s ti) iis ->
  plan_loop (schema_ (table_meta_ ti)) (child_ set_node) = Some (inr A) ->
  Forall (fun ii => forall ix k, index_columns (schema_ (table_meta_ ti)) ii = Some (inr ix) ->
            row_key ix (upd A r) = Some k -> k ∉ omap (row_key ix) (P ++ Q)) iis ->
  exists s1 s', st_rows s1 (heap_of ti) = P ++ r :: Q /\
    update_row s (heap_of ti) (schema_ (table_meta_ ti)) set_node r iis = Some (s', DB_SUCCESS) /\
    st_rows s' (heap_of ti) =
      (if (st_UpdateTuple s1 (heap_of ti) (assign A (fields_ r)) (rid_ r)).2 then P ++ upd A r :: Q else P ++ r :: Q) /\
    Forall (fun ii => index_agrees s' ti ii (P ++ upd A r :: Q) /\ keys_unique s' ii) iis.
Proof.
  intros Hnd Hrows Hrid Hr Hgood Hplan Hfresh. unfold update_row.
  rewrite (copy_fields_fit _ r Hr). cbn [mbind option_bind]. rewrite set_loop_plan, Hplan. cbn.
  assert (Hok : Forall (index_ok s ti) iis) by (eapply Forall_impl; [exact Hgood | intros ii []; done]).
  destruct (remove_entries_spec _ iis s r Hnd Hr (agrees_cols s ti iis (fun _ => st_rows s (heap_of ti)) Hok))
    as (s1 & Hrun & Rs & Ri & _).
  pose proof (proj1 (Rs (heap_of ti))) as Rr. exists s1.
  rewrite Hrun. cbn [mbind option_bind]. rewrite decide_False by (intros Hc; by apply Hc).
  destruct (st_UpdateTuple s1 (heap_of ti) (assign A (fields_ r)) (rid_ r)) as [s2 b] eqn:Eu. cbn [snd].
  destruct (UpdateTuple_rows _ _ _ _ _ _ Eu) as (Ur & _ & Ue). rewrite Rr, Hrows in Ur.
  destruct b; [rewrite (replace_unique P Q r _ Hrid) in Ur|].
  all: assert (Hdata : forall ii, ii ∈ iis -> exists ix k',
    index_columns (schema_ (table_meta_ ti)) ii = Some (inr ix) /\ row_key ix (upd A r) = Some k' /\
    k' ∉ (st_entries s2 (index_of ii)).*1 /\
    (k', rid_ r) :: st_entries s2 (index_of ii) ≡ₚ omap (entry_of ix) (P ++ upd A r :: Q) /\
    NoDup ((k', rid_ r) :: st_entries s2 (index_of ii)).*1).
  all: try (intros ii Hii; rewrite Forall_forall in Hgood, Hfresh; destruct (Hgood ii Hii) as [(ix & Hix & Hp) Hu];
    destruct (Ri ii Hii) as (ix' & kold & Hix' & Hkold & He); rewrite Hix in Hix'; injection Hix' as <-;
    destruct (entry_of_fit _ ii ix (upd A r) Hix (upd_fits _ A r Hr)) as [k' Hk']; apply entry_of_row_key in Hk';
    rewrite Hrows in Hp; unfold keys_unique in Hu;
    destruct (entries_update ix P Q r (upd A r) _ kold k' Hp Hu Hkold Hk' eq_refl (Hfresh ii Hii ix k' Hix Hk'))
      as (F1 & F2 & F3);
    exists ix, k'; rewrite Ue, He; auto).
  all: destruct (insert_new_entries_spec s2 (schema_ (table_meta_ ti)) (assign A (fields_ r)) (rid_ r) iis Hnd)
    as (s' & Hins & Ir & Ii & _);
    [apply Forall_forall; intros ii Hii; destruct (Hdata ii Hii) as (ix & k' & Hix & Hk' & Hfr & _); exists ix, k'; auto|].
  all: exists s'; split; [by rewrite Rr|]; split; [exact Hins|]; split; [by rewrite Ir|].
  all: apply Forall_forall; intros ii Hii; destruct (Hdata ii Hii) as (ix & k' & Hix & Hk' & _ & Hperm & Hnd');
    destruct (Ii ii Hii) as (ix' & k'' & Hix' & Hk'' & Hent); rewrite Hix in Hix'; injection Hix' as <-;
    unfold row_key in Hk'; cbn [upd fields_] in Hk'; rewrite Hk' in Hk''; injection Hk'' as <-.
  all: split; [exists ix; split; [done|]; by rewrite Hent | unfold keys_unique; by rewrite Hent].
Qed.

(** One accepted row of the scan: when the new row is no larger and its
    new keys are in no other row, the row is replaced in the heap and
    every index follows. *)
Lemma update_row_spec ti iis s P r Q set_node A :
  NoDup (index_of <$> iis) -> st_rows s (heap_of ti) = P ++ r :: Q -> NoDup (rid_ <$> P ++ r :: Q) ->
  row_fits_schema (schema_ (table_meta_ ti)) r -> Forall (index_good s ti) iis ->
  plan_loop (schema_ (table_meta_ ti)) (child_ set_node) = Some (inr A) ->
  Row_GetSerializedSize (upd A r) <= Row_GetSerializedSize r ->
  Forall (fun ii => forall ix k, index_columns (schema_ (table_meta_ ti)) ii = Some (inr ix) ->
            row_key ix (upd A r) = Some k -> k ∉ omap (row_key ix) (P ++ Q)) iis ->
  exists s', update_row s (heap_of ti) (schema_ (table_meta_ ti)) set_node r iis = Some (s', DB_SUCCESS) /\
    st_rows s' (heap_of ti) = P ++ upd A r :: Q /\ Forall (index_good s' ti) iis.
Proof.
  intros Hnd Hrows Hrid Hr Hgood Hplan Hsz Hfresh.
  destruct (update_row_core ti iis s P r Q set_node A Hnd Hrows Hrid Hr Hgood Hplan Hfresh) as (s1 & s' & R1 & Hrun & Rr & Ri).
  rewrite (UpdateTuple_fits s1 _ _ r) in Rr; [| by rewrite R1 | rewrite R1; apply elem_of_app; right; by left | exact Hsz].
  exists s'. split; [exact Hrun|]. split; [exact Rr|]. unfold index_good, index_ok. by rewrite Rr.
Qed.

(** C34: [ExecuteUpdate] ignores a failed [UpdateTuple] (lines 988-990
    only log it).  For an accepted row whose new tuple is larger than
    the old one (a CHAR value longer than the column, which the SET loop
    takes, see [set_value]), whose new keys are in no other row, and
    whose indexes are good: the row's update reports success, the heap
    keeps the old row, and every index describes the table with the new
    row, so index and heap disagree. *)
Theorem update_row_ignores_failed_update ti iis s P r Q set_node A :
  NoDup (index_of <$> iis) -> st_rows s (heap_of ti) = P ++ r :: Q -> NoDup (rid_ <$> P ++ r :: Q) ->
  row_fits_schema (schema_ (table_meta_ ti)) r -> Forall (index_good s ti) iis ->
  plan_loop (schema_ (table_meta_ ti)) (child_ set_node) = Some (inr A) ->
  Row_GetSerializedSize r < Row_GetSerializedSize (upd A r) ->
  Forall (fun ii => forall ix k, index_columns (schema_ (table_meta_ ti)) ii = Some (inr ix) ->
            row_key ix (upd A r) = Some k -> k ∉ omap (row_key ix) (P ++ Q)) iis ->
  exists s', update_row s (heap_of ti) (schema_ (table_meta_ ti)) set_node r iis = Some (s', DB_SUCCESS) /\
    st_rows s' (heap_of ti) = st_rows s (heap_of ti) /\
    Forall (fun ii => index_agrees s' ti ii (P ++ upd A r :: Q)) iis.
Proof.
  intros Hnd Hrows Hrid Hr Hgood Hplan Hsz Hfresh.
  destruct (update_row_core ti iis s P r Q set_node A Hnd Hrows Hrid Hr Hgood Hplan Hfresh) as (s1 & s' & R1 & Hrun & Rr & Ri).
  rewrite (UpdateTuple_grows s1 _ _ r) in Rr; [| by rewrite R1 | rewrite R1; apply elem_of_app; right; by left | exact Hsz].
  exists s'. split; [exact Hrun|]. split; [by rewrite Rr, Hrows|]. eapply Forall_impl; [exact Ri|]. by intros ii [].
Qed.

(** The table after the update: the accepted rows rewritten. *)
Definition upd_if (schema : Schema) (w : option SyntaxNode) (A : list (nat * Field)) (r : Row Field) : Row Field :=
  if accepts schema w r then upd A r else r.

(** A key the updated row takes that some later row has is a key the
    updated table holds twice. *)
Lemma key_in_final schema w A ix (r : Row Field) rest k :
  cols_valid (length (columns_ schema)) ix -> Forall (row_fits_schema schema) rest ->
  row_fits_schema schema r -> row_key ix (upd A r) = Some k ->
  k ∈ omap (row_key ix) rest -> k ∈ omap (row_key ix) (upd_if schema w A <$> rest).
Proof.
  intros Hv Hfit Hr Hk (r2 & Hin & Hk2)%list_elem_of_omap. apply list_elem_of_omap.
  exists (upd_if schema w A r2). split; [by apply list_elem_of_fmap_2|]. unfold upd_if.
  destruct (accepts schema w r2); [|done]. rewrite Forall_forall in Hfit. pose proof (Hfit r2 Hin) as Hr2.
  unfold row_fits_schema in Hr, Hr2. unfold row_key, upd in *. cbn [fields_] in *. rewrite <- Hk.
  apply (key_assign_determined A (fields_ r2) (fields_ r) ix k); [lia | by rewrite Hr2 | done | done].
Qed.

(** The scan loop of UPDATE, from the rows [P] has left (already in
    their final form): it rewrites the accepted rows, keeps the indexes
    good, and counts the accepted rows. *)
Lemma update_scan_spec ti iis set_node w A rest : forall P s ctx,
  let schema := schema_ (table_meta_ ti) in
  NoDup (index_of <$> iis) -> where_wt schema w -> plan_loop schema (child_ set_node) = Some (inr A) ->
  st_rows s (heap_of ti) = P ++ rest -> NoDup (rid_ <$> P ++ rest) -> Forall (row_fits_schema schema) rest ->
  Forall (fun r => accepts schema w r = true -> Row_GetSerializedSize (upd A r) <= Row_GetSerializedSize r) rest ->
  Forall (fun ii => forall ix, index_columns schema ii = Some (inr ix) ->
            NoDup (omap (row_key ix) (P ++ (upd_if schema w A <$> rest)))) iis ->
  Forall (index_good s ti) iis -> err_ ctx = DB_SUCCESS ->
  exists s' ctx', update_scan s (heap_of ti) schema set_node w iis rest ctx = Some (s', ctx', DB_SUCCESS) /\
    st_rows s' (heap_of ti) = P ++ (upd_if schema w A <$> rest) /\ Forall (index_good s' ti) iis /\
    numAffectedRows ctx' = numAffectedRows ctx + Z.of_nat (length (List.filter (accepts schema w) rest)).
Proof.
  induction rest as [|r rest IH]; intros P s ctx schema Hnd Hwt Hplan Hrows Hrid Hfit Hsz Huniq Hgood He; subst schema.
  { exists s, ctx. rewrite app_nil_r in *. repeat split; auto. cbn. lia. }
  apply Forall_cons in Hfit as [Hr Hfit]. apply Forall_cons in Hsz as [Hsr Hsz].
  cbn [update_scan]. rewrite (where_step_wt _ _ _ _ Hwt Hr He). cbn [mbind option_bind List.filter fmap list_fmap].
  cbn [fmap list_fmap] in Huniq. unfold upd_if at 1 in Huniq. unfold upd_if at 1.
  destruct (accepts (schema_ (table_meta_ ti)) w r) eqn:Ea.
  - destruct (update_row_spec ti iis s P r rest set_node A Hnd Hrows Hrid Hr Hgood Hplan (Hsr eq_refl))
      as (s1 & Hd & Hrows1 & Hgood1).
    { apply Forall_forall. intros ii Hii ix k Hix Hk Hin. rewrite Forall_forall in Huniq.
      pose proof (Huniq ii Hii ix Hix) as Hu. rewrite !omap_app in Hu, Hin. cbn [omap list_omap] in Hu.
      rewrite Hk in Hu. apply NoDup_app in Hu as (_ & HP & Hu). apply NoDup_cons in Hu as [Hnot _].
      apply elem_of_app in Hin as [HinP|Hinr].
      - apply (HP k HinP). by left.
      - apply Hnot. eapply key_in_final; [exact (index_columns_valid _ _ _ Hix) | exact Hfit | exact Hr | exact Hk | exact Hinr]. }
    rewrite Hd. cbn [mbind option_bind]. rewrite decide_False by (intros Hc; by apply Hc).
    replace (P ++ upd A r :: rest) with ((P ++ [upd A r]) ++ rest) in Hrows1 by by rewrite <- app_assoc.
    destruct (IH (P ++ [upd A r]) s1 (AddAffectedRows ctx 1) Hnd Hwt Hplan Hrows1) as (s' & ctx' & Hl & R1 & R2 & R4);
      try done.
    + rewrite <- app_assoc. rewrite !fmap_app in *. exact Hrid.
    + eapply Forall_impl; [exact Huniq|]. intros ii Hu ix Hix. rewrite <- app_assoc. by apply Hu.
    + exists s', ctx'. rewrite R1, <- app_assoc. repeat split; auto. rewrite R4.
      cbn [AddAffectedRows set_counts numAffectedRows length]. lia.
  - replace (P ++ r :: rest) with ((P ++ [r]) ++ rest) in Hrows, Hrid by by rewrite <- app_assoc.
    destruct (IH (P ++ [r]) s ctx Hnd Hwt Hplan Hrows Hrid Hfit Hsz) as (s' & ctx' & Hl & R1 & R2 & R4); try done.
    + eapply Forall_impl; [exact Huniq|]. intros ii Hu ix Hix. rewrite <- app_assoc. by apply Hu.
    + exists s', ctx'. rewrite R1, <- app_assoc. auto.
Qed.

(** C33: Functional correctness of [ExecuteUpdate] on its scan path.
    When the table exists, the WHERE clause (if any) is well typed and
    no index serves it, the SET clause is valid (a list of assignments
    [A]), each accepted row is no larger after the update (so
    [UpdateTuple] succeeds in place), the heap's row ids are distinct,
    its unique indexes agree with it, and the updated table holds each
    key of each index once, then the statement succeeds: the heap holds
    the accepted rows rewritten by [A] and the others unchanged, every
    index agrees with it and holds each key once, and the affected-row
    count grows by the number of accepted rows. *)
Theorem ExecuteUpdate_scan (eng : ExecuteEngine) (s : S) ast ctx cm update_node set_node ti iis A :
  let schema := schema_ (table_meta_ ti) in
  let rows := st_rows s (heap_of ti) in
  current_db_ eng <> ""%string -> dbs_ eng !! current_db_ eng = Some (Some cm) ->
  child_ ast = Some update_node -> next_ update_node = Some set_node ->
  GetTable cm (bytes_of_string (val_ update_node)) = Some (DB_SUCCESS, Some ti) ->
  GetTableIndexes cm (bytes_of_string (val_ update_node)) = Some (DB_SUCCESS, iis) ->
  ChooseIndex schema iis (next_ set_node) DB_SUCCESS = Some (None, DB_SUCCESS) ->
  where_wt schema (next_ set_node) -> plan_loop schema (child_ set_node) = Some (inr A) ->
  Forall (row_fits_schema schema) rows -> NoDup (rid_ <$> rows) -> NoDup (index_of <$> iis) ->
  Forall (index_good s ti) iis ->
  Forall (fun r => accepts schema (next_ set_node) r = true -> Row_GetSerializedSize (upd A r) <= Row_GetSerializedSize r) rows ->
  Forall (fun ii => forall ix, index_columns schema ii = Some (inr ix) ->
            NoDup (omap (row_key ix) (upd_if schema (next_ set_node) A <$> rows))) iis ->
  exists s' ctx', ExecuteUpdate eng s ast ctx = Some (eng, s', ctx', DB_SUCCESS) /\
    st_rows s' (heap_of ti) = upd_if schema (next_ set_node) A <$> rows /\
    Forall (index_good s' ti) iis /\
    numAffectedRows ctx' = numAffectedRows ctx + Z.of_nat (length (List.filter (accepts schema (next_ set_node)) rows)).
Proof.
  intros schema rows Hdb Hcm Hup Hset Htab Hind Hch Hwt Hplan Hfit Hrid Hnd Hgood Hsz Huniq. subst schema rows.
  destruct (update_scan_spec ti iis set_node (next_ set_node) A (st_rows s (heap_of ti)) [] s (set_err (set_err ctx DB_SUCCESS) DB_SUCCESS)
              Hnd Hwt Hplan eq_refl Hrid Hfit Hsz Huniq Hgood eq_refl) as (s' & ctx' & Hl & R1 & R2 & R4).
  exists s', ctx'. split; [|done].
  unfold ExecuteUpdate. rewrite (proj2 (String.eqb_neq _ _) Hdb). unfold dbs_at. rewrite Hcm.
  rewrite Hup. cbn [mbind option_bind]. rewrite Hset. cbn [mbind option_bind]. cbv zeta.
  rewrite Htab. cbn [mbind option_bind]. rewrite decide_False by (intros Hc; by apply Hc).
  rewrite Hind. cbn [mbind option_bind]. rewrite decide_False by (intros Hc; by apply Hc).
  cbn [err_ set_err]. rewrite Hch. cbn [mbind option_bind].
  rewrite decide_False by (intros Hc; by apply Hc). by rewrite Hl.
Qed.

End UpdateProofs.

(** ** Witnesses *)

Section Witnesses.

(** [update t set <col> = <value> where <cond>]. *)
Definition wset (col : string) (v : SyntaxNode) (cond : SyntaxNode) : SyntaxNode :=
  mkSyntaxNode kNodeUpdateValues ""
    (Some (mkSyntaxNode kNodeUpdateValue "" (Some (mkSyntaxNode kNodeIdentifier col None (Some v))) None))
    (wwhere cond).
Definition wupdate (col : string) (v : SyntaxNode) (cond : SyntaxNode) : SyntaxNode :=
  mkSyntaxNode kNodeUpdate "" (Some (mkSyntaxNode kNodeIdentifier "t" None (Some (wset col v cond)))) None.

Definition wa2 : SyntaxNode := wcmp "=" "a" "2" None.
Definition wA8 : list (nat * sfield) := [(1%nat, SInt 8)].

(** [update t set b = 8 where a = 2] on [(1, 5), (1, 6), (2, 7)] with
    the index on [b]. *)
Lemma ExecuteUpdate_scan_witness :
  exists s' ctx', ExecuteUpdate (wengine [windex_b]) wdstore (wupdate "b" (wnum "8") wa2) wctx =
                    Some (wengine [windex_b], s', ctx', DB_SUCCESS) /\
    st_rows s' (heap_of wtable) = upd_if (schema_ (table_meta_ wtable)) (wwhere wa2) wA8 <$> st_rows wdstore (heap_of wtable) /\
    Forall (index_good s' wtable) [windex_b] /\
    numAffectedRows ctx' = numAffectedRows wctx +
      Z.of_nat (length (List.filter (accepts (schema_ (table_meta_ wtable)) (wwhere wa2)) (st_rows wdstore (heap_of wtable)))).
Proof.
  refine (ExecuteUpdate_scan (wengine [windex_b]) wdstore (wupdate "b" (wnum "8") wa2) wctx (wcatalog [windex_b])
            (mkSyntaxNode kNodeIdentifier "t" None (Some (wset "b" (wnum "8") wa2))) (wset "b" (wnum "8") wa2)
            wtable [windex_b] wA8 _ _ _ _ _ _ _ _ _ _ _ _ _ _ _);
    [discriminate | reflexivity | reflexivity | reflexivity | vm_compute; reflexivity | vm_compute; reflexivity
    | vm_compute; reflexivity | vm_compute; reflexivity | vm_compute; reflexivity | repeat constructor
    | apply (bool_decide_unpack _); vm_compute; reflexivity | apply (bool_decide_unpack _); vm_compute; reflexivity
    | | repeat constructor; intros _; vm_compute; discriminate |].
  - constructor; [|constructor]. split.
    + exists [1]. split; [vm_compute; reflexivity|]. vm_compute. reflexivity.
    + apply (bool_decide_unpack _); vm_compute; reflexivity.
  - constructor; [|constructor]. intros ix Hix. vm_compute in Hix. injection Hix as <-.
    apply (bool_decide_unpack _); vm_compute; reflexivity.
Defined.

(** [t(a int, n char(2))] with an index on [n], holding [(1, 'ab')]. *)
Definition wcschema : Schema := mkSchema [wcol 97 0; mkColumn [110] kTypeChar 2 1 true false].
Definition wctable : TableInfo := mkTableInfo (mkTableMetadata 0 [116] 1 wcschema) 1.
Definition wcindex : IndexInfo := mkIndexInfo (mkIndexMetadata 0 [105] 0 [1]) wctable.
Definition wccatalog : CatalogManager :=
  mkCatalogManager (mkCatalogMeta [] []) 1 1 {[ [116] := 0 ]} {[ 0 := wctable ]} {[ [116] := {[ [105] := 0 ]} ]}
    {[ 0 := wcindex ]}.
Definition wcengine : ExecuteEngine := mkExecuteEngine {[ "db"%string := Some wccatalog ]} "db".
Definition wab : list Z := [97; 98].
Definition wcstore : RefStore sfield :=
  mkRefStore {[ 1 := [mkRow (mkRowId 1 0) [SInt 1; SChar wab]] ]} {[ 0 := [([SChar wab], mkRowId 1 0)] ]} 1.
Definition wstr (lit : string) : SyntaxNode := mkSyntaxNode kNodeString lit None None.

(** The run [update_row_ignores_failed_update] describes: UPDATE takes
    a CHAR value of any length, and ignores a failed [UpdateTuple].
    On [t(a int, n char(2))] holding [(1, 'ab')] with an
    index on [n], [insert into t values (1, 'abc')] is rejected for the
    length, but [update t set n = 'abc' where a = 1] succeeds and counts
    one affected row: the longer tuple does not fit in place, so
    [UpdateTuple] fails and the heap still holds [(1, 'ab')], while the
    index has lost ['ab'] and maps ['abc'] to that row.  A later
    [select * from t where n = 'ab'] goes through the index and finds
    nothing. *)
Example ExecuteUpdate_char_length_run :
  (match ExecuteInsert (Field := sfield) wcengine wcstore
           (mkSyntaxNode kNodeInsert "" (Some (mkSyntaxNode kNodeIdentifier "t" None
              (Some (mkSyntaxNode kNodeColumnValues "" (Some (mkSyntaxNode kNodeNumber "1" None (Some (wstr "abc")))) None))))
              None) wctx with
   | Some (_, _, _, e) => e = DB_FAILED
   | None => False
   end) /\
  match ExecuteUpdate wcengine wcstore (wupdate "n" (wstr "abc") (wcmp "=" "a" "1" None)) wctx with
  | Some (eng', s', ctx', e) =>
      e = DB_SUCCESS /\ numAffectedRows ctx' = 1 /\
      st_rows s' 1 = [mkRow (mkRowId 1 0) [SInt 1; SChar wab]] /\
      st_entries s' 0 = [([SChar [97; 98; 99]], mkRowId 1 0)] /\
      match @ExecuteSelect sfield _ _ (storage_view s') eng' (wselect (mkSyntaxNode kNodeCompareOperator "="
              (Some (mkSyntaxNode kNodeIdentifier "n" None (Some (wstr "ab")))) None)) wctx with
      | Some (_, ctx'', e') => e' = DB_SUCCESS /\ numSelectedRows ctx'' = 0
      | None => False
      end
  | None => False
  end.
Proof. vm_compute. repeat split; reflexivity. Qed.

(** The row [(1, 'ab')] set to [(1, 'abc')]. *)
Lemma update_row_ignores_failed_update_witness :
  exists s', update_row wcstore (heap_of wctable) (schema_ (table_meta_ wctable)) (wset "n" (wstr "abc") (wcmp "=" "a" "1" None))
               (mkRow (mkRowId 1 0) [SInt 1; SChar wab]) [wcindex] = Some (s', DB_SUCCESS) /\
    st_rows s' (heap_of wctable) = st_rows wcstore (heap_of wctable) /\
    Forall (fun ii => index_agrees s' wctable ii ([] ++ upd [(1%nat, SChar [97; 98; 99])] (mkRow (mkRowId 1 0) [SInt 1; SChar wab]) :: []))
      [wcindex].
Proof.
  apply (update_row_ignores_failed_update wctable [wcindex] wcstore [] (mkRow (mkRowId 1 0) [SInt 1; SChar wab]) []
           (wset "n" (wstr "abc") (wcmp "=" "a" "1" None)) [(1%nat, SChar [97; 98; 99])]);
    [apply (bool_decide_unpack _); vm_compute; reflexivity | reflexivity
    | apply (bool_decide_unpack _); vm_compute; reflexivity | reflexivity | | vm_compute; reflexivity
    | vm_compute; reflexivity | ].
  - constructor; [|constructor]. split.
    + exists [1]. split; [vm_compute; reflexivity|]. vm_compute. reflexivity.
    + apply (bool_decide_unpack _); vm_compute; reflexivity.
  - constructor; [|constructor]. intros ix k _ _. cbn. apply not_elem_of_nil.
Defined.

(** An UPDATE that gives a row a key another row has reaches
    [ASSERT(false, "Update duplicate key")] after the old key has been
    removed and the tuple replaced: [update t set b = 6 where a = 2]
    aborts the program. *)
Example ExecuteUpdate_duplicate_key_aborts :
  ExecuteUpdate (wengine [windex_b]) wdstore (wupdate "b" (wnum "6") wa2) wctx = None.
Proof. vm_compute. reflexivity. Qed.

End Witnesses.

End ExecuteUpdate.
