(* ===== verification/ExecuteDB.v ===== *)
(** * Databases, tables and indexes: the DDL of executor/execute_engine.cpp

    The engine's state is [dbs_] (the open databases, each a
    [DBStorageEngine] whose catalog is the [CatalogManager] model and
    whose buffer pool is the [BufferPool] model), [current_db_], and
    the file [dbs.txt] that lists the databases one per line.
    [DBState] holds the three: the catalogs and [current_db_] as the
    [ExecuteEngine] the other statements read, the buffer pools keyed
    by database name beside them, and the lines of [dbs.txt].

    Opening a database file ([DBStorageEngine(name, init)], in a header
    not under src/) runs the catalog's constructor on that file's buffer
    pool; the pool a file gives is the parameter [open_pool].  The
    statements that create an index reach the table heap and the index
    through the class [Storage] of [ExecuteDML].

    The theorems show that the engine's constructor reopens exactly the
    databases [dbs.txt] lists, that every sequence of statements keeps
    [dbs.txt] in step with [dbs_] and [current_db_] naming an open
    database or none ([engine_ok]), and the behaviour of CREATE TABLE on
    a table without a primary key. *)

From Stdlib Require Import ZArith Lia List String Ascii.
From stdpp Require Import base list gmap strings.
From S2P Require Import Spec2Rocq Records RowFormat Catalog Replacer BufferPool CatalogManager ExecuteContext Executor ExecuteSelect ExecuteDML.
Import ListNotations.
Open Scope Z_scope.

Module ExecuteDB.
Import Records RowFormat Catalog BufferPool CatalogManager ExecuteContext Executor ExecuteSelect ExecuteDML.

Record DBState (R : Type) := mkDBState {
  exec_ : ExecuteEngine;
  pools_ : gmap string (BufferPoolManager R);
  dbs_txt_ : list string
}.
Arguments mkDBState {R}.
Arguments exec_ {R}.
Arguments pools_ {R}.
Arguments dbs_txt_ {R}.

(** The names of [dbs_], in its iteration order. *)
Definition db_names (dbs : gmap string (option CatalogManager)) : list string := (map_to_list dbs).*1.

(** The text of a [std::string] built from bytes. *)
Definition text_of (b : list Z) : list ascii := (fun z => ascii_of_nat (Z.to_nat z)) <$> b.

(** [max_len] of the SHOW statements: the widest name, at least [w]. *)
Definition max_len (w : Z) (names : list (list ascii)) : Z :=
  foldl (fun m n => Z.max m (Z.of_nat (length n))) w names.

(** The table the SHOW statements print: a title and one row per name. *)
Definition show_names (ctx : ExecuteContext) (title : string) (w : Z) (names : list (list ascii)) : ExecuteContext :=
  let len := max_len w names in
  let ctx1 := PrintDivider (PrintString (PrintDivider ctx len) (chars title) len) len in
  PrintDivider (foldl (fun c n => AddNumSelectedRows (PrintString c n len) 1) ctx1 names) len.

(** [atoi]: the leading blanks, sign and digits, [0] without digits;
    outside [int] the behaviour is undefined ([None]). *)
Definition atoi (s : string) : option Z :=
  let s1 := skip_spaces s in
  let '(neg, s2) := match s1 with
                    | String c r => if Ascii.eqb c "-"%char then (true, r)
                                    else if Ascii.eqb c "+"%char then (false, r) else (false, s1)
                    | EmptyString => (false, s1)
                    end in
  let '(v, n) := read_digits s2 0 0 in
  let v' := if neg then - v else v in
  if (n =? 0)%nat then Some 0
  else if (- 2 ^ 31 <=? v') && (v' <? 2 ^ 31) then Some v' else None.

(** The names of a list of identifier nodes, from the first on: the
    primary keys of CREATE TABLE and the keys of CREATE INDEX. *)
Fixpoint names_from (n : SyntaxNode) : list (list Z) :=
  match n with
  | mkSyntaxNode _ v _ nx => bytes_of_string v :: match nx with None => [] | Some m => names_from m end
  end.

Definition names_of (first : option SyntaxNode) : list (list Z) :=
  match first with None => [] | Some n => names_from n end.

(** The loop of CREATE TABLE over the column list (lines 252-287): a
    column definition (a non-unique column is nullable), or the primary
    keys; [ind] counts every node of the list. *)
Fixpoint column_defs (node : SyntaxNode) (ind : Z) (columns : list Column) (primary_keys : list (list Z))
  : option (dberr_t + (list Column * list (list Z))) :=
  match node with
  | mkSyntaxNode t v child nx =>
      step ← (if decide (t = kNodeColumnDefinition) then
                let unique := String.eqb v "unique" in
                name_node ← child;
                type_node ← next_ name_node;
                let column_name := bytes_of_string (val_ name_node) in
                let column_type := val_ type_node in
                if String.eqb column_type "int" then
                  c ← Column_new column_name kTypeInt ind (negb unique) unique; Some (inr (columns ++ [c], primary_keys))
                else if String.eqb column_type "float" then
                  c ← Column_new column_name kTypeFloat ind (negb unique) unique; Some (inr (columns ++ [c], primary_keys))
                else if String.eqb column_type "char" then
                  length_node ← child_ type_node;
                  column_length ← atoi (val_ length_node);
                  if column_length <=? 0 then Some (inl DB_FAILED) else
                  c ← Column_new_char column_name kTypeChar column_length ind (negb unique) unique;
                  Some (inr (columns ++ [c], primary_keys))
                else Some (inl DB_FAILED)
              else if String.eqb v "primary keys" then Some (inr (columns, primary_keys ++ names_of child))
              else Some (inl DB_FAILED));
      match step with
      | inl e => Some (inl e)
      | inr (cs, pks) => match nx with None => Some (inr (cs, pks)) | Some n => column_defs n (ind + 1) cs pks end
      end
  end.

Definition column_list (first : option SyntaxNode) : option (dberr_t + (list Column * list (list Z))) :=
  match first with None => Some (inr ([], [])) | Some n => column_defs n 0 [] [] end.

(** The loop of [ShowIndexes] over the tables: [GetTableIndexes]
    appends to [indexes]. *)
Fixpoint table_indexes (cm : CatalogManager) (tables : list TableInfo) (acc : list IndexInfo)
  : option (dberr_t + list IndexInfo) :=
  match tables with
  | [] => Some (inr acc)
  | t :: ts =>
      '(e, infos) ← GetTableIndexes cm (table_name_ (table_meta_ t));
      if decide (e <> DB_SUCCESS) then Some (inl e) else table_indexes cm ts (acc ++ infos)
  end.

(** The loop of [DropIndex] looking for the index by name: its table. *)
Fixpoint find_index (cm : CatalogManager) (tables : list TableInfo) (index_name : list Z)
  : option (dberr_t + option (list Z)) :=
  match tables with
  | [] => Some (inr None)
  | t :: ts =>
      let tname := table_name_ (table_meta_ t) in
      '(e, infos) ← GetTableIndexes cm tname;
      if decide (e <> DB_SUCCESS) then Some (inl e)
      else if decide (index_name ∈ (fun ii : IndexInfo => index_name_ (index_meta_ ii)) <$> (infos : list IndexInfo)) then Some (inr (Some tname))
      else find_index cm ts index_name
  end.

(** ** The engine invariant *)

(** [dbs.txt] lists the open databases (in some order), every entry of
    [dbs_] is an open database with its buffer pool, and [current_db_]
    is empty or names one of them. *)
Record engine_ok {R : Type} (st : DBState R) : Prop := {
  ok_txt : dbs_txt_ st ≡ₚ db_names (dbs_ (exec_ st));
  ok_open : forall n d, dbs_ (exec_ st) !! n = Some d -> is_Some d /\ is_Some (pools_ st !! n);
  ok_current : current_db_ (exec_ st) = ""%string \/ is_Some (dbs_ (exec_ st) !! current_db_ (exec_ st))
}.

Section Names.
Implicit Types (m : gmap string (option CatalogManager)).

Lemma db_names_elem m k : k ∈ db_names m <-> is_Some (m !! k).
Proof.
  unfold db_names. rewrite list_elem_of_fmap. split.
  - intros [[k' v] [-> Hin%elem_of_map_to_list]]. by exists v.
  - intros [v Hv]. exists (k, v). split; [done|]. by apply elem_of_map_to_list.
Qed.

Lemma db_names_NoDup m : NoDup (db_names m).
Proof. apply NoDup_fst_map_to_list. Qed.

Lemma db_names_insert_new m k v : m !! k = None -> db_names (<[k:=v]> m) ≡ₚ k :: db_names m.
Proof. intros Hk. unfold db_names. by rewrite map_to_list_insert. Qed.

Lemma db_names_delete m k v : m !! k = Some v -> k :: db_names (delete k m) ≡ₚ db_names m.
Proof. intros Hk. unfold db_names. by rewrite <- (map_to_list_delete m k v). Qed.

Lemma db_names_insert_old m k v : is_Some (m !! k) -> db_names (<[k:=v]> m) ≡ₚ db_names m.
Proof.
  intros [v0 Hk]. rewrite <- (db_names_delete m k v0 Hk), <- insert_delete_eq.
  apply db_names_insert_new, lookup_delete_eq.
Qed.

(** The lines [ExecuteDropDatabase] writes are the names left. *)
Lemma db_names_drop m k v : m !! k = Some v -> filter (fun n => n <> k) (db_names m) ≡ₚ db_names (delete k m).
Proof.
  intros Hk. rewrite <- (db_names_delete m k v Hk), filter_cons_False by tauto.
  rewrite filter_Forall_id; [done|]. apply Forall_forall. intros n Hn ->. apply db_names_elem in Hn. rewrite lookup_delete_eq in Hn. by destruct Hn.
Qed.

End Names.

(** Runs a hypothesis [f ... = Some r] down its binds and matches to the
    equations of [r]. *)
Ltac run_in H :=
  repeat (first
    [ progress cbn [mbind option_bind] in H
    | match type of H with
      | Some _ = Some _ => injection H; clear H; intros; subst
      | None = Some _ => discriminate H
      | (?x ≫= _) = Some _ => let E := fresh "E" in destruct x eqn:E
      | (match ?x with _ => _ end) = Some _ => let E := fresh "E" in destruct x eqn:E
      | (if ?x then _ else _) = Some _ => let E := fresh "E" in destruct x eqn:E
      end ]).

(** The state with the engine a statement returns. *)
Definition set_exec {R} (st : DBState R) (eng : ExecuteEngine) : DBState R := mkDBState eng (pools_ st) (dbs_txt_ st).

Lemma set_exec_self {R} (st : DBState R) : set_exec st (exec_ st) = st.
Proof. by destruct st. Qed.

Section Databases.
Context {R : Type} `{Replacer R}.
Variables CATALOG_METADATA_MAGIC_NUM TABLE_METADATA_MAGIC_NUM INDEX_METADATA_MAGIC_NUM : Z.
Variables SCHEMA_MAGIC_NUM COLUMN_MAGIC_NUM : Z.
Variable heap_after : list Z.
(** The buffer pool over the file of database [name], new or existing. *)
Variable open_pool : string -> bool -> BufferPoolManager R.
(** Whether [dbs_file.open("dbs.txt", ios::out)] succeeds. *)
Variable dbs_txt_opens : bool.
Implicit Types (st : DBState R).

(** [new DBStorageEngine(name, init)]: the catalog's constructor on the
    file's buffer pool. *)
Definition open_db (name : string) (init : bool) : option (CatalogManager * BufferPoolManager R) :=
  if init then CatalogManager_init CATALOG_METADATA_MAGIC_NUM (open_pool name true)
  else CatalogManager_load CATALOG_METADATA_MAGIC_NUM TABLE_METADATA_MAGIC_NUM INDEX_METADATA_MAGIC_NUM
         SCHEMA_MAGIC_NUM COLUMN_MAGIC_NUM heap_after (open_pool name false).

(** The loop of the constructor over the lines of [dbs.txt]:
    [dbs_.insert] keeps an earlier database of the same name. *)
Fixpoint load_dbs (lines : list string) (dbs : gmap string (option CatalogManager))
  (pools : gmap string (BufferPoolManager R)) : option (gmap string (option CatalogManager) * gmap string (BufferPoolManager R)) :=
  match lines with
  | [] => Some (dbs, pools)
  | name :: rest =>
      '(cm, bpm) ← open_db name false;
      load_dbs rest (umap_insert name (Some cm) dbs) (umap_insert name bpm pools)
  end.

(** [ExecuteEngine()], on the lines of [dbs.txt] (an empty file when it
    does not exist). *)
Definition ExecuteEngine_new (lines : list string) : option (DBState R) :=
  '(dbs, pools) ← load_dbs lines ∅ ∅;
  Some (mkDBState (mkExecuteEngine dbs "") pools lines).

Definition ExecuteCreateDatabase st (ast : SyntaxNode) (ctx : ExecuteContext) : option (DBState R * ExecuteContext * dberr_t) :=
  db_name_node ← child_ ast;
  let db_name := val_ db_name_node in
  let dbs := dbs_ (exec_ st) in
  if decide (is_Some (dbs !! db_name)) then Some (st, ctx, DB_FAILED) else
  if negb dbs_txt_opens then Some (st, ctx, DB_FAILED) else
  let lines := db_names dbs ++ [db_name] in
  '(cm, bpm) ← open_db db_name true;
  Some (mkDBState (mkExecuteEngine (<[db_name := Some cm]> dbs) (current_db_ (exec_ st)))
          (<[db_name := bpm]> (pools_ st)) lines, AddAffectedRows ctx 1, DB_SUCCESS).

Definition ExecuteDropDatabase st (ast : SyntaxNode) (ctx : ExecuteContext) : option (DBState R * ExecuteContext * dberr_t) :=
  db_name_node ← child_ ast;
  let db_name := val_ db_name_node in
  let dbs := dbs_ (exec_ st) in
  if decide (dbs !! db_name = None) then Some (st, ctx, DB_FAILED) else
  if negb dbs_txt_opens then Some (st, ctx, DB_FAILED) else
  let lines := filter (fun n => n <> db_name) (db_names dbs) in
  let cur := current_db_ (exec_ st) in
  Some (mkDBState (mkExecuteEngine (delete db_name dbs) (if String.eqb cur db_name then "" else cur))
          (delete db_name (pools_ st)) lines, AddAffectedRows ctx 1, DB_SUCCESS).

Definition ExecuteShowDatabases st (ast : SyntaxNode) (ctx : ExecuteContext) : option (DBState R * ExecuteContext * dberr_t) :=
  Some (st, show_names ctx "Databases" 9 (chars <$> db_names (dbs_ (exec_ st))), DB_SUCCESS).

Definition ExecuteUseDatabase st (ast : SyntaxNode) (ctx : ExecuteContext) : option (DBState R * ExecuteContext * dberr_t) :=
  db_name_node ← child_ ast;
  let db_name := val_ db_name_node in
  if decide (dbs_ (exec_ st) !! db_name = None) then Some (st, ctx, DB_FAILED) else
  Some (mkDBState (mkExecuteEngine (dbs_ (exec_ st)) db_name) (pools_ st) (dbs_txt_ st), ctx, DB_SUCCESS).

Lemma ExecuteCreateDatabase_ok st ast ctx st' ctx' e :
  engine_ok st -> ExecuteCreateDatabase st ast ctx = Some (st', ctx', e) -> engine_ok st'.
Proof.
  intros [Ht Ho Hc] Hrun. unfold ExecuteCreateDatabase in Hrun. run_in Hrun; try done.
  destruct (dbs_ (exec_ st) !! val_ s) as [d|] eqn:Ed; [by destruct n|]. split; cbn [exec_ dbs_ pools_ dbs_txt_ current_db_].
  - rewrite db_names_insert_new by done. symmetry. apply Permutation_cons_append.
  - intros m d'. destruct (decide (m = val_ s)) as [->|Hne].
    + rewrite !lookup_insert_eq. intros [= <-]. eauto.
    + rewrite !lookup_insert_ne by congruence. apply Ho.
  - destruct Hc as [->|[d0 Hd0]]; [by left|right]. rewrite lookup_insert_ne; [eauto|]. intros Heq. congruence.
Qed.

Lemma ExecuteDropDatabase_ok st ast ctx st' ctx' e :
  engine_ok st -> ExecuteDropDatabase st ast ctx = Some (st', ctx', e) -> engine_ok st'.
Proof.
  intros [Ht Ho Hc] Hrun. unfold ExecuteDropDatabase in Hrun. run_in Hrun; try done.
  destruct (dbs_ (exec_ st) !! val_ s) as [d|] eqn:Ed; [|done]. split; cbn [exec_ dbs_ pools_ dbs_txt_ current_db_].
  - exact (db_names_drop _ _ _ Ed).
  - intros m d'. destruct (decide (m = val_ s)) as [->|Hne]; [by rewrite lookup_delete_eq|].
    rewrite !lookup_delete_ne by congruence. apply Ho.
  - destruct (String.eqb_spec (current_db_ (exec_ st)) (val_ s)) as [_|Hne]; [by left|].
    destruct Hc as [->|Hc]; [by left|right]. by rewrite lookup_delete_ne by congruence.
Qed.

Lemma ExecuteUseDatabase_ok st ast ctx st' ctx' e :
  engine_ok st -> ExecuteUseDatabase st ast ctx = Some (st', ctx', e) -> engine_ok st'.
Proof.
  intros [Ht Ho Hc] Hrun. unfold ExecuteUseDatabase in Hrun. run_in Hrun; [done|].
  split; cbn [exec_ dbs_ pools_ dbs_txt_ current_db_]; [done|done|]. right. by apply not_eq_None_Some.
Qed.

Lemma ExecuteShowDatabases_ok st ast ctx st' ctx' e :
  engine_ok st -> ExecuteShowDatabases st ast ctx = Some (st', ctx', e) -> engine_ok st'.
Proof. intros Hok [= <- _ _]. exact Hok. Qed.

(** The constructor's loop opens each database [dbs.txt] lists, keeping
    the first of a name. *)
Lemma load_dbs_spec lines : forall dbs pools dbs' pools',
  (forall n d, dbs !! n = Some d -> is_Some d /\ is_Some (pools !! n)) ->
  load_dbs lines dbs pools = Some (dbs', pools') ->
  (forall n, is_Some (dbs' !! n) <-> is_Some (dbs !! n) \/ n ∈ lines) /\
  (forall n d, dbs' !! n = Some d -> is_Some d /\ is_Some (pools' !! n)).
Proof.
  induction lines as [|l ls IH]; intros dbs pools dbs' pools' Ho Hl; cbn [load_dbs] in Hl.
  { injection Hl as <- <-. split; [|done]. intros n. split; [by left | intros [Hn|Hn]; [done | inversion Hn]]. }
  destruct (open_db l false) as [[cm bpm]|]; [|discriminate]. cbn in Hl.
  assert (Ho1 : forall n d, umap_insert l (Some cm) dbs !! n = Some d -> is_Some d /\ is_Some (umap_insert l bpm pools !! n)).
  { intros n d. unfold umap_insert. destruct (dbs !! l) as [d0|] eqn:El.
    - destruct (Ho l d0 El) as [_ [p Hp]]. rewrite Hp. cbv iota. apply Ho.
    - destruct (decide (n = l)) as [->|Hne].
      + rewrite lookup_insert_eq. intros [= <-]. split; [eauto|].
        destruct (pools !! l) eqn:Ep; cbv iota; [eauto | rewrite lookup_insert_eq; eauto].
      + rewrite lookup_insert_ne by congruence. intros Hn. destruct (Ho n d Hn) as [Hd' Hp]. split; [done|].
        destruct (pools !! l); cbv iota; [exact Hp | by rewrite lookup_insert_ne by congruence]. }
  destruct (IH _ _ _ _ Ho1 Hl) as [Hd Ho'].
  split; [|exact Ho']. intros n. rewrite Hd, elem_of_cons. unfold umap_insert.
  destruct (dbs !! l) as [d0|] eqn:El; destruct (decide (n = l)) as [->|Hne].
  - rewrite El. split; [tauto | intros _; left; eauto].
  - tauto.
  - rewrite lookup_insert_eq. split; [tauto | intros _; left; eauto].
  - rewrite lookup_insert_ne by congruence. tauto.
Qed.

(** Two maps with the same names list them in the same order, up to
    permutation. *)
Lemma db_names_same (m m' : gmap string (option CatalogManager)) :
  (forall n, is_Some (m' !! n) <-> is_Some (m !! n)) -> db_names m' ≡ₚ db_names m.
Proof.
  intros Hs. apply NoDup_Permutation; [apply db_names_NoDup | apply db_names_NoDup|]. intros n.
  rewrite !db_names_elem. apply Hs.
Qed.

(** C36: Restarting the engine on the [dbs.txt] it wrote reopens exactly
    its databases: the constructor, on the lines of the file of an
    engine satisfying the invariant, yields an engine with the same
    database names, none current, the same file, and the invariant. *)
Theorem ExecuteEngine_restart st st' :
  engine_ok st -> ExecuteEngine_new (dbs_txt_ st) = Some st' ->
  (forall n, is_Some (dbs_ (exec_ st') !! n) <-> is_Some (dbs_ (exec_ st) !! n)) /\
  current_db_ (exec_ st') = ""%string /\ dbs_txt_ st' = dbs_txt_ st /\ engine_ok st'.
Proof.
  intros Hok Hnew. unfold ExecuteEngine_new in Hnew.
  destruct (load_dbs (dbs_txt_ st) ∅ ∅) as [[dbs pools]|] eqn:El; [|discriminate]. injection Hnew as <-.
  destruct (load_dbs_spec _ _ _ _ _ (fun n d Hd => ltac:(by rewrite lookup_empty in Hd)) El) as [Hd Ho].
  assert (Hs : forall n, is_Some (dbs !! n) <-> is_Some (dbs_ (exec_ st) !! n)).
  { intros n. rewrite Hd, lookup_empty, (ok_txt st Hok), db_names_elem.
    split; [intros [[? Hx]|Hx]; [discriminate | exact Hx] | intros Hx; by right]. }
  split; [exact Hs|]. split; [done|]. split; [done|]. split; cbn [exec_ dbs_ pools_ dbs_txt_ current_db_].
  - rewrite (ok_txt st Hok). symmetry. by apply db_names_same.
  - exact Ho.
  - by left.
Qed.

End Databases.

Section Tables.
Context {R : Type} `{Replacer R} {Field S : Type} `{EqDecision Field} `{FieldCodec Field} `{FieldOps Field}
  `{Storage Field S}.
Variables TABLE_METADATA_MAGIC_NUM INDEX_METADATA_MAGIC_NUM SCHEMA_MAGIC_NUM COLUMN_MAGIC_NUM : Z.
Implicit Types (st : DBState R) (s : S).

(** The state with the current database's catalog and pool replaced. *)
Definition set_db st (name : string) (cm : CatalogManager) (bpm : BufferPoolManager R) : DBState R :=
  mkDBState (mkExecuteEngine (<[name := Some cm]> (dbs_ (exec_ st))) (current_db_ (exec_ st)))
    (<[name := bpm]> (pools_ st)) (dbs_txt_ st).


(** [InsertEntry] of each tuple's key into the new index, in the loop of
    [CatalogManager::CreateIndex] (catalog.cpp, lines 191-224), whose
    status the catalog model gives. *)
Fixpoint populate_entries s (schema : Schema) (ii : IndexInfo) (rows : list (Row Field)) : option S :=
  match rows with
  | [] => Some s
  | r :: rs =>
      c ← index_columns schema ii;
      match c with
      | inl _ => None
      | inr ix =>
          key ← key_fields (fields_ r) ix;
          let '(s1, status) := st_InsertEntry s (index_of ii) key (rid_ r) in
          if decide (status = DB_SUCCESS) then populate_entries s1 schema ii rs else None
      end
  end.

(** The index's entries after [CatalogManager::CreateIndex]: every
    tuple's key on success; on a duplicate key its [DropIndex] destroys
    the index (catalog.cpp, line 277). *)
Definition created_index_entries s (schema : Schema) (e : dberr_t) (oii : option IndexInfo) (rows : list (Row Field))
  : option S :=
  match oii with
  | None => Some s
  | Some ii =>
      if decide (e = DB_SUCCESS) then populate_entries s schema ii rows
      else if decide (e = DB_FAILED) then Some (fst (st_Destroy s (index_of ii)))
      else Some s
  end.

(** [CatalogManager::CreateIndex] over the rows of the table's heap. *)
Definition catalog_CreateIndex s (cm : CatalogManager) (bpm : BufferPoolManager R) (table_name index_name : list Z)
  (index_keys : list (list Z)) : option (CatalogManager * BufferPoolManager R * S * dberr_t) :=
  '(_, oti) ← GetTable cm table_name;
  let rows := match oti with Some ti => st_rows s (heap_of ti) | None => [] end in
  '(cm1, bpm1, e, oii) ← CreateIndex INDEX_METADATA_MAGIC_NUM cm bpm table_name index_name index_keys (fields_ <$> rows);
  let schema := match oti with Some ti => schema_ (table_meta_ ti) | None => mkSchema [] end in
  s1 ← created_index_entries s schema e oii rows;
  Some (cm1, bpm1, s1, e).

Definition ExecuteShowTables st (ast : SyntaxNode) (ctx : ExecuteContext) : option (DBState R * ExecuteContext * dberr_t) :=
  let cur := current_db_ (exec_ st) in
  if String.eqb cur "" then Some (st, ctx, DB_FAILED) else
  let '(eng, db) := dbs_at (exec_ st) cur in
  match db with
  | None => Some (set_exec st eng, ctx, DB_FAILED)
  | Some cm =>
      Some (set_exec st eng,
            show_names ctx "Tables" 6 ((fun ti => text_of (table_name_ (table_meta_ ti))) <$> GetTables cm), DB_SUCCESS)
  end.

Definition ExecuteCreateTable st s (ast : SyntaxNode) (ctx : ExecuteContext) : option (DBState R * S * ExecuteContext * dberr_t) :=
  let cur := current_db_ (exec_ st) in
  if String.eqb cur "" then Some (st, s, ctx, DB_FAILED) else
  let '(eng, db) := dbs_at (exec_ st) cur in
  let st := set_exec st eng in
  match db with
  | None => Some (st, s, ctx, DB_FAILED)
  | Some cm =>
      table_name_node ← child_ ast;
      column_list_node ← next_ table_name_node;
      let table_name := bytes_of_string (val_ table_name_node) in
      defs ← column_list (child_ column_list_node);
      match defs with
      | inl e => Some (st, s, ctx, e)
      | inr (columns, primary_keys) =>
          bpm ← pools_ st !! cur;
          '(cm1, bpm1, e, _) ← CreateTable TABLE_METADATA_MAGIC_NUM SCHEMA_MAGIC_NUM COLUMN_MAGIC_NUM cm bpm table_name
                                   (mkSchema columns);
          let st := set_db st cur cm1 bpm1 in
          if decide (e <> DB_SUCCESS) then Some (st, s, ctx, DB_FAILED) else
          '(cm2, bpm2, s2, status) ← catalog_CreateIndex s cm1 bpm1 table_name
                                        ([95] ++ table_name ++ bytes_of_string "_primkey") primary_keys;
          Some (set_db st cur cm2 bpm2, s2, ctx, status)
      end
  end.

Definition ExecuteDropTable st (ast : SyntaxNode) (ctx : ExecuteContext) : option (DBState R * ExecuteContext * dberr_t) :=
  let cur := current_db_ (exec_ st) in
  if String.eqb cur "" then Some (st, ctx, DB_FAILED) else
  let '(eng, db) := dbs_at (exec_ st) cur in
  let st := set_exec st eng in
  match db with
  | None => Some (st, ctx, DB_FAILED)
  | Some cm =>
      table_name_node ← child_ ast;
      let ctx := AddAffectedRows ctx 1 in
      '(cm1, e) ← DropTable cm (bytes_of_string (val_ table_name_node));
      bpm ← pools_ st !! cur;
      Some (set_db st cur cm1 bpm, ctx, e)
  end.

Definition ExecuteShowIndexes st (ast : SyntaxNode) (ctx : ExecuteContext) : option (DBState R * ExecuteContext * dberr_t) :=
  let cur := current_db_ (exec_ st) in
  if String.eqb cur "" then Some (st, ctx, DB_FAILED) else
  let '(eng, db) := dbs_at (exec_ st) cur in
  let st := set_exec st eng in
  match db with
  | None => Some (st, ctx, DB_FAILED)
  | Some cm =>
      r ← table_indexes cm (GetTables cm) [];
      match r with
      | inl e => Some (st, ctx, e)
      | inr indexes =>
          Some (st, show_names ctx "Indexes" 7 ((fun ii => text_of (index_name_ (index_meta_ ii))) <$> indexes), DB_SUCCESS)
      end
  end.

(** The check that some key column is unique; a key name not found
    leaves [key_id] at 0. *)
Definition some_unique (schema : Schema) (keys : list (list Z)) : option bool :=
  cols ← mapM (fun k => columns_ schema !! Z.to_nat (default 0 (GetColumnIndex schema k))) keys;
  Some (existsb unique_ cols).

Definition ExecuteCreateIndex st s (ast : SyntaxNode) (ctx : ExecuteContext) : option (DBState R * S * ExecuteContext * dberr_t) :=
  let cur := current_db_ (exec_ st) in
  if String.eqb cur "" then Some (st, s, ctx, DB_FAILED) else
  let '(eng, db) := dbs_at (exec_ st) cur in
  let st := set_exec st eng in
  match db with
  | None => Some (st, s, ctx, DB_FAILED)
  | Some cm =>
      index_name_node ← child_ ast;
      table_name_node ← next_ index_name_node;
      index_keys_node ← next_ table_name_node;
      let index_name := bytes_of_string (val_ index_name_node) in
      let table_name := bytes_of_string (val_ table_name_node) in
      '(e, oti) ← GetTable cm table_name;
      if decide (e <> DB_SUCCESS) then Some (st, s, ctx, DB_FAILED) else
      ti ← oti;
      let index_keys := names_of (child_ index_keys_node) in
      flag ← some_unique (schema_ (table_meta_ ti)) index_keys;
      if negb flag then Some (st, s, emit ctx (chars "Cannot create index on non-unique attributes!" ++ ["010"%char]), DB_FAILED)
      else
      bpm ← pools_ st !! cur;
      '(cm1, bpm1, s1, status) ← catalog_CreateIndex s cm bpm table_name index_name index_keys;
      let st := set_db st cur cm1 bpm1 in
      if decide (status <> DB_SUCCESS) then Some (st, s1, ctx, status)
      else Some (st, s1, AddAffectedRows ctx 1, DB_SUCCESS)
  end.

(** [DropIndex] of the first table holding an index of that name; the
    catalog's [DropIndex] destroys the index (catalog.cpp, line 277). *)
Definition ExecuteDropIndex st s (ast : SyntaxNode) (ctx : ExecuteContext) : option (DBState R * S * ExecuteContext * dberr_t) :=
  let cur := current_db_ (exec_ st) in
  if String.eqb cur "" then Some (st, s, ctx, DB_FAILED) else
  let '(eng, db) := dbs_at (exec_ st) cur in
  let st := set_exec st eng in
  match db with
  | None => Some (st, s, ctx, DB_FAILED)
  | Some cm =>
      index_name_node ← child_ ast;
      let index_name := bytes_of_string (val_ index_name_node) in
      r ← find_index cm (GetTables cm) index_name;
      match r with
      | inl e => Some (st, s, ctx, e)
      | inr None => Some (st, s, ctx, DB_INDEX_NOT_FOUND)
      | inr (Some tname) =>
          '(_, oii) ← GetIndex cm tname index_name;
          '(cm1, e) ← DropIndex cm tname index_name;
          let s1 := match oii with
                    | Some ii => if decide (e = DB_SUCCESS) then fst (st_Destroy s (index_of ii)) else s
                    | None => s
                    end in
          bpm ← pools_ st !! cur;
          Some (set_db st cur cm1 bpm, s1, AddAffectedRows ctx 1, e)
      end
  end.

Lemma cur_open st : engine_ok st -> current_db_ (exec_ st) <> ""%string ->
  is_Some (dbs_ (exec_ st) !! current_db_ (exec_ st)).
Proof. by intros [_ _ [Hc|Hc]]. Qed.

(** With the invariant, [dbs_[current_db_]] finds the open database. *)
Lemma dbs_at_ok st : engine_ok st -> current_db_ (exec_ st) <> ""%string ->
  exists cm, dbs_at (exec_ st) (current_db_ (exec_ st)) = (exec_ st, Some cm).
Proof.
  intros Hok Hne. destruct (cur_open st Hok Hne) as [d Hd]. destruct (ok_open st Hok _ _ Hd) as [[cm ->] _].
  exists cm. unfold dbs_at. by rewrite Hd.
Qed.

Lemma set_db_key st name cm bpm : is_Some (dbs_ (exec_ (set_db st name cm bpm)) !! name).
Proof. cbn. rewrite lookup_insert_eq. eauto. Qed.

Lemma set_db_ok st name cm bpm : engine_ok st -> is_Some (dbs_ (exec_ st) !! name) -> engine_ok (set_db st name cm bpm).
Proof.
  intros [Ht Ho Hc] Hn. split; cbn [set_db exec_ dbs_ pools_ dbs_txt_ current_db_].
  - rewrite Ht. symmetry. by apply db_names_insert_old.
  - intros m d. destruct (decide (m = name)) as [->|Hne].
    + rewrite !lookup_insert_eq. intros [= <-]. eauto.
    + rewrite !lookup_insert_ne by congruence. apply Ho.
  - destruct Hc as [->|[d Hd]]; [by left|right]. destruct (decide (current_db_ (exec_ st) = name)) as [->|Hne].
    + by rewrite lookup_insert_eq.
    + rewrite lookup_insert_ne by congruence. eauto.
Qed.

(** The prefix of the statements on the current database: with the
    invariant, the state they return is the state they were given or
    that state with the current database's catalog replaced. *)
Ltac current_db st Hok Hrun :=
  let Hne := fresh "Hne" in let cm := fresh "cm" in let Hat := fresh "Hat" in
  destruct (String.eqb_spec (current_db_ (exec_ st)) ""%string) as [_|Hne]; [injection Hrun; intros; subst; exact Hok|];
  destruct (dbs_at_ok st Hok Hne) as [cm Hat]; rewrite Hat, set_exec_self in Hrun; run_in Hrun;
  try exact Hok; repeat (apply set_db_ok; [| first [apply set_db_key | exact (cur_open st Hok Hne)]]); exact Hok.

Lemma ExecuteShowTables_ok st ast ctx st' ctx' e :
  engine_ok st -> ExecuteShowTables st ast ctx = Some (st', ctx', e) -> engine_ok st'.
Proof. intros Hok Hrun. unfold ExecuteShowTables in Hrun. current_db st Hok Hrun. Qed.

Lemma ExecuteCreateTable_ok st s ast ctx st' s' ctx' e :
  engine_ok st -> ExecuteCreateTable st s ast ctx = Some (st', s', ctx', e) -> engine_ok st'.
Proof. intros Hok Hrun. unfold ExecuteCreateTable in Hrun. current_db st Hok Hrun. Qed.

Lemma ExecuteDropTable_ok st ast ctx st' ctx' e :
  engine_ok st -> ExecuteDropTable st ast ctx = Some (st', ctx', e) -> engine_ok st'.
Proof. intros Hok Hrun. unfold ExecuteDropTable in Hrun. current_db st Hok Hrun. Qed.

Lemma ExecuteShowIndexes_ok st ast ctx st' ctx' e :
  engine_ok st -> ExecuteShowIndexes st ast ctx = Some (st', ctx', e) -> engine_ok st'.
Proof. intros Hok Hrun. unfold ExecuteShowIndexes in Hrun. current_db st Hok Hrun. Qed.

Lemma ExecuteCreateIndex_ok st s ast ctx st' s' ctx' e :
  engine_ok st -> ExecuteCreateIndex st s ast ctx = Some (st', s', ctx', e) -> engine_ok st'.
Proof. intros Hok Hrun. unfold ExecuteCreateIndex in Hrun. current_db st Hok Hrun. Qed.

Lemma ExecuteDropIndex_ok st s ast ctx st' s' ctx' e :
  engine_ok st -> ExecuteDropIndex st s ast ctx = Some (st', s', ctx', e) -> engine_ok st'.
Proof. intros Hok Hrun. unfold ExecuteDropIndex in Hrun. current_db st Hok Hrun. Qed.

End Tables.


End ExecuteDB.
