(* ===== verification/Execute.v ===== *)
(** * [ExecuteEngine::Execute]: the dispatcher (executor/execute_engine.cpp)

    [Execute] starts the clock, runs the statement the root node names,
    prints the result line ([PrintResult]) and the elapsed time
    ([StopRunning]), QUIT excepted.  EXECFILE runs, with a fresh context
    that prints nothing, every statement of a file until the file ends
    or one of them quits; the statements of a file are given by the
    parameter [read_file] (the file system and the parser, not
    modelled), and the elapsed time [StopRunning] prints by
    [time_text].  Since a file may name itself, [Execute] takes fuel:
    one unit per level of EXECFILE nesting.

    The theorems show that every run of [Execute] keeps the engine
    invariant [engine_ok] of [ExecuteDB] ([Execute_engine_ok], by
    induction on the fuel and the statements of a file), and, on the
    whole engine, that a table created without a primary key takes one
    row only. *)

From Stdlib Require Import ZArith Lia List String Ascii.
From stdpp Require Import base list gmap strings.
From S2P Require Import Spec2Rocq Records RowFormat Catalog Replacer LRUReplacer BufferPool CatalogManager ExecuteContext Executor ExecuteSelect ExecuteDML ExecuteUpdate ExecuteDB.
Import ListNotations.
Open Scope Z_scope.

Module Execute.
Import Records RowFormat Catalog BufferPool CatalogManager ExecuteContext Executor ExecuteSelect ExecuteDML
  ExecuteUpdate ExecuteDB.

Section Execute.
Context {R : Type} `{Replacer R} {Field Store : Type} `{EqDecision Field} `{FieldCodec Field} `{FieldOps Field}
  `{Storage Field Store}.
Variables CATALOG_METADATA_MAGIC_NUM TABLE_METADATA_MAGIC_NUM INDEX_METADATA_MAGIC_NUM : Z.
Variables SCHEMA_MAGIC_NUM COLUMN_MAGIC_NUM : Z.
Variable heap_after : list Z.
Variable open_pool : string -> bool -> BufferPoolManager R.
(** Whether [dbs.txt] opens for writing. *)
Variable dbs_txt_opens : bool.
(** The statements of a file, as the parser gives them ([None] for one
    it rejects); [None] when the file does not open. *)
Variable read_file : string -> option (list (option SyntaxNode)).
(** The elapsed time [StopRunning] prints. *)
Variable time_text : list ascii.
Implicit Types (st : DBState R) (s : Store).

(** [StopRunning(printTime)]. *)
Definition StopRunning (ctx : ExecuteContext) (printTime : bool) : ExecuteContext :=
  StopTimer (if running ctx && printTime && negb (disablePrint_ ctx)
             then emit ctx (chars "Execute time: " ++ time_text ++ chars " ms" ++ ["010"%char; "010"%char])
             else ctx).

(** [ExecuteQuit]. *)
Definition ExecuteQuit (ctx : ExecuteContext) : ExecuteContext :=
  mkExecuteContext true (running ctx) (numAffectedRows ctx) (numSelectedRows ctx) (header_ ctx)
    (columnLengths_ ctx) (err_ ctx) (disablePrint_ ctx) (out_ ctx).

(** The [ExecuteContext context; context.disablePrint_ = true;] of
    EXECFILE: the fields the constructor leaves uninitialised are set
    by [StartRunning] and by the statements before they are read. *)
Definition fresh_context : ExecuteContext := mkExecuteContext false false 0 0 [] [] DB_SUCCESS true [].

(** A statement's result: the state, the storage, the context, the
    status and whether the result line counts affected rows. *)
Definition result := (DBState R * Store * ExecuteContext * dberr_t * bool)%type.

Definition on_db (r : option (DBState R * ExecuteContext * dberr_t)) s (affected : bool) : option result :=
  '(st', ctx', e) ← r; Some (st', s, ctx', e, affected).

Definition on_engine st (r : option (ExecuteEngine * Store * ExecuteContext * dberr_t)) (affected : bool) : option result :=
  '(eng, s', ctx', e) ← r; Some (set_exec st eng, s', ctx', e, affected).

(** The loop of [ExecuteExecfile] (lines 1155-1207) over the statements
    of the file, each run by [exec] with a fresh context; what it prints
    despite [disablePrint_] goes to stdout. *)
Fixpoint run_file (exec : DBState R -> Store -> option SyntaxNode -> ExecuteContext ->
                          option (DBState R * Store * ExecuteContext * dberr_t))
  (cmds : list (option SyntaxNode)) st s (ctx : ExecuteContext) : option (DBState R * Store * ExecuteContext) :=
  match cmds with
  | [] => Some (st, s, ctx)
  | c :: cs =>
      '(st', s', c_ctx, _) ← exec st s c fresh_context;
      let ctx := emit ctx (out_ c_ctx) in
      if flag_quit_ c_ctx then Some (st', s', emit ctx (chars "bye!" ++ ["010"%char]))
      else run_file exec cs st' s' ctx
  end.

Fixpoint Execute (fuel : nat) st s (ast : option SyntaxNode) (ctx : ExecuteContext)
  : option (DBState R * Store * ExecuteContext * dberr_t) :=
  match fuel with
  | O => None
  | S fuel' =>
  match ast with
  | None => Some (st, s, ctx, DB_FAILED)
  | Some ast =>
      let ctx := StartRunning ctx in
      '(st1, s1, ctx1, ret, affected) ←
        match type_ ast with
        | kNodeCreateDB => on_db (ExecuteCreateDatabase CATALOG_METADATA_MAGIC_NUM TABLE_METADATA_MAGIC_NUM
                             INDEX_METADATA_MAGIC_NUM SCHEMA_MAGIC_NUM COLUMN_MAGIC_NUM heap_after open_pool dbs_txt_opens st ast ctx) s true
        | kNodeDropDB => on_db (ExecuteDropDatabase dbs_txt_opens st ast ctx) s true
        | kNodeShowDB => on_db (ExecuteShowDatabases st ast ctx) s false
        | kNodeUseDB => on_db (ExecuteUseDatabase st ast ctx) s true
        | kNodeShowTables => on_db (ExecuteShowTables st ast ctx) s false
        | kNodeCreateTable =>
            '(st', s', ctx', e) ← ExecuteCreateTable TABLE_METADATA_MAGIC_NUM INDEX_METADATA_MAGIC_NUM SCHEMA_MAGIC_NUM
                                    COLUMN_MAGIC_NUM st s ast ctx;
            Some (st', s', ctx', e, true)
        | kNodeDropTable => on_db (ExecuteDropTable st ast ctx) s true
        | kNodeShowIndexes => on_db (ExecuteShowIndexes st ast ctx) s false
        | kNodeCreateIndex =>
            '(st', s', ctx', e) ← ExecuteCreateIndex INDEX_METADATA_MAGIC_NUM st s ast ctx; Some (st', s', ctx', e, true)
        | kNodeDropIndex => '(st', s', ctx', e) ← ExecuteDropIndex st s ast ctx; Some (st', s', ctx', e, true)
        | kNodeSelect =>
            '(eng, ctx', e) ← @ExecuteSelect Field _ _ (storage_view s) (exec_ st) ast ctx;
            Some (set_exec st eng, s, ctx', e, false)
        | kNodeInsert => on_engine st (ExecuteInsert (exec_ st) s ast ctx) true
        | kNodeDelete => on_engine st (ExecuteDelete (exec_ st) s ast ctx) true
        | kNodeUpdate => on_engine st (ExecuteUpdate (exec_ st) s ast ctx) true
        | kNodeTrxBegin | kNodeTrxCommit | kNodeTrxRollback => Some (st, s, ctx, DB_FAILED, true)
        | kNodeExecFile =>
            (* [ExecuteExecfile] (lines 1137-1212) *)
            file_node ← child_ ast;
            match read_file (val_ file_node) with
            | None => Some (st, s, ctx, DB_FAILED, false)
            | Some cmds =>
                '(st', s', ctx') ← run_file (Execute fuel') cmds st s ctx;
                Some (st', s', ctx', DB_SUCCESS, false)
            end
        | kNodeQuit => Some (st, s, ExecuteQuit ctx, DB_SUCCESS, true)
        | _ => Some (st, s, ctx, DB_FAILED, false)
        end;
      let quit := bool_decide (type_ ast = kNodeQuit) in
      let ctx2 := if quit then ctx1 else PrintResult ctx1 ret affected in
      Some (st1, s1, StopRunning ctx2 (negb quit), ret)
  end
  end.

(** ** The engine invariant across [Execute] *)

(** The statements on rows return the engine [dbs_[current_db_]] left,
    which the invariant keeps as it was. *)
Ltac engine_kept st Hok Hrun :=
  let Hne := fresh "Hne" in let cm := fresh "cm" in let Hat := fresh "Hat" in
  destruct (String.eqb_spec (current_db_ (exec_ st)) ""%string) as [_|Hne];
  [injection Hrun; intros; subst; reflexivity|];
  destruct (dbs_at_ok st Hok Hne) as [cm Hat]; rewrite Hat in Hrun; run_in Hrun; reflexivity.

Lemma ExecuteSelect_engine st s ast ctx eng ctx' e :
  engine_ok st -> @ExecuteSelect Field _ _ (storage_view s) (exec_ st) ast ctx = Some (eng, ctx', e) -> eng = exec_ st.
Proof. intros Hok Hrun. unfold ExecuteSelect in Hrun. engine_kept st Hok Hrun. Qed.

Lemma ExecuteInsert_engine st s ast ctx eng s' ctx' e :
  engine_ok st -> ExecuteInsert (exec_ st) s ast ctx = Some (eng, s', ctx', e) -> eng = exec_ st.
Proof. intros Hok Hrun. unfold ExecuteInsert in Hrun. engine_kept st Hok Hrun. Qed.

Lemma ExecuteDelete_engine st s ast ctx eng s' ctx' e :
  engine_ok st -> ExecuteDelete (exec_ st) s ast ctx = Some (eng, s', ctx', e) -> eng = exec_ st.
Proof. intros Hok Hrun. unfold ExecuteDelete in Hrun. engine_kept st Hok Hrun. Qed.

Lemma ExecuteUpdate_engine st s ast ctx eng s' ctx' e :
  engine_ok st -> ExecuteUpdate (exec_ st) s ast ctx = Some (eng, s', ctx', e) -> eng = exec_ st.
Proof. intros Hok Hrun. unfold ExecuteUpdate in Hrun. engine_kept st Hok Hrun. Qed.

Lemma run_file_ok (exec : DBState R -> Store -> option SyntaxNode -> ExecuteContext ->
                          option (DBState R * Store * ExecuteContext * dberr_t)) cmds :
  (forall st s c ctx st' s' ctx' e, engine_ok st -> exec st s c ctx = Some (st', s', ctx', e) -> engine_ok st') ->
  forall st s ctx st' s' ctx', engine_ok st -> run_file exec cmds st s ctx = Some (st', s', ctx') -> engine_ok st'.
Proof.
  intros Hexec. induction cmds as [|c cs IH]; intros st s ctx st' s' ctx' Hok Hrun; cbn [run_file] in Hrun.
  - by injection Hrun; intros; subst.
  - run_in Hrun; eauto.
Qed.

(** C35: Every run of [Execute] keeps the engine invariant: [dbs.txt]
    lists exactly the open databases, every entry of [dbs_] is an open
    database with its buffer pool (so no statement meets a [nullptr]
    there), and [current_db_] is empty or names an open database. *)
Theorem Execute_engine_ok fuel : forall st s ast ctx st' s' ctx' e,
  engine_ok st -> Execute fuel st s ast ctx = Some (st', s', ctx', e) -> engine_ok st'.
Proof.
  induction fuel as [|fuel IH]; intros st s ast ctx st' s' ctx' e Hok Hrun; [discriminate|].
  destruct ast as [ast|]; cbn [Execute] in Hrun; [|by injection Hrun; intros; subst].
  destruct (type_ ast); run_in Hrun; try exact Hok;
    try match goal with E : _ = Some (_, _, _, _, _) |- _ => unfold on_db, on_engine in E; run_in E end;
    try exact Hok;
    first
    [ eapply ExecuteCreateDatabase_ok; eassumption | eapply ExecuteDropDatabase_ok; eassumption
    | eapply ExecuteShowDatabases_ok; eassumption | eapply ExecuteUseDatabase_ok; eassumption
    | eapply ExecuteShowTables_ok; eassumption | eapply ExecuteCreateTable_ok; eassumption
    | eapply ExecuteDropTable_ok; eassumption | eapply ExecuteShowIndexes_ok; eassumption
    | eapply ExecuteCreateIndex_ok; eassumption | eapply ExecuteDropIndex_ok; eassumption
    | match goal with
      | E : ExecuteSelect _ _ _ = Some _ |- _ => rewrite (ExecuteSelect_engine _ _ _ _ _ _ _ Hok E), set_exec_self
      | E : ExecuteInsert _ _ _ _ = Some _ |- _ => rewrite (ExecuteInsert_engine _ _ _ _ _ _ _ _ Hok E), set_exec_self
      | E : ExecuteDelete _ _ _ _ = Some _ |- _ => rewrite (ExecuteDelete_engine _ _ _ _ _ _ _ _ Hok E), set_exec_self
      | E : ExecuteUpdate _ _ _ _ = Some _ |- _ => rewrite (ExecuteUpdate_engine _ _ _ _ _ _ _ _ Hok E), set_exec_self
      end; exact Hok
    | match goal with E : run_file _ _ _ _ _ = Some _ |- _ => exact (run_file_ok _ _ IH _ _ _ _ _ _ Hok E) end ].
Qed.

End Execute.


(** ** Witnesses *)

Section Witnesses.
#[local] Existing Instances LRUReplacer.lru_replacer.

(** A new database file opens on a buffer pool with its first two pages
    allocated, an existing one on the pool holding an empty catalog; no
    file is read by EXECFILE. *)
Definition wopen (name : string) (init : bool) : BufferPoolManager LRUReplacer.LRUReplacer :=
  if init then wpool else wbpm0.
Definition wread (file : string) : option (list (option SyntaxNode)) := None.
Definition wst0 : DBState LRUReplacer.LRUReplacer := mkDBState (mkExecuteEngine ∅ "") ∅ [].
Definition wstore0 : RefStore sfield := mkRefStore ∅ ∅ 0.

Definition wexec (st : DBState LRUReplacer.LRUReplacer) (s : RefStore sfield) (ast : SyntaxNode) (ctx : ExecuteContext) :=
  Execute wcatalog_magic wtable_magic windex_magic wschema_magic wcolumn_magic [0] wopen true wread [] 1 st s (Some ast) ctx.

(** A script of statements, each run by [Execute]: the final state and
    the statuses. *)
Fixpoint wscript (st : DBState LRUReplacer.LRUReplacer) (s : RefStore sfield) (cmds : list SyntaxNode) (ctx : ExecuteContext)
  : option (DBState LRUReplacer.LRUReplacer * RefStore sfield * ExecuteContext * list dberr_t) :=
  match cmds with
  | [] => Some (st, s, ctx, [])
  | c :: cs =>
      '(st1, s1, ctx1, e) ← wexec st s c ctx;
      '(st2, s2, ctx2, es) ← wscript st1 s1 cs ctx1;
      Some (st2, s2, ctx2, e :: es)
  end.

Definition wident (n : string) (nx : option SyntaxNode) : SyntaxNode := mkSyntaxNode kNodeIdentifier n None nx.
Definition wcreatedb (n : string) : SyntaxNode := mkSyntaxNode kNodeCreateDB "" (Some (wident n None)) None.
Definition wusedb (n : string) : SyntaxNode := mkSyntaxNode kNodeUseDB "" (Some (wident n None)) None.
(** [create table t(a int)]. *)
Definition wcreatetable : SyntaxNode :=
  mkSyntaxNode kNodeCreateTable "" (Some (wident "t" (Some (mkSyntaxNode kNodeColumnDefinitionList ""
    (Some (mkSyntaxNode kNodeColumnDefinition "" (Some (wident "a" (Some (mkSyntaxNode kNodeColumnType "int" None None))))
             None)) None)))) None.
(** [insert into t values (v)]. *)
Definition winsert1 (v : string) : SyntaxNode :=
  mkSyntaxNode kNodeInsert "" (Some (wident "t" (Some (mkSyntaxNode kNodeColumnValues "" (Some (wnum v)) None)))) None.

Definition wst1 : DBState LRUReplacer.LRUReplacer :=
  match wexec wst0 wstore0 (wcreatedb "db") wctx with Some (st, _, _, _) => st | None => wst0 end.

(** [create database db] on an engine without databases. *)
Lemma Execute_engine_ok_witness : engine_ok wst1.
Proof.
  destruct (wexec wst0 wstore0 (wcreatedb "db") wctx) as [[[[st s] c] e]|] eqn:E.
  - unfold wst1. rewrite E. refine (Execute_engine_ok _ _ _ _ _ _ _ _ _ _ 1 wst0 wstore0 _ wctx st s c e _ E).
    split; [done | intros n d Hd; cbn in Hd; by rewrite lookup_empty in Hd | by left].
  - vm_compute in E. discriminate E.
Defined.


(** The run [ExecuteInsert_empty_key_rejects] describes: CREATE TABLE
    always creates the index ["_t_primkey"] on the
    primary keys, an index with an empty key when the table has none;
    every row then has the same (empty) key, so the unique index rejects
    the second row.  On a new database, [create table t(a int)] and
    [insert into t values (1)] succeed, but [insert into t values (2)]
    fails and [t] keeps the one row. *)
Example ExecuteCreateTable_no_primary_key_run :
  match wscript wst0 wstore0 [wcreatedb "db"; wusedb "db"; wcreatetable; winsert1 "1"; winsert1 "2"] wctx with
  | Some (st, s, _, es) =>
      es = [DB_SUCCESS; DB_SUCCESS; DB_SUCCESS; DB_SUCCESS; DB_FAILED] /\
      (fields_ <$> rs_rows s 2) = [[SInt 1]]
  | None => False
  end.
Proof. vm_compute. split; reflexivity. Qed.


(** An engine with the one database [db], as [dbs.txt] lists it. *)
Definition wstr : DBState LRUReplacer.LRUReplacer :=
  mkDBState (mkExecuteEngine {[ "db"%string := Some wcm0 ]} "") {[ "db"%string := wbpm0 ]} ["db"%string].

Lemma wstr_ok : engine_ok wstr.
Proof.
  split; cbn [wstr exec_ dbs_ pools_ dbs_txt_ current_db_]; [vm_compute; reflexivity | | by left].
  intros n d [<- <-]%lookup_singleton_Some. split; [eauto|]. rewrite lookup_singleton_eq. eauto.
Qed.

Lemma ExecuteEngine_restart_witness :
  match ExecuteEngine_new wcatalog_magic wtable_magic windex_magic wschema_magic wcolumn_magic [0] wopen (dbs_txt_ wstr) with
  | Some st' => (forall n, is_Some (dbs_ (exec_ st') !! n) <-> is_Some (dbs_ (exec_ wstr) !! n)) /\
                current_db_ (exec_ st') = ""%string /\ dbs_txt_ st' = dbs_txt_ wstr /\ engine_ok st'
  | None => False
  end.
Proof.
  destruct (ExecuteEngine_new wcatalog_magic wtable_magic windex_magic wschema_magic wcolumn_magic [0] wopen (dbs_txt_ wstr))
    as [st'|] eqn:E.
  - exact (ExecuteEngine_restart wcatalog_magic wtable_magic windex_magic wschema_magic wcolumn_magic [0] wopen wstr st'
             wstr_ok E).
  - vm_compute in E. discriminate E.
Defined.

End Witnesses.

End Execute.
